(** * Frames: navigation bookkeeping, network idle and the retry engine

    A shallow embedding of
    [packages/playwright-core/src/server/frames.ts]:
    the retry loop ([Frame.retryWithProgressAndTimeouts]), the assertion
    entry point ([Frame.expect]), navigation waiting ([Frame.gotoImpl]) and
    the frame tree owned by [FrameManager].

    Asynchronous code is embedded over a logical clock (milliseconds, [Z]):
    an awaited operation is given by the instant at which it settles, a
    scope by the instant at which it closes. *)

From Stdlib Require Import ZArith Lia Bool.
From stdpp Require Import base option list gmap strings.

(** ** Errors *)

Module Errors.

(** Modelled from the spec: the error classes and their predicates live in
    [errors.ts], [progress.ts], [javascript.ts], [protocolError.ts],
    [dom.ts] and [selectorParser.ts], none of which is part of the
    sources at hand.  The spec's taxonomy is "NavigationAborted (carries
    the offending documentId and message); TimeoutError (distinct kind so
    callers can special-case it); NonRetriableError class (evaluation
    faults, invalid-selector syntax, closed session, detached frame, scope
    closure)".  Each predicate is an [instanceof] test on the class; being
    an abort (scope closure) error is a mark carried by the error object,
    independent of its class. *)
Inductive ErrorClass :=
| TimeoutError
| JavaScriptErrorInEvaluate
| SessionClosedError
| NonRecoverableDOMError
| InvalidSelectorError
| NavigationAbortedError (documentId : option string)
| PlainError.

Record Error := mkError {
  errClass : ErrorClass;
  errAbort : bool;
  errMessage : string;
}.

Definition isAbortError (e : Error) : bool := errAbort e.

Definition isTimeoutError (e : Error) : bool :=
  match errClass e with TimeoutError => true | _ => false end.

Definition isJavaScriptErrorInEvaluate (e : Error) : bool :=
  match errClass e with JavaScriptErrorInEvaluate => true | _ => false end.

Definition isSessionClosedError (e : Error) : bool :=
  match errClass e with SessionClosedError => true | _ => false end.

Definition isNonRecoverableDOMError (e : Error) : bool :=
  match errClass e with NonRecoverableDOMError => true | _ => false end.

Definition isInvalidSelectorError (e : Error) : bool :=
  match errClass e with InvalidSelectorError => true | _ => false end.

(** [new Error(message)] *)
Definition plainError (message : string) : Error :=
  mkError PlainError false message.

End Errors.

(** ** Strings *)

Module Strings.

Definition toLowerAscii (c : Ascii.ascii) : Ascii.ascii :=
  let n := Ascii.nat_of_ascii c in
  if (65 <=? n)%nat && (n <=? 90)%nat then Ascii.ascii_of_nat (n + 32) else c.

(** the letters [A] to [Z] lowered, the rest as it is *)
Fixpoint lowerAscii (s : string) : string :=
  match s with
  | EmptyString => EmptyString
  | String c s' => String (toLowerAscii c) (lowerAscii s')
  end.

Definition toUpperAscii (c : Ascii.ascii) : Ascii.ascii :=
  let n := Ascii.nat_of_ascii c in
  if (97 <=? n)%nat && (n <=? 122)%nat then Ascii.ascii_of_nat (n - 32) else c.

(** the letters [a] to [z] raised, the rest as it is *)
Fixpoint upperAscii (s : string) : string :=
  match s with
  | EmptyString => EmptyString
  | String c s' => String (toUpperAscii c) (upperAscii s')
  end.

(** a string of ASCII characters only *)
Fixpoint isAscii (s : string) : bool :=
  match s with
  | EmptyString => true
  | String c s' => (Ascii.nat_of_ascii c <? 128)%nat && isAscii s'
  end.

(** [String.prototype.toLowerCase] and [String.prototype.toUpperCase] are
    the runtime's.  They follow the case mappings of Unicode: the Kelvin
    sign U+212A, for one, lowers to [k], and the sharp s U+00DF raises to
    [SS].  What is used of them is that they are functions of the string,
    and that on a string of ASCII characters they change the letters and
    leave the rest. *)
Class Casing := mkCasing {
  toLowerCase : string -> string;
  toUpperCase : string -> string;
  toLowerCase_ascii : forall s, isAscii s = true -> toLowerCase s = lowerAscii s;
  toUpperCase_ascii : forall s, isAscii s = true -> toUpperCase s = upperAscii s;
}.

(** [toLowerCase] and [toUpperCase] of the literals of ASCII characters
    that the goal holds *)
Ltac cased :=
  repeat match goal with
         | |- context [toLowerCase ?s] =>
             let v := eval cbv in (lowerAscii s) in
             rewrite (toLowerCase_ascii s eq_refl : toLowerCase s = v)
         | |- context [toUpperCase ?s] =>
             let v := eval cbv in (upperAscii s) in
             rewrite (toUpperCase_ascii s eq_refl : toUpperCase s = v)
         end.

Ltac cased_in H :=
  repeat match type of H with
         | context [toLowerCase ?s] =>
             let v := eval cbv in (lowerAscii s) in
             rewrite (toLowerCase_ascii s eq_refl : toLowerCase s = v) in H
         | context [toUpperCase ?s] =>
             let v := eval cbv in (upperAscii s) in
             rewrite (toUpperCase_ascii s eq_refl : toUpperCase s = v) in H
         end.

(** the two as they are on strings of ASCII characters, for the runs
    whose strings are all such *)
Definition asciiCasing : Casing :=
  mkCasing lowerAscii upperAscii (fun _ _ => eq_refl) (fun _ _ => eq_refl).

End Strings.

(** ** Scopes and the logical clock *)

Module Scopes.
Import Errors.

(** A settled promise: the instant at which it settled and how. *)
Inductive Settled (A : Type) :=
| Resolved (t : Z) (a : A)
| Rejected (t : Z) (e : Error).
Arguments Resolved {A} t a.
Arguments Rejected {A} t e.

(** The scopes an operation of a frame can race against: the progress of
    the call (aborted by its timeout or by its caller), the page's
    [openScope] and the frame's [_detachedScope].  Each is either never
    closed, or closed at an instant with a reason. *)
Record Scopes := mkScopes {
  progressAbort : option (Z * Error);
  openScope : option (Z * Error);
  detachedScope : option (Z * Error);
}.

Definition earlier (a b : option (Z * Error)) : option (Z * Error) :=
  match a, b with
  | Some (ta, _), Some (tb, _) => if (tb <? ta)%Z then b else a
  | Some _, None => a
  | None, _ => b
  end.

(** The first of the three scopes to close. *)
Definition firstClosure (sc : Scopes) : option (Z * Error) :=
  earlier (progressAbort sc) (earlier (openScope sc) (detachedScope sc)).

(** Modelled from the spec: [Progress.race] and
    [LongStandingScope.raceMultiple] are not part of the sources at hand.
    "[race(operation, scopes...)] returns whichever settles first: the
    operation's own result/error, or the first scope's close reason";
    "[close(reason)] ... immediately settles every operation currently
    racing against this scope with that reason".  [raceAgainst closure
    start finish] races an operation started at [start] that would settle
    at [finish] with [result]. *)
Definition raceAgainst {A} (closure : option (Z * Error))
    (start finish : Z) (result : A + Error) : Settled A :=
  match closure with
  | Some (c, reason) =>
      if (c <=? finish)%Z then Rejected (Z.max start c) reason
      else match result with
           | inl a => Resolved finish a
           | inr e => Rejected finish e
           end
  | None =>
      match result with
      | inl a => Resolved finish a
      | inr e => Rejected finish e
      end
  end.

(** [this._detachedScope.isClosed()] at instant [t]. *)
Definition isClosedAt (closure : option (Z * Error)) (t : Z) : bool :=
  match closure with
  | Some (c, _) => (c <=? t)%Z
  | None => false
  end.

End Scopes.

(** ** The retry engine: [Frame.retryWithProgressAndTimeouts] *)

Module Retry.
Import Errors Scopes.

(** What one invocation of [action(continuePolling)] does. *)
Inductive StepOutcome (R : Type) :=
| StepContinue                (* returned the [continuePolling] symbol *)
| StepReturn (r : R)
| StepThrow (e : Error).
Arguments StepContinue {R}.
Arguments StepReturn {R} r.
Arguments StepThrow {R} e.

(** The step is awaited: [stepEnd] is the instant at which its promise
    settles, [stepState] the variables it captured, as it leaves them. *)
Record StepRun (R St : Type) := mkStepRun {
  stepEnd : Z;
  stepOutcome : StepOutcome R;
  stepState : St;
}.
Arguments mkStepRun {R St} _ _ _.
Arguments stepEnd {R St} _.
Arguments stepOutcome {R St} _.
Arguments stepState {R St} _.

(** How the loop stands after a number of iterations. *)
Inductive Outcome (R : Type) :=
| Returned (t : Z) (r : R)
| Threw (t : Z) (e : Error)
| Polling (timeoutIndex : nat) (t : Z).   (* still in the [while (true)] *)
Arguments Returned {R} t r.
Arguments Threw {R} t e.
Arguments Polling {R} timeoutIndex t.

(** [Frame.isNonRetriableError]; [detached] is [this.isDetached()]. *)
Definition isNonRetriableError (detached : bool) (e : Error) : bool :=
  if isAbortError e then true
  else if isJavaScriptErrorInEvaluate e || isSessionClosedError e then true
  else if isNonRecoverableDOMError e || isInvalidSelectorError e then true
  else if detached then true
  else false.

Section Loop.
Context {R St : Type}.
Variable sc : Scopes.
(** the [timeouts] argument, as the caller passes it *)
Variable timeouts : list Z.
(** the step: attempt number, instant of the call, captured state *)
Variable action : nat -> Z -> St -> StepRun R St.

(** [timeouts[Math.min(timeoutIndex++, timeouts.length - 1)]] after
    [timeouts = [0, ...timeouts]] *)
Definition timeoutAt (timeoutIndex : nat) : Z :=
  let timeouts := 0%Z :: timeouts in
  nth (Nat.min timeoutIndex (length timeouts - 1)) timeouts 0%Z.

(** The backoff wait: [new Promise(f => setTimeout(f, timeout))] raced
    against the page's open scope, the frame's detached scope and the
    progress.  A negative delay fires at once. *)
Definition backoff (now timeout : Z) : Settled unit :=
  raceAgainst (firstClosure sc) now (now + Z.max 0 timeout) (inl tt).

(** The [try { await action(...) } catch] part of one iteration, then
    the rest of the loop [k]. *)
Definition attempt (k : nat -> Z -> St -> Outcome R * St)
    (timeoutIndex : nat) (now : Z) (st : St) : Outcome R * St :=
  let run := action timeoutIndex now st in
  match stepOutcome run with
  | StepContinue => k (S timeoutIndex) (stepEnd run) (stepState run)
  | StepReturn r => (Returned (stepEnd run) r, stepState run)
  | StepThrow e =>
      if isNonRetriableError (isClosedAt (detachedScope sc) (stepEnd run)) e
      then (Threw (stepEnd run) e, stepState run)
      else k (S timeoutIndex) (stepEnd run) (stepState run)
  end.

(** The head of one iteration: [if (timeout) await progress.race(...)];
    settles when the attempt may start. *)
Definition waited (timeoutIndex : nat) (now : Z) : Settled unit :=
  let timeout := timeoutAt timeoutIndex in
  if (timeout =? 0)%Z then Resolved now tt else backoff now timeout.

(** [fuel] bounds the number of iterations of [while (true)]. *)
Fixpoint retryLoop (fuel : nat) (timeoutIndex : nat) (now : Z) (st : St)
    : Outcome R * St :=
  match fuel with
  | O => (Polling timeoutIndex now, st)
  | S fuel' =>
      match waited timeoutIndex now with
      | Rejected t e => (Threw t e, st)
      | Resolved t _ => attempt (retryLoop fuel') timeoutIndex t st
      end
  end.

Definition retryWithProgressAndTimeouts (fuel : nat) (now : Z) (st : St)
    : Outcome R * St :=
  retryLoop fuel 0 now st.

End Loop.

End Retry.

(** ** The assertion entry point: [Frame.expect] *)

Module Expect.
Import Errors Scopes Retry.

(** A value received from the page ([received?: any]). *)
Inductive Value :=
| VString (s : string)
| VNumber (z : Z)
| VBool (b : bool)
| VArray (items : list string).

(** [FrameExpectParams], as far as [expect] reads it. *)
Record FrameExpectParams := mkParams {
  isNot : bool;
  expression : string;
}.

(** [ExpectResult]; the call log attached to a failure is left out. *)
Record ExpectResult := mkResult {
  matches : bool;
  received : option Value;
  timedOut : option bool;
}.

(** [lastIntermediateResult: { received?: any, isSet: boolean }] *)
Record LastIntermediate := mkLast {
  lastReceived : option Value;
  isSet : bool;
}.

(** What [injected.expect] answers in the page, and when: the chain of
    awaits of [_expectInternal] (resolve the selector, get the context,
    evaluate) settles at [evalEnd]. *)
Inductive EvalResult :=
| EvalOk (matches : bool) (received : option Value) (missingReceived : bool)
| EvalThrew (e : Error).

Record EvalRun := mkEvalRun {
  evalEnd : Z;
  evalResult : EvalResult;
}.

(** [this._page.performActionPreChecks(progress)] ([page.ts]): when it
    settles and whether it threw. *)
Record PreRun := mkPreRun {
  preEnd : Z;
  preThrew : option Error;
}.

Section Expect.
Variable sc : Scopes.
Variable options : FrameExpectParams.

(** [Frame._expectInternal]: with [noAbort] the awaits are not raced,
    otherwise each goes through [progress.race]. *)
Definition _expectInternal (last : LastIntermediate) (noAbort : bool)
    (start : Z) (run : EvalRun)
    : Settled (bool * option Value) * LastIntermediate :=
  let outcome :=
    match evalResult run with
    | EvalOk m r miss => inl (m, r, miss)
    | EvalThrew e => inr e
    end in
  let raced :=
    if noAbort then raceAgainst None start (evalEnd run) outcome
    else raceAgainst (progressAbort sc) start (evalEnd run) outcome in
  match raced with
  | Rejected t e => (Rejected t e, last)
  | Resolved t (m, r, miss) =>
      let last' :=
        if Bool.eqb m (isNot options) then
          mkLast (if miss then Some (VString "<element(s) not found>") else r)
                 true
        else last in
      (Resolved t (m, r), last')
  end.

(** the two collaborators of the retried step, by attempt and instant *)
Variable preChecks : nat -> Z -> PreRun.
Variable evaluate : nat -> Z -> EvalRun.

(** The step handed to [retryWithProgressAndTimeouts] in step 3. *)
Definition expectStep (attemptIndex : nat) (now : Z) (last : LastIntermediate)
    : StepRun ExpectResult LastIntermediate :=
  let pre := preChecks attemptIndex now in
  match preThrew pre with
  | Some e => mkStepRun (preEnd pre) (StepThrow e) last
  | None =>
      match _expectInternal last false (preEnd pre)
                            (evaluate attemptIndex (preEnd pre)) with
      | (Rejected t e, last') => mkStepRun t (StepThrow e) last'
      | (Resolved t (m, r), last') =>
          if Bool.eqb m (isNot options)
          then mkStepRun t StepContinue last'
          else mkStepRun t (StepReturn (mkResult m r None)) last'
      end
  end.

(** The body of the outer [try] of [Frame.expect]; [pre] is the run of
    the pre-checks of step 1, [oneShot] the evaluation of step 2. *)
Definition expectBody (fuel : nat) (pre : PreRun) (oneShot : EvalRun)
    : Outcome ExpectResult * LastIntermediate :=
  let last := mkLast None false in
  (* Step 1 *)
  match preThrew pre with
  | Some e => (Threw (preEnd pre) e, last)
  | None =>
      (* Step 2 *)
      let retry t last :=
        retryWithProgressAndTimeouts sc [100; 250; 500; 1000]%Z expectStep
                                     fuel t last in
      match _expectInternal last true (preEnd pre) oneShot with
      | (Resolved t (m, r), last') =>
          if negb (Bool.eqb m (isNot options))
          then (Returned t (mkResult m r None), last')
          else retry t last'
      | (Rejected t e, last') =>
          if isNonRetriableError (isClosedAt (detachedScope sc) t) e
          then (Threw t e, last')
          else retry t last'
      end
  end.

Inductive ExpectOutcome :=
| ExpectReturned (t : Z) (r : ExpectResult)
| ExpectRaised (t : Z) (e : Error)
| ExpectPolling.

(** [Frame.expect]: the body and its [catch]. *)
Definition expect (fuel : nat) (pre : PreRun) (oneShot : EvalRun)
    : ExpectOutcome :=
  match expectBody fuel pre oneShot with
  | (Returned t r, _) => ExpectReturned t r
  | (Polling _ _, _) => ExpectPolling
  | (Threw t e, last) =>
      if isJavaScriptErrorInEvaluate e || isInvalidSelectorError e
      then ExpectRaised t e
      else ExpectReturned t
             (mkResult (isNot options)
                       (if isSet last then lastReceived last else None)
                       (if isTimeoutError e then Some true else None))
  end.

End Expect.

End Expect.

(** ** Documents, requests and notifications *)

Module Types.
Import Errors.

(** [types.LifecycleEvent] *)
Inductive LifecycleEvent := commit | domcontentloaded | load | networkidle.

#[global] Instance LifecycleEvent_eq_dec : EqDecision LifecycleEvent.
Proof. solve_decision. Defined.

(** [RegularLifecycleEvent = Exclude<types.LifecycleEvent, 'networkidle'>] *)
Inductive RegularLifecycleEvent := regCommit | regDomcontentloaded | regLoad.

Definition regular (event : RegularLifecycleEvent) : LifecycleEvent :=
  match event with
  | regCommit => commit
  | regDomcontentloaded => domcontentloaded
  | regLoad => load
  end.

(** Modelled from the spec: [types.kLifecycleEvents] is declared in
    [types.ts], outside the sources at hand; "this spec fixes exactly four
    canonical lifecycle states (commit, domcontentloaded, load,
    networkidle)". *)
Definition kLifecycleEvents (s : string) : option LifecycleEvent :=
  if decide (s = "load") then Some load
  else if decide (s = "domcontentloaded") then Some domcontentloaded
  else if decide (s = "networkidle") then Some networkidle
  else if decide (s = "commit") then Some commit
  else None.

(** [network.Request], as far as the frame code reads it.  [requestId]
    stands for the identity of the object, [requestFrame] for the frame
    object that [request.frame()] returns. *)
Record Request := mkRequest {
  requestId : nat;
  _documentId : option string;
  _isFavicon : bool;
  requestFrame : nat;
}.

#[global] Instance Request_eq_dec : EqDecision Request.
Proof. solve_decision. Defined.

(** [request === other]: identity of objects *)
Definition sameRequest (a b : Request) : bool :=
  Nat.eqb (requestId a) (requestId b).

Record DocumentInfo := mkDocumentInfo {
  documentId : option string;
  request : option Request;
}.

#[global] Instance DocumentInfo_eq_dec : EqDecision DocumentInfo.
Proof. solve_decision. Defined.

Record NavigationEvent := mkNavigationEvent {
  url : string;
  name : string;
  newDocument : option DocumentInfo;
  error : option Error;
  isPublic : option bool;
}.

(** A JavaScript string used as a condition: the empty string is falsy. *)
Definition truthy (s : option string) : bool :=
  match s with
  | Some EmptyString | None => false
  | Some _ => true
  end.

(** [a === b] on [string | undefined] *)
Definition sameId (a b : option string) : bool := bool_decide (a = b).

Definition quote : string :=
  String (Ascii.Ascii false true false false false true false false) EmptyString.

Definition quoted (s : string) : string := quote +:+ s +:+ quote.

End Types.

(** ** Waiting for a navigation: [Frame.gotoImpl] and [Frame.goto] *)

Module Navigation.
Import Errors Strings Types.

(** [GotoResult], the answer of [delegate.navigateFrame] *)
Record GotoResult := mkGotoResult { newDocumentId : option string }.

Record GotoOptions := mkGotoOptions {
  waitUntil : option string;
  referer : option string;
}.

(** How the promise of [gotoImpl] stands once the given notifications have
    been delivered.  [GotoResponse (Some r)] is the eventual response of
    the final request of [r], [GotoResponse None] is [null]. *)
Inductive GotoOutcome :=
| GotoResponse (request : option Request)
| GotoThrew (e : Error)
| GotoWaiting.

Definition verifyLifecycle (name : string) (waitUntil : string)
    : LifecycleEvent + Error :=
  let waitUntil :=
    if decide (waitUntil = "networkidle0") then "networkidle" else waitUntil in
  match kLifecycleEvents waitUntil with
  | Some event => inl event
  | None => inr (plainError
      (name +:+ ": expected one of (load|domcontentloaded|networkidle|commit)"))
  end.

(** Modelled from the spec: [helper.waitForEvent] is not part of the
    sources at hand; "resolve by scanning already-buffered notifications,
    falling back to waiting for one, matching".  Of the notifications
    emitted from now on, the first that satisfies the predicate resolves
    the wait. *)
Definition waitForEvent {A} (predicate : A -> bool) (emitted : list A)
    : option A :=
  List.find predicate emitted.

(** [events.length ? events[0] : await helper.waitForEvent(...)] *)
Definition firstMatching {A} (predicate : A -> bool)
    (buffered later : list A) : option A :=
  match List.filter predicate buffered with
  | event :: _ => Some event
  | [] => waitForEvent predicate later
  end.

Section Goto.
Context {casing : Casing}.
(** [this._page.extraHTTPHeaders() || []] *)
Variable extraHTTPHeaders : list (string * string).
(** [helper.completeUserURL] ([helper.ts]) *)
Variable completeUserURL : string -> string.
(** what [progress.race(delegate.navigateFrame(this, url, referer))]
    settles to, from the completed url and the referer *)
Variable navigateFrame : string -> option string -> GotoResult + Error.
(** the notifications collected by [collectNavigations] while the
    navigate command was in flight, and those emitted afterwards *)
Variable navigationEvents laterEvents : list NavigationEvent.
(** [this._firedLifecycleEvents] once the notification is chosen, and
    the [AddLifecycle] events emitted afterwards *)
Variable firedLifecycleEvents addedLifecycle : list LifecycleEvent.

Definition has (event : LifecycleEvent) (fired : list LifecycleEvent) : bool :=
  bool_decide (event ∈ fired).

(** lines 666-671: wait for the milestone, then the response *)
Definition finishGoto (waitUntil : LifecycleEvent) (event : NavigationEvent)
    : GotoOutcome :=
  let response :=
    GotoResponse (match newDocument event with
                  | Some document => request document
                  | None => None
                  end) in
  if has waitUntil firedLifecycleEvents then response
  else match waitForEvent (fun e => bool_decide (e = waitUntil)) addedLifecycle with
       | Some _ => response
       | None => GotoWaiting
       end.

(** "We are interested either in this specific document, or any other
    document that did commit and replaced the expected document." *)
Definition expectedOrCommitted (navigateResult : GotoResult)
    (event : NavigationEvent) : bool :=
  match newDocument event with
  | Some document =>
      sameId (documentId document) (newDocumentId navigateResult)
      || negb (bool_decide (is_Some (error event)))
  | None => false
  end.

(** "Wait for same document navigation." *)
Definition sameDocument (e : NavigationEvent) : bool :=
  negb (bool_decide (is_Some (newDocument e))).

(** lines 637-664: pick the notification that settles the navigation *)
Definition awaitNavigation (url : string) (navigateResult : GotoResult)
    : option NavigationEvent + Error :=
  if truthy (newDocumentId navigateResult) then
    match firstMatching (expectedOrCommitted navigateResult)
                        navigationEvents laterEvents with
    | None => inl None
    | Some event =>
        if negb (sameId (from_option documentId None (newDocument event))
                        (newDocumentId navigateResult))
        then
          (* This is just a sanity check. In practice, new navigation should
             cancel the previous one and report "request cancelled"-like error. *)
          inr (mkError (NavigationAbortedError (newDocumentId navigateResult))
                 false
                 ("Navigation to " +:+ quoted url
                  +:+ " is interrupted by another navigation to "
                  +:+ quoted (Types.url event)))
        else match error event with
             | Some e => inr e
             | None => inl (Some event)
             end
    end
  else
    inl (firstMatching sameDocument navigationEvents laterEvents).

(** lines 621-628: the referer to navigate with *)
Definition requestedReferer (options : GotoOptions) : option string + Error :=
  let refererHeader :=
    List.find (fun h => bool_decide (toLowerCase (fst h) = "referer"))
              extraHTTPHeaders in
  let referer := snd <$> refererHeader in
  match Navigation.referer options with
  | Some mine =>
      if bool_decide (is_Some referer) && negb (bool_decide (referer = Some mine))
      then inr (plainError
             (quoted "referer" +:+ " is already specified as extra HTTP header"))
      else inl (Some mine)
  | None => inl referer
  end.

Definition gotoImpl (url : string) (options : GotoOptions) : GotoOutcome :=
  match verifyLifecycle "waitUntil" (default "load" (waitUntil options)) with
  | inr e => GotoThrew e
  | inl waitUntil =>
      match requestedReferer options with
      | inr e => GotoThrew e
      | inl referer =>
          let url := completeUserURL url in
          match navigateFrame url referer with
          | inr e => GotoThrew e
          | inl navigateResult =>
              match awaitNavigation url navigateResult with
              | inr e => GotoThrew e
              | inl None => GotoWaiting
              | inl (Some event) => finishGoto waitUntil event
              end
          end
      end
  end.

(** [this._redirectedNavigations]: documentId to the state of the
    redirect's [gotoPromise] *)
Variable _redirectedNavigations : gmap string GotoOutcome.
(** the reason of the first of [_detachedScope] and [openScope] to close
    before the action settles, if any *)
Variable closedFirst : option Error.
(** [constructURLBasedOnBaseURL(baseURL, url)] ([utils]) *)
Variable constructURLBasedOnBaseURL : string -> string.

(** [Frame.raceNavigationAction] *)
Definition raceNavigationAction (action : GotoOutcome) : GotoOutcome :=
  match closedFirst with
  | Some reason => GotoThrew reason
  | None =>
      match action with
      | GotoThrew e =>
          match errClass e with
          | NavigationAbortedError documentId =>
              if truthy documentId then
                match _redirectedNavigations !! default "" documentId with
                | Some gotoPromise => gotoPromise
                | None => GotoThrew e
                end
              else GotoThrew e
          | _ => GotoThrew e
          end
      | settled => settled
      end
  end.

(** [Frame.goto] *)
Definition goto (url : string) (options : GotoOptions) : GotoOutcome :=
  raceNavigationAction (gotoImpl (constructURLBasedOnBaseURL url) options).

End Goto.

End Navigation.

(** ** The frame tree: [Frame] and [FrameManager] *)

Module Frames.
Import Errors Types.

Inductive World := main | utility.

(** [dom.FrameExecutionContext], by the identity of the object *)
Definition ExecutionContext := nat.

(** Modelled from the spec: [ManualPromise] is declared in
    [utils/isomorphic/manualPromise.ts], outside the sources at hand.  The
    spec's context slot "pairs a future-context with a possibly-absent
    active context"; the future is a promise, which the first [resolve]
    settles for good. *)
Inductive ManualPromise (A : Type) :=
| Pending
| Fulfilled (value : A).
Arguments Pending {A}.
Arguments Fulfilled {A} value.

Definition resolve {A} (value : A) (promise : ManualPromise A) : ManualPromise A :=
  match promise with
  | Pending => Fulfilled value
  | Fulfilled v => Fulfilled v
  end.

(** [ContextData]; [inr reason] is [{ destroyedReason: reason }] *)
Record ContextData := mkContextData {
  contextPromise : ManualPromise (ExecutionContext + string);
  context : option ExecutionContext;
}.

(** [_networkIdleTimer]: the handle of [setTimeout] stays in the field
    after the callback has run *)
Inductive Timer := NoTimer | TimerArmed | TimerFired.

#[global] Instance Timer_eq_dec : EqDecision Timer.
Proof. solve_decision. Defined.

#[global] Instance World_eq_dec : EqDecision World.
Proof. solve_decision. Defined.

(** The fields of a [Frame] object.  [oid] stands for the identity of the
    object; the parent is given by the position in the tree. *)
Record FrameData := mkFrameData {
  oid : nat;
  _id : string;
  _firedLifecycleEvents : list LifecycleEvent;
  _firedNetworkIdleSelf : bool;
  _currentDocument : DocumentInfo;
  _pendingDocument : option DocumentInfo;
  _url : string;
  (** the [Map] from world to slot: the slot of [main], then of [utility] *)
  _contextData : ContextData * ContextData;
  _name : string;
  _inflightRequests : list Request;
  _networkIdleTimer : Timer;
  (** [LongStandingScope]: the reason it was closed with, if closed *)
  _detachedScope : option Error;
}.

(** [this._contextData.get(world)] and writing to that slot *)
Definition contextDataOf (f : FrameData) (world : World) : ContextData :=
  match world with
  | main => fst (_contextData f)
  | utility => snd (_contextData f)
  end.

Definition withContextData (world : World) (data : ContextData)
    (slots : ContextData * ContextData) : ContextData * ContextData :=
  match world with
  | main => (data, snd slots)
  | utility => (fst slots, data)
  end.

(** A frame owns its children: [_childFrames], in insertion order. *)
#[local] Unset Elimination Schemes.
Inductive Frame := mkFrame {
  fdata : FrameData;
  _childFrames : list Frame;
}.
#[local] Set Elimination Schemes.

Definition set_id v (f : FrameData) : FrameData :=
  mkFrameData (oid f) v (_firedLifecycleEvents f) (_firedNetworkIdleSelf f)
    (_currentDocument f) (_pendingDocument f) (_url f) (_contextData f)
    (_name f) (_inflightRequests f) (_networkIdleTimer f) (_detachedScope f).
Definition set_firedLifecycleEvents v (f : FrameData) : FrameData :=
  mkFrameData (oid f) (_id f) v (_firedNetworkIdleSelf f) (_currentDocument f)
    (_pendingDocument f) (_url f) (_contextData f) (_name f)
    (_inflightRequests f) (_networkIdleTimer f) (_detachedScope f).
Definition set_firedNetworkIdleSelf v (f : FrameData) : FrameData :=
  mkFrameData (oid f) (_id f) (_firedLifecycleEvents f) v (_currentDocument f)
    (_pendingDocument f) (_url f) (_contextData f) (_name f)
    (_inflightRequests f) (_networkIdleTimer f) (_detachedScope f).
Definition set_currentDocument v (f : FrameData) : FrameData :=
  mkFrameData (oid f) (_id f) (_firedLifecycleEvents f)
    (_firedNetworkIdleSelf f) v (_pendingDocument f) (_url f) (_contextData f)
    (_name f) (_inflightRequests f) (_networkIdleTimer f) (_detachedScope f).
Definition set_pendingDocument v (f : FrameData) : FrameData :=
  mkFrameData (oid f) (_id f) (_firedLifecycleEvents f)
    (_firedNetworkIdleSelf f) (_currentDocument f) v (_url f) (_contextData f)
    (_name f) (_inflightRequests f) (_networkIdleTimer f) (_detachedScope f).
Definition set_url v (f : FrameData) : FrameData :=
  mkFrameData (oid f) (_id f) (_firedLifecycleEvents f)
    (_firedNetworkIdleSelf f) (_currentDocument f) (_pendingDocument f) v
    (_contextData f) (_name f) (_inflightRequests f) (_networkIdleTimer f)
    (_detachedScope f).
Definition set_contextData v (f : FrameData) : FrameData :=
  mkFrameData (oid f) (_id f) (_firedLifecycleEvents f)
    (_firedNetworkIdleSelf f) (_currentDocument f) (_pendingDocument f)
    (_url f) v (_name f) (_inflightRequests f) (_networkIdleTimer f)
    (_detachedScope f).
Definition set_name v (f : FrameData) : FrameData :=
  mkFrameData (oid f) (_id f) (_firedLifecycleEvents f)
    (_firedNetworkIdleSelf f) (_currentDocument f) (_pendingDocument f)
    (_url f) (_contextData f) v (_inflightRequests f) (_networkIdleTimer f)
    (_detachedScope f).
Definition set_inflightRequests v (f : FrameData) : FrameData :=
  mkFrameData (oid f) (_id f) (_firedLifecycleEvents f)
    (_firedNetworkIdleSelf f) (_currentDocument f) (_pendingDocument f)
    (_url f) (_contextData f) (_name f) v (_networkIdleTimer f)
    (_detachedScope f).
Definition set_networkIdleTimer v (f : FrameData) : FrameData :=
  mkFrameData (oid f) (_id f) (_firedLifecycleEvents f)
    (_firedNetworkIdleSelf f) (_currentDocument f) (_pendingDocument f)
    (_url f) (_contextData f) (_name f) (_inflightRequests f) v
    (_detachedScope f).
Definition set_detachedScope v (f : FrameData) : FrameData :=
  mkFrameData (oid f) (_id f) (_firedLifecycleEvents f)
    (_firedNetworkIdleSelf f) (_currentDocument f) (_pendingDocument f)
    (_url f) (_contextData f) (_name f) (_inflightRequests f)
    (_networkIdleTimer f) v.

(** *** Positions in the tree *)

(** A frame object reachable from the main frame, by the indices of the
    children to follow. *)
Definition path := list nat.

Fixpoint lookupAt (p : path) (f : Frame) : option Frame :=
  match p with
  | [] => Some f
  | i :: p' =>
      match _childFrames f !! i with
      | Some child => lookupAt p' child
      | None => None
      end
  end.

Fixpoint modifyAt (p : path) (g : Frame -> Frame) (f : Frame) : Frame :=
  match p with
  | [] => g f
  | i :: p' => mkFrame (fdata f) (alter (modifyAt p' g) i (_childFrames f))
  end.

Definition onData (g : FrameData -> FrameData) (f : Frame) : Frame :=
  mkFrame (g (fdata f)) (_childFrames f).

(** [parent._childFrames.delete(child)] for the child at position [p] *)
Fixpoint removeAt (p : path) (f : Frame) : Frame :=
  match p with
  | [] => f
  | [i] => mkFrame (fdata f) (delete i (_childFrames f))
  | i :: p' => mkFrame (fdata f) (alter (removeAt p') i (_childFrames f))
  end.

(** The position of the frame object [o], searching in pre-order. *)
Fixpoint findPath (o : nat) (f : Frame) : option path :=
  if decide (oid (fdata f) = o) then Some []
  else
    (fix among (children : list Frame) (i : nat) : option path :=
       match children with
       | [] => None
       | child :: rest =>
           match findPath o child with
           | Some p => Some (i :: p)
           | None => among rest (S i)
           end
       end) (_childFrames f) 0.

(** Every frame object of a subtree, each child before its parent. *)
Fixpoint postorder (f : Frame) : list FrameData :=
  flat_map postorder (_childFrames f) ++ [fdata f].

(** Every frame of a subtree with its own subtree, the root first. *)
Fixpoint subframes (f : Frame) : list Frame :=
  f :: flat_map subframes (_childFrames f).

(** *** The manager and its handlers *)

(** What the manager hands to the page, its listeners and the contexts. *)
Inductive Emitted :=
| FrameAttached (frame : nat)
| FrameDetached (frame : nat)
| InternalNavigation (frame : nat) (event : NavigationEvent)
| FrameNavigatedToNewDocument (frame : nat)
(** [context.contextDestroyed(reason)] *)
| ContextDestroyed (context : ExecutionContext) (reason : string).

(** [FrameManager] with what it reaches: the frame objects of the tree
    under [_mainFrame] (which keeps its object once created), the protect
    counts of the live signal barriers, and [this._page.isClosed()].
    [allocated] counts the frame objects created, [emitted] lists what was
    emitted, oldest first, and [detached] the frame objects on which
    [_onDetached] has run, oldest first.  A frame object that has left the
    tree lives on there: its entry is as [_onDetached] left it, and changes
    in place when a notification still reaches the object.  The main
    frame stays in the tree when it is detached, and its entry stays as
    it is. *)
Record FrameManager := mkFrameManager {
  _frames : gmap string nat;
  _mainFrame : option Frame;
  _signalBarriers : list Z;
  isClosed : bool;
  allocated : nat;
  emitted : list Emitted;
  detached : list FrameData;
}.

Definition set_frames v (m : FrameManager) : FrameManager :=
  mkFrameManager v (_mainFrame m) (_signalBarriers m) (isClosed m)
    (allocated m) (emitted m) (detached m).
Definition set_mainFrame v (m : FrameManager) : FrameManager :=
  mkFrameManager (_frames m) v (_signalBarriers m) (isClosed m) (allocated m)
    (emitted m) (detached m).
Definition set_signalBarriers v (m : FrameManager) : FrameManager :=
  mkFrameManager (_frames m) (_mainFrame m) v (isClosed m) (allocated m)
    (emitted m) (detached m).
Definition set_isClosed v (m : FrameManager) : FrameManager :=
  mkFrameManager (_frames m) (_mainFrame m) (_signalBarriers m) v
    (allocated m) (emitted m) (detached m).
Definition set_allocated v (m : FrameManager) : FrameManager :=
  mkFrameManager (_frames m) (_mainFrame m) (_signalBarriers m) (isClosed m) v
    (emitted m) (detached m).
Definition set_emitted v (m : FrameManager) : FrameManager :=
  mkFrameManager (_frames m) (_mainFrame m) (_signalBarriers m) (isClosed m)
    (allocated m) v (detached m).
Definition set_detached v (m : FrameManager) : FrameManager :=
  mkFrameManager (_frames m) (_mainFrame m) (_signalBarriers m) (isClosed m)
    (allocated m) (emitted m) v.

(** A handler runs to completion on the manager's state and either
    returns or throws; what it changed before throwing stays changed. *)
Inductive Res (A : Type) :=
| Ok (a : A)
| Throw (e : Error).
Arguments Ok {A} a.
Arguments Throw {A} e.

Definition M (A : Type) : Type := FrameManager -> Res A * FrameManager.

#[global] Instance M_ret : MRet M := fun A a s => (Ok a, s).
#[global] Instance M_bind : MBind M := fun A B k m s =>
  match m s with
  | (Ok a, s') => k a s'
  | (Throw e, s') => (Throw e, s')
  end.

Definition throw {A} (e : Error) : M A := fun s => (Throw e, s).
Definition gets {A} (proj : FrameManager -> A) : M A := fun s => (Ok (proj s), s).
Definition modify (g : FrameManager -> FrameManager) : M unit :=
  fun s => (Ok tt, g s).

(** [assert(condition)] of [utils] *)
Definition assert (condition : bool) : M unit :=
  if condition then mret tt else throw (plainError "Assertion error").

Definition emit (e : Emitted) : M unit :=
  modify (fun s => set_emitted (emitted s ++ [e]) s).

(** reading a field of the frame object at [this] *)
Definition frameAt (this : path) : M FrameData := fun s =>
  match _mainFrame s ≫= lookupAt this with
  | Some frame => (Ok (fdata frame), s)
  | None => (Throw (plainError "TypeError: no such frame"), s)
  end.

(** the frame at [this] with its subtree *)
Definition subtreeAt (this : path) : M Frame := fun s =>
  match _mainFrame s ≫= lookupAt this with
  | Some frame => (Ok frame, s)
  | None => (Throw (plainError "TypeError: no such frame"), s)
  end.

(** writing fields of the frame object at [this] *)
Definition updateFrame (this : path) (g : FrameData -> FrameData) : M unit :=
  modify (fun s => set_mainFrame (modifyAt this (onData g) <$> _mainFrame s) s).

(** [for (const x of xs) body(x)] *)
Fixpoint forEach {A} (xs : list A) (body : A -> M unit) : M unit :=
  match xs with
  | [] => mret tt
  | x :: rest => body x;; forEach rest body
  end.

(** *** Methods of [Frame]; [this] is the position of the object *)

Definition has (event : LifecycleEvent) (f : FrameData) : bool :=
  bool_decide (event ∈ _firedLifecycleEvents f).

(** [Set.add] and [Set.delete] on [_firedLifecycleEvents] *)
Definition addLifecycle (event : LifecycleEvent) (f : FrameData) : FrameData :=
  if has event f then f
  else set_firedLifecycleEvents (_firedLifecycleEvents f ++ [event]) f.

Definition deleteLifecycle (event : LifecycleEvent) (f : FrameData) : FrameData :=
  set_firedLifecycleEvents
    (List.filter (fun e => negb (bool_decide (e = event))) (_firedLifecycleEvents f)) f.

(** [Frame._recalculateNetworkIdle], on the subtree of [this] *)
Fixpoint _recalculateNetworkIdle
    (frameThatAllowsRemovingNetworkIdle : option nat) (this : Frame) : Frame :=
  let children :=
    map (_recalculateNetworkIdle frameThatAllowsRemovingNetworkIdle)
        (_childFrames this) in
  let isNetworkIdle :=
    _firedNetworkIdleSelf (fdata this)
    && forallb (fun child => has networkidle (fdata child)) children in
  let d := fdata this in
  let d :=
    if isNetworkIdle && negb (has networkidle d)
    then addLifecycle networkidle d else d in
  let d :=
    if negb (bool_decide (frameThatAllowsRemovingNetworkIdle = Some (oid d)))
       && has networkidle d && negb isNetworkIdle
    then deleteLifecycle networkidle d else d in
  mkFrame d children.

(** [this._page.mainFrame()._recalculateNetworkIdle(frame)] *)
Definition recalculateFromMainFrame (frame : option nat) : M unit :=
  modify (fun s =>
    set_mainFrame (_recalculateNetworkIdle frame <$> _mainFrame s) s).

Definition isDetached (f : FrameData) : bool :=
  bool_decide (is_Some (_detachedScope f)).

Definition _stopNetworkIdleTimer (this : path) : M unit :=
  updateFrame this (fun f =>
    set_firedNetworkIdleSelf false (set_networkIdleTimer NoTimer f)).

Definition _startNetworkIdleTimer (this : path) : M unit :=
  f ← frameAt this;
  assert (bool_decide (_networkIdleTimer f = NoTimer));;
  if has networkidle f || isDetached f then mret tt
  else updateFrame this (set_networkIdleTimer TimerArmed).

(** the callback armed by [_startNetworkIdleTimer], 500ms later *)
Definition networkIdleTimerFired (this : path) : M unit :=
  f ← frameAt this;
  match _networkIdleTimer f with
  | TimerArmed =>
      updateFrame this (fun f =>
        set_firedNetworkIdleSelf true (set_networkIdleTimer TimerFired f));;
      recalculateFromMainFrame None
  | _ => mret tt
  end.

Definition _onLifecycleEvent (this : path) (event : RegularLifecycleEvent) : M unit :=
  f ← frameAt this;
  if has (regular event) f then mret tt
  else
    updateFrame this (addLifecycle (regular event));;
    recalculateFromMainFrame None.

Definition _onClearLifecycle (this : path) : M unit :=
  updateFrame this (set_firedLifecycleEvents []);;
  (* Keep the current navigation request if any. *)
  updateFrame this (fun f =>
    set_inflightRequests
      (List.filter (fun r => match request (_currentDocument f) with
                             | Some current => sameRequest r current
                             | None => false
                             end) (_inflightRequests f)) f);;
  _stopNetworkIdleTimer this;;
  f ← frameAt this;
  (if bool_decide (length (_inflightRequests f) = 0)
   then _startNetworkIdleTimer this else mret tt);;
  recalculateFromMainFrame (Some (oid f));;
  _onLifecycleEvent this regCommit.

(** [setPendingDocument]; the evaluations it interrupts are not tracked *)
Definition setPendingDocument (this : path) (documentInfo : option DocumentInfo)
    : M unit :=
  updateFrame this (set_pendingDocument documentInfo).

(** what [_onDetached] does to one context slot *)
Definition detachContext (data : ContextData) : ContextData :=
  mkContextData (resolve (inr "Frame was detached") (contextPromise data))
                (context data).

(** [LongStandingScope.close]: the first reason stays *)
Definition closeScope (reason : Error) (scope : option Error) : option Error :=
  match scope with
  | Some first => Some first
  | None => Some reason
  end.

(** the body of the loop of [_onDetached] over [this._contextData] *)
Definition detachSlot (this : path) (world : World) : M unit :=
  f ← frameAt this;
  match context (contextDataOf f world) with
  | Some c => emit (ContextDestroyed c "Frame was detached")
  | None => mret tt
  end;;
  updateFrame this (fun f =>
    set_contextData
      (withContextData world (detachContext (contextDataOf f world))
                       (_contextData f)) f).

Definition _onDetached (this : path) : M unit :=
  _stopNetworkIdleTimer this;;
  updateFrame this (fun f =>
    set_detachedScope (closeScope (plainError "Frame was detached") (_detachedScope f)) f);;
  forEach [main; utility] (detachSlot this);;
  f ← frameAt this;
  modify (fun s => set_detached (detached s ++ [f]) s);;
  (* if (this._parentFrame) this._parentFrame._childFrames.delete(this) *)
  modify (fun s => set_mainFrame (removeAt this <$> _mainFrame s) s).

(** [Frame._context(world)], for the slot as it stands *)
Inductive Awaited :=
| StillPending
| GotContext (c : ExecutionContext)
| RejectedWith (e : Error).

Definition _context (f : FrameData) (world : World) : Awaited :=
  match contextPromise (contextDataOf f world) with
  | Pending => StillPending
  | Fulfilled (inl c) => GotContext c
  | Fulfilled (inr destroyedReason) => RejectedWith (plainError destroyedReason)
  end.

(** [Frame._waitForLoadState]: does it return without waiting? *)
Definition _waitForLoadState (f : FrameData) (state : LifecycleEvent) : bool :=
  has state f.

(** *** Handlers of [FrameManager] *)

Definition kDummyFrameId : string := "<dummy>".

(** [this._frames.get(frameId)]: the position of the frame object *)
Definition frameById (frameId : string) : M (option path) :=
  gets (fun s => o ← _frames s !! frameId; root ← _mainFrame s; findPath o root).

(** where the frame object [request.frame()] sits in the tree, if it is
    there *)
Definition frameOf (r : Request) : M (option path) :=
  gets (fun s => root ← _mainFrame s; findPath (requestFrame r) root).

(** [new Frame(page, id, parentFrame)], as the body of the constructor
    leaves it before the idle timer is started *)
Definition newFrameData (o : nat) (id : string) : FrameData :=
  let slot := mkContextData Pending None in
  mkFrameData o id [commit] false (mkDocumentInfo None None) None ""
              (slot, slot) "" [] NoTimer None.

(** [new Frame(this._page, frameId, parentFrame)]: returns where the new
    object sits *)
Definition newFrame (id : string) (parentFrame : option path) : M path :=
  o ← gets allocated;
  modify (set_allocated (S o));;
  let frame := mkFrame (newFrameData o id) [] in
  this ← match parentFrame with
         | None =>
             modify (set_mainFrame (Some frame));;
             mret []
         | Some parent =>
             siblings ← subtreeAt parent;
             modify (fun s => set_mainFrame
               (modifyAt parent (fun p => mkFrame (fdata p) (_childFrames p ++ [frame]))
                  <$> _mainFrame s) s);;
             mret (parent ++ [length (_childFrames siblings)])
         end;
  (if bool_decide (id = kDummyFrameId) then mret tt
   else _startNetworkIdleTimer this);;
  mret this.

Definition frameAttached (frameId : string) (parentFrameId : option string)
    : M unit :=
  parentFrame ← (if truthy parentFrameId
                 then frameById (default "" parentFrameId) else mret None);
  match parentFrame with
  | None =>
      mainFrame ← gets _mainFrame;
      match mainFrame with
      | Some frame =>
          (* Update frame id to retain frame identity on cross-process navigation. *)
          modify (fun s => set_frames (delete (_id (fdata frame)) (_frames s)) s);;
          updateFrame [] (set_id frameId)
      | None =>
          known ← gets (fun s => bool_decide (is_Some (_frames s !! frameId)));
          assert (negb known);;
          newFrame frameId None;;
          mret tt
      end;;
      o ← frameAt [];
      modify (fun s => set_frames (<[frameId := oid o]> (_frames s)) s)
  | Some parent =>
      known ← gets (fun s => bool_decide (is_Some (_frames s !! frameId)));
      assert (negb known);;
      this ← newFrame frameId (Some parent);
      o ← frameAt this;
      modify (fun s => set_frames (<[frameId := oid o]> (_frames s)) s);;
      emit (FrameAttached (oid o))
  end.

Definition createDummyMainFrameIfNeeded : M unit :=
  mainFrame ← gets _mainFrame;
  match mainFrame with
  | Some _ => mret tt
  | None => frameAttached kDummyFrameId None
  end.

(** [SignalBarrier.addFrameNavigation], as far as the protect count goes;
    the matching [release] comes with a later notification *)
Definition addFrameNavigation (this : path) (protectCount : Z) : Z :=
  match this with
  | [] => (protectCount + 1)%Z
  | _ => protectCount          (* Auto-wait top-level navigations only. *)
  end.

Definition frameRequestedNavigation (frameId : string) (documentId : option string)
    : M unit :=
  frame ← frameById frameId;
  match frame with
  | None => mret tt
  | Some this =>
      modify (fun s =>
        set_signalBarriers (map (addFrameNavigation this) (_signalBarriers s)) s);;
      f ← frameAt this;
      if match _pendingDocument f with
         | Some pending => sameId (Types.documentId pending) documentId
         | None => false
         end
      then (* Do not override request with undefined. *) mret tt
      else
        let request :=
          if truthy documentId
          then List.find (fun r => sameId (_documentId r) documentId)
                         (_inflightRequests f)
          else None in
        setPendingDocument this (Some (mkDocumentInfo documentId request))
  end.

(** [_removeFramesRecursively(frame)]; [frame] is the object with its
    subtree as the call finds it, [this] its position.  Each child leaves
    [_childFrames] when it is detached, so the next one of
    [frame.childFrames()] is then the first. *)
Fixpoint _removeFramesRecursively (frame : Frame) (this : path) : M unit :=
  (fix removeChildFrames (children : list Frame) : M unit :=
     match children with
     | [] => mret tt
     | child :: rest =>
         _removeFramesRecursively child (this ++ [0]);;
         removeChildFrames rest
     end) (_childFrames frame);;
  _onDetached this;;
  modify (fun s => set_frames (delete (_id (fdata frame)) (_frames s)) s);;
  closed ← gets isClosed;
  if negb closed then emit (FrameDetached (oid (fdata frame))) else mret tt.

Fixpoint removeFrames (children : list Frame) (parent : path) : M unit :=
  match children with
  | [] => mret tt
  | child :: rest =>
      _removeFramesRecursively child (parent ++ [0]);;
      removeFrames rest parent
  end.

Definition removeChildFramesRecursively (this : path) : M unit :=
  frame ← subtreeAt this;
  removeFrames (_childFrames frame) this.

Definition _fireInternalFrameNavigation (this : path) (event : NavigationEvent)
    : M unit :=
  f ← frameAt this;
  emit (InternalNavigation (oid f) event).

(** lines 211-234 of [frameCommittedNewDocumentNavigation]: the document
    that commits becomes the current one; the result is [keepPending] *)
Definition commitDocument (this : path) (documentId : string)
    : M (option DocumentInfo) :=
  f ← frameAt this;
  match _pendingDocument f with
  | Some pendingDocument =>
      let pendingDocument :=
        match Types.documentId pendingDocument with
        | None =>
            (* Pending with unknown documentId - assume it is the one being committed. *)
            mkDocumentInfo (Some documentId) (request pendingDocument)
        | Some _ => pendingDocument
        end in
      keepPending ←
        (if sameId (Types.documentId pendingDocument) (Some documentId)
         then
           (* Committing a pending document. *)
           updateFrame this (set_currentDocument pendingDocument);;
           mret None
         else
           (* We commit, but keep the pending request since it's not done yet. *)
           updateFrame this
             (set_currentDocument (mkDocumentInfo (Some documentId) None));;
           mret (Some pendingDocument));
      setPendingDocument this None;;
      mret keepPending
  | None =>
      (* No pending - just commit a new document. *)
      updateFrame this
        (set_currentDocument (mkDocumentInfo (Some documentId) None));;
      mret None
  end.

Definition frameCommittedNewDocumentNavigation
    (frameId url name documentId : string) (initial : bool) : M unit :=
  frame ← frameById frameId;
  match frame with
  | None => throw (plainError "TypeError: frame is undefined")
  | Some this =>
      removeChildFramesRecursively this;;
      (* clearWebSockets: the sockets are not tracked *)
      updateFrame this (set_url url);;
      updateFrame this (set_name name);;
      keepPending ← commitDocument this documentId;
      _onClearLifecycle this;;
      f ← frameAt this;
      _fireInternalFrameNavigation this
        (mkNavigationEvent url name (Some (_currentDocument f)) None (Some true));;
      (if initial then mret tt
       else emit (FrameNavigatedToNewDocument (oid f)));;
      (* Restore pending if any - see comments above about keepPending. *)
      setPendingDocument this keepPending
  end.

Definition frameCommittedSameDocumentNavigation (frameId url : string) : M unit :=
  frame ← frameById frameId;
  match frame with
  | None => mret tt
  | Some this =>
      f ← frameAt this;
      match _pendingDocument f with
      | Some (mkDocumentInfo None None) => setPendingDocument this None
      | _ => mret tt
      end;;
      updateFrame this (set_url url);;
      _fireInternalFrameNavigation this
        (mkNavigationEvent url (_name f) None None (Some true))
  end.

(** [frame._redirectedNavigations] is filled by [redirectNavigation], on
    behalf of the driver; [redirected] tells whether it has the key. *)
Definition frameAbortedNavigation (redirected : string -> bool)
    (frameId errorText : string) (documentId : option string) : M unit :=
  frame ← frameById frameId;
  match frame with
  | None => mret tt
  | Some this =>
      f ← frameAt this;
      match _pendingDocument f with
      | None => mret tt
      | Some pending =>
          if bool_decide (is_Some documentId)
             && negb (sameId (Types.documentId pending) documentId)
          then mret tt
          else
            let navigationEvent :=
              mkNavigationEvent (_url f) (_name f) (Some pending)
                (Some (mkError (NavigationAbortedError documentId) false errorText))
                (Some (negb (truthy documentId
                             && redirected (default "" documentId)))) in
            setPendingDocument this None;;
            _fireInternalFrameNavigation this navigationEvent
      end
  end.

Definition frameDetached (frameId : string) : M unit :=
  frame ← frameById frameId;
  match frame with
  | None => mret tt
  | Some this =>
      subtree ← subtreeAt this;
      _removeFramesRecursively subtree this;;
      recalculateFromMainFrame None
  end.

Definition frameLifecycleEvent (frameId : string) (event : RegularLifecycleEvent)
    : M unit :=
  frame ← frameById frameId;
  match frame with
  | None => mret tt
  | Some this => _onLifecycleEvent this event
  end.

(** [Set.has], [Set.add] and [Set.delete] on [_inflightRequests] *)
Definition inflight (r : Request) (f : FrameData) : bool :=
  existsb (sameRequest r) (_inflightRequests f).

Definition addInflight (r : Request) (f : FrameData) : FrameData :=
  if inflight r f then f
  else set_inflightRequests (_inflightRequests f ++ [r]) f.

Definition deleteInflight (r : Request) (f : FrameData) : FrameData :=
  set_inflightRequests
    (List.filter (fun r' => negb (sameRequest r r')) (_inflightRequests f)) f.

Definition _inflightRequestStarted (r : Request) (this : path) : M unit :=
  if _isFavicon r then mret tt
  else
    updateFrame this (addInflight r);;
    f ← frameAt this;
    if bool_decide (length (_inflightRequests f) = 1)
    then _stopNetworkIdleTimer this else mret tt.

Definition _inflightRequestFinished (r : Request) (this : path) : M unit :=
  if _isFavicon r then mret tt
  else
    f ← frameAt this;
    if negb (inflight r f) then mret tt
    else
      updateFrame this (deleteInflight r);;
      f ← frameAt this;
      if bool_decide (length (_inflightRequests f) = 0)
      then _startNetworkIdleTimer this else mret tt.

(** [Frame._setContext] *)
Definition _setContext (world : World) (c : option ExecutionContext)
    (f : FrameData) : FrameData :=
  let data := contextDataOf f world in
  let data :=
    match c with
    | Some c' => mkContextData (resolve (inl c') (contextPromise data)) (Some c')
    | None => mkContextData Pending None
    end in
  set_contextData (withContextData world data (_contextData f)) f.

Definition _contextCreated (this : path) (world : World) (c : ExecutionContext)
    : M unit :=
  f ← frameAt this;
  match context (contextDataOf f world) with
  | Some old =>
      emit (ContextDestroyed old
              "Execution context was destroyed, most likely because of a navigation");;
      updateFrame this (_setContext world None)
  | None => mret tt
  end;;
  updateFrame this (_setContext world (Some c)).

Definition _contextDestroyed (this : path) (c : ExecutionContext) : M unit :=
  f ← frameAt this;
  if isDetached f then mret tt
  else
    emit (ContextDestroyed c
            "Execution context was destroyed, most likely because of a navigation");;
    forEach [main; utility] (fun world =>
      f ← frameAt this;
      if bool_decide (context (contextDataOf f world) = Some c)
      then updateFrame this (_setContext world None) else mret tt).

(** *** Frame objects that have left the tree

    [_onDetached] takes a frame object out of [_childFrames], but
    [request.frame()] and the driver still answer it, and a notification
    that comes late runs the methods below on it (in
    [_startNetworkIdleTimer]: "we may get requestFinished after the frame
    was detached").  [o] is the identity of the object, whose entry in
    [detached] is what changes; the tree is reached through
    [this._page.mainFrame()]. *)

Module Gone.

(** reading a field of the frame object [o] *)
Definition frameAt (o : nat) : M FrameData := fun s =>
  match List.find (fun d => bool_decide (oid d = o)) (detached s) with
  | Some d => (Ok d, s)
  | None => (Throw (plainError "TypeError: no such frame"), s)
  end.

(** writing fields of the frame object [o] *)
Definition updateFrame (o : nat) (g : FrameData -> FrameData) : M unit :=
  modify (fun s =>
    set_detached
      (map (fun d => if bool_decide (oid d = o) then g d else d) (detached s)) s).

Definition _stopNetworkIdleTimer (o : nat) : M unit :=
  updateFrame o (fun f =>
    set_firedNetworkIdleSelf false (set_networkIdleTimer NoTimer f)).

Definition _startNetworkIdleTimer (o : nat) : M unit :=
  f ← frameAt o;
  assert (bool_decide (_networkIdleTimer f = NoTimer));;
  if has networkidle f || isDetached f then mret tt
  else updateFrame o (set_networkIdleTimer TimerArmed).

Definition networkIdleTimerFired (o : nat) : M unit :=
  f ← frameAt o;
  match _networkIdleTimer f with
  | TimerArmed =>
      updateFrame o (fun f =>
        set_firedNetworkIdleSelf true (set_networkIdleTimer TimerFired f));;
      recalculateFromMainFrame None
  | _ => mret tt
  end.

Definition _onLifecycleEvent (o : nat) (event : RegularLifecycleEvent) : M unit :=
  f ← frameAt o;
  if has (regular event) f then mret tt
  else
    updateFrame o (addLifecycle (regular event));;
    recalculateFromMainFrame None.

Definition _onClearLifecycle (o : nat) : M unit :=
  updateFrame o (set_firedLifecycleEvents []);;
  (* Keep the current navigation request if any. *)
  updateFrame o (fun f =>
    set_inflightRequests
      (List.filter (fun r => match request (_currentDocument f) with
                             | Some current => sameRequest r current
                             | None => false
                             end) (_inflightRequests f)) f);;
  _stopNetworkIdleTimer o;;
  f ← frameAt o;
  (if bool_decide (length (_inflightRequests f) = 0)
   then _startNetworkIdleTimer o else mret tt);;
  recalculateFromMainFrame (Some (oid f));;
  _onLifecycleEvent o regCommit.

Definition setPendingDocument (o : nat) (documentInfo : option DocumentInfo)
    : M unit :=
  updateFrame o (set_pendingDocument documentInfo).

Definition _inflightRequestStarted (r : Request) (o : nat) : M unit :=
  if _isFavicon r then mret tt
  else
    updateFrame o (addInflight r);;
    f ← frameAt o;
    if bool_decide (length (_inflightRequests f) = 1)
    then _stopNetworkIdleTimer o else mret tt.

Definition _inflightRequestFinished (r : Request) (o : nat) : M unit :=
  if _isFavicon r then mret tt
  else
    f ← frameAt o;
    if negb (inflight r f) then mret tt
    else
      updateFrame o (deleteInflight r);;
      f ← frameAt o;
      if bool_decide (length (_inflightRequests f) = 0)
      then _startNetworkIdleTimer o else mret tt.

Definition _contextCreated (o : nat) (world : World) (c : ExecutionContext)
    : M unit :=
  f ← frameAt o;
  match context (contextDataOf f world) with
  | Some old =>
      emit (ContextDestroyed old
              "Execution context was destroyed, most likely because of a navigation");;
      updateFrame o (_setContext world None)
  | None => mret tt
  end;;
  updateFrame o (_setContext world (Some c)).

Definition _contextDestroyed (o : nat) (c : ExecutionContext) : M unit :=
  f ← frameAt o;
  if isDetached f then mret tt
  else
    emit (ContextDestroyed c
            "Execution context was destroyed, most likely because of a navigation");;
    forEach [main; utility] (fun world =>
      f ← frameAt o;
      if bool_decide (context (contextDataOf f world) = Some c)
      then updateFrame o (_setContext world None) else mret tt).

End Gone.

(** *** Requests *)

(** [requestStarted]; what it emits on the context is not tracked *)
Definition requestStarted (r : Request) : M unit :=
  frame ← frameOf r;
  match frame with
  | Some this =>
      _inflightRequestStarted r this;;
      if truthy (_documentId r)
      then setPendingDocument this (Some (mkDocumentInfo (_documentId r) (Some r)))
      else mret tt
  | None =>
      Gone._inflightRequestStarted r (requestFrame r);;
      if truthy (_documentId r)
      then Gone.setPendingDocument (requestFrame r)
             (Some (mkDocumentInfo (_documentId r) (Some r)))
      else mret tt
  end.

Definition reportRequestFinished (r : Request) : M unit :=
  frame ← frameOf r;
  match frame with
  | Some this => _inflightRequestFinished r this
  | None => Gone._inflightRequestFinished r (requestFrame r)
  end.

(** what [requestFailed] does once the request is out of the requests in
    flight; [f] is the frame object of the request *)
Definition abortPending (redirected : string -> bool) (r : Request)
    (errorText : string) (canceled : bool) (f : FrameData) : M unit :=
  match _pendingDocument f with
  | Some (mkDocumentInfo documentId (Some r')) =>
      if sameRequest r' r then
        let errorText :=
          if canceled then errorText +:+ "; maybe frame was detached?"
          else errorText in
        frameAbortedNavigation redirected (_id f) errorText documentId
      else mret tt
  | _ => mret tt
  end.

Definition requestFailed (redirected : string -> bool) (r : Request)
    (errorText : string) (canceled : bool) : M unit :=
  frame ← frameOf r;
  match frame with
  | Some this =>
      _inflightRequestFinished r this;;
      f ← frameAt this;
      abortPending redirected r errorText canceled f
  | None =>
      Gone._inflightRequestFinished r (requestFrame r);;
      f ← Gone.frameAt (requestFrame r);
      abortPending redirected r errorText canceled f
  end.

(** *** What reaches the manager *)

Inductive Event :=
| CreateDummyMainFrameIfNeeded
| OnFrameAttached (frameId : string) (parentFrameId : option string)
| OnFrameDetached (frameId : string)
| OnFrameRequestedNavigation (frameId : string) (documentId : option string)
| OnFrameCommittedNewDocumentNavigation
    (frameId url name documentId : string) (initial : bool)
| OnFrameCommittedSameDocumentNavigation (frameId url : string)
| OnFrameAbortedNavigation (redirected : string -> bool)
    (frameId errorText : string) (documentId : option string)
| OnFrameLifecycleEvent (frameId : string) (event : RegularLifecycleEvent)
| OnRequestStarted (r : Request)
| OnRequestFinished (r : Request)
| OnRequestFailed (redirected : string -> bool) (r : Request)
    (errorText : string) (canceled : bool)
(** the idle timer of the frame object runs out *)
| OnNetworkIdleTimer (frame : nat)
(** the console tag of [setContent] arrives: [this._onClearLifecycle()] *)
| OnSetContentTag (frame : nat)
| OnContextCreated (frame : nat) (world : World) (c : ExecutionContext)
| OnContextDestroyed (frame : nat) (c : ExecutionContext)
(** [waitForSignalsCreatedBy] adds a barrier: [new SignalBarrier] retains once *)
| OnSignalBarrier
(** the page calls [dispose()] *)
| Dispose.

(** a method of the frame object [o]: where it sits in the tree, or else
    as one that has left it *)
Definition onFrameObject (o : nat) (method : path -> M unit)
    (gone : nat -> M unit) : M unit :=
  frame ← gets (fun s => root ← _mainFrame s; findPath o root);
  match frame with
  | None => gone o
  | Some this => method this
  end.

(** [FrameManager.dispose]; the evaluations that it invalidates are not
    tracked.  A visit changes the frame object that is visited and
    nothing else, so that the order of the visits does not show. *)
Definition dispose : M unit :=
  frames ← gets (fun s => map snd (map_to_list (_frames s)));
  forEach frames (fun o =>
    onFrameObject o _stopNetworkIdleTimer Gone._stopNetworkIdleTimer).

Definition handle (e : Event) : M unit :=
  match e with
  | CreateDummyMainFrameIfNeeded => createDummyMainFrameIfNeeded
  | OnFrameAttached frameId parentFrameId => frameAttached frameId parentFrameId
  | OnFrameDetached frameId => frameDetached frameId
  | OnFrameRequestedNavigation frameId documentId =>
      frameRequestedNavigation frameId documentId
  | OnFrameCommittedNewDocumentNavigation frameId url name documentId initial =>
      frameCommittedNewDocumentNavigation frameId url name documentId initial
  | OnFrameCommittedSameDocumentNavigation frameId url =>
      frameCommittedSameDocumentNavigation frameId url
  | OnFrameAbortedNavigation redirected frameId errorText documentId =>
      frameAbortedNavigation redirected frameId errorText documentId
  | OnFrameLifecycleEvent frameId event => frameLifecycleEvent frameId event
  | OnRequestStarted r => requestStarted r
  | OnRequestFinished r => reportRequestFinished r
  | OnRequestFailed redirected r errorText canceled =>
      requestFailed redirected r errorText canceled
  | OnNetworkIdleTimer frame =>
      onFrameObject frame networkIdleTimerFired Gone.networkIdleTimerFired
  | OnSetContentTag frame =>
      onFrameObject frame _onClearLifecycle Gone._onClearLifecycle
  | OnContextCreated frame world c =>
      onFrameObject frame (fun this => _contextCreated this world c)
        (fun o => Gone._contextCreated o world c)
  | OnContextDestroyed frame c =>
      onFrameObject frame (fun this => _contextDestroyed this c)
        (fun o => Gone._contextDestroyed o c)
  | OnSignalBarrier =>
      modify (fun s => set_signalBarriers (_signalBarriers s ++ [1%Z]) s)
  | Dispose => dispose
  end.

(** [new FrameManager(page)] *)
Definition initial : FrameManager :=
  mkFrameManager ∅ None [] false 0 [] [].

(** The manager after a run of events, applied in the order of delivery;
    a handler that throws leaves what it had changed. *)
Definition after (e : Event) (s : FrameManager) : FrameManager :=
  snd (handle e s).

Inductive reachable : FrameManager -> Prop :=
| reachable_initial : reachable initial
| reachable_after s e : reachable s -> reachable (after e s)
(** the page closes: it disposes of the manager, lines 115-120, and is
    closed from then on *)
| reachable_closed s :
    reachable s ->
    reachable (set_isClosed true (after Dispose s)).

End Frames.

(** * Sample runs *)

Module Samples.
Import Errors Scopes Retry.

(** the progress times out 10ms into the call; page and frame stay *)
Definition timeout10 : Error :=
  mkError TimeoutError true "Timeout 10ms exceeded.".

Definition timesOutAt10 : Scopes := mkScopes (Some (10%Z, timeout10)) None None.

Definition neverCloses : Scopes := mkScopes None None None.



(** a step that finds the element gone 5ms later *)
Definition notConnected : Error := plainError "Element is not attached to the DOM".

Definition failsOnce (k : nat) (t : Z) (st : unit) : StepRun unit unit :=
  mkStepRun (t + 5)%Z (match k with 0 => StepThrow notConnected | _ => StepReturn tt end) st.

(** *** [expect] *)

Import Expect.

(** [expect(locator).toBeVisible()] *)
Definition toBeVisible : FrameExpectParams := mkParams false "to.be.visible".

(** pre-checks that take 1ms *)
Definition quickChecks (k : nat) (t : Z) : PreRun := mkPreRun (t + 1)%Z None.

(** the element stays hidden; the page answers in 2ms *)
Definition staysHidden (k : nat) (t : Z) : EvalRun :=
  mkEvalRun (t + 2)%Z (EvalOk false (Some (VString "hidden")) false).

(** the element is visible; the page answers in 2ms *)
Definition isVisible (t : Z) : EvalRun :=
  mkEvalRun (t + 2)%Z (EvalOk true (Some (VString "visible")) false).

(** the timeout of the call is 1ms, and the pre-checks of step 1 are
    still waiting when it runs out *)
Definition timeout1 : Error := mkError TimeoutError true "Timeout 1ms exceeded.".

Definition timesOutAt1 : Scopes := mkScopes (Some (1%Z, timeout1)) None None.

Definition checksTimedOut : PreRun := mkPreRun 1%Z (Some timeout1).

(** *** [goto]: a second navigation commits first *)

Import Types Navigation.

Definition requestB : Request := mkRequest 7 (Some "docB") false 0.

(** the notification of the commit of [docB] *)
Definition committedB : NavigationEvent :=
  mkNavigationEvent "http://b.test/" ""
    (Some (mkDocumentInfo (Some "docB") (Some requestB))) None (Some true).

(** the navigate command answers that it started [docA] *)
Definition startsA (url : string) (referer : option string) : GotoResult + Error :=
  inl (mkGotoResult (Some "docA")).

Definition interruptedA : Error :=
  mkError (NavigationAbortedError (Some "docA")) false
    ("Navigation to " +:+ quoted "http://a.test/"
     +:+ " is interrupted by another navigation to " +:+ quoted "http://b.test/").

(** *** A page with four frames *)

Import Frames.

Definition run (events : list Event) : FrameManager :=
  foldl (fun s e => after e s) initial events.

(** the main frame [m], its children [c] and [d], and [g] under [c];
    [c] has a live main context; every idle timer has run out *)
Definition familyEvents : list Event :=
  [OnFrameAttached "m" None;
   OnFrameAttached "c" (Some "m");
   OnFrameAttached "g" (Some "c");
   OnFrameAttached "d" (Some "m");
   OnContextCreated 1 main 41;
   OnNetworkIdleTimer 0; OnNetworkIdleTimer 1;
   OnNetworkIdleTimer 2; OnNetworkIdleTimer 3].

Definition family : FrameManager :=
  Eval vm_compute in run familyEvents.

Definition familyTree : Frame :=
  Eval vm_compute in
    default (mkFrame (newFrameData 0 "") []) (_mainFrame family).

(** the frame [c] with its subtree *)
Definition familyC : Frame :=
  Eval vm_compute in
    default (mkFrame (newFrameData 0 "") []) (lookupAt [0] familyTree).

(** the navigation request of [c] for the document [docA] *)
Definition requestForA : Request := mkRequest 7 (Some "docA") false 1.

(** [family] once [c] has started navigating to [docA] *)
Definition navigating : FrameManager :=
  Eval vm_compute in after (OnRequestStarted requestForA) family.

Definition navigatingTree : Frame :=
  Eval vm_compute in
    default (mkFrame (newFrameData 0 "") []) (_mainFrame navigating).

Definition navigatingC : Frame :=
  Eval vm_compute in
    default (mkFrame (newFrameData 0 "") []) (lookupAt [0] navigatingTree).

End Samples.

(** * Properties *)

(** ** The retry engine *)

Module RetryFacts.
Import Errors Scopes Retry.


Section Loop.
Context {R St : Type}.
Variable sc : Scopes.
Variable timeouts : list Z.
Variable action : nat -> Z -> St -> StepRun R St.

Lemma timeoutAt_first : timeoutAt timeouts 0 = 0%Z.
Proof. reflexivity. Qed.







Lemma isNonRetriableError_spec detached e :
  isNonRetriableError detached e =
    isAbortError e || isJavaScriptErrorInEvaluate e || isSessionClosedError e
    || isNonRecoverableDOMError e || isInvalidSelectorError e || detached.
Proof.
  unfold isNonRetriableError.
  destruct (isAbortError e), (isJavaScriptErrorInEvaluate e),
    (isSessionClosedError e), (isNonRecoverableDOMError e),
    (isInvalidSelectorError e), detached; reflexivity.
Qed.

(** C6.  A step that throws at an attempt of the loop: the error is
    propagated at once when it is an abort error, a JavaScript error in
    evaluate, a session-closed error, a non-recoverable DOM error, an
    invalid-selector error, or when the frame is detached by then;
    any other error is swallowed and the loop goes on with the next
    iteration. *)
Theorem step_error_propagates_or_retries fuel k now st t e :
  waited sc timeouts k now = Resolved t tt ->
  stepOutcome (action k t st) = StepThrow e ->
  let run := action k t st in
  let detached := isClosedAt (detachedScope sc) (stepEnd run) in
  isNonRetriableError detached e =
    isAbortError e || isJavaScriptErrorInEvaluate e || isSessionClosedError e
    || isNonRecoverableDOMError e || isInvalidSelectorError e || detached
  /\ (isNonRetriableError detached e = true ->
      retryLoop sc timeouts action (S fuel) k now st
      = (Threw (stepEnd run) e, stepState run))
  /\ (isNonRetriableError detached e = false ->
      retryLoop sc timeouts action (S fuel) k now st
      = retryLoop sc timeouts action fuel (S k) (stepEnd run) (stepState run)).
Proof.
  intros Hwait Hstep run detached.
  split; [apply isNonRetriableError_spec|].
  subst run detached.
  split; intros Hclass; cbn [retryLoop]; rewrite Hwait; unfold attempt;
    rewrite Hstep, Hclass; reflexivity.
Qed.

(** *** A step that keeps answering [continuePolling] *)

Section PerpetualContinue.
Variables (c : Z) (reason : Error).
Hypothesis closes : firstClosure sc = Some (c, reason).
Hypothesis continues :
  forall k t st, stepOutcome (action k t st) = StepContinue.
Hypothesis forward : forall k t st, (t <= stepEnd (action k t st))%Z.




Hypothesis positive_tail : (0 < List.last (0%Z :: timeouts) 0)%Z.



End PerpetualContinue.


End Loop.

End RetryFacts.

Module RetryRuns.
Import Errors Scopes Retry Samples RetryFacts.

Lemma step_error_propagates_or_retries_witness :
  waited neverCloses [100%Z] 0 0 = Resolved 0%Z tt
  /\ stepOutcome (failsOnce 0 0 tt) = StepThrow notConnected
  /\ isNonRetriableError false notConnected = false
  /\ retryLoop neverCloses [100%Z] failsOnce 2 0 0 tt
     = retryLoop neverCloses [100%Z] failsOnce 1 1 5 tt.
Proof.
  pose proof (step_error_propagates_or_retries neverCloses [100%Z] failsOnce
                1 0 0%Z tt 0%Z notConnected eq_refl eq_refl) as (_ & _ & H).
  split; [reflexivity|]. split; [reflexivity|]. split; [reflexivity|].
  apply H. reflexivity.
Defined.



End RetryRuns.

(** ** [expect] *)

Module ExpectFacts.
Import Errors Scopes Retry Expect RetryFacts.

Section Expect.
Variable sc : Scopes.
Variable options : FrameExpectParams.
Variable preChecks : nat -> Z -> PreRun.
Variable evaluate : nat -> Z -> EvalRun.

Lemma expect_raises_programmer_errors fuel pre oneShot t e :
  expect sc options preChecks evaluate fuel pre oneShot = ExpectRaised t e ->
  isJavaScriptErrorInEvaluate e || isInvalidSelectorError e = true.
Proof.
  unfold expect.
  destruct (expectBody sc options preChecks evaluate fuel pre oneShot)
    as [[t' r|t' e'|k t'] last]; try discriminate.
  destruct (isJavaScriptErrorInEvaluate e' || isInvalidSelectorError e') eqn:He;
    [|discriminate].
  intros [= <- <-]. assumption.
Qed.

Lemma expect_catches fuel pre oneShot t e last :
  expectBody sc options preChecks evaluate fuel pre oneShot = (Threw t e, last) ->
  isJavaScriptErrorInEvaluate e = false ->
  isInvalidSelectorError e = false ->
  expect sc options preChecks evaluate fuel pre oneShot
  = ExpectReturned t
      (mkResult (isNot options)
                (if isSet last then lastReceived last else None)
                (if isTimeoutError e then Some true else None)).
Proof.
  intros Hbody Hjs Hsel. unfold expect. rewrite Hbody, Hjs, Hsel. reflexivity.
Qed.

(** an evaluation that does not match is recorded *)
Lemma _expectInternal_records last noAbort start run t m r last' :
  _expectInternal sc options last noAbort start run = (Resolved t (m, r), last') ->
  m = isNot options ->
  isSet last' = true
  /\ exists miss, evalResult run = EvalOk m r miss
       /\ lastReceived last'
          = if miss then Some (VString "<element(s) not found>") else r.
Proof.
  unfold _expectInternal. intros H ->.
  destruct (evalResult run) as [m' r' miss|e] eqn:Hrun.
  - destruct noAbort; unfold raceAgainst in H;
      [| destruct (progressAbort sc) as [[c reason]|];
         [destruct (c <=? evalEnd run)%Z; [discriminate|] |] ];
      injection H as <- <- <- <-; rewrite Bool.eqb_reflx; cbn; eauto.
  - destruct noAbort; unfold raceAgainst in H;
      [| destruct (progressAbort sc) as [[c reason]|];
         [destruct (c <=? evalEnd run)%Z |] ]; discriminate.
Qed.

(** *** A condition that never matches, under a timeout *)

(** An evaluation that does not match: the page answers that the
    condition does not hold, or the evaluation throws an error that is
    retried. *)
Definition unmatched (run : EvalRun) : Prop :=
  (exists r miss, evalResult run = EvalOk (isNot options) r miss)
  \/ (exists err, evalResult run = EvalThrew err
                  /\ isNonRetriableError false err = false).

(** The evaluations of a call, in the order in which they are made as
    long as nothing cuts the call short: the one-shot, then the one of
    each retried attempt, which starts when the pre-checks of the
    attempt have returned, after the wait that follows the evaluation
    before. *)
Fixpoint made (oneShot : EvalRun) (j : nat) : EvalRun :=
  match j with
  | 0 => oneShot
  | S k =>
      evaluate k
        (preEnd (preChecks k (evalEnd (made oneShot k)
                              + Z.max 0 (timeoutAt [100; 250; 500; 1000] k))%Z))
  end.

(** the instant at which the retried attempt [k] starts *)
Definition begins (oneShot : EvalRun) (k : nat) : Z :=
  (evalEnd (made oneShot k) + Z.max 0 (timeoutAt [100; 250; 500; 1000] k))%Z.

(** the page answered the evaluation, and [v] is what the answer leaves
    in [lastIntermediateResult.received] *)
Definition answered (run : EvalRun) (v : option Value) : Prop :=
  exists r miss,
    evalResult run = EvalOk (isNot options) r miss
    /\ v = if miss then Some (VString "<element(s) not found>") else r.

Definition threw (run : EvalRun) : Prop :=
  exists err, evalResult run = EvalThrew err.

(** [v] is the value recorded by the last of the evaluations
    [0], ..., [n] that the page answered; without any, there is none *)
Definition lastOf (oneShot : EvalRun) (n : nat) (v : option Value) : Prop :=
  (exists j, j <= n /\ answered (made oneShot j) v
             /\ forall i, j < i <= n -> threw (made oneShot i))
  \/ (v = None /\ forall i, i <= n -> threw (made oneShot i)).

Section NeverMatches.
Variables (c : Z) (e : Error) (oneShot : EvalRun).
Hypothesis Hprogress : progressAbort sc = Some (c, e).
Hypothesis Hopen : openScope sc = None.
Hypothesis Hattached : detachedScope sc = None.
Hypothesis Habort : isAbortError e = true.
Hypothesis Hpre : forall k t,
  preThrew (preChecks k t) = None /\ (t <= preEnd (preChecks k t))%Z.
Hypothesis Hmiss : forall k t,
  (t <= evalEnd (evaluate k t))%Z /\ unmatched (evaluate k t).
Hypothesis Hone : unmatched oneShot.

Abbreviation schedule := ([100; 250; 500; 1000]%Z) (only parsing).
Abbreviation step := (expectStep sc options preChecks evaluate) (only parsing).

(** what one evaluation leaves in [lastIntermediateResult] *)
Definition note (last : LastIntermediate) (run : EvalRun) : LastIntermediate :=
  match evalResult run with
  | EvalOk m r miss =>
      if Bool.eqb m (isNot options)
      then mkLast (if miss then Some (VString "<element(s) not found>") else r) true
      else last
  | EvalThrew _ => last
  end.

Fixpoint record (n : nat) : LastIntermediate :=
  match n with
  | 0 => note (mkLast None false) oneShot
  | S k => note (record k) (made oneShot (S k))
  end.

Lemma made_unmatched j : unmatched (made oneShot j).
Proof. destruct j as [|k]; [exact Hone | apply Hmiss]. Qed.

Lemma record_lastOf n :
  lastOf oneShot n (if isSet (record n) then lastReceived (record n) else None).
Proof.
  induction n as [|n IH].
  - cbn [record]. unfold note.
    destruct Hone as [(r & miss & Hr) | (err & Hr & _)]; rewrite Hr.
    + rewrite Bool.eqb_reflx. cbn. left. exists 0. split; [lia|].
      split; [exists r, miss; split; [exact Hr | reflexivity]|].
      intros i Hi. lia.
    + cbn. right. split; [reflexivity|]. intros i Hi.
      replace i with 0 by lia. exists err. exact Hr.
  - cbn [record]. unfold note.
    destruct (made_unmatched (S n)) as [(r & miss & Hr) | (err & Hr & _)];
      rewrite Hr.
    + rewrite Bool.eqb_reflx. cbn [isSet lastReceived]. left. exists (S n).
      split; [lia|]. split; [exists r, miss; split; [exact Hr | reflexivity]|].
      intros i Hi. lia.
    + destruct IH as [(j & Hj & Hans & Hlater) | (Hv & Hall)].
      * left. exists j. split; [lia|]. split; [exact Hans|].
        intros i Hi. destruct (decide (i = S n)) as [->|Hne].
        -- exists err. exact Hr.
        -- apply Hlater. lia.
      * right. split; [exact Hv|]. intros i Hi.
        destruct (decide (i = S n)) as [->|Hne].
        -- exists err. exact Hr.
        -- apply Hall. lia.
Qed.

Lemma firstClosure_progress : firstClosure sc = Some (c, e).
Proof. unfold firstClosure. rewrite Hprogress, Hopen, Hattached. reflexivity. Qed.

Lemma delay_positive k : 1 <= k -> (100 <= timeoutAt schedule k)%Z.
Proof.
  intros Hk. unfold timeoutAt.
  destruct k as [|[|[|[|[|k]]]]]; cbn; lia.
Qed.

Lemma made_forward k : (begins oneShot k <= evalEnd (made oneShot (S k)))%Z.
Proof.
  unfold begins. cbn [made].
  pose proof (proj2 (Hpre k (evalEnd (made oneShot k)
                             + Z.max 0 (timeoutAt schedule k))%Z)) as H1.
  pose proof (proj1 (Hmiss k (preEnd (preChecks k
                (evalEnd (made oneShot k)
                 + Z.max 0 (timeoutAt schedule k))%Z)))) as H2.
  lia.
Qed.

(** the retried attempt [k], once its wait is over: the timeout cuts
    its evaluation, or the evaluation is noted and the loop goes on *)
Lemma attempt_made fuel k :
  waited sc schedule k (evalEnd (made oneShot k))
  = Resolved (begins oneShot k) tt ->
  ((c <= evalEnd (made oneShot (S k)))%Z ->
   exists t,
     retryLoop sc schedule step (S fuel) k (evalEnd (made oneShot k)) (record k)
     = (Threw t e, record k))
  /\ ((evalEnd (made oneShot (S k)) < c)%Z ->
      retryLoop sc schedule step (S fuel) k (evalEnd (made oneShot k)) (record k)
      = retryLoop sc schedule step fuel (S k)
          (evalEnd (made oneShot (S k))) (record (S k))).
Proof.
  intros Hwait. cbn [retryLoop]. rewrite Hwait. unfold attempt, expectStep.
  rewrite (proj1 (Hpre k (begins oneShot k))).
  change (evaluate k (preEnd (preChecks k (begins oneShot k))))
    with (made oneShot (S k)).
  unfold _expectInternal, raceAgainst. rewrite Hprogress.
  set (run := made oneShot (S k)).
  assert (Hnote : record (S k) = note (record k) run) by reflexivity.
  split; intros Hc.
  - destruct (Z.leb_spec c (evalEnd run)) as [_|Hlt]; [|lia].
    destruct (evalResult run) as [m r miss|err]; cbn;
      unfold isNonRetriableError; rewrite Habort; eauto.
  - destruct (Z.leb_spec c (evalEnd run)) as [Hle|_]; [lia|].
    rewrite Hnote. unfold note.
    destruct (made_unmatched (S k)) as [(r & miss & Hr) | (err & Hr & Hretry)];
      fold run in Hr; rewrite Hr.
    + rewrite Bool.eqb_reflx. cbn. reflexivity.
    + cbn. rewrite Hattached. cbn. rewrite Hretry. reflexivity.
Qed.

Lemma waited_first :
  waited sc schedule 0 (evalEnd oneShot) = Resolved (begins oneShot 0) tt.
Proof. unfold waited, begins. cbn. rewrite Z.add_0_r. reflexivity. Qed.

Lemma waited_later k :
  1 <= k ->
  ((c <= begins oneShot k)%Z ->
   waited sc schedule k (evalEnd (made oneShot k))
   = Rejected (Z.max (evalEnd (made oneShot k)) c) e)
  /\ ((begins oneShot k < c)%Z ->
      waited sc schedule k (evalEnd (made oneShot k))
      = Resolved (begins oneShot k) tt).
Proof.
  intros Hk. pose proof (delay_positive k Hk) as Hd. unfold waited, begins.
  destruct (Z.eqb_spec (timeoutAt schedule k) 0) as [Hz|_]; [lia|].
  unfold backoff, raceAgainst. rewrite firstClosure_progress.
  split; intros Hc.
  - destruct (Z.leb_spec c (evalEnd (made oneShot k)
                            + Z.max 0 (timeoutAt schedule k))); [reflexivity | lia].
  - destruct (Z.leb_spec c (evalEnd (made oneShot k)
                            + Z.max 0 (timeoutAt schedule k))); [lia | reflexivity].
Qed.

(** the retried attempts from the second on, each after a wait of
    100ms at least: the timeout cuts one of them *)
Lemma retried m : forall k,
  1 <= k ->
  (c - evalEnd (made oneShot k) <= Z.of_nat m * 100)%Z ->
  exists fuel t n,
    retryLoop sc schedule step fuel k (evalEnd (made oneShot k)) (record k)
    = (Threw t e, record n)
    /\ k <= n
    /\ (forall j, k <= j < n -> (evalEnd (made oneShot (S j)) < c)%Z)
    /\ ((c <= begins oneShot n)%Z \/ (c <= evalEnd (made oneShot (S n)))%Z).
Proof.
  induction m as [|m IH]; intros k Hk Hm;
    pose proof (delay_positive k Hk) as Hd;
    destruct (waited_later k Hk) as [Hcut Hrun].
  - exists 1, (Z.max (evalEnd (made oneShot k)) c), k.
    assert (Hc : (c <= begins oneShot k)%Z) by (unfold begins; lia).
    cbn [retryLoop]. rewrite (Hcut Hc).
    split; [reflexivity|]. split; [lia|]. split; [intros j Hj; lia | left; exact Hc].
  - destruct (Z.le_gt_cases c (begins oneShot k)) as [Hc|Hc].
    + exists 1, (Z.max (evalEnd (made oneShot k)) c), k.
      cbn [retryLoop]. rewrite (Hcut Hc).
      split; [reflexivity|]. split; [lia|].
      split; [intros j Hj; lia | left; exact Hc].
    + assert (Hwait := Hrun ltac:(lia)).
      destruct (Z.le_gt_cases c (evalEnd (made oneShot (S k)))) as [Hc'|Hc'].
      * destruct (proj1 (attempt_made 0 k Hwait) Hc') as (t & Ht).
        exists 1, t, k. split; [exact Ht|]. split; [lia|].
        split; [intros j Hj; lia | right; exact Hc'].
      * pose proof (made_forward k) as Hfw.
        destruct (IH (S k)) as (fuel & t & n & Hloop & Hn & Hbefore & Hlast);
          [lia | unfold begins in *; lia |].
        exists (S fuel), t, n.
        rewrite (proj2 (attempt_made fuel k Hwait) ltac:(lia)).
        split; [exact Hloop|]. split; [lia|]. split; [|exact Hlast].
        intros j Hj. destruct (decide (j = k)) as [->|Hne]; [lia|].
        apply Hbefore. lia.
Qed.

Lemma never_matching_times_out pre :
  preThrew pre = None ->
  exists fuel t n,
    expectBody sc options preChecks evaluate fuel pre oneShot
    = (Threw t e, record n)
    /\ (forall j, j < n -> (evalEnd (made oneShot (S j)) < c)%Z)
    /\ ((c <= begins oneShot n)%Z \/ (c <= evalEnd (made oneShot (S n)))%Z).
Proof.
  intros Hpre0.
  assert (Hbody : forall fuel,
    expectBody sc options preChecks evaluate fuel pre oneShot
    = retryLoop sc schedule step fuel 0 (evalEnd (made oneShot 0)) (record 0)).
  { intros fuel. unfold expectBody. rewrite Hpre0.
    unfold _expectInternal, raceAgainst. cbn [record]. unfold note.
    destruct Hone as [(r & miss & Hr) | (err & Hr & Hretry)]; rewrite Hr.
    - rewrite Bool.eqb_reflx. reflexivity.
    - rewrite Hattached. cbn. rewrite Hretry. reflexivity. }
  destruct (Z.le_gt_cases c (evalEnd (made oneShot 1))) as [Hc|Hc].
  - destruct (proj1 (attempt_made 0 0 waited_first) Hc) as (t & Ht).
    exists 1, t, 0. rewrite Hbody. split; [exact Ht|].
    split; [intros j Hj; lia | right; exact Hc].
  - destruct (retried (Z.to_nat (c - evalEnd (made oneShot 1))) 1)
      as (fuel & t & n & Hloop & Hn & Hbefore & Hlast); [lia | lia |].
    exists (S fuel), t, n. rewrite Hbody.
    rewrite (proj2 (attempt_made fuel 0 waited_first) ltac:(lia)).
    split; [exact Hloop|]. split; [|exact Hlast].
    intros j Hj. destruct (decide (j = 0)) as [->|Hne]; [lia|].
    apply Hbefore. lia.
Qed.

End NeverMatches.

(** C5.  [expect] raises only a JavaScript error in evaluate or an
    invalid-selector error; whatever else ends its attempts (a timeout,
    a closed scope) makes it return a result with [matches] equal to
    [isNot], the value that [lastIntermediateResult] holds when one was
    recorded, and [timedOut] set when the error is a [TimeoutError].
    A condition that keeps failing to match (each evaluation is
    answered with a mismatch or throws an error that is retried) until
    the timeout of the call comes back as such a result, with
    [timedOut] set: with [n] the number of retried evaluations that
    settled before the timeout, which cut the attempt after them during
    its wait or its evaluation, the value received is the one recorded
    by the last evaluation, among the one-shot and those [n], that the
    page answered, and there is none when the page answered none. *)
Theorem expect_returns_a_result_unless_programmer_error pre oneShot :
  (forall fuel t e,
     expect sc options preChecks evaluate fuel pre oneShot = ExpectRaised t e ->
     isJavaScriptErrorInEvaluate e || isInvalidSelectorError e = true)
  /\ (forall fuel t e last,
        expectBody sc options preChecks evaluate fuel pre oneShot = (Threw t e, last) ->
        isJavaScriptErrorInEvaluate e = false ->
        isInvalidSelectorError e = false ->
        expect sc options preChecks evaluate fuel pre oneShot
        = ExpectReturned t
            (mkResult (isNot options)
                      (if isSet last then lastReceived last else None)
                      (if isTimeoutError e then Some true else None)))
  /\ (forall c e,
        progressAbort sc = Some (c, e) ->
        openScope sc = None ->
        detachedScope sc = None ->
        isAbortError e = true ->
        isTimeoutError e = true ->
        (forall k t, preThrew (preChecks k t) = None
                     /\ (t <= preEnd (preChecks k t))%Z) ->
        (forall k t, (t <= evalEnd (evaluate k t))%Z
                     /\ unmatched (evaluate k t)) ->
        preThrew pre = None ->
        unmatched oneShot ->
        exists fuel t n v,
          expect sc options preChecks evaluate fuel pre oneShot
          = ExpectReturned t (mkResult (isNot options) v (Some true))
          /\ (forall k, k < n -> (evalEnd (made oneShot (S k)) < c)%Z)
          /\ ((c <= begins oneShot n)%Z \/ (c <= evalEnd (made oneShot (S n)))%Z)
          /\ lastOf oneShot n v).
Proof.
  split; [intros; eapply expect_raises_programmer_errors; eassumption|].
  split; [intros; apply expect_catches; assumption|].
  intros c e Hprog Hopen Hatt Habort Htimeout Hpre Hmiss Hpre0 Hone.
  destruct (never_matching_times_out c e oneShot Hprog Hopen Hatt Habort
              Hpre Hmiss Hone pre Hpre0) as (fuel & t & n & Hbody & Hbefore & Hcut).
  exists fuel, t, n,
    (if isSet (record oneShot n) then lastReceived (record oneShot n) else None).
  split; [|split; [exact Hbefore | split; [exact Hcut|]]].
  - rewrite (expect_catches fuel pre oneShot t e _ Hbody).
    + rewrite Htimeout. reflexivity.
    + unfold isJavaScriptErrorInEvaluate. unfold isTimeoutError in Htimeout.
      destruct (errClass e); (reflexivity || discriminate).
    + unfold isInvalidSelectorError. unfold isTimeoutError in Htimeout.
      destruct (errClass e); (reflexivity || discriminate).
  - apply (record_lastOf oneShot Hmiss Hone).
Qed.

(** C8, as the code has it.  Once the pre-checks of step 1 have
    returned, the one-shot evaluation is awaited without racing the
    progress: when it matches (relative to [isNot]), [expect] returns
    its answer, [matches] being the negation of [isNot], whatever the
    scopes and however short the timeout. *)
Theorem one_shot_is_not_raced fuel pre oneShot m r miss :
  preThrew pre = None ->
  evalResult oneShot = EvalOk m r miss ->
  m <> isNot options ->
  expect sc options preChecks evaluate fuel pre oneShot
  = ExpectReturned (evalEnd oneShot) (mkResult m r None)
  /\ m = negb (isNot options).
Proof.
  intros Hpre0 Hone Hm.
  assert (Heq : Bool.eqb m (isNot options) = false)
    by (destruct m, (isNot options); (reflexivity || congruence)).
  split; [|destruct m, (isNot options); (reflexivity || congruence)].
  unfold expect, expectBody. rewrite Hpre0.
  unfold _expectInternal, raceAgainst. rewrite Hone, Heq. reflexivity.
Qed.

End Expect.

End ExpectFacts.

Module ExpectRuns.
Import Errors Scopes Retry Expect Samples ExpectFacts.

(** the element stays hidden and the call times out 10ms in: the wait
    before the second retried attempt is cut short *)
Example hidden_element_times_out :
  expect timesOutAt10 toBeVisible quickChecks staysHidden 3
         (quickChecks 0 0) (staysHidden 0 1)
  = ExpectReturned 10 (mkResult false (Some (VString "hidden")) (Some true)).
Proof. reflexivity. Qed.

(** [expect(locator).toHaveText("ready")] on an element whose text
    changes between the attempts; the page answers in 2ms *)
Definition toHaveText : FrameExpectParams := mkParams false "to.have.text".

Definition blank (t : Z) : EvalRun :=
  mkEvalRun (t + 2)%Z (EvalOk false (Some (VString "")) false).

Definition keepsLoading (k : nat) (t : Z) : EvalRun :=
  mkEvalRun (t + 2)%Z
    (EvalOk false
       (Some (VString (match k with 0 => "loading" | _ => "still loading" end)))
       false).

Definition timeout150 : Error :=
  mkError TimeoutError true "Timeout 150ms exceeded.".

Definition timesOutAt150 : Scopes := mkScopes (Some (150%Z, timeout150)) None None.

(** the one-shot and two retried evaluations are answered before the
    timeout, which cuts the wait of 250ms before the third attempt: the
    value received is the one of the second retried evaluation *)
Example last_text_is_received :
  expect timesOutAt150 toHaveText quickChecks keepsLoading 5
         (quickChecks 0 0) (blank 1)
  = ExpectReturned 150 (mkResult false (Some (VString "still loading")) (Some true))
  /\ evalEnd (made quickChecks keepsLoading (blank 1) 2) = 109%Z
  /\ begins quickChecks keepsLoading (blank 1) 2 = 359%Z.
Proof. repeat split. Qed.

Lemma expect_returns_a_result_unless_programmer_error_witness :
  progressAbort timesOutAt150 = Some (150%Z, timeout150)
  /\ isTimeoutError timeout150 = true
  /\ preThrew (quickChecks 0 0) = None
  /\ unmatched toHaveText (blank 1)
  /\ exists fuel t n v,
       expect timesOutAt150 toHaveText quickChecks keepsLoading fuel
              (quickChecks 0 0) (blank 1)
       = ExpectReturned t (mkResult (isNot toHaveText) v (Some true))
       /\ (forall k, k < n ->
             (evalEnd (made quickChecks keepsLoading (blank 1) (S k)) < 150)%Z)
       /\ ((150 <= begins quickChecks keepsLoading (blank 1) n)%Z
           \/ (150 <= evalEnd (made quickChecks keepsLoading (blank 1) (S n)))%Z)
       /\ lastOf toHaveText quickChecks keepsLoading (blank 1) n v.
Proof.
  split; [reflexivity|]. split; [reflexivity|]. split; [reflexivity|].
  assert (Hone : unmatched toHaveText (blank 1))
    by (left; eexists _, _; reflexivity).
  split; [exact Hone|].
  apply (proj2 (proj2 (expect_returns_a_result_unless_programmer_error
                         timesOutAt150 toHaveText quickChecks keepsLoading
                         (quickChecks 0 0) (blank 1)))
           150%Z timeout150); try reflexivity; try exact Hone.
  - intros k t. split; [reflexivity | simpl; lia].
  - intros k t. split; [simpl; lia | left; eexists _, _; reflexivity].
Defined.

Lemma one_shot_is_not_raced_witness :
  preThrew (mkPreRun 0 None) = None
  /\ evalResult (isVisible 0) = EvalOk true (Some (VString "visible")) false
  /\ true <> isNot toBeVisible
  /\ expect timesOutAt1 toBeVisible quickChecks staysHidden 0
            (mkPreRun 0 None) (isVisible 0)
     = ExpectReturned 2 (mkResult true (Some (VString "visible")) None)
  /\ true = negb (isNot toBeVisible).
Proof.
  assert (H : true <> isNot toBeVisible) by (simpl; discriminate).
  split; [reflexivity|]. split; [reflexivity|]. split; [exact H|].
  apply (one_shot_is_not_raced timesOutAt1 toBeVisible quickChecks staysHidden 0
           (mkPreRun 0 None) (isVisible 0) true (Some (VString "visible")) false
           eq_refl eq_refl H).
Defined.

(** C8, as stated, fails: the element is visible when [expect] is
    called with a timeout of 1ms, but the pre-checks of step 1, which do
    race the progress, are cut by the timeout; the one-shot evaluation is
    never made and the call comes back as timed out. *)
Lemma visible_but_checks_timed_out :
  evalResult (isVisible 1) = EvalOk true (Some (VString "visible")) false
  /\ expect timesOutAt1 toBeVisible quickChecks staysHidden 5
            checksTimedOut (isVisible 1)
     = ExpectReturned 1 (mkResult false None (Some true)).
Proof. split; reflexivity. Qed.

End ExpectRuns.

(** ** [goto] *)

Module NavigationFacts.
Import Errors Strings Types Navigation.

Section Goto.
Context {casing : Casing}.
Variable extraHTTPHeaders : list (string * string).
Variable completeUserURL : string -> string.
Variable navigateFrame : string -> option string -> GotoResult + Error.
Variables navigationEvents laterEvents : list NavigationEvent.
Variables firedLifecycleEvents addedLifecycle : list LifecycleEvent.
Variable _redirectedNavigations : gmap string GotoOutcome.
Variable closedFirst : option Error.
Variable constructURLBasedOnBaseURL : string -> string.

Abbreviation gotoImpl :=
  (gotoImpl extraHTTPHeaders completeUserURL navigateFrame
            navigationEvents laterEvents firedLifecycleEvents addedLifecycle).

Abbreviation goto :=
  (goto extraHTTPHeaders completeUserURL navigateFrame
        navigationEvents laterEvents firedLifecycleEvents addedLifecycle
        _redirectedNavigations closedFirst constructURLBasedOnBaseURL).

Lemma firstMatching_satisfies {A} (predicate : A -> bool) buffered later event :
  firstMatching predicate buffered later = Some event ->
  predicate event = true.
Proof.
  unfold firstMatching, waitForEvent.
  destruct (List.filter predicate buffered) as [|x l] eqn:Hf.
  - intros H. apply find_some in H. apply H.
  - intros [= <-].
    assert (Hin : In x (List.filter predicate buffered))
      by (rewrite Hf; left; reflexivity).
    apply filter_In in Hin. apply Hin.
Qed.

Lemma sameId_true a b : sameId a b = true <-> a = b.
Proof. unfold sameId. apply bool_decide_eq_true. Qed.

Lemma sameId_false a b : sameId a b = false <-> a <> b.
Proof. unfold sameId. apply bool_decide_eq_false. Qed.

(** what [raceNavigationAction] makes of an action that returned *)
Lemma raced_response action response :
  raceNavigationAction _redirectedNavigations closedFirst action
  = GotoResponse response ->
  closedFirst = None
  /\ (action = GotoResponse response
      \/ exists e documentId,
           action = GotoThrew e
           /\ errClass e = NavigationAbortedError documentId
           /\ truthy documentId = true
           /\ _redirectedNavigations !! default "" documentId
              = Some (GotoResponse response)).
Proof.
  unfold raceNavigationAction.
  destruct closedFirst as [reason|]; [discriminate|].
  intros Hraced. split; [reflexivity|].
  destruct action as [r|e|]; [left; assumption | | discriminate].
  right. exists e.
  destruct (errClass e) as [| | | | |documentId|] eqn:Hclass; try discriminate.
  exists documentId.
  destruct (truthy documentId); [|discriminate].
  destruct (_redirectedNavigations !! default "" documentId) as [gotoPromise|];
    [|discriminate].
  subst gotoPromise. repeat split; reflexivity.
Qed.

(** C1, as the code has it.  When the navigate command answered with a
    new document id, the notification that ends the wait is the first
    that either carries that id or committed another document.  If it
    carries another id, [gotoImpl] throws a [NavigationAbortedError]
    for the requested id ("interrupted by another navigation"), and
    [goto] throws the reason of the scope that closed first, if one
    did; otherwise it settles as the [goto] of the redirect registered
    under the requested id, if there is one, and otherwise throws that
    [NavigationAbortedError].  [goto] returns a response only when no
    scope closed first, and then only from a notification that carries
    the requested id and no error, or from the redirect registered
    under the document id of a [NavigationAbortedError] that [gotoImpl]
    threw. *)
Theorem superseding_commit_aborts_goto url options waitUntil referer navigateResult :
  verifyLifecycle "waitUntil" (default "load" (Navigation.waitUntil options))
  = inl waitUntil ->
  requestedReferer extraHTTPHeaders options = inl referer ->
  navigateFrame (completeUserURL (constructURLBasedOnBaseURL url)) referer
  = inl navigateResult ->
  truthy (newDocumentId navigateResult) = true ->
  (forall event document,
     firstMatching (expectedOrCommitted navigateResult) navigationEvents laterEvents
     = Some event ->
     newDocument event = Some document ->
     documentId document <> newDocumentId navigateResult ->
     let aborted :=
       mkError (NavigationAbortedError (newDocumentId navigateResult)) false
         ("Navigation to "
          +:+ quoted (completeUserURL (constructURLBasedOnBaseURL url))
          +:+ " is interrupted by another navigation to "
          +:+ quoted (Types.url event)) in
     gotoImpl (constructURLBasedOnBaseURL url) options = GotoThrew aborted
     /\ goto url options
        = match closedFirst with
          | Some reason => GotoThrew reason
          | None =>
              match _redirectedNavigations
                    !! default "" (newDocumentId navigateResult) with
              | Some gotoPromise => gotoPromise
              | None => GotoThrew aborted
              end
          end)
  /\ (forall response,
        goto url options = GotoResponse response ->
        closedFirst = None
        /\ ((exists event document,
               firstMatching (expectedOrCommitted navigateResult)
                             navigationEvents laterEvents = Some event
               /\ newDocument event = Some document
               /\ documentId document = newDocumentId navigateResult
               /\ error event = None
               /\ response = request document)
            \/ (exists e documentId,
                  gotoImpl (constructURLBasedOnBaseURL url) options = GotoThrew e
                  /\ errClass e = NavigationAbortedError documentId
                  /\ truthy documentId = true
                  /\ _redirectedNavigations !! default "" documentId
                     = Some (GotoResponse response)))).
Proof.
  intros Hlife Href Hnav Htruthy. split.
  - intros event document Hfirst Hdoc Hne aborted.
    assert (Himpl : gotoImpl (constructURLBasedOnBaseURL url) options
                    = GotoThrew aborted).
    { unfold Navigation.gotoImpl. rewrite Hlife, Href, Hnav.
      unfold awaitNavigation. rewrite Htruthy, Hfirst, Hdoc. cbn.
      apply sameId_false in Hne. rewrite Hne. reflexivity. }
    split; [exact Himpl|].
    unfold Navigation.goto. rewrite Himpl. unfold raceNavigationAction.
    destruct closedFirst as [reason|]; [reflexivity|].
    cbn. rewrite Htruthy. reflexivity.
  - intros response Hgoto. unfold Navigation.goto in Hgoto.
    apply raced_response in Hgoto as [Hopen [Himpl | Hredirect]].
    2: { split; [exact Hopen | right; exact Hredirect]. }
    split; [exact Hopen|]. left. revert Himpl.
    unfold Navigation.gotoImpl. rewrite Hlife, Href, Hnav.
    unfold awaitNavigation. rewrite Htruthy.
    destruct (firstMatching _ _ _) as [event|] eqn:Hfirst; [|discriminate].
    pose proof (firstMatching_satisfies _ _ _ _ Hfirst) as Hsat.
    unfold expectedOrCommitted in Hsat.
    destruct (newDocument event) as [document|] eqn:Hdoc; [|discriminate].
    cbn. destruct (sameId (documentId document) (newDocumentId navigateResult))
      eqn:Hid; cbn; [|discriminate].
    destruct (error event) as [e|] eqn:Herr; [discriminate|].
    unfold finishGoto. rewrite Hdoc. intros Hresp.
    exists event, document. apply sameId_true in Hid.
    repeat (split; [assumption || reflexivity|]).
    destruct (has _ _); [congruence|].
    destruct (waitForEvent _ _); congruence.
Qed.

End Goto.

End NavigationFacts.

Module NavigationRuns.
Import Errors Strings Types Navigation Samples NavigationFacts.

#[local] Existing Instance asciiCasing.

(** C1, as stated, fails: the command answered with [docA], the
    notification collected is the commit of [docB], without error, and
    the milestone has fired; [goto] throws instead of returning the
    response of [docB]. *)
Lemma goto_throws_when_superseded :
  expectedOrCommitted (mkGotoResult (Some "docA")) committedB = true
  /\ error committedB = None
  /\ goto [] id startsA [committedB] [] [commit; domcontentloaded; load] []
          ∅ None id "http://a.test/" (mkGotoOptions None None)
     = GotoThrew interruptedA.
Proof. repeat split. Qed.

Lemma superseding_commit_aborts_goto_witness :
  verifyLifecycle "waitUntil" "load" = inl load
  /\ requestedReferer [] (mkGotoOptions None None) = inl None
  /\ truthy (Some "docA") = true
  /\ firstMatching (expectedOrCommitted (mkGotoResult (Some "docA"))) [committedB] []
     = Some committedB
  /\ Some "docB" <> Some "docA"
  /\ goto [] id startsA [committedB] [] [commit; domcontentloaded; load] []
          ∅ None id "http://a.test/" (mkGotoOptions None None)
     = GotoThrew interruptedA.
Proof.
  assert (Hne : Some "docB" <> Some "docA") by discriminate.
  split; [reflexivity|]. split; [reflexivity|]. split; [reflexivity|].
  split; [reflexivity|]. split; [exact Hne|].
  apply (proj1 (superseding_commit_aborts_goto [] id startsA [committedB] []
                  [commit; domcontentloaded; load] [] ∅ None id
                  "http://a.test/" (mkGotoOptions None None) load None
                  (mkGotoResult (Some "docA")) eq_refl eq_refl eq_refl eq_refl)
           committedB (mkDocumentInfo (Some "docB") (Some requestB))
           eq_refl eq_refl Hne).
Defined.

(** a redirect registered under [docA] settles the call instead *)
Example redirect_answers_for_goto :
  goto [] id startsA [committedB] [] [commit; domcontentloaded; load] []
       {["docA" := GotoResponse (Some requestB)]} None id
       "http://a.test/" (mkGotoOptions None None)
  = GotoResponse (Some requestB).
Proof. reflexivity. Qed.

End NavigationRuns.

(** ** The frame tree *)

Module TreeFacts.
Import Errors Types Frames.

(** Induction on a frame, with the property for each of its children. *)
Lemma Frame_ind (P : Frame -> Prop) :
  (forall d children, Forall P children -> P (mkFrame d children)) ->
  forall f, P f.
Proof.
  intros step. fix IH 1. intros [d children]. apply step.
  revert children. fix IHchildren 1. intros [|child rest].
  - constructor.
  - constructor; [apply IH | apply IHchildren].
Qed.

Lemma map_lookup {A B} (g : A -> B) (l : list A) i :
  map g l !! i = g <$> l !! i.
Proof.
  revert i. induction l as [|x l IH]; intros [|i]; cbn; auto.
Qed.

(** *** [lookupAt] and [modifyAt] *)

Lemma lookupAt_app p q t :
  lookupAt (p ++ q) t = lookupAt p t ≫= lookupAt q.
Proof.
  revert t. induction p as [|i p IH]; intros t; cbn; [reflexivity|].
  destruct (_childFrames t !! i); cbn; auto.
Qed.

Lemma modifyAt_app p q g t :
  modifyAt (p ++ q) g t = modifyAt p (modifyAt q g) t.
Proof.
  revert t. induction p as [|i p IH]; intros t; cbn; [reflexivity|].
  f_equal. apply list_alter_ext; auto.
Qed.

Lemma lookupAt_modifyAt p g t :
  lookupAt p (modifyAt p g t) = g <$> lookupAt p t.
Proof.
  revert t. induction p as [|i p IH]; intros t; cbn; [reflexivity|].
  rewrite list_lookup_alter_eq.
  destruct (_childFrames t !! i); cbn; auto.
Qed.

Lemma modifyAt_compose p g h t :
  modifyAt p g (modifyAt p h t) = modifyAt p (fun f => g (h f)) t.
Proof.
  revert t. induction p as [|i p IH]; intros t; cbn; [reflexivity|].
  f_equal. rewrite list_alter_alter_eq.
  apply list_alter_ext; [intros x _; cbn; apply IH | reflexivity].
Qed.

(** only the frame at the position matters *)
Lemma modifyAt_ext p g h t n :
  lookupAt p t = Some n -> g n = h n -> modifyAt p g t = modifyAt p h t.
Proof.
  revert t. induction p as [|i p IH]; intros t; cbn.
  - intros [= ->]. auto.
  - destruct (_childFrames t !! i) as [child|] eqn:Hi; [|discriminate].
    intros Hn Heq. f_equal.
    apply list_eq. intros j. rewrite !list_lookup_alter.
    destruct (decide (i = j)) as [<-|]; [|reflexivity].
    rewrite Hi. cbn. f_equal. eauto.
Qed.

Lemma modifyAt_id p g t n :
  lookupAt p t = Some n -> g n = n -> modifyAt p g t = t.
Proof.
  revert t. induction p as [|i p IH]; intros t; cbn.
  - intros [= ->]. auto.
  - destruct (_childFrames t !! i) as [child|] eqn:Hi; [|discriminate].
    intros Hn Heq. destruct t as [d children]. cbn in *. f_equal.
    apply list_eq. intros j. rewrite list_lookup_alter.
    destruct (decide (i = j)) as [<-|]; [|reflexivity].
    rewrite Hi. cbn. f_equal. eauto.
Qed.

Lemma removeAt_cons i p t :
  p <> [] ->
  removeAt (i :: p) t = mkFrame (fdata t) (alter (removeAt p) i (_childFrames t)).
Proof. destruct p; [contradiction | reflexivity]. Qed.

(** a child leaves: it is deleted from the children of its parent *)
Lemma removeAt_snoc p i t :
  removeAt (p ++ [i]) t
  = modifyAt p (fun f => mkFrame (fdata f) (delete i (_childFrames f))) t.
Proof.
  revert t. induction p as [|j p IH]; intros t; [reflexivity|].
  cbn [app modifyAt]. rewrite removeAt_cons by (destruct p; discriminate).
  f_equal. apply list_alter_ext; auto.
Qed.

Lemma findPath_lookupAt o t p :
  findPath o t = Some p ->
  exists n, lookupAt p t = Some n /\ oid (fdata n) = o.
Proof.
  revert p. induction t as [d children IH] using Frame_ind. intros p. cbn.
  destruct (decide (oid d = o)) as [Ho|Ho].
  - intros [= <-]. eexists. split; [reflexivity | assumption].
  - enough (Hgen : forall k rest,
             (forall i c, rest !! i = Some c -> children !! (k + i) = Some c) ->
             Forall (fun c => forall p, findPath o c = Some p ->
                        exists n, lookupAt p c = Some n /\ oid (fdata n) = o) rest ->
             (fix among (children : list Frame) (i : nat) : option path :=
                match children with
                | [] => None
                | child :: rest =>
                    match findPath o child with
                    | Some p => Some (i :: p)
                    | None => among rest (S i)
                    end
                end) rest k = Some p ->
             exists n, lookupAt p (mkFrame d children) = Some n /\ oid (fdata n) = o).
    { apply (Hgen 0 children); [intros; assumption | assumption]. }
    clear IH. intros k rest. revert k.
    induction rest as [|c rest IHrest]; intros k Hidx Hall; [discriminate|].
    inversion Hall as [|? ? Hc Hrest]; subst.
    destruct (findPath o c) as [q|] eqn:Hq.
    + intros [= <-]. destruct (Hc q eq_refl) as (n & Hn & Hoid).
      exists n. split; [|assumption]. cbn.
      rewrite <- (Nat.add_0_r k), (Hidx 0 c eq_refl). assumption.
    + apply IHrest; [|assumption].
      intros i c' Hi. replace (S k + i) with (k + S i) by lia. apply Hidx. assumption.
Qed.

(** a change below one child leaves the other children as they are *)
Lemma lookupAt_modifyAt_off q i j rest g t :
  i <> j ->
  lookupAt (q ++ [j]) (modifyAt (q ++ i :: rest) g t) = lookupAt (q ++ [j]) t.
Proof.
  intros Hij. revert t. induction q as [|a q IH]; intros [d children]; cbn.
  - rewrite list_lookup_alter_ne by assumption. reflexivity.
  - rewrite list_lookup_alter_eq. destruct (children !! a); cbn; auto.
Qed.

(** a position that is not in the tree: nothing is written *)
Lemma modifyAt_invalid p g t : lookupAt p t = None -> modifyAt p g t = t.
Proof.
  revert t. induction p as [|i p IH]; intros [d children]; cbn; [discriminate|].
  intros Hnone. f_equal. apply list_eq. intros j. rewrite list_lookup_alter.
  destruct (decide (i = j)) as [<-|]; [|reflexivity].
  destruct (children !! i) as [child|]; [|reflexivity].
  cbn. rewrite IH by assumption. reflexivity.
Qed.

End TreeFacts.

(** ** Network idle *)

Module IdleFacts.
Import Errors Types Frames TreeFacts.

(** a property of every frame object of a subtree *)
Definition every (P : FrameData -> Prop) (t : Frame) : Prop :=
  Forall P (postorder t).

Lemma every_node P d children :
  every P (mkFrame d children) <-> P d /\ Forall (every P) children.
Proof.
  unfold every. cbn [postorder fdata _childFrames].
  rewrite Forall_app, Forall_flat_map, Forall_singleton. tauto.
Qed.

Lemma every_lookupAt P p t n :
  every P t -> lookupAt p t = Some n -> every P n.
Proof.
  revert t. induction p as [|i p IH]; intros [d children]; cbn.
  - intros H [= <-]. assumption.
  - rewrite every_node. intros [_ H].
    destruct (children !! i) as [child|] eqn:Hi; [|discriminate].
    apply IH. eapply Forall_lookup_1; eassumption.
Qed.

(** *** The sets of fired events *)

Lemma has_addLifecycle e e' d :
  has e (addLifecycle e' d) = bool_decide (e = e') || has e d.
Proof.
  unfold addLifecycle. destruct (has e' d) eqn:He'.
  - destruct (bool_decide_reflect (e = e')) as [->|]; [|reflexivity].
    rewrite He'. reflexivity.
  - unfold has. destruct d; cbn.
    apply eq_true_iff_eq. rewrite orb_true_iff, !bool_decide_eq_true.
    rewrite elem_of_app, list_elem_of_singleton. tauto.
Qed.

Lemma has_deleteLifecycle e e' d :
  has e (deleteLifecycle e' d) = negb (bool_decide (e = e')) && has e d.
Proof.
  unfold deleteLifecycle, has. destruct d; cbn.
  apply eq_true_iff_eq. rewrite andb_true_iff, negb_true_iff.
  rewrite !bool_decide_eq_true, bool_decide_eq_false.
  rewrite list_elem_of_In, filter_In, <- list_elem_of_In.
  rewrite negb_true_iff, bool_decide_eq_false. tauto.
Qed.

(** what [_recalculateNetworkIdle] does to the frame itself, once its
    children are done: [idle] is [isNetworkIdle] *)
Definition settle (allowed : option nat) (idle : bool) (d : FrameData) : FrameData :=
  let d1 := if idle && negb (has networkidle d) then addLifecycle networkidle d else d in
  if negb (bool_decide (allowed = Some (oid d1))) && has networkidle d1 && negb idle
  then deleteLifecycle networkidle d1 else d1.

Definition idleNow (d : FrameData) (children : list Frame) : bool :=
  _firedNetworkIdleSelf d && forallb (fun child => has networkidle (fdata child)) children.

Lemma recalc_node allowed d children :
  _recalculateNetworkIdle allowed (mkFrame d children)
  = let children' := map (_recalculateNetworkIdle allowed) children in
    mkFrame (settle allowed (idleNow d children') d) children'.
Proof. reflexivity. Qed.

Lemma settle_fired allowed idle d :
  exists l, settle allowed idle d = set_firedLifecycleEvents l d.
Proof.
  unfold settle, addLifecycle, deleteLifecycle.
  destruct d; cbn.
  repeat match goal with |- context [if ?b then _ else _] => destruct b end;
    cbn; eexists; reflexivity.
Qed.

Lemma has_settle_other allowed idle d e :
  e <> networkidle -> has e (settle allowed idle d) = has e d.
Proof.
  intros He. unfold settle.
  repeat match goal with |- context [if ?b then _ else _] => destruct b end;
    rewrite ?has_deleteLifecycle, ?has_addLifecycle;
    rewrite ?(bool_decide_eq_false_2 (e = networkidle)) by assumption;
    reflexivity.
Qed.

Lemma has_settle_none idle d :
  has networkidle (settle None idle d) = idle.
Proof.
  unfold settle.
  cbv zeta. rewrite bool_decide_eq_false_2 by discriminate. cbn [negb andb].
  destruct idle, (has networkidle d) eqn:Hd; cbn [negb andb];
    rewrite ?has_addLifecycle, ?Hd, ?andb_false_r, ?andb_true_r; cbn [negb andb];
    rewrite ?has_deleteLifecycle, ?has_addLifecycle, ?Hd;
    rewrite ?bool_decide_eq_true_2 by reflexivity; reflexivity.
Qed.

Lemma settle_self allowed idle d :
  _firedNetworkIdleSelf (settle allowed idle d) = _firedNetworkIdleSelf d.
Proof. destruct (settle_fired allowed idle d) as [l ->]. destruct d; reflexivity. Qed.

Lemma settle_oid allowed idle d : oid (settle allowed idle d) = oid d.
Proof. destruct (settle_fired allowed idle d) as [l ->]. destruct d; reflexivity. Qed.

(** the recalculation works on each subtree by itself *)
Lemma lookupAt_recalc allowed p t :
  lookupAt p (_recalculateNetworkIdle allowed t)
  = _recalculateNetworkIdle allowed <$> lookupAt p t.
Proof.
  revert t. induction p as [|i p IH]; intros [d children]; [reflexivity|].
  rewrite recalc_node. cbn [lookupAt _childFrames].
  rewrite map_lookup. destruct (children !! i); cbn; auto.
Qed.

Lemma recalc_fdata allowed t :
  exists l, fdata (_recalculateNetworkIdle allowed t)
            = set_firedLifecycleEvents l (fdata t)
    /\ forall e, e <> networkidle ->
         has e (fdata (_recalculateNetworkIdle allowed t)) = has e (fdata t).
Proof.
  destruct t as [d children]. rewrite recalc_node. cbn.
  destruct (settle_fired allowed
              (idleNow d (map (_recalculateNetworkIdle allowed) children)) d) as [l Hl].
  exists l. split; [assumption|]. intros e He. apply has_settle_other. assumption.
Qed.

(** *** Properties of every frame, through the operations on the tree *)

Lemma every_modifyAt P p g t :
  every P t ->
  (forall f, every P f -> every P (g f)) ->
  every P (modifyAt p g t).
Proof.
  intros Ht Hg. revert t Ht.
  induction p as [|i p IH]; intros [d children] Ht; cbn; [auto|].
  apply every_node in Ht as [Hd Hchildren]. apply every_node. split; [assumption|].
  apply Forall_alter; [assumption|]. intros child _. apply IH.
Qed.

Lemma every_onData P (g : FrameData -> FrameData) f :
  (forall d, P d -> P (g d)) -> every P f -> every P (onData g f).
Proof.
  intros Hg. destruct f as [d children]. unfold onData. cbn.
  rewrite !every_node. intros [Hd Hc]. auto.
Qed.

(** the frame at [p] may change in any way that leaves it with [P] *)
Lemma every_at P p g t n :
  lookupAt p t = Some n ->
  P (g (fdata n)) ->
  every P t -> every P (modifyAt p (onData g) t).
Proof.
  intros Hn Hg Ht.
  rewrite (modifyAt_ext p _ (fun _ => onData g n) t n Hn) by reflexivity.
  apply every_modifyAt; [exact Ht|]. intros f _. cbn beta.
  pose proof (every_lookupAt _ _ _ _ Ht Hn) as Hsub.
  destruct n as [d children]. unfold onData. cbn [fdata _childFrames] in *.
  apply every_node in Hsub as [Hd Hchildren]. apply every_node. auto.
Qed.

Lemma every_removeAt P p t :
  every P t -> every P (removeAt p t).
Proof.
  revert t. induction p as [|i p IH]; intros [d children] Ht; [assumption|].
  apply every_node in Ht as [Hd Hchildren].
  destruct p as [|j p].
  - cbn. apply every_node. split; [assumption|]. apply Forall_delete. assumption.
  - rewrite removeAt_cons by discriminate. apply every_node. split; [assumption|].
    apply Forall_alter; [assumption|]. intros child _. apply IH.
Qed.

Section Insensitive.
Variable P : FrameData -> Prop.
Hypothesis settled : forall allowed idle d, P d -> P (settle allowed idle d).

Lemma every_recalc allowed t :
  every P t -> every P (_recalculateNetworkIdle allowed t).
Proof.
  induction t as [d children IH] using Frame_ind.
  rewrite recalc_node. cbv zeta. rewrite !every_node. intros [Hd Hc].
  split; [apply settled; assumption|].
  apply Forall_map. rewrite Forall_forall in *. auto.
Qed.

Lemma every_modifyAt_recalc allowed p h t :
  (forall d, P (h d)) ->
  every P (modifyAt p (onData h) t) ->
  every P (modifyAt p (onData h) (_recalculateNetworkIdle allowed t)).
Proof.
  intros Hh. revert t.
  induction p as [|i p IH]; intros [d children]; rewrite recalc_node; cbv zeta.
  - cbn. unfold onData. cbn. rewrite !every_node. intros [_ Hc]. split; [apply Hh|].
    apply Forall_map. rewrite Forall_forall in *. intros c Hin.
    apply every_recalc. auto.
  - cbn. rewrite !every_node. intros [Hd Hc]. split; [apply settled; assumption|].
    rewrite Forall_lookup in Hc. apply Forall_lookup. intros j x.
    rewrite list_lookup_alter, !map_lookup.
    specialize (Hc j). rewrite list_lookup_alter in Hc.
    destruct (decide (i = j)) as [<-|].
    + destruct (children !! i) as [c|]; cbn; [|discriminate].
      intros [= <-]. apply IH. apply Hc. reflexivity.
    + destruct (children !! j) as [c|]; cbn; [|discriminate].
      intros [= <-]. apply every_recalc. apply Hc. reflexivity.
Qed.

End Insensitive.

(** *** Coherence: what a recalculation over the whole tree establishes *)

Definition coherentAt (f : Frame) : Prop :=
  has networkidle (fdata f)
  = _firedNetworkIdleSelf (fdata f)
    && forallb (fun child => has networkidle (fdata child)) (_childFrames f).

Definition coherent (t : Frame) : Prop := Forall coherentAt (subframes t).

Lemma coherent_node d children :
  coherent (mkFrame d children)
  <-> coherentAt (mkFrame d children) /\ Forall coherent children.
Proof.
  unfold coherent. cbn [subframes _childFrames].
  rewrite Forall_cons, Forall_flat_map. tauto.
Qed.

Lemma recalc_coherent t : coherent (_recalculateNetworkIdle None t).
Proof.
  induction t as [d children IH] using Frame_ind.
  rewrite recalc_node. cbv zeta. apply coherent_node. split.
  - unfold coherentAt. cbn [fdata _childFrames].
    rewrite has_settle_none, settle_self. reflexivity.
  - apply Forall_map. assumption.
Qed.

Lemma coherent_lookupAt p t n :
  coherent t -> lookupAt p t = Some n -> coherent n.
Proof.
  revert t. induction p as [|i p IH]; intros [d children]; cbn.
  - intros H [= <-]. assumption.
  - rewrite coherent_node. intros [_ H].
    destruct (children !! i) as [child|] eqn:Hi; [|discriminate].
    apply IH. eapply Forall_lookup_1; eassumption.
Qed.

(** a frame without [networkidle] keeps it from each of its ancestors *)
Lemma coherent_ancestors r : forall m n,
  coherent m -> lookupAt r m = Some n ->
  has networkidle (fdata n) = false -> has networkidle (fdata m) = false.
Proof.
  induction r as [|i r IH]; intros [d children] n; cbn.
  - intros _ [= <-]. auto.
  - intros Hm. destruct (children !! i) as [child|] eqn:Hi; [|discriminate].
    intros Hn Hidle. apply coherent_node in Hm as [Hat Hc].
    assert (Hchild : has networkidle (fdata child) = false).
    { eapply IH; [|eassumption..]. eapply Forall_lookup_1; eassumption. }
    unfold coherentAt in Hat. cbn in Hat. rewrite Hat.
    apply andb_false_iff. right. apply not_true_iff_false. intros Hall.
    rewrite forallb_forall in Hall.
    apply list_elem_of_lookup_2, list_elem_of_In in Hi.
    specialize (Hall _ Hi). cbn in Hall. congruence.
Qed.

(** a frame whose set agrees with [idle] is left as it is *)
Lemma settle_agreed allowed d : settle allowed (has networkidle d) d = d.
Proof.
  unfold settle. destruct (has networkidle d) eqn:Hd; cbn [negb andb].
  - rewrite Hd, andb_false_r. reflexivity.
  - rewrite Hd, andb_false_r. reflexivity.
Qed.

Lemma recalc_coherent_id allowed t :
  coherent t -> _recalculateNetworkIdle allowed t = t.
Proof.
  induction t as [d children IH] using Frame_ind.
  rewrite coherent_node. intros [Hat Hc]. rewrite recalc_node. cbv zeta.
  assert (Hsame : map (_recalculateNetworkIdle allowed) children = children).
  { clear Hat. induction children as [|c rest IHrest]; [reflexivity|].
    apply Forall_cons in IH as [IHc IH]. apply Forall_cons in Hc as [Hc Hrest].
    cbn. rewrite IHc, IHrest by assumption. reflexivity. }
  rewrite Hsame. unfold idleNow. unfold coherentAt in Hat. cbn in Hat.
  rewrite <- Hat, settle_agreed. reflexivity.
Qed.

(** writing a field that the recalculation does not read keeps coherence *)
Lemma coherent_modifyAt p g t :
  (forall d, has networkidle (g d) = has networkidle d) ->
  (forall d, _firedNetworkIdleSelf (g d) = _firedNetworkIdleSelf d) ->
  coherent t -> coherent (modifyAt p (onData g) t).
Proof.
  intros Hhas Hself. revert t.
  induction p as [|i p IH]; intros [d children]; rewrite coherent_node; cbn.
  - intros [Hat Hc]. unfold onData. cbn. apply coherent_node. split; [|assumption].
    unfold coherentAt in *. cbn in *. rewrite Hhas, Hself. assumption.
  - intros [Hat Hc]. apply coherent_node. split.
    + unfold coherentAt in *. cbn in *. rewrite Hat. f_equal.
      clear Hat Hc. revert i. induction children as [|c rest IHrest]; intros [|i];
        cbn; try reflexivity.
      * f_equal. destruct p; destruct c; cbn; [symmetry; apply Hhas | reflexivity].
      * f_equal. apply IHrest.
    + apply Forall_alter; [assumption|]. intros child _. apply IH.
Qed.

(** *** The claim's form: a frame and all its descendants *)

Definition descendants (f : Frame) : list FrameData :=
  flat_map postorder (_childFrames f).

Definition idleIffSubtree (f : Frame) : Prop :=
  has networkidle (fdata f) = true
  <-> _firedNetworkIdleSelf (fdata f) = true
      /\ (forall d, d ∈ descendants f -> has networkidle d = true).

Lemma coherent_all_idle t :
  coherent t -> has networkidle (fdata t) = true ->
  every (fun d => has networkidle d = true) t.
Proof.
  induction t as [d children IH] using Frame_ind.
  rewrite coherent_node. intros [Hat Hc] Hidle. apply every_node.
  split; [exact Hidle|].
  unfold coherentAt in Hat. cbn in Hat, Hidle. rewrite Hidle in Hat.
  symmetry in Hat. apply andb_true_iff in Hat as [_ Hall].
  rewrite forallb_forall in Hall.
  rewrite Forall_forall in *. intros c Hin.
  apply IH; [assumption | auto |]. apply Hall. apply list_elem_of_In. assumption.
Qed.

Lemma fdata_postorder f : fdata f ∈ postorder f.
Proof. destruct f. cbn. apply elem_of_app. right. apply list_elem_of_singleton. reflexivity. Qed.

Lemma coherent_idleIffSubtree t : coherent t -> Forall idleIffSubtree (subframes t).
Proof.
  induction t as [d children IH] using Frame_ind.
  rewrite coherent_node. intros [Hat Hc]. cbn [subframes _childFrames].
  apply Forall_cons. split.
  - unfold coherentAt in Hat. unfold idleIffSubtree, descendants.
    cbn [fdata _childFrames] in *. rewrite Hat, andb_true_iff, forallb_forall.
    split; intros [Hself Hall]; (split; [exact Hself|]).
    + intros d' Hd'. apply list_elem_of_In, in_flat_map in Hd' as (c & Hin & Hd').
      assert (Hevery : every (fun d => has networkidle d = true) c).
      { apply coherent_all_idle; [|apply Hall; assumption].
        rewrite Forall_forall in Hc. apply Hc. apply list_elem_of_In. assumption. }
      unfold every in Hevery. rewrite Forall_forall in Hevery.
      apply Hevery. apply list_elem_of_In. assumption.
    + intros c Hin. apply Hall. apply list_elem_of_In, in_flat_map.
      exists c. split; [assumption|]. apply list_elem_of_In, fdata_postorder.
  - apply Forall_flat_map. rewrite Forall_forall in *. auto.
Qed.

Lemma recalc_self allowed t :
  _firedNetworkIdleSelf (fdata (_recalculateNetworkIdle allowed t))
  = _firedNetworkIdleSelf (fdata t).
Proof. destruct (recalc_fdata allowed t) as (l & -> & _). reflexivity. Qed.

(** after a recalculation of the whole tree, a frame whose own timer has
    not run out is without [networkidle] *)
Lemma recalc_not_self t :
  _firedNetworkIdleSelf (fdata t) = false ->
  has networkidle (fdata (_recalculateNetworkIdle None t)) = false.
Proof.
  intros Hself. pose proof (recalc_coherent t) as Hcoh.
  pose proof (recalc_self None t) as Hkept.
  destruct (_recalculateNetworkIdle None t) as [d children].
  apply coherent_node in Hcoh as [Hat _]. unfold coherentAt in Hat.
  cbn [fdata _childFrames] in *. rewrite Hat, Hkept, Hself. reflexivity.
Qed.

Lemma idleIffSubtree_coherent t :
  Forall idleIffSubtree (subframes t) -> coherent t.
Proof.
  induction t as [d children IH] using Frame_ind.
  cbn [subframes _childFrames]. rewrite Forall_cons, Forall_flat_map.
  intros [Hat Hc]. apply coherent_node.
  assert (Hchildren : Forall coherent children).
  { rewrite Forall_forall in *. auto. }
  split; [|assumption].
  unfold idleIffSubtree, descendants in Hat. unfold coherentAt.
  cbn [fdata _childFrames] in *.
  destruct (has networkidle d) eqn:Hd.
  - destruct Hat as [Hat _]. destruct (Hat eq_refl) as [-> Hall].
    symmetry. apply forallb_forall. intros c Hin. apply Hall.
    apply list_elem_of_In, in_flat_map.
    exists c. split; [assumption|]. apply list_elem_of_In, fdata_postorder.
  - destruct (_firedNetworkIdleSelf d); [|reflexivity].
    destruct (forallb (fun child => has networkidle (fdata child)) children) eqn:Hall;
      [|reflexivity].
    destruct Hat as [_ Hat]. rewrite <- Hat; [reflexivity|]. split; [reflexivity|].
    rewrite forallb_forall in Hall.
    intros d' Hd'. apply list_elem_of_In, in_flat_map in Hd' as (c & Hin & Hd').
    assert (Hevery : every (fun d => has networkidle d = true) c).
    { apply coherent_all_idle; [|apply Hall; assumption].
      rewrite Forall_forall in Hchildren. apply Hchildren.
      apply list_elem_of_In. assumption. }
    unfold every in Hevery. rewrite Forall_forall in Hevery.
    apply Hevery. apply list_elem_of_In. assumption.
Qed.

End IdleFacts.

(** ** Running the methods of a frame *)

Module RunFacts.
Import Errors Types Frames TreeFacts IdleFacts.

#[local] Arguments modifyAt : simpl never.
#[local] Arguments lookupAt : simpl never.
#[local] Arguments removeAt : simpl never.
#[local] Arguments _recalculateNetworkIdle : simpl never.
#[local] Arguments addLifecycle : simpl never.
#[local] Arguments has : simpl never.
#[local] Arguments updateFrame : simpl never.
#[local] Arguments frameAt : simpl never.
#[local] Arguments subtreeAt : simpl never.
#[local] Arguments recalculateFromMainFrame : simpl never.
#[local] Arguments withContextData : simpl never.

(** the manager with [root] as the tree of the main frame *)
Definition withTree (root : Frame) (s : FrameManager) : FrameManager :=
  set_mainFrame (Some root) s.

Lemma withTree_same s root : _mainFrame s = Some root -> withTree root s = s.
Proof. destruct s. cbn. intros ->. reflexivity. Qed.

Lemma onData_id g n : g (fdata n) = fdata n -> onData g n = n.
Proof. destruct n as [d children]. unfold onData. cbn. intros ->. reflexivity. Qed.

Lemma bind_run {A B} (m : M A) (k : A -> M B) s a s' :
  m s = (Ok a, s') -> (m ≫= k) s = k a s'.
Proof. unfold mbind, M_bind. intros ->. reflexivity. Qed.

Lemma bind_throw {A B} (m : M A) (k : A -> M B) s e s' :
  m s = (Throw e, s') -> (m ≫= k) s = (Throw e, s').
Proof. unfold mbind, M_bind. intros ->. reflexivity. Qed.

Section At.
Variables (this : path) (s : FrameManager) (root n : Frame).
Hypothesis Hroot : _mainFrame s = Some root.
Hypothesis Hthis : lookupAt this root = Some n.

Lemma frameAt_run : frameAt this s = (Ok (fdata n), s).
Proof. unfold frameAt. rewrite Hroot. cbn. rewrite Hthis. reflexivity. Qed.

Lemma subtreeAt_run : subtreeAt this s = (Ok n, s).
Proof. unfold subtreeAt. rewrite Hroot. cbn. rewrite Hthis. reflexivity. Qed.

Lemma updateFrame_run g :
  updateFrame this g s = (Ok tt, withTree (modifyAt this (onData g) root) s).
Proof. unfold updateFrame, modify, withTree. rewrite Hroot. reflexivity. Qed.

Lemma recalculate_run frame :
  recalculateFromMainFrame frame s
  = (Ok tt, withTree (_recalculateNetworkIdle frame root) s).
Proof. unfold recalculateFromMainFrame, modify, withTree. rewrite Hroot. reflexivity. Qed.

Lemma lookupAt_updated g :
  lookupAt this (modifyAt this (onData g) root) = Some (onData g n).
Proof. rewrite lookupAt_modifyAt, Hthis. reflexivity. Qed.

End At.

Lemma withTree_root t s : _mainFrame (withTree t s) = Some t.
Proof. reflexivity. Qed.

Lemma withTree_withTree t t' s : withTree t (withTree t' s) = withTree t s.
Proof. reflexivity. Qed.

(** what [_startNetworkIdleTimer] does to a frame whose timer is not set *)
Definition arm (d : FrameData) : FrameData :=
  if has networkidle d || isDetached d then d
  else set_networkIdleTimer TimerArmed d.

Lemma _startNetworkIdleTimer_run this s root n :
  _mainFrame s = Some root ->
  lookupAt this root = Some n ->
  _networkIdleTimer (fdata n) = NoTimer ->
  _startNetworkIdleTimer this s
  = (Ok tt, withTree (modifyAt this (onData arm) root) s).
Proof.
  intros Hroot Hthis Htimer. unfold _startNetworkIdleTimer.
  rewrite (bind_run _ _ _ _ _ (frameAt_run this s root n Hroot Hthis)).
  rewrite Htimer, bool_decide_eq_true_2 by reflexivity.
  rewrite (bind_run _ _ s tt s eq_refl).
  destruct (has networkidle (fdata n) || isDetached (fdata n)) eqn:Hc.
  - rewrite (modifyAt_id this _ root n Hthis), (withTree_same _ _ Hroot); [reflexivity|].
    apply onData_id. unfold arm. rewrite Hc. reflexivity.
  - rewrite (updateFrame_run this s root Hroot). f_equal. f_equal.
    apply (modifyAt_ext this _ _ root n Hthis).
    unfold onData, arm. rewrite Hc. reflexivity.
Qed.

(** what [_onLifecycleEvent] does to the tree *)
Definition lifecycleTree (this : path) (event : RegularLifecycleEvent)
    (n root : Frame) : Frame :=
  if has (regular event) (fdata n) then root
  else _recalculateNetworkIdle None
         (modifyAt this (onData (addLifecycle (regular event))) root).

Lemma _onLifecycleEvent_run this event s root n :
  _mainFrame s = Some root ->
  lookupAt this root = Some n ->
  _onLifecycleEvent this event s
  = (Ok tt, withTree (lifecycleTree this event n root) s).
Proof.
  intros Hroot Hthis. unfold _onLifecycleEvent, lifecycleTree.
  rewrite (bind_run _ _ _ _ _ (frameAt_run this s root n Hroot Hthis)).
  destruct (has (regular event) (fdata n)).
  - rewrite (withTree_same _ _ Hroot). reflexivity.
  - rewrite (bind_run _ _ _ _ _ (updateFrame_run this s root Hroot _)).
    rewrite (recalculate_run _ _ (withTree_root _ _)). reflexivity.
Qed.

(** the same, from a manager whose tree is spelled out *)

Lemma frameAt_wt this T s n :
  lookupAt this T = Some n ->
  frameAt this (withTree T s) = (Ok (fdata n), withTree T s).
Proof. intros. apply (frameAt_run this _ T n); [reflexivity | assumption]. Qed.

Lemma subtreeAt_wt this T s n :
  lookupAt this T = Some n ->
  subtreeAt this (withTree T s) = (Ok n, withTree T s).
Proof. intros. apply (subtreeAt_run this _ T n); [reflexivity | assumption]. Qed.

Lemma updateFrame_wt this g T s :
  updateFrame this g (withTree T s)
  = (Ok tt, withTree (modifyAt this (onData g) T) s).
Proof. reflexivity. Qed.

Lemma recalculate_wt frame T s :
  recalculateFromMainFrame frame (withTree T s)
  = (Ok tt, withTree (_recalculateNetworkIdle frame T) s).
Proof. reflexivity. Qed.

Lemma _startNetworkIdleTimer_wt this T s n :
  lookupAt this T = Some n ->
  _networkIdleTimer (fdata n) = NoTimer ->
  _startNetworkIdleTimer this (withTree T s)
  = (Ok tt, withTree (modifyAt this (onData arm) T) s).
Proof.
  intros. rewrite (_startNetworkIdleTimer_run this _ T n); auto.
Qed.

Lemma _onLifecycleEvent_wt this event T s n :
  lookupAt this T = Some n ->
  _onLifecycleEvent this event (withTree T s)
  = (Ok tt, withTree (lifecycleTree this event n T) s).
Proof.
  intros. rewrite (_onLifecycleEvent_run this event _ T n); auto.
Qed.

(** what [_onClearLifecycle] does to the frame itself before the
    recalculation *)
Definition cleared (d : FrameData) : FrameData :=
  let d := set_firedLifecycleEvents [] d in
  let d :=
    set_inflightRequests
      (List.filter (fun r => match request (_currentDocument d) with
                             | Some current => sameRequest r current
                             | None => false
                             end) (_inflightRequests d)) d in
  let d := set_firedNetworkIdleSelf false (set_networkIdleTimer NoTimer d) in
  if bool_decide (length (_inflightRequests d) = 0) then arm d else d.

(** and to the tree *)
Definition clearedTree (this : path) (n root : Frame) : Frame :=
  _recalculateNetworkIdle None
    (modifyAt this (onData (addLifecycle commit))
       (_recalculateNetworkIdle (Some (oid (fdata n)))
          (modifyAt this (onData cleared) root))).

Lemma has_cleared e d : has e (cleared d) = false.
Proof.
  unfold cleared, arm. cbv zeta.
  repeat match goal with |- context [if ?b then _ else _] => destruct b end;
    reflexivity.
Qed.

Lemma _onClearLifecycle_wt this T s n :
  lookupAt this T = Some n ->
  _onClearLifecycle this (withTree T s)
  = (Ok tt, withTree (clearedTree this n T) s).
Proof.
  intros Hthis. unfold _onClearLifecycle, _stopNetworkIdleTimer.
  rewrite (bind_run _ _ _ _ _ (updateFrame_wt _ _ _ _)).
  rewrite (bind_run _ _ _ _ _ (updateFrame_wt _ _ _ _)).
  rewrite (bind_run _ _ _ _ _ (updateFrame_wt _ _ _ _)).
  rewrite !modifyAt_compose.
  match goal with
  | |- context [modifyAt this ?g T] =>
      assert (Hn : lookupAt this (modifyAt this g T) = Some (g n))
        by (rewrite lookupAt_modifyAt, Hthis; reflexivity);
      set (T1 := modifyAt this g T) in *
  end.
  rewrite (bind_run _ _ _ _ _ (frameAt_wt _ _ _ _ Hn)).
  cbn [onData fdata _inflightRequests set_firedNetworkIdleSelf set_networkIdleTimer
       set_inflightRequests set_firedLifecycleEvents _currentDocument oid].
  set (f := List.filter _ _).
  assert (Hcleared : modifyAt this (onData cleared) T
                     = if bool_decide (length f = 0)
                       then modifyAt this (onData arm) T1 else T1).
  { subst T1. destruct (bool_decide (length f = 0)) eqn:Hf.
    - rewrite modifyAt_compose. apply (modifyAt_ext this _ _ T n Hthis).
      unfold onData, cleared. cbn. fold f. rewrite Hf. reflexivity.
    - apply (modifyAt_ext this _ _ T n Hthis).
      unfold onData, cleared. cbn. fold f. rewrite Hf. reflexivity. }
  assert (Hstart :
    (if bool_decide (length f = 0) then _startNetworkIdleTimer this else mret tt)
      (withTree T1 s)
    = (Ok tt, withTree (modifyAt this (onData cleared) T) s)).
  { rewrite Hcleared. destruct (bool_decide (length f = 0)); [|reflexivity].
    apply (_startNetworkIdleTimer_wt this T1 s _ Hn). reflexivity. }
  rewrite (bind_run _ _ _ _ _ Hstart).
  rewrite (bind_run _ _ _ _ _ (recalculate_wt _ _ _)).
  erewrite _onLifecycleEvent_wt
    by (rewrite lookupAt_recalc, lookupAt_modifyAt, Hthis; reflexivity).
  unfold lifecycleTree, clearedTree.
  destruct (recalc_fdata (Some (oid (fdata n))) (onData cleared n)) as (l & _ & Hhas).
  rewrite Hhas by discriminate. cbn [onData fdata]. rewrite has_cleared.
  reflexivity.
Qed.

Lemma _onClearLifecycle_run this s root n :
  _mainFrame s = Some root ->
  lookupAt this root = Some n ->
  _onClearLifecycle this s = (Ok tt, withTree (clearedTree this n root) s).
Proof.
  intros Hroot Hthis. rewrite <- (withTree_same s root Hroot) at 1.
  apply _onClearLifecycle_wt. assumption.
Qed.

(** *** Detaching *)

(** what [_onDetached] does to the frame itself *)
Definition detachedData (d : FrameData) : FrameData :=
  set_contextData
    (detachContext (fst (_contextData d)), detachContext (snd (_contextData d)))
    (set_detachedScope
       (closeScope (plainError "Frame was detached") (_detachedScope d))
       (set_firedNetworkIdleSelf false (set_networkIdleTimer NoTimer d))).

(** the live contexts of a frame are told *)
Definition contextEmits (d : FrameData) : list Emitted :=
  (match context (fst (_contextData d)) with
   | Some c => [ContextDestroyed c "Frame was detached"]
   | None => []
   end)
  ++ (match context (snd (_contextData d)) with
      | Some c => [ContextDestroyed c "Frame was detached"]
      | None => []
      end).



Lemma modify_run g s : modify g s = (Ok tt, g s).
Proof. reflexivity. Qed.

Lemma gets_run {A} (proj : FrameManager -> A) s : gets proj s = (Ok (proj s), s).
Proof. reflexivity. Qed.

Lemma emit_run e s : emit e s = (Ok tt, set_emitted (emitted s ++ [e]) s).
Proof. reflexivity. Qed.

Lemma emit_wt e T s :
  emit e (withTree T s) = (Ok tt, withTree T (set_emitted (emitted s ++ [e]) s)).
Proof. reflexivity. Qed.

Definition slotDetached (world : World) (f : FrameData) : FrameData :=
  set_contextData
    (withContextData world (detachContext (contextDataOf f world)) (_contextData f)) f.

Definition slotEmits (world : World) (d : FrameData) : list Emitted :=
  match context (contextDataOf d world) with
  | Some c => [ContextDestroyed c "Frame was detached"]
  | None => []
  end.

Lemma set_emitted_same s : set_emitted (emitted s) s = s.
Proof. destruct s. reflexivity. Qed.

Lemma detachSlot_wt this world T s n :
  lookupAt this T = Some n ->
  detachSlot this world (withTree T s)
  = (Ok tt, withTree (modifyAt this (onData (slotDetached world)) T)
              (set_emitted (emitted s ++ slotEmits world (fdata n)) s)).
Proof.
  intros Hthis. unfold detachSlot, slotEmits.
  rewrite (bind_run _ _ _ _ _ (frameAt_wt _ _ _ _ Hthis)).
  destruct (context (contextDataOf (fdata n) world)) as [c|].
  - rewrite (bind_run _ _ _ _ _ (emit_wt _ _ _)). reflexivity.
  - rewrite (bind_run _ _ _ tt _ eq_refl), app_nil_r, set_emitted_same.
    reflexivity.
Qed.

Lemma detachedData_steps d :
  slotDetached utility
    (slotDetached main
       (set_detachedScope
          (closeScope (plainError "Frame was detached") (_detachedScope d))
          (set_firedNetworkIdleSelf false (set_networkIdleTimer NoTimer d))))
  = detachedData d.
Proof. reflexivity. Qed.

Lemma _onDetached_wt this T s n :
  lookupAt this T = Some n ->
  _onDetached this (withTree T s)
  = (Ok tt,
     withTree (removeAt this (modifyAt this (onData detachedData) T))
       (set_detached (detached s ++ [detachedData (fdata n)])
          (set_emitted (emitted s ++ contextEmits (fdata n)) s))).
Proof.
  intros Hthis. unfold _onDetached, _stopNetworkIdleTimer.
  rewrite (bind_run _ _ _ _ _ (updateFrame_wt _ _ _ _)).
  rewrite (bind_run _ _ _ _ _ (updateFrame_wt _ _ _ _)).
  rewrite modifyAt_compose.
  assert (Hloop : forall T' s' n',
    lookupAt this T' = Some n' ->
    forEach [main; utility] (detachSlot this) (withTree T' s')
    = (Ok tt,
       withTree (modifyAt this
                   (fun f => onData (slotDetached utility)
                               (onData (slotDetached main) f)) T')
         (set_emitted (emitted s' ++ contextEmits (fdata n')) s'))).
  { intros T' s' n' Hn'. cbn [forEach].
    rewrite (bind_run _ _ _ _ _ (detachSlot_wt _ _ _ _ _ Hn')).
    erewrite bind_run
      by (apply detachSlot_wt; rewrite lookupAt_modifyAt, Hn'; reflexivity).
    rewrite modifyAt_compose. cbn [set_emitted emitted].
    unfold contextEmits, slotEmits. rewrite <- app_assoc. reflexivity. }
  erewrite bind_run by (apply Hloop; rewrite lookupAt_modifyAt, Hthis; reflexivity).
  rewrite modifyAt_compose.
  erewrite bind_run
    by (apply frameAt_wt; rewrite lookupAt_modifyAt, Hthis; reflexivity).
  unfold mbind, M_bind, modify, withTree. cbn.
  reflexivity.
Qed.

(** *** Removing a subtree *)

Definition detachEmits (closed : bool) (d : FrameData) : list Emitted :=
  contextEmits d ++ (if negb closed then [FrameDetached (oid d)] else []).

Definition forget (frames : gmap string nat) (gone : list FrameData) : gmap string nat :=
  foldl (fun m d => delete (_id d) m) frames gone.

(** the manager once the frames [gone] have been detached, in that order *)
Definition without (gone : list FrameData) (T : Frame) (s : FrameManager)
    : FrameManager :=
  withTree T
    (set_frames (forget (_frames s) gone)
       (set_detached (detached s ++ map detachedData gone)
          (set_emitted (emitted s ++ flat_map (detachEmits (isClosed s)) gone) s))).

Lemma without_nil T s : without [] T s = withTree T s.
Proof. destruct s. unfold without. cbn. rewrite !app_nil_r. reflexivity. Qed.

Lemma without_app gone gone' T T' s :
  without gone' T' (without gone T s) = without (gone ++ gone') T' s.
Proof.
  destruct s. unfold without, forget. cbn.
  rewrite foldl_app, map_app, flat_map_app, !app_assoc. reflexivity.
Qed.

Lemma without_withTree gone T T' s :
  without gone T (withTree T' s) = without gone T s.
Proof. reflexivity. Qed.

Lemma without_more gone gone' T' s :
  without gone' T'
    (set_frames (forget (_frames s) gone)
       (set_detached (detached s ++ map detachedData gone)
          (set_emitted (emitted s ++ flat_map (detachEmits (isClosed s)) gone) s)))
  = without (gone ++ gone') T' s.
Proof. apply (without_app gone gone' T' T' s). Qed.

Lemma removeFrames_unfold frame this :
  _removeFramesRecursively frame this
  = (removeFrames (_childFrames frame) this;;
     _onDetached this;;
     modify (fun s => set_frames (delete (_id (fdata frame)) (_frames s)) s);;
     closed ← gets isClosed;
     if negb closed then emit (FrameDetached (oid (fdata frame))) else mret tt).
Proof.
  destruct frame as [d children]. cbn [_removeFramesRecursively _childFrames].
  f_equal. induction children as [|c rest IH]; [reflexivity|].
  cbn [removeFrames]. rewrite IH. reflexivity.
Qed.

Definition emptied (f : Frame) : Frame := mkFrame (fdata f) [].

(** the run of [_removeFramesRecursively] on a frame of the tree *)
Definition removesAt (frame : Frame) : Prop :=
  forall this T s,
    lookupAt this T = Some frame ->
    _removeFramesRecursively frame this (withTree T s)
    = (Ok tt,
       without (postorder frame)
         (removeAt this
            (modifyAt this (fun _ => mkFrame (detachedData (fdata frame)) []) T)) s).

Lemma removeFrames_wt children :
  Forall removesAt children ->
  forall this T s d,
    lookupAt this T = Some (mkFrame d children) ->
    removeFrames children this (withTree T s)
    = (Ok tt, without (flat_map postorder children) (modifyAt this emptied T) s).
Proof.
  induction 1 as [|c rest Hc _ IH]; intros this T s d Hthis.
  - cbn. rewrite without_nil. unfold mret, M_ret. do 2 f_equal.
    symmetry. apply (modifyAt_id this _ T _ Hthis). reflexivity.
  - cbn [removeFrames flat_map].
    assert (Hchild : lookupAt (this ++ [0]) T = Some c)
      by (rewrite lookupAt_app, Hthis; reflexivity).
    rewrite (bind_run _ _ _ _ _ (Hc _ _ _ Hchild)).
    rewrite removeAt_snoc, modifyAt_app, modifyAt_compose.
    unfold without at 1.
    erewrite IH by (rewrite lookupAt_modifyAt, Hthis; reflexivity).
    rewrite modifyAt_compose, without_more.
    do 2 f_equal; apply (modifyAt_ext this _ _ T _ Hthis); reflexivity.
Qed.

Lemma _removeFramesRecursively_wt frame : removesAt frame.
Proof.
  induction frame as [d children IH] using Frame_ind.
  intros this T s Hthis. rewrite removeFrames_unfold.
  cbn [_childFrames fdata].
  rewrite (bind_run _ _ _ _ _ (removeFrames_wt children IH this T s d Hthis)).
  unfold without at 1.
  erewrite bind_run
    by (apply _onDetached_wt; rewrite lookupAt_modifyAt, Hthis; reflexivity).
  rewrite modifyAt_compose.
  rewrite (modifyAt_ext this _ (fun _ => mkFrame (detachedData d) []) T _ Hthis)
    by reflexivity.
  destruct s as [fr ma sb closed al em de].
  unfold mbind, M_bind, modify, gets, emit, mret, M_ret, withTree, without, forget.
  cbn. destruct closed; cbn; unfold modify; cbn;
    rewrite foldl_app, map_app, flat_map_app; cbn;
    unfold detachEmits; cbn; rewrite ?app_nil_r, <- ?app_assoc; reflexivity.
Qed.

End RunFacts.

(** ** Detaching a frame *)

Module DetachFacts.
Import Errors Types Frames TreeFacts IdleFacts RunFacts.

#[local] Arguments modifyAt : simpl never.
#[local] Arguments lookupAt : simpl never.
#[local] Arguments removeAt : simpl never.
#[local] Arguments _recalculateNetworkIdle : simpl never.

Section Found.
Variables (s : FrameManager) (frameId : string) (o : nat) (root : Frame) (this : path).
Hypothesis Hid : _frames s !! frameId = Some o.
Hypothesis Hroot : _mainFrame s = Some root.
Hypothesis Hpath : findPath o root = Some this.

Lemma frameById_run : frameById frameId s = (Ok (Some this), s).
Proof. unfold frameById, gets. rewrite Hid, Hroot. cbn. rewrite Hpath. reflexivity. Qed.

Lemma onFrameObject_run method gone :
  onFrameObject o method gone s = method this s.
Proof.
  unfold onFrameObject, gets, mbind, M_bind. rewrite Hroot. cbn.
  rewrite Hpath. reflexivity.
Qed.

End Found.

Lemma forget_None frames gone k :
  frames !! k = None -> forget frames gone !! k = None.
Proof.
  revert frames. induction gone as [|d gone IH]; intros frames H; [assumption|].
  cbn. apply IH. rewrite lookup_delete. case_decide; auto.
Qed.

Lemma forget_gone frames gone d :
  d ∈ gone -> forget frames gone !! _id d = None.
Proof.
  revert frames. induction gone as [|d' gone IH]; intros frames Hin.
  - apply elem_of_nil in Hin. contradiction.
  - apply elem_of_cons in Hin as [<-|Hin]; cbn.
    + apply forget_None. apply lookup_delete_eq.
    + apply IH. assumption.
Qed.

Lemma removesAt_all children : Forall removesAt children.
Proof. apply Forall_forall. intros. apply _removeFramesRecursively_wt. Qed.

Lemma removeChildFramesRecursively_wt this T s n :
  lookupAt this T = Some n ->
  removeChildFramesRecursively this (withTree T s)
  = (Ok tt, without (flat_map postorder (_childFrames n)) (modifyAt this emptied T) s).
Proof.
  intros Hthis. unfold removeChildFramesRecursively.
  rewrite (bind_run _ _ _ _ _ (subtreeAt_wt _ _ _ _ Hthis)).
  destruct n as [d children].
  apply (removeFrames_wt children (removesAt_all children) this T s d Hthis).
Qed.

(** the tree once the frame at [this] is detached with its subtree *)
Definition detachedTree (this : path) (frame root : Frame) : Frame :=
  _recalculateNetworkIdle None
    (removeAt this
       (modifyAt this (fun _ => mkFrame (detachedData (fdata frame)) []) root)).

Lemma frameDetached_run s frameId o root this frame :
  _frames s !! frameId = Some o ->
  _mainFrame s = Some root ->
  findPath o root = Some this ->
  lookupAt this root = Some frame ->
  frameDetached frameId s
  = (Ok tt, without (postorder frame) (detachedTree this frame root) s).
Proof.
  intros Hid Hroot Hpath Hthis. unfold frameDetached.
  rewrite (bind_run _ _ _ _ _ (frameById_run s frameId o root this Hid Hroot Hpath)).
  rewrite (bind_run _ _ _ _ _ (subtreeAt_run this s root frame Hroot Hthis)).
  rewrite <- (withTree_same s root Hroot) at 1.
  rewrite (bind_run _ _ _ _ _ (_removeFramesRecursively_wt frame this root s Hthis)).
  reflexivity.
Qed.

Lemma detached_settles d world :
  contextPromise (contextDataOf (detachedData d) world) <> Pending
  /\ (contextPromise (contextDataOf d world) = Pending ->
      _context (detachedData d) world = RejectedWith (plainError "Frame was detached")).
Proof.
  unfold _context. destruct world; cbn;
    [destruct (contextPromise (fst (_contextData d)))
    |destruct (contextPromise (snd (_contextData d)))];
    cbn; split; congruence.
Qed.

(** C9.  [frameDetached] on a frame of the tree returns, having detached
    the frames of its subtree, each after its children and the frame
    itself last: in that order [_onDetached] has run on each, its entry
    has left [_frames], and the page was told (unless it is closed).  Of
    each detached frame and each world, the context promise is settled; if
    it was pending, it is settled with the reason "Frame was detached",
    and awaiting the context rejects with that reason.  A context that was
    live is told that it is destroyed, with the same reason. *)
Theorem detach_removes_subtree_children_first s frameId o root this frame :
  _frames s !! frameId = Some o ->
  _mainFrame s = Some root ->
  findPath o root = Some this ->
  lookupAt this root = Some frame ->
  let s' := after (OnFrameDetached frameId) s in
  handle (OnFrameDetached frameId) s = (Ok tt, s')
  /\ postorder frame
     = flat_map postorder (_childFrames frame) ++ [fdata frame]
  /\ detached s' = detached s ++ map detachedData (postorder frame)
  /\ emitted s'
     = emitted s
       ++ flat_map (fun d =>
            contextEmits d
            ++ (if negb (isClosed s) then [FrameDetached (oid d)] else []))
          (postorder frame)
  /\ (forall d, d ∈ postorder frame -> _frames s' !! _id d = None)
  /\ (forall d world, d ∈ postorder frame ->
        contextPromise (contextDataOf (detachedData d) world) <> Pending
        /\ (contextPromise (contextDataOf d world) = Pending ->
            _context (detachedData d) world
            = RejectedWith (plainError "Frame was detached"))).
Proof.
  intros Hid Hroot Hpath Hthis s'. subst s'. unfold after.
  cbn [handle]. rewrite (frameDetached_run s frameId o root this frame) by assumption.
  cbn [fst snd]. split; [reflexivity|].
  split; [destruct frame; reflexivity|].
  split; [reflexivity|]. split; [reflexivity|].
  split.
  - intros d Hin. cbn. apply forget_gone. assumption.
  - intros d world _. apply detached_settles.
Qed.

End DetachFacts.

Module DetachRuns.
Import Errors Types Frames Samples RunFacts DetachFacts.

Example family_frames :
  map (fun d => (_id d, _firedLifecycleEvents d)) (postorder familyTree)
  = [("g", [commit; networkidle]); ("c", [commit; networkidle]);
     ("d", [commit; networkidle]); ("m", [commit; networkidle])].
Proof. reflexivity. Qed.

Example detach_c :
  let s' := after (OnFrameDetached "c") family in
  map _id (detached s') = ["g"; "c"]
  /\ emitted s'
     = emitted family
       ++ [FrameDetached 2; ContextDestroyed 41 "Frame was detached"; FrameDetached 1]
  /\ map_to_list (_frames s') = [("m", 0); ("d", 3)].
Proof. vm_compute. repeat split. Qed.

Lemma detach_removes_subtree_children_first_witness :
  _frames family !! "c" = Some 1
  /\ _mainFrame family = Some familyTree
  /\ findPath 1 familyTree = Some [0]
  /\ lookupAt [0] familyTree = Some familyC
  /\ detached (after (OnFrameDetached "c") family)
     = detached family ++ map detachedData (postorder familyC)
  /\ (forall d, d ∈ postorder familyC ->
        _frames (after (OnFrameDetached "c") family) !! _id d = None).
Proof.
  assert (H1 : _frames family !! "c" = Some 1) by (vm_compute; reflexivity).
  assert (H2 : _mainFrame family = Some familyTree) by reflexivity.
  assert (H3 : findPath 1 familyTree = Some [0]) by reflexivity.
  assert (H4 : lookupAt [0] familyTree = Some familyC) by reflexivity.
  pose proof (detach_removes_subtree_children_first family "c" 1 familyTree [0]
                familyC H1 H2 H3 H4) as (_ & _ & Hdetached & _ & Hframes & _).
  repeat (split; [assumption|]). assumption.
Defined.

End DetachRuns.

(** ** Pending and current documents *)

Module DocumentFacts.
Import Errors Types Frames TreeFacts IdleFacts RunFacts DetachFacts.

#[local] Arguments modifyAt : simpl never.
#[local] Arguments lookupAt : simpl never.
#[local] Arguments removeAt : simpl never.
#[local] Arguments _recalculateNetworkIdle : simpl never.
#[local] Arguments updateFrame : simpl never.
#[local] Arguments frameAt : simpl never.

(** the request in flight for a document id, as [frameRequestedNavigation]
    looks it up *)
Definition inflightFor (documentId : option string) (d : FrameData) : option Request :=
  if truthy documentId
  then List.find (fun r => sameId (_documentId r) documentId) (_inflightRequests d)
  else None.

(** C2, as the code has it.  [frameRequestedNavigation] on a frame with a
    pending document leaves the frame tree as it is when the requested
    document id is the one of the pending document (both undefined
    included).  Otherwise the pending document is replaced by the requested
    id with the request found in flight for it: an undefined id after a
    known one leaves a pending document with neither id nor request. *)
Theorem navigation_request_replaces_other_pending
    s frameId o root this n pending documentId :
  _frames s !! frameId = Some o ->
  _mainFrame s = Some root ->
  findPath o root = Some this ->
  lookupAt this root = Some n ->
  _pendingDocument (fdata n) = Some pending ->
  let s' := after (OnFrameRequestedNavigation frameId documentId) s in
  handle (OnFrameRequestedNavigation frameId documentId) s = (Ok tt, s')
  /\ (Types.documentId pending = documentId -> _mainFrame s' = Some root)
  /\ (Types.documentId pending <> documentId ->
      _mainFrame s'
      = Some (modifyAt this
                (onData (set_pendingDocument
                           (Some (mkDocumentInfo documentId
                                    (inflightFor documentId (fdata n)))))) root))
  /\ (is_Some (Types.documentId pending) -> documentId = None ->
      exists n', _mainFrame s' ≫= lookupAt this = Some n'
                 /\ _pendingDocument (fdata n') = Some (mkDocumentInfo None None)).
Proof.
  intros Hid Hroot Hpath Hthis Hpending s'.
  assert (Hrun :
    frameRequestedNavigation frameId documentId s
    = (Ok tt,
       withTree
         (if sameId (Types.documentId pending) documentId then root
          else modifyAt this
                 (onData (set_pendingDocument
                            (Some (mkDocumentInfo documentId
                                     (inflightFor documentId (fdata n)))))) root)
         (set_signalBarriers (map (addFrameNavigation this) (_signalBarriers s)) s))).
  { unfold frameRequestedNavigation.
    rewrite (bind_run _ _ _ _ _ (frameById_run s frameId o root this Hid Hroot Hpath)).
    rewrite (bind_run _ _ _ _ _ (modify_run _ _)).
    erewrite bind_run by (apply (frameAt_run this _ root n); [exact Hroot | exact Hthis]).
    rewrite Hpending.
    destruct (sameId (Types.documentId pending) documentId).
    - unfold mret, M_ret. f_equal. symmetry. apply withTree_same. exact Hroot.
    - unfold setPendingDocument. erewrite updateFrame_run by exact Hroot. reflexivity. }
  subst s'. unfold after. cbn [handle]. rewrite Hrun. cbn [fst snd].
  split; [reflexivity|]. split; [|split].
  - intros Heq. apply NavigationFacts.sameId_true in Heq. rewrite Heq. reflexivity.
  - intros Hne. apply NavigationFacts.sameId_false in Hne. rewrite Hne. reflexivity.
  - intros [known Hknown] ->.
    assert (Hne : sameId (Types.documentId pending) None = false)
      by (apply NavigationFacts.sameId_false; congruence).
    rewrite Hne. cbn [_mainFrame withTree set_mainFrame mbind option_bind].
    rewrite lookupAt_modifyAt, Hthis. eexists. split; reflexivity.
Qed.

(** *** A new document commits *)

(** "Pending with unknown documentId - assume it is the one being committed." *)
Definition adopted (documentId : string) (pending : DocumentInfo) : DocumentInfo :=
  match Types.documentId pending with
  | None => mkDocumentInfo (Some documentId) (request pending)
  | Some _ => pending
  end.

(** [keepPending], from the frame as the commit finds it *)
Definition keepPending (documentId : string) (d : FrameData) : option DocumentInfo :=
  match _pendingDocument d with
  | Some pending =>
      if sameId (Types.documentId (adopted documentId pending)) (Some documentId)
      then None else Some (adopted documentId pending)
  | None => None
  end.

(** what [commitDocument] writes, from the frame [d0] as it finds it *)
Definition withCommitted (documentId : string) (d0 d : FrameData) : FrameData :=
  match _pendingDocument d0 with
  | Some pending =>
      set_pendingDocument None
        (set_currentDocument
           (if sameId (Types.documentId (adopted documentId pending)) (Some documentId)
            then adopted documentId pending
            else mkDocumentInfo (Some documentId) None) d)
  | None => set_currentDocument (mkDocumentInfo (Some documentId) None) d
  end.

Lemma commitDocument_wt this documentId T s n :
  lookupAt this T = Some n ->
  commitDocument this documentId (withTree T s)
  = (Ok (keepPending documentId (fdata n)),
     withTree (modifyAt this (onData (withCommitted documentId (fdata n))) T) s).
Proof.
  intros Hthis. unfold commitDocument, keepPending, withCommitted, setPendingDocument.
  rewrite (bind_run _ _ _ _ _ (frameAt_wt _ _ _ _ Hthis)).
  destruct (_pendingDocument (fdata n)) as [pending|].
  - fold (adopted documentId pending).
    destruct (sameId (Types.documentId (adopted documentId pending)) (Some documentId)).
    + unfold mbind, M_bind, mret, M_ret.
      rewrite updateFrame_wt. cbv beta iota.
      rewrite updateFrame_wt, modifyAt_compose. reflexivity.
    + unfold mbind, M_bind, mret, M_ret.
      rewrite updateFrame_wt. cbv beta iota.
      rewrite updateFrame_wt, modifyAt_compose. reflexivity.
  - rewrite (bind_run _ _ _ _ _ (updateFrame_wt _ _ _ _)). reflexivity.
Qed.

Lemma _fireInternalFrameNavigation_wt this event T s n :
  lookupAt this T = Some n ->
  _fireInternalFrameNavigation this event (withTree T s)
  = (Ok tt, withTree T
              (set_emitted (emitted s ++ [InternalNavigation (oid (fdata n)) event]) s)).
Proof.
  intros Hthis. unfold _fireInternalFrameNavigation.
  rewrite (bind_run _ _ _ _ _ (frameAt_wt _ _ _ _ Hthis)).
  apply emit_wt.
Qed.

(** the frame itself once [url], [name] and the documents are written;
    [found] is the frame as the commit finds it *)
Definition commitLocal (url name documentId : string) (found d : FrameData)
    : FrameData :=
  withCommitted documentId found (set_name name (set_url url d)).

(** the tree once the commit is handled; [n] is the frame as found *)
Definition committedTree (this : path) (url name documentId : string)
    (n root : Frame) : Frame :=
  modifyAt this
    (onData (set_pendingDocument (keepPending documentId (fdata n))))
    (clearedTree this
       (onData (commitLocal url name documentId (fdata n)) (emptied n))
       (modifyAt this
          (fun f => onData (commitLocal url name documentId (fdata n)) (emptied f))
          root)).

(** a run that returns and leaves [T] as the frame tree *)
Definition lands (r : Res unit * FrameManager) (T : Frame) : Prop :=
  fst r = Ok tt /\ _mainFrame (snd r) = Some T.

Lemma commit_run s frameId url name documentId initial o root this n :
  _frames s !! frameId = Some o ->
  _mainFrame s = Some root ->
  findPath o root = Some this ->
  lookupAt this root = Some n ->
  exists s',
    frameCommittedNewDocumentNavigation frameId url name documentId initial s
    = (Ok tt, s')
    /\ _mainFrame s' = Some (committedTree this url name documentId n root).
Proof.
  intros Hid Hroot Hpath Hthis.
  enough (Hrun :
    lands (frameCommittedNewDocumentNavigation frameId url name documentId initial s)
      (committedTree this url name documentId n root)).
  { destruct (frameCommittedNewDocumentNavigation frameId url name documentId
                initial s) as [r s'].
    destruct Hrun as [Hr Hrun]. cbn in Hr, Hrun. subst r.
    exists s'. split; [reflexivity | exact Hrun]. }
  destruct initial; unfold frameCommittedNewDocumentNavigation;
    rewrite (bind_run _ _ _ _ _ (frameById_run s frameId o root this Hid Hroot Hpath));
    rewrite <- (withTree_same s root Hroot) at 1;
    rewrite (bind_run _ _ _ _ _ (removeChildFramesRecursively_wt this root s n Hthis));
    unfold without;
    rewrite (bind_run _ _ _ _ _ (updateFrame_wt _ _ _ _));
    rewrite (bind_run _ _ _ _ _ (updateFrame_wt _ _ _ _));
    rewrite !modifyAt_compose;
    (erewrite bind_run
      by (apply commitDocument_wt; rewrite lookupAt_modifyAt, Hthis; reflexivity));
    rewrite modifyAt_compose;
    (erewrite bind_run
      by (apply _onClearLifecycle_wt; rewrite lookupAt_modifyAt, Hthis; reflexivity));
    match goal with
    | |- context [withTree (clearedTree this ?n3 ?T3) _] =>
        assert (Hcleared : exists n4, lookupAt this (clearedTree this n3 T3) = Some n4)
          by (unfold clearedTree;
              rewrite lookupAt_recalc, lookupAt_modifyAt, lookupAt_recalc,
                lookupAt_modifyAt, lookupAt_modifyAt, Hthis;
              eexists; reflexivity);
        destruct Hcleared as [n4 Hn4]
    end;
    rewrite (bind_run _ _ _ _ _ (frameAt_wt _ _ _ _ Hn4));
    rewrite (bind_run _ _ _ _ _ (_fireInternalFrameNavigation_wt _ _ _ _ _ Hn4)).
  - rewrite (bind_run _ _ _ tt _ eq_refl).
    unfold setPendingDocument. rewrite updateFrame_wt.
    split; reflexivity.
  - rewrite (bind_run _ _ _ _ _ (emit_wt _ _ _)).
    unfold setPendingDocument. rewrite updateFrame_wt.
    split; reflexivity.
Qed.
(** the two documents of a frame *)
Definition documents (d : FrameData) : DocumentInfo * option DocumentInfo :=
  (_currentDocument d, _pendingDocument d).

Lemma documents_fired l d : documents (set_firedLifecycleEvents l d) = documents d.
Proof. reflexivity. Qed.

Lemma documents_addLifecycle e d : documents (addLifecycle e d) = documents d.
Proof. unfold addLifecycle. destruct (has e d); reflexivity. Qed.

Lemma documents_cleared d : documents (cleared d) = documents d.
Proof.
  unfold cleared, arm. cbv zeta.
  repeat match goal with |- context [if ?b then _ else _] => destruct b end;
    reflexivity.
Qed.

Lemma documents_recalc allowed t :
  documents (fdata (_recalculateNetworkIdle allowed t)) = documents (fdata t).
Proof.
  destruct (recalc_fdata allowed t) as (l & -> & _). apply documents_fired.
Qed.

(** the committing frame after the commit, from the frame [n] as found *)
Lemma committedTree_lookupAt this url name documentId n root :
  lookupAt this root = Some n ->
  exists n',
    lookupAt this (committedTree this url name documentId n root) = Some n'
    /\ _currentDocument (fdata n')
       = _currentDocument (commitLocal url name documentId (fdata n) (fdata n))
    /\ _pendingDocument (fdata n') = keepPending documentId (fdata n).
Proof.
  intros Hthis. unfold committedTree, clearedTree.
  rewrite lookupAt_modifyAt, lookupAt_recalc, lookupAt_modifyAt, lookupAt_recalc,
    lookupAt_modifyAt, lookupAt_modifyAt, Hthis.
  eexists. split; [reflexivity|]. cbn [fmap option_fmap option_map onData fdata].
  split; [|reflexivity].
  match goal with
  | |- _currentDocument (set_pendingDocument _ ?d) = _ =>
      change (fst (documents d)
              = fst (documents (commitLocal url name documentId (fdata n) (fdata n))))
  end.
  rewrite documents_recalc. cbn [fdata onData].
  rewrite documents_addLifecycle, documents_recalc. cbn [fdata onData].
  rewrite documents_cleared. reflexivity.
Qed.

(** C4.  A new document commits on a frame whose pending document has a
    known id other than the committed one: the handler returns, the frame's
    current document is the committed id with no request, and the pending
    document of before the call is the frame's pending document again. *)
Theorem racing_commit_keeps_pending
    s frameId url name documentId initial o root this n pendingId req :
  _frames s !! frameId = Some o ->
  _mainFrame s = Some root ->
  findPath o root = Some this ->
  lookupAt this root = Some n ->
  _pendingDocument (fdata n) = Some (mkDocumentInfo (Some pendingId) req) ->
  pendingId <> documentId ->
  let e := OnFrameCommittedNewDocumentNavigation frameId url name documentId initial in
  handle e s = (Ok tt, after e s)
  /\ exists n',
       _mainFrame (after e s) ≫= lookupAt this = Some n'
       /\ _currentDocument (fdata n') = mkDocumentInfo (Some documentId) None
       /\ _pendingDocument (fdata n')
          = Some (mkDocumentInfo (Some pendingId) req).
Proof.
  intros Hid Hroot Hpath Hthis Hpending Hne e.
  destruct (commit_run s frameId url name documentId initial o root this n
              Hid Hroot Hpath Hthis) as (s' & Hrun & Htree).
  subst e. unfold after. cbn [handle]. rewrite Hrun. cbn [fst snd].
  split; [reflexivity|].
  destruct (committedTree_lookupAt this url name documentId n root Hthis)
    as (n' & Hn' & Hcurrent & Hkept).
  exists n'. rewrite Htree. cbn [mbind option_bind]. split; [exact Hn'|].
  assert (Hother : sameId (Some pendingId) (Some documentId) = false)
    by (apply NavigationFacts.sameId_false; congruence).
  rewrite Hcurrent, Hkept.
  unfold commitLocal, withCommitted, keepPending, adopted.
  rewrite Hpending. cbn [Types.documentId]. rewrite Hother.
  split; reflexivity.
Qed.

(** *** networkidle across a commit *)

Lemma self_cleared d : _firedNetworkIdleSelf (cleared d) = false.
Proof.
  unfold cleared, arm. cbv zeta.
  repeat match goal with |- context [if ?b then _ else _] => destruct b end;
    reflexivity.
Qed.

Lemma self_addLifecycle e d :
  _firedNetworkIdleSelf (addLifecycle e d) = _firedNetworkIdleSelf d.
Proof. unfold addLifecycle. destruct (has e d); reflexivity. Qed.

Lemma committedTree_coherent this url name documentId n root :
  coherent (committedTree this url name documentId n root).
Proof.
  unfold committedTree, clearedTree.
  apply coherent_modifyAt; [reflexivity | reflexivity | apply recalc_coherent].
Qed.

(** the committing frame is without [networkidle] after the commit *)
Lemma committedTree_retracted this url name documentId n root :
  lookupAt this root = Some n ->
  exists n',
    lookupAt this (committedTree this url name documentId n root) = Some n'
    /\ has networkidle (fdata n') = false.
Proof.
  intros Hthis. unfold committedTree, clearedTree.
  rewrite lookupAt_modifyAt, lookupAt_recalc, lookupAt_modifyAt, lookupAt_recalc,
    lookupAt_modifyAt, lookupAt_modifyAt, Hthis.
  eexists. split; [reflexivity|].
  cbn [fmap option_fmap option_map].
  match goal with
  | |- has networkidle (fdata (onData _ ?t)) = false =>
      change (has networkidle (fdata t) = false)
  end.
  apply recalc_not_self. cbn [fdata onData].
  rewrite self_addLifecycle, recalc_self. cbn [fdata onData].
  apply self_cleared.
Qed.

(** a sibling subtree on the way to the committing frame is left as it
    is when [networkidle] is as the recalculation leaves it *)
Lemma committedTree_sibling q i rest j url name documentId n root m :
  i <> j ->
  lookupAt (q ++ [j]) root = Some m ->
  coherent m ->
  lookupAt (q ++ [j]) (committedTree (q ++ i :: rest) url name documentId n root)
  = Some m.
Proof.
  intros Hij Hm Hcoh. unfold committedTree, clearedTree.
  rewrite lookupAt_modifyAt_off, lookupAt_recalc, lookupAt_modifyAt_off,
    lookupAt_recalc, !lookupAt_modifyAt_off, Hm by assumption.
  cbn [fmap option_fmap option_map].
  rewrite !recalc_coherent_id by (rewrite ?recalc_coherent_id; assumption).
  reflexivity.
Qed.

(** C3, as the code has it.  A recalculation over the whole tree leaves
    every frame with [networkidle] exactly when its own timer has run out
    and every descendant has [networkidle]; the handler of a new commit ends
    with one, so this holds of the tree it leaves.  The commit takes
    [networkidle] from the committing frame and from every frame above it up
    to the main frame; the subtree of a sibling on that way is left as it
    was. *)
Theorem commit_retracts_networkidle_up_to_the_root
    s frameId url name documentId initial o root this n :
  _frames s !! frameId = Some o ->
  _mainFrame s = Some root ->
  findPath o root = Some this ->
  lookupAt this root = Some n ->
  let e := OnFrameCommittedNewDocumentNavigation frameId url name documentId initial in
  (forall t, Forall idleIffSubtree (subframes (_recalculateNetworkIdle None t)))
  /\ exists T,
       handle e s = (Ok tt, after e s)
       /\ _mainFrame (after e s) = Some T
       /\ Forall idleIffSubtree (subframes T)
       /\ (forall q r m, this = q ++ r -> lookupAt q T = Some m ->
             has networkidle (fdata m) = false)
       /\ (forall q i rest j m, this = q ++ i :: rest -> i <> j ->
             lookupAt (q ++ [j]) root = Some m ->
             Forall idleIffSubtree (subframes m) ->
             lookupAt (q ++ [j]) T = Some m).
Proof.
  intros Hid Hroot Hpath Hthis e.
  split; [intros t; apply coherent_idleIffSubtree, recalc_coherent|].
  destruct (commit_run s frameId url name documentId initial o root this n
              Hid Hroot Hpath Hthis) as (s' & Hrun & Htree).
  exists (committedTree this url name documentId n root).
  subst e. unfold after. cbn [handle]. rewrite Hrun. cbn [fst snd].
  split; [reflexivity|]. split; [exact Htree|].
  pose proof (committedTree_coherent this url name documentId n root) as Hcoh.
  split; [apply coherent_idleIffSubtree; exact Hcoh|]. split.
  - intros q r m -> Hm.
    destruct (committedTree_retracted (q ++ r) url name documentId n root Hthis)
      as (n' & Hn' & Hnone).
    rewrite lookupAt_app, Hm in Hn'. cbn in Hn'.
    eapply coherent_ancestors; [|exact Hn'|exact Hnone].
    eapply coherent_lookupAt; eassumption.
  - intros q i rest j m -> Hij Hm Hidle.
    apply committedTree_sibling; [assumption..|].
    apply idleIffSubtree_coherent. assumption.
Qed.

End DocumentFacts.

Module DocumentRuns.
Import Errors Types Frames Samples IdleFacts DocumentFacts.

Example navigating_c :
  _pendingDocument (fdata navigatingC)
  = Some (mkDocumentInfo (Some "docA") (Some requestForA))
  /\ _firedLifecycleEvents (fdata navigatingC) = [commit; networkidle].
Proof. split; reflexivity. Qed.

(** C2, as stated, fails: [c] has the pending document [docA] with its
    request; a navigation request with no document id leaves [c] with a
    pending document that has neither id nor request. *)
Lemma undefined_id_replaces_known_pending :
  let e := OnFrameRequestedNavigation "c" None in
  (_pendingDocument ∘ fdata) <$> (_mainFrame navigating ≫= lookupAt [0])
  = Some (Some (mkDocumentInfo (Some "docA") (Some requestForA)))
  /\ handle e navigating = (Ok tt, after e navigating)
  /\ (_pendingDocument ∘ fdata) <$> (_mainFrame (after e navigating) ≫= lookupAt [0])
     = Some (Some (mkDocumentInfo None None)).
Proof. vm_compute. repeat split. Qed.

Lemma navigation_request_replaces_other_pending_witness :
  let e := OnFrameRequestedNavigation "c" None in
  _frames navigating !! "c" = Some 1
  /\ _mainFrame navigating = Some navigatingTree
  /\ findPath 1 navigatingTree = Some [0]
  /\ lookupAt [0] navigatingTree = Some navigatingC
  /\ _pendingDocument (fdata navigatingC)
     = Some (mkDocumentInfo (Some "docA") (Some requestForA))
  /\ handle e navigating = (Ok tt, after e navigating)
  /\ _mainFrame (after e navigating)
     = Some (modifyAt [0]
               (onData (set_pendingDocument
                          (Some (mkDocumentInfo None
                                   (inflightFor None (fdata navigatingC))))))
               navigatingTree).
Proof.
  assert (H1 : _frames navigating !! "c" = Some 1) by (vm_compute; reflexivity).
  assert (H2 : _mainFrame navigating = Some navigatingTree) by reflexivity.
  assert (H3 : findPath 1 navigatingTree = Some [0]) by reflexivity.
  assert (H4 : lookupAt [0] navigatingTree = Some navigatingC) by reflexivity.
  assert (H5 : _pendingDocument (fdata navigatingC)
               = Some (mkDocumentInfo (Some "docA") (Some requestForA)))
    by reflexivity.
  pose proof (navigation_request_replaces_other_pending navigating "c" 1
                navigatingTree [0] navigatingC _ None H1 H2 H3 H4 H5)
    as (Hrun & _ & Hother & _).
  repeat (split; [assumption|]). apply Hother. discriminate.
Defined.

Lemma racing_commit_keeps_pending_witness :
  let e := OnFrameCommittedNewDocumentNavigation "c" "about:b" "" "docB" false in
  _frames navigating !! "c" = Some 1
  /\ _mainFrame navigating = Some navigatingTree
  /\ findPath 1 navigatingTree = Some [0]
  /\ lookupAt [0] navigatingTree = Some navigatingC
  /\ _pendingDocument (fdata navigatingC)
     = Some (mkDocumentInfo (Some "docA") (Some requestForA))
  /\ "docA" <> "docB"
  /\ handle e navigating = (Ok tt, after e navigating)
  /\ exists n',
       _mainFrame (after e navigating) ≫= lookupAt [0] = Some n'
       /\ _currentDocument (fdata n') = mkDocumentInfo (Some "docB") None
       /\ _pendingDocument (fdata n')
          = Some (mkDocumentInfo (Some "docA") (Some requestForA)).
Proof.
  assert (H1 : _frames navigating !! "c" = Some 1) by (vm_compute; reflexivity).
  assert (H2 : _mainFrame navigating = Some navigatingTree) by reflexivity.
  assert (H3 : findPath 1 navigatingTree = Some [0]) by reflexivity.
  assert (H4 : lookupAt [0] navigatingTree = Some navigatingC) by reflexivity.
  assert (H5 : _pendingDocument (fdata navigatingC)
               = Some (mkDocumentInfo (Some "docA") (Some requestForA)))
    by reflexivity.
  assert (H6 : "docA" <> "docB") by discriminate.
  pose proof (racing_commit_keeps_pending navigating "c" "about:b" "" "docB" false 1
                navigatingTree [0] navigatingC "docA" (Some requestForA)
                H1 H2 H3 H4 H5 H6) as (Hrun & Hframe).
  repeat (split; [assumption|]). exact Hframe.
Defined.

(** C3, as stated, fails twice.  A request that starts on [c] resets the
    frame's own flag and leaves [networkidle] in its set; and a commit on
    [c] takes [networkidle] from the main frame above it, while the sibling
    [d] keeps it. *)
Lemma networkidle_outlives_the_flag_and_is_retracted_above :
  let started := after (OnRequestStarted requestForA) family in
  let e := OnFrameCommittedNewDocumentNavigation "c" "about:b" "" "docB" false in
  let frame s p := fdata <$> (_mainFrame s ≫= lookupAt p) in
  (has networkidle <$> frame started [0] = Some true
   /\ _firedNetworkIdleSelf <$> frame started [0] = Some false)
  /\ (_id <$> frame family [] = Some "m"
      /\ has networkidle <$> frame family [] = Some true
      /\ handle e family = (Ok tt, after e family)
      /\ has networkidle <$> frame (after e family) [] = Some false
      /\ has networkidle <$> frame (after e family) [0] = Some false
      /\ has networkidle <$> frame (after e family) [1] = Some true).
Proof. vm_compute. repeat split. Qed.

Lemma commit_retracts_networkidle_up_to_the_root_witness :
  let e := OnFrameCommittedNewDocumentNavigation "c" "about:b" "" "docB" false in
  _frames family !! "c" = Some 1
  /\ _mainFrame family = Some familyTree
  /\ findPath 1 familyTree = Some [0]
  /\ lookupAt [0] familyTree = Some familyC
  /\ exists T,
       handle e family = (Ok tt, after e family)
       /\ _mainFrame (after e family) = Some T
       /\ Forall idleIffSubtree (subframes T)
       /\ has networkidle (fdata T) = false
       /\ lookupAt [1] T = lookupAt [1] familyTree.
Proof.
  assert (H1 : _frames family !! "c" = Some 1) by (vm_compute; reflexivity).
  assert (H2 : _mainFrame family = Some familyTree) by reflexivity.
  assert (H3 : findPath 1 familyTree = Some [0]) by reflexivity.
  assert (H4 : lookupAt [0] familyTree = Some familyC) by reflexivity.
  pose proof (commit_retracts_networkidle_up_to_the_root family "c" "about:b" ""
                "docB" false 1 familyTree [0] familyC H1 H2 H3 H4)
    as (Hrecalc & T & Hrun & HT & Hidle & Habove & Hbeside).
  repeat (split; [assumption|]). exists T.
  repeat (split; [assumption|]). split.
  - apply (Habove [] [0] T eq_refl eq_refl).
  - destruct (lookupAt [1] familyTree) as [m|] eqn:Hm; [|discriminate].
    apply (Hbeside [] 0 [] 1 m eq_refl); [discriminate | exact Hm |].
    injection Hm as <-. apply coherent_idleIffSubtree. repeat constructor.
Defined.

End DocumentRuns.

(** ** commit stays fired *)

Module CommitFacts.
Import Errors Types Frames TreeFacts IdleFacts RunFacts.

#[local] Arguments modifyAt : simpl never.
#[local] Arguments lookupAt : simpl never.
#[local] Arguments removeAt : simpl never.
#[local] Arguments _recalculateNetworkIdle : simpl never.
#[local] Arguments has : simpl never.

Definition fired (d : FrameData) : Prop := has commit d = true.

(** every frame object that the manager reaches has [commit] *)
Definition good (s : FrameManager) : Prop :=
  forall root, _mainFrame s = Some root -> every fired root.

(** a computation that leaves a good manager good, also when it throws *)
Definition keeps {A} (m : M A) : Prop :=
  forall s, good s -> good (snd (m s)).

Create HintDb keeps.

Lemma keeps_ret {A} (a : A) : keeps (mret a).
Proof. intros s Hs. exact Hs. Qed.

Lemma keeps_throw {A} e : keeps (@throw A e).
Proof. intros s Hs. exact Hs. Qed.

Lemma keeps_gets {A} (proj : FrameManager -> A) : keeps (gets proj).
Proof. intros s Hs. exact Hs. Qed.

Lemma keeps_assert b : keeps (assert b).
Proof. destruct b; intros s Hs; exact Hs. Qed.

Lemma keeps_bind {A B} (m : M A) (k : A -> M B) :
  keeps m -> (forall a, keeps (k a)) -> keeps (m ≫= k).
Proof.
  intros Hm Hk s Hs. specialize (Hm s Hs). unfold mbind, M_bind.
  destruct (m s) as [[a|e] s']; cbn in *; [apply Hk; assumption | assumption].
Qed.

Lemma keeps_modify g :
  (forall s, good s -> good (g s)) -> keeps (modify g).
Proof. intros Hg s Hs. apply Hg. assumption. Qed.

(** a change of the manager away from the tree *)
Lemma keeps_aside g :
  (forall s, _mainFrame (g s) = _mainFrame s) -> keeps (modify g).
Proof.
  intros Hg. apply keeps_modify. intros s Hs root. rewrite Hg. apply Hs.
Qed.

Lemma keeps_emit e : keeps (emit e).
Proof. apply keeps_aside. reflexivity. Qed.

Lemma keeps_frameAt this : keeps (frameAt this).
Proof.
  intros s Hs. unfold frameAt.
  destruct (_mainFrame s ≫= lookupAt this); exact Hs.
Qed.

Lemma keeps_subtreeAt this : keeps (subtreeAt this).
Proof.
  intros s Hs. unfold subtreeAt.
  destruct (_mainFrame s ≫= lookupAt this); exact Hs.
Qed.

(** a change of the tree that keeps [commit] on every frame *)
Lemma keeps_tree (g : Frame -> Frame) :
  (forall t, every fired t -> every fired (g t)) ->
  keeps (modify (fun s => set_mainFrame (g <$> _mainFrame s) s)).
Proof.
  intros Hg. apply keeps_modify. intros s Hs root.
  destruct s as [frames [t|] barriers closed next out gone]; cbn; [|discriminate].
  intros [= <-]. apply Hg, Hs. reflexivity.
Qed.

Lemma keeps_updateFrame this g :
  (forall d, fired d -> fired (g d)) -> keeps (updateFrame this g).
Proof.
  intros Hg. apply keeps_tree. intros t Ht.
  apply every_modifyAt; [assumption|]. intros f. apply every_onData. assumption.
Qed.

Lemma fired_settle allowed idle d : fired d -> fired (settle allowed idle d).
Proof. unfold fired. rewrite has_settle_other by discriminate. auto. Qed.

Lemma keeps_recalculate frame : keeps (recalculateFromMainFrame frame).
Proof. apply keeps_tree. intros t. apply every_recalc. exact fired_settle. Qed.

Lemma keeps_forEach {A} (xs : list A) body :
  (forall x, keeps (body x)) -> keeps (forEach xs body).
Proof.
  intros Hbody. induction xs as [|x rest IH]; cbn.
  - apply keeps_ret.
  - apply keeps_bind; auto.
Qed.

#[local] Hint Resolve keeps_ret keeps_throw keeps_gets keeps_assert keeps_emit
  keeps_frameAt keeps_subtreeAt keeps_recalculate : keeps.

(** one step through a method: binds, branches, then the lemmas on hand *)
Ltac keeps_step :=
  match goal with
  | |- keeps (_ ≫= _) => apply keeps_bind; [|intros ?]
  | |- keeps (if ?b then _ else _) => destruct b
  | |- keeps (match ?x with _ => _ end) => destruct x
  | |- keeps (updateFrame _ _) =>
      apply keeps_updateFrame; intros ? ?; assumption
  | |- keeps (modify _) => apply keeps_aside; reflexivity
  | |- keeps (forEach _ _) => apply keeps_forEach; intros ?
  | |- keeps _ => solve [auto with keeps]
  end.

Ltac keeps_all := repeat keeps_step.

Lemma fired_addLifecycle e d : fired d -> fired (addLifecycle e d).
Proof.
  unfold fired. rewrite has_addLifecycle. intros ->. apply orb_true_r.
Qed.

Lemma fired_commit d : fired (addLifecycle commit d).
Proof. unfold fired. rewrite has_addLifecycle. reflexivity. Qed.

Lemma fired_addInflight r d : fired d -> fired (addInflight r d).
Proof. unfold addInflight. destruct (inflight r d); auto. Qed.

Lemma fired_new o id : fired (newFrameData o id).
Proof. reflexivity. Qed.

Lemma keeps__stopNetworkIdleTimer this : keeps (_stopNetworkIdleTimer this).
Proof. unfold _stopNetworkIdleTimer. keeps_all. Qed.

Lemma keeps__startNetworkIdleTimer this : keeps (_startNetworkIdleTimer this).
Proof. unfold _startNetworkIdleTimer. keeps_all. Qed.

Lemma keeps_networkIdleTimerFired this : keeps (networkIdleTimerFired this).
Proof. unfold networkIdleTimerFired. keeps_all. Qed.

Lemma keeps__onLifecycleEvent this event : keeps (_onLifecycleEvent this event).
Proof.
  unfold _onLifecycleEvent. keeps_all.
  apply keeps_updateFrame. intros d. apply fired_addLifecycle.
Qed.

Lemma keeps_setPendingDocument this documentInfo :
  keeps (setPendingDocument this documentInfo).
Proof. unfold setPendingDocument. keeps_all. Qed.

#[local] Hint Resolve keeps__stopNetworkIdleTimer keeps__startNetworkIdleTimer
  keeps_networkIdleTimerFired keeps__onLifecycleEvent keeps_setPendingDocument
  : keeps.

Lemma keeps_detachSlot this world : keeps (detachSlot this world).
Proof. unfold detachSlot. keeps_all. Qed.

#[local] Hint Resolve keeps_detachSlot : keeps.

Lemma keeps__onDetached this : keeps (_onDetached this).
Proof.
  unfold _onDetached. keeps_all.
  apply (keeps_tree (removeAt this)). intros t. apply every_removeAt.
Qed.

#[local] Hint Resolve keeps__onDetached : keeps.

Lemma keeps__removeFramesRecursively frame :
  forall this, keeps (_removeFramesRecursively frame this).
Proof.
  induction frame as [d children IH] using Frame_ind. intros this.
  cbn [_removeFramesRecursively _childFrames fdata].
  apply keeps_bind; [|intros _; keeps_all].
  induction children as [|child rest IHrest]; [apply keeps_ret|].
  apply Forall_cons in IH as [Hchild Hrest].
  apply keeps_bind; [apply Hchild | intros _; apply IHrest; assumption].
Qed.

Lemma keeps_removeFrames children :
  forall parent, keeps (removeFrames children parent).
Proof.
  induction children as [|child rest IH]; intros parent; cbn.
  - apply keeps_ret.
  - apply keeps_bind; [apply keeps__removeFramesRecursively | intros _; apply IH].
Qed.

#[local] Hint Resolve keeps__removeFramesRecursively keeps_removeFrames : keeps.

Lemma keeps_removeChildFramesRecursively this :
  keeps (removeChildFramesRecursively this).
Proof. unfold removeChildFramesRecursively. keeps_all. Qed.

Lemma keeps__fireInternalFrameNavigation this event :
  keeps (_fireInternalFrameNavigation this event).
Proof. unfold _fireInternalFrameNavigation. keeps_all. Qed.

Lemma keeps_commitDocument this documentId : keeps (commitDocument this documentId).
Proof. unfold commitDocument. keeps_all. Qed.

#[local] Hint Resolve keeps_removeChildFramesRecursively
  keeps__fireInternalFrameNavigation keeps_commitDocument : keeps.

(** [_onClearLifecycle] empties the set of the frame and ends by firing
    [commit] on it *)
Lemma keeps__onClearLifecycle this : keeps (_onClearLifecycle this).
Proof.
  intros s Hs. destruct (_mainFrame s) as [root|] eqn:Hroot.
  - destruct (lookupAt this root) as [n|] eqn:Hthis.
    + rewrite (_onClearLifecycle_run this s root n Hroot Hthis).
      intros T [= <-]. unfold clearedTree.
      apply every_recalc; [exact fired_settle|].
      apply every_modifyAt_recalc;
        [exact fired_settle | intros d; apply fired_commit |].
      rewrite modifyAt_compose.
      apply every_modifyAt; [apply Hs; assumption|]. intros f.
      apply (every_onData fired (fun d => addLifecycle commit (cleared d))).
      intros d _. apply fired_commit.
    + rewrite <- (withTree_same s root Hroot) at 1.
      unfold _onClearLifecycle, _stopNetworkIdleTimer.
      rewrite (bind_run _ _ _ _ _ (updateFrame_wt _ _ _ _)).
      rewrite (bind_run _ _ _ _ _ (updateFrame_wt _ _ _ _)).
      rewrite (bind_run _ _ _ _ _ (updateFrame_wt _ _ _ _)).
      rewrite !(modifyAt_invalid this _ root Hthis), (withTree_same s root Hroot).
      erewrite bind_throw; [exact Hs|].
      unfold frameAt. rewrite Hroot. cbn [mbind option_bind]. rewrite Hthis.
      reflexivity.
  - destruct s as [frames tree barriers closed next out gone].
    cbn in Hroot. subst tree. intros root.
    unfold _onClearLifecycle, _stopNetworkIdleTimer, updateFrame, modify, frameAt,
      mbind, M_bind.
    cbn. discriminate.
Qed.

#[local] Hint Resolve keeps__onClearLifecycle : keeps.

Lemma every_new o id : every fired (mkFrame (newFrameData o id) []).
Proof. apply every_node. split; [apply fired_new | constructor]. Qed.

Lemma keeps_newFrame id parentFrame : keeps (newFrame id parentFrame).
Proof.
  unfold newFrame. keeps_all.
  - apply keeps_tree. intros t Ht. apply every_modifyAt; [assumption|].
    intros [d children]. rewrite !every_node. intros [Hd Hc].
    split; [assumption|]. cbn. apply Forall_app. split; [assumption|].
    constructor; [apply every_new | constructor].
  - apply keeps_modify. intros s _ root. cbn. intros [= <-]. apply every_new.
Qed.

#[local] Hint Resolve keeps_newFrame : keeps.

Lemma keeps_frameAttached frameId parentFrameId :
  keeps (frameAttached frameId parentFrameId).
Proof. unfold frameAttached, frameById. keeps_all. Qed.

Lemma keeps_frameAbortedNavigation redirected frameId errorText documentId :
  keeps (frameAbortedNavigation redirected frameId errorText documentId).
Proof. unfold frameAbortedNavigation, frameById. keeps_all. Qed.

Lemma keeps__inflightRequestStarted r this : keeps (_inflightRequestStarted r this).
Proof.
  unfold _inflightRequestStarted. keeps_all.
  apply keeps_updateFrame. intros d. apply fired_addInflight.
Qed.

Lemma keeps__inflightRequestFinished r this : keeps (_inflightRequestFinished r this).
Proof. unfold _inflightRequestFinished. keeps_all. Qed.

#[local] Hint Resolve keeps_frameAttached keeps_frameAbortedNavigation
  keeps__inflightRequestStarted keeps__inflightRequestFinished : keeps.

(** a frame object that has left the tree is not one that the manager
    reaches: what is done to it leaves the tree as it is, but for a
    recalculation *)
Lemma keeps_gone_frameAt o : keeps (Gone.frameAt o).
Proof. intros s Hs. unfold Gone.frameAt. destruct (List.find _ _); exact Hs. Qed.

Lemma keeps_gone_updateFrame o g : keeps (Gone.updateFrame o g).
Proof. apply keeps_aside. reflexivity. Qed.

#[local] Hint Resolve keeps_gone_frameAt keeps_gone_updateFrame : keeps.

Lemma keeps_gone__startNetworkIdleTimer o : keeps (Gone._startNetworkIdleTimer o).
Proof. unfold Gone._startNetworkIdleTimer. keeps_all. Qed.

Lemma keeps_gone__onLifecycleEvent o event : keeps (Gone._onLifecycleEvent o event).
Proof. unfold Gone._onLifecycleEvent. keeps_all. Qed.

#[local] Hint Resolve keeps_gone__startNetworkIdleTimer
  keeps_gone__onLifecycleEvent : keeps.

(** every handler leaves a good manager good *)
Lemma keeps_handle e : keeps (handle e).
Proof.
  destruct e; cbn [handle];
    unfold createDummyMainFrameIfNeeded, frameDetached, frameRequestedNavigation,
      frameCommittedNewDocumentNavigation, frameCommittedSameDocumentNavigation,
      frameLifecycleEvent, requestStarted, reportRequestFinished, requestFailed,
      abortPending, dispose,
      onFrameObject, _contextCreated, _contextDestroyed, frameById, frameOf,
      Gone.networkIdleTimerFired, Gone._onClearLifecycle,
      Gone._contextCreated, Gone._contextDestroyed, Gone._inflightRequestStarted,
      Gone._inflightRequestFinished, Gone.setPendingDocument,
      Gone._stopNetworkIdleTimer;
    keeps_all.
Qed.

Lemma reachable_good s : reachable s -> good s.
Proof.
  induction 1 as [|s e _ IH|s _ IH].
  - intros root. discriminate.
  - apply keeps_handle. assumption.
  - exact (keeps_handle Dispose s IH).
Qed.

Lemma reachable_from s events :
  reachable s -> reachable (foldl (fun s e => after e s) s events).
Proof.
  revert s. induction events as [|e rest IH]; intros s Hs; cbn; [assumption|].
  apply IH. constructor. assumption.
Qed.

(** C10.  A frame object is built with [commit] in its set.  At every
    state that the manager reaches, whatever the notifications and whether
    their handlers returned or threw, every frame of the tree under the main
    frame has [commit] in its set of fired lifecycle events, so
    [_waitForLoadState] for [commit] returns on it without waiting. *)
Theorem commit_is_fired_on_every_frame s root d :
  reachable s ->
  _mainFrame s = Some root ->
  d ∈ postorder root ->
  (forall o id, has commit (newFrameData o id) = true)
  /\ has commit d = true
  /\ _waitForLoadState d commit = true.
Proof.
  intros Hs Hroot Hd. split; [intros o id; reflexivity|].
  pose proof (reachable_good s Hs root Hroot) as Hevery.
  unfold every in Hevery. rewrite Forall_forall in Hevery.
  unfold _waitForLoadState. split; apply Hevery; assumption.
Qed.

End CommitFacts.

Module CommitRuns.
Import Errors Types Frames Samples CommitFacts.

(** [commit] survives the commit of a new document on [c] *)
Example commit_after_commit :
  let e := OnFrameCommittedNewDocumentNavigation "c" "about:b" "" "docB" false in
  (map (fun d => (_id d, _firedLifecycleEvents d)) ∘ postorder)
    <$> _mainFrame (after e family)
  = Some [("c", [commit]); ("d", [commit; networkidle]); ("m", [commit])].
Proof. vm_compute. reflexivity. Qed.

Lemma commit_is_fired_on_every_frame_witness :
  reachable family
  /\ _mainFrame family = Some familyTree
  /\ fdata familyC ∈ postorder familyTree
  /\ has commit (fdata familyC) = true
  /\ _waitForLoadState (fdata familyC) commit = true.
Proof.
  assert (Hrun : run familyEvents = family) by (vm_compute; reflexivity).
  assert (Hs : reachable family).
  { rewrite <- Hrun. apply reachable_from. constructor. }
  assert (Hroot : _mainFrame family = Some familyTree) by reflexivity.
  assert (Hd : fdata familyC ∈ postorder familyTree).
  { vm_compute. apply list_elem_of_further, list_elem_of_here. }
  destruct (commit_is_fired_on_every_frame family familyTree (fdata familyC)
              Hs Hroot Hd) as (_ & Hfired & Hwait).
  repeat (split; [assumption|]). assumption.
Defined.

End CommitRuns.

(** * The request context: [packages/playwright-core/src/server/fetch.ts] *)

(** ** Header objects *)

Module Headers.
Import Strings.

(** A [{ [name: string]: string }] object: its own properties, in the
    order in which [Object.entries] lists them (array indices in ascending
    order first, then the other names in the order of their creation). *)
Definition HeadersObject := list (string * string).

Definition digit (c : Ascii.ascii) : option N :=
  let n := Ascii.N_of_ascii c in
  if ((48 <=? n) && (n <=? 57))%N then Some (n - 48)%N else None.

Fixpoint digits (s : string) (acc : N) : option N :=
  match s with
  | EmptyString => Some acc
  | String c s' =>
      match digit c with
      | Some d => digits s' (10 * acc + d)%N
      | None => None
      end
  end.

(** a property name that is an array index: the canonical decimal form
    of an integer below [2^32 - 1] *)
Definition arrayIndex (name : string) : option N :=
  match name with
  | EmptyString => None
  | String c rest =>
      if bool_decide (Ascii.N_of_ascii c = 48%N)
         && negb (bool_decide (rest = EmptyString))
      then None
      else match digits name 0 with
           | Some n => if (n <? 4294967295)%N then Some n else None
           | None => None
           end
  end.

Definition hasOwn (name : string) (o : HeadersObject) : bool :=
  existsb (fun pair => bool_decide (fst pair = name)) o.

(** the value of an own property changes in place *)
Fixpoint update (name value : string) (o : HeadersObject) : HeadersObject :=
  match o with
  | [] => []
  | (k, v) :: rest =>
      if bool_decide (k = name) then (k, value) :: rest
      else (k, v) :: update name value rest
  end.

(** a new array index goes among the indices, in numeric order *)
Fixpoint placeIndex (i : N) (name value : string) (o : HeadersObject)
    : HeadersObject :=
  match o with
  | [] => [(name, value)]
  | (k, v) :: rest =>
      match arrayIndex k with
      | Some j =>
          if (j <? i)%N then (k, v) :: placeIndex i name value rest
          else (name, value) :: (k, v) :: rest
      | None => (name, value) :: (k, v) :: rest
      end
  end.

(** [o[name] = value].  Without an own property of that name,
    [__proto__] reaches the setter of [Object.prototype], which ignores a
    string. *)
Definition assign (name value : string) (o : HeadersObject) : HeadersObject :=
  if hasOwn name o then update name value o
  else if bool_decide (name = "__proto__") then o
  else match arrayIndex name with
       | Some i => placeIndex i name value o
       | None => o ++ [(name, value)]
       end.

(** [delete o[name]] *)
Definition delete (name : string) (o : HeadersObject) : HeadersObject :=
  List.filter (fun pair => negb (bool_decide (fst pair = name))) o.

Section Lowered.
Context {casing : Casing}.

(** [pair => pair[0].toLowerCase() === name.toLowerCase()] *)
Definition sameName (name : string) (pair : string * string) : bool :=
  bool_decide (toLowerCase (fst pair) = toLowerCase name).

Definition setHeader (headers : HeadersObject) (name value : string)
    (keepExisting : bool) : HeadersObject :=
  match List.find (sameName name) headers with
  | None => assign name value headers
  | Some existing =>
      if negb keepExisting then assign (fst existing) value headers
      else headers
  end.

Definition getHeader (headers : HeadersObject) (name : string) : option string :=
  match List.find (sameName name) headers with
  | Some existing => Some (snd existing)
  | None => None
  end.

End Lowered.

Definition removeHeader (headers : HeadersObject) (name : string) : HeadersObject :=
  delete name headers.

(** [toHeadersArray]: [rawHeaders[i + 1]] is [undefined] past the end *)
Fixpoint toHeadersArray (rawHeaders : list string) : list (string * option string) :=
  match rawHeaders with
  | [] => []
  | [name] => [(name, None)]
  | name :: value :: rest => (name, Some value) :: toHeadersArray rest
  end.

End Headers.

Module HeadersFacts.
Import Strings Headers.

Section Lowered.
Context {casing : Casing}.

Lemma sameName_fst name k v v' : sameName name (k, v) = sameName name (k, v').
Proof. reflexivity. Qed.

Lemma sameName_lower name name' pair :
  toLowerCase name' = toLowerCase name ->
  sameName name' pair = sameName name pair.
Proof. unfold sameName. intros ->. reflexivity. Qed.

Lemma find_hasOwn p (o : HeadersObject) k v :
  List.find p o = Some (k, v) -> hasOwn k o = true.
Proof.
  intros Hfind. apply find_some in Hfind as [Hin _].
  apply existsb_exists. exists (k, v). split; [assumption|].
  apply bool_decide_eq_true. reflexivity.
Qed.

Lemma find_update_hit name k v0 v o :
  List.find (sameName name) o = Some (k, v0) ->
  List.find (sameName name) (update k v o) = Some (k, v).
Proof.
  induction o as [|[k' v'] rest IH]; cbn; [discriminate|].
  destruct (sameName name (k', v')) eqn:Hhead.
  - intros [= -> ->]. rewrite bool_decide_eq_true_2 by reflexivity.
    cbn. rewrite (sameName_fst name k v v0), Hhead. reflexivity.
  - intros Hrest. destruct (bool_decide_reflect (k' = k)) as [->|Hne].
    + apply find_some in Hrest as [_ Hk].
      rewrite (sameName_fst name k v0 v') in Hk. congruence.
    + cbn. rewrite Hhead. auto.
Qed.

Lemma find_update_other p k v o :
  (forall w, p (k, w) = false) ->
  List.find p (update k v o) = List.find p o.
Proof.
  intros Hp. induction o as [|[k' v'] rest IH]; cbn; [reflexivity|].
  destruct (bool_decide_reflect (k' = k)) as [->|Hne]; cbn.
  - rewrite !Hp. reflexivity.
  - rewrite IH. reflexivity.
Qed.

(** where a new property lands, the others keep their order *)
Lemma placeIndex_split i name value o :
  exists before after,
    o = before ++ after
    /\ placeIndex i name value o = before ++ (name, value) :: after.
Proof.
  induction o as [|[k v] rest (before & after & Hrest & Hplace)]; cbn.
  - exists [], []. split; reflexivity.
  - destruct (arrayIndex k) as [j|].
    + destruct (j <? i)%N.
      * exists ((k, v) :: before), after. cbn. rewrite <- Hrest, Hplace.
        split; reflexivity.
      * exists [], ((k, v) :: rest). split; reflexivity.
    + exists [], ((k, v) :: rest). split; reflexivity.
Qed.

Lemma define_split name value o :
  hasOwn name o = false -> name <> "__proto__" ->
  exists before after,
    o = before ++ after
    /\ assign name value o = before ++ (name, value) :: after.
Proof.
  intros Hown Hproto. unfold assign. rewrite Hown.
  rewrite bool_decide_eq_false_2 by assumption.
  destruct (arrayIndex name) as [i|].
  - apply placeIndex_split.
  - exists o, []. rewrite app_nil_r. split; reflexivity.
Qed.

Lemma find_app_none {A} p (l1 l2 : list A) :
  List.find p l1 = None -> List.find p (l1 ++ l2) = List.find p l2.
Proof.
  induction l1 as [|x l1 IH]; cbn; [reflexivity|].
  destruct (p x); [discriminate | exact IH].
Qed.

Lemma find_app_some {A} p (l1 l2 : list A) x :
  List.find p l1 = Some x -> List.find p (l1 ++ l2) = Some x.
Proof.
  induction l1 as [|y l1 IH]; cbn; [discriminate|].
  destruct (p y); auto.
Qed.

Lemma find_none_app {A} p (l1 l2 : list A) :
  List.find p (l1 ++ l2) = None ->
  List.find p l1 = None /\ List.find p l2 = None.
Proof.
  induction l1 as [|x l1 IH]; cbn; [auto|].
  destruct (p x); [discriminate | exact IH].
Qed.

Lemma find_insert_miss {A} p (l1 l2 : list A) x :
  p x = false -> List.find p (l1 ++ x :: l2) = List.find p (l1 ++ l2).
Proof.
  intros Hx. induction l1 as [|y l1 IH]; cbn.
  - rewrite Hx. reflexivity.
  - destruct (p y); [reflexivity | exact IH].
Qed.

Lemma find_pointwise {A} (p q : A -> bool) l :
  (forall x, p x = q x) -> List.find p l = List.find q l.
Proof.
  intros Hpq. induction l as [|x l IH]; cbn; [reflexivity|].
  rewrite Hpq, IH. reflexivity.
Qed.

Lemma find_none_hasOwn name (o : HeadersObject) :
  List.find (sameName name) o = None -> hasOwn name o = false.
Proof.
  intros Hnone. apply not_true_iff_false. intros Hown.
  apply existsb_exists in Hown as ([k v] & Hin & Hk).
  apply bool_decide_eq_true in Hk. cbn in Hk. subst k.
  apply (find_none _ _ Hnone) in Hin. unfold sameName in Hin. cbn in Hin.
  rewrite bool_decide_eq_true_2 in Hin by reflexivity. discriminate.
Qed.

(** what [getHeader] answers after [setHeader], for any name *)
Lemma getHeader_setHeader headers name value name' :
  name <> "__proto__" ->
  getHeader (setHeader headers name value false) name'
  = if bool_decide (toLowerCase name' = toLowerCase name) then Some value
    else getHeader headers name'.
Proof.
  intros Hproto. unfold getHeader, setHeader.
  destruct (List.find (sameName name) headers) as [[k v0]|] eqn:Hfind; cbn [negb fst].
  - assert (Hk : toLowerCase k = toLowerCase name).
    { apply find_some in Hfind as [_ Hk]. apply bool_decide_eq_true in Hk. exact Hk. }
    unfold assign. rewrite (find_hasOwn _ _ _ _ Hfind).
    destruct (bool_decide_reflect (toLowerCase name' = toLowerCase name)) as [Heq|Hne].
    + rewrite (find_pointwise _ _ _ (fun pair => sameName_lower name name' pair Heq)).
      rewrite (find_update_hit name k v0 value headers Hfind). reflexivity.
    + rewrite find_update_other; [reflexivity|].
      intros w. apply bool_decide_eq_false. cbn. congruence.
  - destruct (define_split name value headers (find_none_hasOwn _ _ Hfind) Hproto)
      as (before & after & Hsplit & ->).
    destruct (bool_decide_reflect (toLowerCase name' = toLowerCase name)) as [Heq|Hne].
    + rewrite (find_pointwise _ _ _ (fun pair => sameName_lower name name' pair Heq)).
      rewrite Hsplit in Hfind. apply find_none_app in Hfind as [Hbefore _].
      rewrite (find_app_none _ _ _ Hbefore). cbn.
      unfold sameName at 1. cbn. rewrite bool_decide_eq_true_2 by reflexivity.
      reflexivity.
    + rewrite find_insert_miss, <- Hsplit; [reflexivity|].
      apply bool_decide_eq_false. cbn. congruence.
Qed.

(** the names of a header object, without their case *)
Definition names (headers : HeadersObject) : list string :=
  map (fun pair => toLowerCase (fst pair)) headers.

Lemma names_update k v o : names (update k v o) = names o.
Proof.
  induction o as [|[k' v'] rest IH]; cbn; [reflexivity|].
  destruct (bool_decide_reflect (k' = k)); cbn; [reflexivity|].
  unfold names in IH. rewrite IH. reflexivity.
Qed.

Lemma find_none_names name (o : HeadersObject) :
  List.find (sameName name) o = None <-> toLowerCase name ∉ names o.
Proof.
  unfold names. rewrite list_elem_of_fmap. split.
  - intros Hnone ([k v] & Hk & Hin). apply list_elem_of_In in Hin.
    apply (find_none _ _ Hnone) in Hin. unfold sameName in Hin. cbn in *.
    rewrite bool_decide_eq_true_2 in Hin by congruence. discriminate.
  - intros Hnot. destruct (List.find (sameName name) o) as [[k v]|] eqn:Hfind;
      [|reflexivity].
    apply find_some in Hfind as [Hin Hk]. apply bool_decide_eq_true in Hk.
    exfalso. apply Hnot. exists (k, v). split; [symmetry; exact Hk|].
    apply list_elem_of_In. assumption.
Qed.

(** [setHeader] never leaves two properties whose names differ in case
    only *)
Lemma setHeader_names headers name value keepExisting :
  NoDup (names headers) ->
  NoDup (names (setHeader headers name value keepExisting)).
Proof.
  intros Hdistinct. unfold setHeader.
  destruct (List.find (sameName name) headers) as [[k v0]|] eqn:Hfind.
  - destruct keepExisting; cbn [negb fst]; [assumption|].
    unfold assign. rewrite (find_hasOwn _ _ _ _ Hfind), names_update. assumption.
  - destruct (decide (name = "__proto__")) as [Hproto|Hproto].
    + unfold assign. rewrite (find_none_hasOwn _ _ Hfind).
      rewrite bool_decide_eq_true_2 by assumption. assumption.
    + destruct (define_split name value headers (find_none_hasOwn _ _ Hfind) Hproto)
        as (before & after & Hsplit & ->).
      apply find_none_names in Hfind. subst headers. unfold names in *.
      rewrite map_app in *. cbn. apply NoDup_app in Hdistinct as (Hb & Hba & Ha).
      rewrite elem_of_app in Hfind.
      apply NoDup_app. split; [assumption|]. split.
      * intros x Hx [->|Hin]%elem_of_cons; [tauto | eapply Hba; eassumption].
      * apply NoDup_cons. split; [tauto | assumption].
Qed.

Lemma getHeader_lower headers name name' :
  toLowerCase name' = toLowerCase name ->
  getHeader headers name' = getHeader headers name.
Proof.
  intros Heq. unfold getHeader.
  rewrite (find_pointwise _ _ _ (fun pair => sameName_lower name name' pair Heq)).
  reflexivity.
Qed.

Lemma getHeader_setHeader_keep headers name value name' :
  name <> "__proto__" ->
  getHeader (setHeader headers name value true) name'
  = if bool_decide (toLowerCase name' = toLowerCase name)
    then Some (default value (getHeader headers name))
    else getHeader headers name'.
Proof.
  intros Hproto.
  destruct (List.find (sameName name) headers) as [[k v0]|] eqn:Hfind.
  - assert (Hkept : setHeader headers name value true = headers)
      by (unfold setHeader; rewrite Hfind; reflexivity).
    rewrite Hkept.
    destruct (bool_decide_reflect (toLowerCase name' = toLowerCase name)) as [Heq|];
      [|reflexivity].
    rewrite (getHeader_lower _ _ _ Heq). unfold getHeader. rewrite Hfind. reflexivity.
  - assert (Hset : setHeader headers name value true
                   = setHeader headers name value false)
      by (unfold setHeader; rewrite Hfind; reflexivity).
    rewrite Hset, getHeader_setHeader by assumption.
    replace (getHeader headers name) with (@None string)
      by (unfold getHeader; rewrite Hfind; reflexivity).
    reflexivity.
Qed.

(** X1.  [setHeader], read back.  A header that is set (without
    [keepExisting]) is what [getHeader] answers for the name in any case,
    the other headers are as before, and no two properties of the object
    come to differ in case only.  The name [__proto__] is the exception:
    setting it on an object without such a property changes nothing. *)
Theorem setHeader_is_read_back_in_any_case headers name value keepExisting :
  (name <> "__proto__" ->
   forall name',
     getHeader (setHeader headers name value false) name'
     = if bool_decide (toLowerCase name' = toLowerCase name) then Some value
       else getHeader headers name')
  /\ (NoDup (names headers) ->
      NoDup (names (setHeader headers name value keepExisting)))
  /\ (getHeader headers "__proto__" = None ->
      setHeader headers "__proto__" value keepExisting = headers).
Proof.
  split; [intros Hproto name'; apply getHeader_setHeader; assumption|].
  split; [apply setHeader_names|].
  unfold getHeader, setHeader.
  destruct (List.find (sameName "__proto__") headers) eqn:Hfind; [discriminate|].
  intros _. unfold assign. rewrite (find_none_hasOwn _ _ Hfind). reflexivity.
Qed.

(** X2.  [setHeader] with [keepExisting]: a header that is there under the
    name, in whatever case, is kept and the object is left as it is; a
    header that is not there is set. *)
Theorem setHeader_keepExisting_never_overrides headers name value :
  (forall old, getHeader headers name = Some old ->
     setHeader headers name value true = headers)
  /\ (getHeader headers name = None -> name <> "__proto__" ->
      getHeader (setHeader headers name value true) name = Some value
      /\ forall name', toLowerCase name' <> toLowerCase name ->
           getHeader (setHeader headers name value true) name'
           = getHeader headers name').
Proof.
  unfold getHeader at 1 2. split.
  - intros old. unfold setHeader.
    destruct (List.find (sameName name) headers); [reflexivity | discriminate].
  - intros Hnone Hproto.
    assert (Hsame : setHeader headers name value true
                    = setHeader headers name value false).
    { unfold setHeader.
      destruct (List.find (sameName name) headers); [discriminate | reflexivity]. }
    rewrite Hsame. split.
    + rewrite getHeader_setHeader by assumption.
      rewrite bool_decide_eq_true_2 by reflexivity. reflexivity.
    + intros name' Hother. rewrite getHeader_setHeader by assumption.
      rewrite bool_decide_eq_false_2 by assumption. reflexivity.
Qed.



End Lowered.

(** induction two elements at a time *)
Lemma pairs_ind {A} (P : list A -> Prop) :
  P [] -> (forall x, P [x]) -> (forall x y l, P l -> P (x :: y :: l)) ->
  forall l, P l.
Proof.
  intros Hnil Hone Hstep. fix IH 1. intros [|x [|y l]]; [exact Hnil | apply Hone |].
  apply Hstep, IH.
Qed.

(** X4.  [toHeadersArray] pairs the raw list up: flattening the pairs gives
    the raw list back, there is a pair for every two entries, and a pair
    is without value only as the last one of a list of odd length. *)
Theorem toHeadersArray_round_trip raw :
  flat_map (fun pair => fst pair :: option_list (snd pair)) (toHeadersArray raw)
  = raw
  /\ length (toHeadersArray raw) = Nat.div2 (S (length raw))
  /\ (forall i name, toHeadersArray raw !! i = Some (name, None) ->
        Nat.odd (length raw) = true /\ S i = length (toHeadersArray raw)).
Proof.
  induction raw as [|name|name value rest (Hflat & Hlen & Hlast)] using pairs_ind.
  - split; [reflexivity|]. split; [reflexivity|]. intros i name. discriminate.
  - split; [reflexivity|]. split; [reflexivity|].
    intros [|i] name'; [|discriminate]. intros _. split; reflexivity.
  - cbn [toHeadersArray]. split; [cbn; rewrite Hflat; reflexivity|].
    split; [cbn [length]; rewrite Hlen; reflexivity|].
    intros [|i] name'; [discriminate|]. cbn. intros Hi.
    destruct (Hlast i name' Hi) as [Hodd Hi']. split; [exact Hodd|].
    rewrite Hi'. reflexivity.
Qed.

End HeadersFacts.

Module HeadersRuns.
Import Strings Headers HeadersFacts.

#[local] Existing Instance asciiCasing.

(** a header object as a caller may give it, with a capital [Cookie] *)
Definition capitalised : HeadersObject :=
  [("accept", "*/*"); ("Cookie", "a=b")].

Example set_then_get :
  getHeader (setHeader capitalised "COOKIE" "c=d" false) "cookie" = Some "c=d"
  /\ setHeader capitalised "COOKIE" "c=d" false
     = [("accept", "*/*"); ("Cookie", "c=d")].
Proof. vm_compute. split; reflexivity. Qed.

(** an array index is enumerated before the names that were there *)
Example index_goes_first :
  setHeader capitalised "7" "seven" false
  = [("7", "seven"); ("accept", "*/*"); ("Cookie", "a=b")].
Proof. vm_compute. reflexivity. Qed.


End HeadersRuns.

(** ** Preparing and sending a request *)

From stdpp Require Import pretty.

Module Fetch.
Import Strings Headers.

(** [HTTPCredentials] *)
Record HTTPCredentials := mkHTTPCredentials {
  username : option string;
  password : option string;
  origin : option string;
  send : option string;
}.

(** [FetchRequestOptions], what [_defaultOptions()] answers *)
Record FetchRequestOptions := mkFetchRequestOptions {
  userAgent : string;
  extraHTTPHeaders : option (list (string * string));
  defaultFailOnStatusCode : option bool;
  httpCredentials : option HTTPCredentials;
  defaultMaxRedirects : option Z;
}.

(** a field of [multipartData] *)
Record MultipartField (File : Type) := mkMultipartField {
  fieldName : string;
  fieldFile : option File;
  fieldValue : option string;
}.
Arguments mkMultipartField {File} _ _ _.
Arguments fieldName {File} _.
Arguments fieldFile {File} _.
Arguments fieldValue {File} _.

(** [channels.APIRequestContextFetchParams], as far as [fetch] reads it
    before it sends *)
Record FetchParams (Buffer File : Type) := mkFetchParams {
  headers : option (list (string * string));
  method : option string;
  maxRedirects : option Z;
  failOnStatusCode : option bool;
  maxRetries : option Z;
  postData : option Buffer;
  jsonData : option string;
  formData : option (list (string * string));
  multipartData : option (list (MultipartField File));
}.
Arguments mkFetchParams {Buffer File} _ _ _ _ _ _ _ _ _.
Arguments headers {Buffer File} _.
Arguments method {Buffer File} _.
Arguments maxRedirects {Buffer File} _.
Arguments failOnStatusCode {Buffer File} _.
Arguments maxRetries {Buffer File} _.
Arguments postData {Buffer File} _.
Arguments jsonData {Buffer File} _.
Arguments formData {Buffer File} _.
Arguments multipartData {Buffer File} _.

Section Prepare.
Context {casing : Casing}.
(** [Buffer], with [byteLength]; the files of [multipartData] *)
Context {Buffer File : Type}.
Variable byteLength : Buffer -> N.
(** [Buffer.from(text, 'utf8')] *)
Variable utf8 : string -> Buffer.
(** [Buffer.from(text).toString('base64')] *)
Variable base64 : string -> string.
(** [URLSearchParams]: [toString()] after the [append]s in order *)
Variable urlencoded : list (string * string) -> string.
(** [MultipartFormData] of [formData.ts] *)
Context {Form : Type}.
Variable newForm : Form.
Variable addFileField : string -> File -> Form -> Form.
Variable addField : string -> string -> Form -> Form.
Variable contentTypeHeader : Form -> string.
Variable finish : Form -> Buffer.

(** the outcome of a function that may throw an [Error] with a message *)
Definition Thrown (A : Type) : Type := A + string.

(** a string in a condition *)
Definition nonEmpty (s : option string) : bool :=
  match s with
  | Some text => negb (bool_decide (text = ""))
  | None => false
  end.

Definition count (b : bool) : nat := if b then 1 else 0.

(** [serializePostData(params, headers)]: the body and the headers as it
    leaves them *)
Definition serializePostData (params : FetchParams Buffer File)
    (object : HeadersObject) : Thrown (option Buffer * HeadersObject) :=
  if negb (count (bool_decide (is_Some (postData params)))
           + count (nonEmpty (jsonData params))
           + count (bool_decide (is_Some (formData params)))
           + count (bool_decide (is_Some (multipartData params))) <=? 1)%nat
  then inr "Only one of 'data', 'form' or 'multipart' can be specified"
  else
    match jsonData params with
    | Some json =>
        inl (Some (utf8 json),
             setHeader object "content-type" "application/json" true)
    | None =>
        match formData params with
        | Some fields =>
            inl (Some (utf8 (urlencoded fields)),
                 setHeader object "content-type"
                   "application/x-www-form-urlencoded" true)
        | None =>
            match multipartData params with
            | Some fields =>
                let form :=
                  foldl (fun form field =>
                           match fieldFile field with
                           | Some file => addFileField (fieldName field) file form
                           | None =>
                               if nonEmpty (fieldValue field)
                               then addField (fieldName field)
                                      (default "" (fieldValue field)) form
                               else form
                           end) newForm fields in
                inl (Some (finish form),
                     setHeader object "content-type" (contentTypeHeader form) true)
            | None =>
                match postData params with
                | Some data =>
                    inl (Some data,
                         setHeader object "content-type"
                           "application/octet-stream" true)
                | None => inl (None, object)
                end
            end
        end
    end.

(** [setBasicAuthorizationHeader] *)
Definition setBasicAuthorizationHeader (object : HeadersObject)
    (credentials : HTTPCredentials) : HeadersObject :=
  let encoded :=
    base64 (default "" (username credentials) +:+ ":"
            +:+ default "" (password credentials)) in
  setHeader object "authorization" ("Basic " +:+ encoded) false.

(** [_getHttpCredentials(url)]; [urlOrigin] is [url.origin] *)
Definition _getHttpCredentials (defaults : FetchRequestOptions)
    (urlOrigin : string) : option HTTPCredentials :=
  match httpCredentials defaults with
  | Some credentials =>
      if negb (nonEmpty (origin credentials))
         || bool_decide (toLowerCase urlOrigin
                         = toLowerCase (default "" (origin credentials)))
      then Some credentials else None
  | None => None
  end.

(** [for (const { name, value } of entries) setHeader(headers, name, value)] *)
Definition setHeaders (entries : list (string * string)) (object : HeadersObject)
    : HeadersObject :=
  foldl (fun object entry => setHeader object (fst entry) (snd entry) false)
        object entries.

(** what [fetch] hands to [_sendRequestWithRetries] *)
Record Prepared := mkPrepared {
  sentMethod : string;
  sentHeaders : HeadersObject;
  sentMaxRedirects : Z;
  sentData : option Buffer;
}.

(** [fetch], up to the call of [_sendRequestWithRetries]; [urlOrigin] is
    the origin of the request url.  The proxy agent and the TLS options do
    not touch what is modelled. *)
Definition prepare (defaults : FetchRequestOptions)
    (params : FetchParams Buffer File) (urlOrigin : string) : Thrown Prepared :=
  let object : HeadersObject :=
    [("user-agent", userAgent defaults);
     ("accept", "*/*");
     ("accept-encoding", "gzip,deflate,br")] in
  let object := setHeaders (default [] (extraHTTPHeaders defaults)) object in
  let object := setHeaders (default [] (headers params)) object in
  let credentials := _getHttpCredentials defaults urlOrigin in
  let object :=
    match credentials with
    | Some credentials =>
        if bool_decide (send credentials = Some "always")
        then setBasicAuthorizationHeader object credentials else object
    | None => object
    end in
  let upper :=
    match method params with
    | Some m => if bool_decide (toUpperCase m = "") then "GET" else toUpperCase m
    | None => "GET"
    end in
  let redirects :=
    match maxRedirects params with
    | Some n => n
    | None => default 20%Z (defaultMaxRedirects defaults)
    end in
  let redirects := if (redirects =? 0)%Z then (-1)%Z else redirects in
  match serializePostData params object with
  | inr message => inr message
  | inl (data, object) =>
      let object :=
        match data with
        | Some buffer =>
            setHeader object "content-length" (pretty (byteLength buffer)) false
        | None => object
        end in
      inl (mkPrepared upper object redirects data)
  end.

End Prepare.

End Fetch.

Module FetchFacts.
Import Strings Headers HeadersFacts Fetch.

Section Cased.
Context {casing : Casing}.

(** the header that a list of entries leaves under a name: the last one
    of that name, in whatever case *)
Definition lastOf (name : string) (entries : list (string * string))
    : option string :=
  match List.find (sameName name) (reverse entries) with
  | Some entry => Some (snd entry)
  | None => None
  end.

Lemma setHeaders_snoc entries entry object :
  setHeaders (entries ++ [entry]) object
  = setHeader (setHeaders entries object) (fst entry) (snd entry) false.
Proof. unfold setHeaders. rewrite foldl_app. reflexivity. Qed.

Lemma getHeader_setHeaders entries object name :
  Forall (fun entry => fst entry <> "__proto__") entries ->
  getHeader (setHeaders entries object) name
  = match lastOf name entries with
    | Some value => Some value
    | None => getHeader object name
    end.
Proof.
  induction entries as [|entry entries IH] using rev_ind; intros Hnames.
  - reflexivity.
  - apply Forall_app in Hnames as [Hrest Hentry].
    rewrite Forall_singleton in Hentry.
    rewrite setHeaders_snoc, getHeader_setHeader by (cased; exact Hentry).
    unfold lastOf. rewrite reverse_app. cbn [reverse rev_append app List.find].
    change (rev_append [entry] []) with [entry]. cbn [app List.find].
    unfold sameName at 1.
    destruct (bool_decide_reflect (toLowerCase name = toLowerCase (fst entry)))
      as [Heq|Hne].
    + rewrite bool_decide_eq_true_2 by congruence. reflexivity.
    + rewrite bool_decide_eq_false_2 by congruence.
      rewrite IH by (cased; assumption). reflexivity.
Qed.

Lemma lastOf_app name entries later :
  lastOf name (entries ++ later)
  = match lastOf name later with
    | Some value => Some value
    | None => lastOf name entries
    end.
Proof.
  unfold lastOf. rewrite reverse_app.
  destruct (List.find (sameName name) (reverse later)) as [entry|] eqn:Hlater.
  - rewrite (find_app_some _ _ _ _ Hlater). reflexivity.
  - rewrite find_app_none by (cased; assumption). reflexivity.
Qed.

Section Prepared.
Context {Buffer File Form : Type}.
Variable byteLength : Buffer -> N.
Variable utf8 : string -> Buffer.
Variable base64 : string -> string.
Variable urlencoded : list (string * string) -> string.
Variable newForm : Form.
Variable addFileField : string -> File -> Form -> Form.
Variable addField : string -> string -> Form -> Form.
Variable contentTypeHeader : Form -> string.
Variable finish : Form -> Buffer.

Variable defaults : FetchRequestOptions.
Variable params : FetchParams Buffer File.
Variable urlOrigin : string.

Abbreviation prepared :=
  (prepare byteLength utf8 base64 urlencoded newForm addFileField addField
     contentTypeHeader finish defaults params urlOrigin).

Abbreviation serialized :=
  (serializePostData utf8 urlencoded newForm addFileField addField
     contentTypeHeader finish params).

(** the headers of the context, then those of the call *)
Definition given : list (string * string) :=
  default [] (extraHTTPHeaders defaults) ++ default [] (headers params).

Definition builtin : HeadersObject :=
  [("user-agent", userAgent defaults);
   ("accept", "*/*");
   ("accept-encoding", "gzip,deflate,br")].

Hypothesis plainNames : Forall (fun entry => fst entry <> "__proto__") given.

(** the headers before credentials and body are looked at *)
Lemma getHeader_given name :
  getHeader (setHeaders (default [] (headers params))
               (setHeaders (default [] (extraHTTPHeaders defaults)) builtin)) name
  = match lastOf name given with
    | Some value => Some value
    | None => getHeader builtin name
    end.
Proof.
  unfold given in *. apply Forall_app in plainNames as [Hextra Hmine].
  rewrite !getHeader_setHeaders, lastOf_app by (cased; assumption).
  destruct (lastOf name (default [] (headers params))); reflexivity.
Qed.

(** what [serializePostData] does to the headers: [content-type], kept
    when there is one *)
Lemma serialized_headers object data object' :
  serialized object = inl (data, object') ->
  exists contentType,
    (data = None -> object' = object)
    /\ (is_Some data -> object' = setHeader object "content-type" contentType true)
    /\ (is_Some (jsonData params) -> contentType = "application/json").
Proof.
  unfold serializePostData.
  destruct (negb _); [discriminate|].
  destruct (jsonData params) as [json|].
  { intros [= <- <-]. eexists. split; [discriminate|]. split; reflexivity. }
  destruct (formData params) as [fields|].
  { intros [= <- <-]. eexists. split; [discriminate|].
    split; [reflexivity | intros [? [=]]]. }
  destruct (multipartData params) as [fields|].
  { intros [= <- <-]. eexists. split; [discriminate|].
    split; [reflexivity | intros [? [=]]]. }
  destruct (postData params) as [buffer|].
  { intros [= <- <-]. eexists. split; [discriminate|].
    split; [reflexivity | intros [? [=]]]. }
  intros [= <- <-]. exists "". split; [reflexivity|].
  split; intros [? [=]].
Qed.

(** the headers once the credentials are looked at *)
Definition authorized (object : HeadersObject) : HeadersObject :=
  match _getHttpCredentials defaults urlOrigin with
  | Some credentials =>
      if bool_decide (send credentials = Some "always")
      then setBasicAuthorizationHeader base64 object credentials else object
  | None => object
  end.

Lemma prepared_headers p :
  prepared = inl p ->
  exists object,
    serialized
      (authorized (setHeaders (default [] (headers params))
                     (setHeaders (default [] (extraHTTPHeaders defaults)) builtin)))
    = inl (sentData p, object)
    /\ sentHeaders p
       = match sentData p with
         | Some buffer =>
             setHeader object "content-length" (pretty (byteLength buffer)) false
         | None => object
         end.
Proof.
  unfold prepare. fold builtin. cbv zeta.
  match goal with
  | |- context [serializePostData _ _ _ _ _ _ _ _ ?o] =>
      change o with
        (authorized (setHeaders (default [] (headers params))
                       (setHeaders (default [] (extraHTTPHeaders defaults)) builtin)))
  end.
  destruct (serialized _) as [[data object]|message]; [|discriminate].
  intros [= <-]. exists object. split; reflexivity.
Qed.

Lemma getHeader_authorized object name :
  toLowerCase name <> "authorization" ->
  getHeader (authorized object) name = getHeader object name.
Proof.
  intros Hname. unfold authorized, setBasicAuthorizationHeader.
  destruct (_getHttpCredentials defaults urlOrigin) as [credentials|]; [|reflexivity].
  destruct (bool_decide (send credentials = Some "always")); [|reflexivity].
  rewrite getHeader_setHeader by (cased; discriminate). cased.
  rewrite bool_decide_eq_false_2 by (cased; exact Hname). reflexivity.
Qed.


(** X6.  The headers of the body.  A [content-type] given by the context or
    the call, in whatever case, is the one sent; without one, JSON data
    goes out as [application/json].  With a body, [content-length] is the
    length of the body, whatever was given. *)
Theorem body_headers p :
  prepared = inl p ->
  (forall contentType, lastOf "content-type" given = Some contentType ->
     getHeader (sentHeaders p) "content-type" = Some contentType)
  /\ (is_Some (jsonData params) -> lastOf "content-type" given = None ->
      getHeader (sentHeaders p) "content-type" = Some "application/json")
  /\ (forall buffer, sentData p = Some buffer ->
        getHeader (sentHeaders p) "content-length"
        = Some (pretty (byteLength buffer))).
Proof.
  intros Hp.
  destruct (prepared_headers p Hp) as (object & Hserialized & ->).
  destruct (serialized_headers _ _ _ Hserialized)
    as (contentType & Hnone & Hsome & Hjson).
  assert (Hbefore : getHeader
            (authorized (setHeaders (default [] (headers params))
               (setHeaders (default [] (extraHTTPHeaders defaults)) builtin)))
            "content-type" = lastOf "content-type" given).
  { rewrite getHeader_authorized by (cased; discriminate). rewrite getHeader_given.
    destruct (lastOf "content-type" given); [reflexivity|].
    unfold getHeader, builtin. cbn [List.find]. unfold sameName. cbn [fst].
    cased. reflexivity. }
  assert (Hsent : forall buffer, sentData p = Some buffer ->
            getHeader object "content-type"
            = Some (default contentType (lastOf "content-type" given))).
  { intros buffer Hdata. rewrite Hsome by (rewrite Hdata; eauto).
    rewrite getHeader_setHeader_keep by (cased; discriminate).
    rewrite bool_decide_eq_true_2 by (cased; reflexivity). rewrite Hbefore. reflexivity. }
  split; [|split].
  - intros mine Hmine. destruct (sentData p) as [buffer|] eqn:Hdata.
    + rewrite getHeader_setHeader by (cased; discriminate).
      rewrite bool_decide_eq_false_2 by (cased; discriminate).
      rewrite (Hsent buffer eq_refl), Hmine. reflexivity.
    + rewrite Hnone by (cased; reflexivity). rewrite Hbefore. exact Hmine.
  - intros Hgiven Habsent. specialize (Hjson Hgiven). subst contentType.
    destruct (sentData p) as [buffer|] eqn:Hdata.
    + rewrite getHeader_setHeader by (cased; discriminate).
      rewrite bool_decide_eq_false_2 by (cased; discriminate).
      rewrite (Hsent buffer eq_refl), Habsent. reflexivity.
    + exfalso. destruct Hgiven as [json Hgiven].
      unfold serializePostData in Hserialized. rewrite Hgiven in Hserialized.
      destruct (negb _) in Hserialized; discriminate.
  - intros buffer [= ->]. rewrite getHeader_setHeader by (cased; discriminate).
    rewrite bool_decide_eq_true_2 by (cased; reflexivity). reflexivity.
Qed.

(** X7.  Credentials that are to be sent always.  When the credentials of the
    context apply to the origin of the url (they name no origin, or that
    one in whatever case) and say [always], the request carries their
    [Basic] authorization, whatever [authorization] header the context or
    the call gave. *)
Theorem credentials_sent_always p credentials :
  prepared = inl p ->
  httpCredentials defaults = Some credentials ->
  origin credentials = None
    \/ toLowerCase urlOrigin = toLowerCase (default "" (origin credentials)) ->
  send credentials = Some "always" ->
  getHeader (sentHeaders p) "authorization"
  = Some ("Basic " +:+ base64 (default "" (username credentials) +:+ ":"
                               +:+ default "" (password credentials))).
Proof.
  intros Hp Hcredentials Horigin Halways.
  destruct (prepared_headers p Hp) as (object & Hserialized & ->).
  destruct (serialized_headers _ _ _ Hserialized) as (contentType & Hnone & Hsome & _).
  assert (Hfound : _getHttpCredentials defaults urlOrigin = Some credentials).
  { unfold _getHttpCredentials. rewrite Hcredentials.
    destruct Horigin as [-> | ->]; [reflexivity|].
    rewrite bool_decide_eq_true_2 by (cased; reflexivity). rewrite orb_true_r. reflexivity. }
  assert (Hobject : forall before,
            getHeader (authorized before) "authorization"
            = Some ("Basic " +:+ base64 (default "" (username credentials) +:+ ":"
                                         +:+ default "" (password credentials)))).
  { intros before. unfold authorized. rewrite Hfound.
    rewrite bool_decide_eq_true_2 by (cased; assumption).
    unfold setBasicAuthorizationHeader.
    rewrite getHeader_setHeader by (cased; discriminate).
    rewrite bool_decide_eq_true_2 by (cased; reflexivity). reflexivity. }
  destruct (sentData p) as [buffer|].
  - rewrite getHeader_setHeader by (cased; discriminate).
    rewrite bool_decide_eq_false_2 by (cased; discriminate).
    rewrite Hsome by eauto. rewrite getHeader_setHeader_keep by (cased; discriminate).
    rewrite bool_decide_eq_false_2 by (cased; discriminate). apply Hobject.
  - rewrite Hnone by (cased; reflexivity). apply Hobject.
Qed.

End Prepared.

End Cased.

End FetchFacts.

Module FetchRuns.
Import Strings Headers Fetch FetchFacts.

#[local] Existing Instance asciiCasing.

(** a context with a header and credentials that are always sent *)
Definition sampleDefaults : FetchRequestOptions :=
  mkFetchRequestOptions "agent/1.0" (Some [("X-Token", "context")]) None
    (Some (mkHTTPCredentials (Some "user") (Some "secret") None (Some "always")))
    None.

(** a call that posts JSON, with headers in another case *)
Definition sampleParams : FetchParams string unit :=
  mkFetchParams
    (Some [("x-token", "call"); ("Authorization", "Bearer given");
           ("Content-Length", "0")])
    (Some "post") None None None None (Some "{}") None None.

Definition bytes (buffer : string) : N := N.of_nat (String.length buffer).
Definition plain (text : string) : string := text.
Definition encoded (text : string) : string := "<" +:+ text +:+ ">".
Definition noFields (fields : list (string * string)) : string := "".
Definition noFile (name : string) (file : unit) (form : string) : string := form.
Definition field (name value : string) (form : string) : string :=
  form +:+ name +:+ "=" +:+ value +:+ ";".

Definition samplePrepare : Thrown (Prepared (Buffer := string)) :=
  prepare bytes plain encoded noFields "" noFile field plain plain
    sampleDefaults sampleParams "http://a.test".

Definition sampleSent : Prepared (Buffer := string) :=
  mkPrepared "POST"
    [("user-agent", "agent/1.0"); ("accept", "*/*");
     ("accept-encoding", "gzip,deflate,br"); ("X-Token", "call");
     ("Authorization", "Basic <user:secret>"); ("Content-Length", "2");
     ("content-type", "application/json")]
    20 (Some "{}").

Lemma sample_is_prepared : samplePrepare = inl sampleSent.
Proof. vm_compute. reflexivity. Qed.

Lemma sample_names_are_plain :
  Forall (fun entry => fst entry <> "__proto__") (given sampleDefaults sampleParams).
Proof. repeat constructor; discriminate. Qed.

(** more than one body is refused before anything is sent *)
Example two_bodies_are_refused :
  prepare bytes plain encoded noFields "" noFile field plain plain sampleDefaults
    (mkFetchParams None None None None None (Some "raw") (Some "{}") None None)
    "http://a.test"
  = inr "Only one of 'data', 'form' or 'multipart' can be specified".
Proof. vm_compute. reflexivity. Qed.


Lemma body_headers_witness :
  samplePrepare = inl sampleSent
  /\ getHeader (sentHeaders sampleSent) "content-type" = Some "application/json"
  /\ getHeader (sentHeaders sampleSent) "content-length" = Some "2".
Proof.
  split; [exact sample_is_prepared|].
  destruct (body_headers (casing := asciiCasing) bytes plain encoded noFields "" noFile field plain
              plain sampleDefaults sampleParams "http://a.test"
              sample_names_are_plain sampleSent sample_is_prepared)
    as (_ & Hjson & Hlength).
  split.
  - apply Hjson; [eexists; reflexivity | vm_compute; reflexivity].
  - exact (Hlength "{}" eq_refl).
Defined.

Lemma credentials_sent_always_witness :
  samplePrepare = inl sampleSent
  /\ getHeader (sentHeaders sampleSent) "authorization"
     = Some "Basic <user:secret>".
Proof.
  split; [exact sample_is_prepared|].
  exact (credentials_sent_always (casing := asciiCasing) bytes plain encoded noFields "" noFile field plain
           plain sampleDefaults sampleParams "http://a.test" sampleSent
           (mkHTTPCredentials (Some "user") (Some "secret") None (Some "always"))
           sample_is_prepared eq_refl (or_introl eq_refl) eq_refl).
Defined.

End FetchRuns.

(** ** Sending with retries *)

Module Resend.

(** What [_sendRequestWithRetries] throws: an error of [_sendRequest] or
    of [progress.wait] as it is, or one of its own,
    ["Failed after ${attempts} attempt(s): ${e}"] and ["Unreachable"]. *)
Inductive Thrown (E : Type) :=
| Propagated (e : E)
| FailedAfter (attempts : Z) (e : E)
| Unreachable.
Arguments Propagated {E} e.
Arguments FailedAfter {E} attempts e.
Arguments Unreachable {E}.

Section Retries.
Context {E Response : Type}.
(** [isAbortError] of [progress.ts], [e.code], and
    [rewriteOpenSSLErrorIfNeeded] *)
Variable isAbortError : E -> bool.
Variable code : E -> option string.
Variable rewriteOpenSSLErrorIfNeeded : E -> E.
(** what the call of [_sendRequest] in iteration [i] settles to *)
Variable _sendRequest : nat -> Response + E.
(** [progress.wait(backoff)] in iteration [i]: the abort, if the progress
    is aborted before the time is over *)
Variable wait : nat -> Z -> option E.
Variable maxRetries : Z.

(** The iterations of [for (let i = 0; i <= maxRetries; i++)] from [i]
    on, [fuel] of them being left; with the result, the waits made. *)
Fixpoint attempts (fuel i : nat) (backoff : Z)
    : (Response + Thrown E) * list Z :=
  match fuel with
  | O => (inr Unreachable, [])
  | S fuel' =>
      match _sendRequest i with
      | inl response => (inl response, [])
      | inr e =>
          if isAbortError e then (inr (Propagated e), [])
          else
            let e := rewriteOpenSSLErrorIfNeeded e in
            if (maxRetries =? 0)%Z then (inr (Propagated e), [])
            else if (Z.of_nat i =? maxRetries)%Z
            then (inr (FailedAfter (Z.of_nat i + 1) e), [])
            else if negb (bool_decide (code e = Some "ECONNRESET"))
            then (* Retry on connection reset only. *) (inr (Propagated e), [])
            else
              match wait i backoff with
              | Some abort => (inr (Propagated abort), [backoff])
              | None =>
                  let (result, waits) := attempts fuel' (S i) (backoff * 2) in
                  (result, backoff :: waits)
              end
      end
  end.

End Retries.

(** [_sendRequestWithRetries]; [maxRetries] is an integer when given *)
Definition _sendRequestWithRetries {E Response : Type}
    (isAbortError : E -> bool) (code : E -> option string)
    (rewriteOpenSSLErrorIfNeeded : E -> E)
    (_sendRequest : nat -> Response + E) (wait : nat -> Z -> option E)
    (maxRetries : option Z) : (Response + Thrown E) * list Z :=
  let maxRetries := default 0%Z maxRetries in
  attempts isAbortError code rewriteOpenSSLErrorIfNeeded _sendRequest wait
    maxRetries (Z.to_nat (maxRetries + 1)) 0 250.

End Resend.

Module ResendFacts.
Import Resend.

Section Retries.
Context {E Response : Type}.
Variable isAbortError : E -> bool.
Variable code : E -> option string.
Variable rewriteOpenSSLErrorIfNeeded : E -> E.
Variable _sendRequest : nat -> Response + E.
Variable wait : nat -> Z -> option E.

Abbreviation attemptsOf maxRetries :=
  (attempts isAbortError code rewriteOpenSSLErrorIfNeeded _sendRequest wait
     maxRetries).

Abbreviation sent maxRetries :=
  (_sendRequestWithRetries isAbortError code rewriteOpenSSLErrorIfNeeded
     _sendRequest wait maxRetries).

(** the [k] first waits of a call *)
Definition backoffs (backoff : Z) (k : nat) : list Z :=
  map (fun j => (backoff * 2 ^ Z.of_nat j)%Z) (seq 0 k).

Lemma backoffs_S backoff k :
  backoffs backoff (S k) = backoff :: backoffs (backoff * 2) k.
Proof.
  unfold backoffs. cbn [seq map]. f_equal; [cbn; lia|].
  rewrite <- seq_shift, map_map. apply map_ext. intros j.
  rewrite Nat2Z.inj_succ, Z.pow_succ_r by lia. lia.
Qed.

(** while iterations are left, the loop ends in one of them *)
Lemma attempts_within maxRetries fuel : forall i backoff,
  (0 < fuel)%nat ->
  (Z.of_nat fuel + Z.of_nat i = maxRetries + 1)%Z ->
  fst (attemptsOf maxRetries fuel i backoff) <> inr Unreachable
  /\ (length (snd (attemptsOf maxRetries fuel i backoff)) < fuel)%nat
  /\ exists k, snd (attemptsOf maxRetries fuel i backoff) = backoffs backoff k.
Proof.
  induction fuel as [|fuel IH]; intros i backoff Hfuel Hsum; [lia|].
  cbn [attempts].
  destruct (_sendRequest i) as [response|e].
  { cbn. split; [discriminate|]. split; [lia|]. exists 0%nat. reflexivity. }
  destruct (isAbortError e).
  { cbn. split; [discriminate|]. split; [lia|]. exists 0%nat. reflexivity. }
  cbv zeta. destruct (maxRetries =? 0)%Z.
  { cbn. split; [discriminate|]. split; [lia|]. exists 0%nat. reflexivity. }
  destruct (Z.eqb_spec (Z.of_nat i) maxRetries) as [Hlast|Hmore].
  { cbn. split; [discriminate|]. split; [lia|]. exists 0%nat. reflexivity. }
  destruct (negb _).
  { cbn. split; [discriminate|]. split; [lia|]. exists 0%nat. reflexivity. }
  destruct (wait i backoff) as [abort|].
  { cbn. split; [discriminate|].
    split; [lia|]. exists 1%nat. unfold backoffs. cbn. f_equal. lia. }
  destruct (IH (S i) (backoff * 2)%Z) as (Hresult & Hlength & k & Hwaits); [lia..|].
  destruct (attemptsOf maxRetries fuel (S i) (backoff * 2)%Z) as [result waits].
  cbn in *. split; [assumption|]. split; [lia|].
  exists (S k). rewrite backoffs_S, Hwaits. reflexivity.
Qed.

(** X8.  [_sendRequestWithRetries] stays within its attempts.  With
    [maxRetries] absent or not negative, it makes at most [maxRetries]
    waits, of 250ms, 500ms, 1000ms and so on, each twice the one before,
    and does not end with its "Unreachable" error; with a negative
    [maxRetries] it sends nothing and throws that error. *)
Theorem retries_are_bounded_and_backoff_doubles maxRetries :
  let run := sent maxRetries in
  let retries := default 0%Z maxRetries in
  ((0 <= retries)%Z ->
   fst run <> inr Unreachable
   /\ (length (snd run) <= Z.to_nat retries)%nat
   /\ exists k, snd run = backoffs 250 k)
  /\ ((retries < 0)%Z -> run = (inr Unreachable, [])).
Proof.
  intros run retries. subst run. unfold _sendRequestWithRetries. fold retries.
  split.
  - intros Hretries.
    destruct (attempts_within retries (Z.to_nat (retries + 1)) 0 250%Z)
      as (Hresult & Hlength & Hwaits); [lia..|].
    split; [assumption|]. split; [lia | assumption].
  - intros Hnegative.
    replace (Z.to_nat (retries + 1)) with 0%nat by lia. reflexivity.
Qed.

(** iteration [i] ends in a connection reset and the wait runs to its
    end *)
Definition reset (i : nat) (backoff : Z) : Prop :=
  exists e, _sendRequest i = inr e
            /\ isAbortError e = false
            /\ code (rewriteOpenSSLErrorIfNeeded e) = Some "ECONNRESET"
            /\ wait i backoff = None.

Lemma attempts_after_resets maxRetries k : forall fuel i backoff,
  (forall j, (j < k)%nat -> reset (i + j) (backoff * 2 ^ Z.of_nat j)) ->
  (Z.of_nat (i + k) <= maxRetries)%Z ->
  maxRetries <> 0%Z ->
  (k <= fuel)%nat ->
  attemptsOf maxRetries fuel i backoff
  = (fst (attemptsOf maxRetries (fuel - k) (i + k) (backoff * 2 ^ Z.of_nat k)),
     backoffs backoff k
     ++ snd (attemptsOf maxRetries (fuel - k) (i + k) (backoff * 2 ^ Z.of_nat k))).
Proof.
  induction k as [|k IH]; intros fuel i backoff Hresets Hwithin Hretries Hfuel.
  - rewrite Nat.sub_0_r, Nat.add_0_r, Z.mul_1_r.
    destruct (attemptsOf maxRetries fuel i backoff). reflexivity.
  - destruct fuel as [|fuel]; [lia|].
    destruct (Hresets 0%nat) as (e & Hsend & Habort & Hcode & Hwait); [lia|].
    rewrite Nat.add_0_r, Z.mul_1_r in *.
    cbn [attempts]. rewrite Hsend, Habort. cbv zeta.
    rewrite (proj2 (Z.eqb_neq _ _) Hretries).
    rewrite (proj2 (Z.eqb_neq (Z.of_nat i) maxRetries)) by lia.
    rewrite Hcode, bool_decide_eq_true_2 by reflexivity. cbn [negb].
    rewrite Hwait, (IH fuel (S i) (backoff * 2)%Z); [| |lia..].
    + rewrite backoffs_S. cbn [Nat.sub].
      replace (S i + k)%nat with (i + S k)%nat by lia.
      replace (backoff * 2 * 2 ^ Z.of_nat k)%Z
        with (backoff * 2 ^ Z.of_nat (S k))%Z
        by (rewrite Nat2Z.inj_succ, Z.pow_succ_r by lia; lia).
      reflexivity.
    + intros j Hj. specialize (Hresets (S j)).
      replace (S i + j)%nat with (i + S j)%nat by lia.
      replace (backoff * 2 * 2 ^ Z.of_nat j)%Z
        with (backoff * 2 ^ Z.of_nat (S j))%Z
        by (rewrite Nat2Z.inj_succ, Z.pow_succ_r by lia; lia).
      apply Hresets. lia.
Qed.

(** X9.  Connection resets are retried.  When the [k] first sends each end
    in a connection reset and [k] is within [maxRetries]: a response to
    the next send is the result; an error of the next send that is no
    abort is thrown as "Failed after ... attempt(s)" if that send was the
    last one allowed, and as it is if it is not a connection reset.  The
    waits made are the [k] first backoffs. *)
Theorem resets_are_retried maxRetries k :
  (0 < maxRetries)%Z ->
  (Z.of_nat k <= maxRetries)%Z ->
  (forall j, (j < k)%nat -> reset j (250 * 2 ^ Z.of_nat j)) ->
  (forall response, _sendRequest k = inl response ->
     sent (Some maxRetries) = (inl response, backoffs 250 k))
  /\ (forall e, _sendRequest k = inr e -> isAbortError e = false ->
        Z.of_nat k = maxRetries ->
        sent (Some maxRetries)
        = (inr (FailedAfter (maxRetries + 1) (rewriteOpenSSLErrorIfNeeded e)),
           backoffs 250 k))
  /\ (forall e, _sendRequest k = inr e -> isAbortError e = false ->
        (Z.of_nat k < maxRetries)%Z ->
        code (rewriteOpenSSLErrorIfNeeded e) <> Some "ECONNRESET" ->
        sent (Some maxRetries)
        = (inr (Propagated (rewriteOpenSSLErrorIfNeeded e)), backoffs 250 k)).
Proof.
  intros Hretries Hk Hresets.
  assert (Hrun : sent (Some maxRetries)
    = (fst (attemptsOf maxRetries (Z.to_nat (maxRetries + 1) - k) k
              (250 * 2 ^ Z.of_nat k)),
       backoffs 250 k
       ++ snd (attemptsOf maxRetries (Z.to_nat (maxRetries + 1) - k) k
                 (250 * 2 ^ Z.of_nat k)))).
  { unfold _sendRequestWithRetries. cbn [default from_option id].
    rewrite (attempts_after_resets maxRetries k); [reflexivity| |cbn; lia..].
    intros j Hj. cbn. apply Hresets. assumption. }
  destruct (Z.to_nat (maxRetries + 1) - k)%nat as [|fuel] eqn:Hfuel; [lia|].
  rewrite Hrun. cbn [attempts].
  split; [|split].
  - intros response ->. cbn. rewrite app_nil_r. reflexivity.
  - intros e -> -> Hlast. cbv zeta.
    rewrite (proj2 (Z.eqb_neq maxRetries 0)) by lia.
    rewrite (proj2 (Z.eqb_eq _ _) Hlast). cbn. rewrite app_nil_r.
    rewrite Hlast. reflexivity.
  - intros e -> -> Hmore Hcode. cbv zeta.
    rewrite (proj2 (Z.eqb_neq maxRetries 0)) by lia.
    rewrite (proj2 (Z.eqb_neq (Z.of_nat k) maxRetries)) by lia.
    rewrite bool_decide_eq_false_2 by assumption. cbn. rewrite app_nil_r.
    reflexivity.
Qed.

End Retries.

End ResendFacts.

Module ResendRuns.
Import Resend ResendFacts.

(** the two first sends are reset by the peer, the third one is answered *)
Definition twoResets (i : nat) : string + string :=
  if (i <? 2)%nat then inr "ECONNRESET" else inl "200 OK".

Definition noAbort (e : string) : bool := false.
Definition codeOf (e : string) : option string := Some e.
Definition asIs (e : string) : string := e.
Definition waited (i : nat) (backoff : Z) : option string := None.

Example third_send_is_answered :
  _sendRequestWithRetries noAbort codeOf asIs twoResets waited (Some 3%Z)
  = (inl "200 OK", [250; 500]%Z).
Proof. vm_compute. reflexivity. Qed.

(** without retries the first error is thrown as it is *)
Example no_retries :
  _sendRequestWithRetries noAbort codeOf asIs twoResets waited None
  = (inr (Propagated "ECONNRESET"), []).
Proof. vm_compute. reflexivity. Qed.

(** with two retries allowed and three resets, the last one is reported *)
Example retries_run_out :
  _sendRequestWithRetries noAbort codeOf asIs
    (fun _ => inr "ECONNRESET" : string + string) waited (Some 2%Z)
  = (inr (FailedAfter 3 "ECONNRESET"), [250; 500]%Z).
Proof. vm_compute. reflexivity. Qed.

Lemma resets_are_retried_witness :
  (0 < 3)%Z
  /\ (Z.of_nat 2 <= 3)%Z
  /\ (forall j, (j < 2)%nat ->
        reset noAbort codeOf asIs twoResets waited j (250 * 2 ^ Z.of_nat j))
  /\ _sendRequestWithRetries noAbort codeOf asIs twoResets waited (Some 3%Z)
     = (inl "200 OK", backoffs 250 2).
Proof.
  assert (H1 : (0 < 3)%Z) by lia.
  assert (H2 : (Z.of_nat 2 <= 3)%Z) by lia.
  assert (H3 : forall j, (j < 2)%nat ->
            reset noAbort codeOf asIs twoResets waited j (250 * 2 ^ Z.of_nat j)).
  { intros [|[|j]] Hj; [| |lia]; exists "ECONNRESET"; repeat split. }
  split; [exact H1|]. split; [exact H2|]. split; [exact H3|].
  exact (proj1 (resets_are_retried noAbort codeOf asIs twoResets waited 3 2
                  H1 H2 H3) "200 OK" eq_refl).
Defined.

End ResendRuns.

(** ** One request, its redirects and its authentication *)

Module Send.
Import Strings Headers.

(** [redirectStatus] *)
Definition redirectStatus : list Z := [301; 302; 303; 307; 308]%Z.

(** [SendRequestOptions], as far as [_sendRequest] decides by it; the
    agent, the TLS options and the lookup hook do not touch what is
    modelled *)
Record SendRequestOptions := mkSendRequestOptions {
  method : string;
  headers : HeadersObject;
  maxRedirects : Z;
}.

(** an [Error] that [_sendRequest] makes, or one that reaches it *)
Inductive Failure (E : Type) :=
| Message (text : string)
| Raised (e : E).
Arguments Message {E} text.
Arguments Raised {E} e.

(** [headers[name]]: the own property of that very name *)
Definition property (object : HeadersObject) (name : string) : option string :=
  match List.find (fun entry => bool_decide (fst entry = name)) object with
  | Some entry => Some (snd entry)
  | None => None
  end.

(** [APIRequestEvent], as a listener reads it when it is emitted; its
    [cookies] are read off the [cookie] header *)
Record APIRequestEvent (URL Buffer : Type) := mkAPIRequestEvent {
  eventUrl : URL;
  eventMethod : string;
  eventHeaders : HeadersObject;
  eventPostData : option Buffer;
}.
Arguments mkAPIRequestEvent {URL Buffer} _ _ _ _.
Arguments eventUrl {URL Buffer} _.
Arguments eventMethod {URL Buffer} _.
Arguments eventHeaders {URL Buffer} _.
Arguments eventPostData {URL Buffer} _.

(** [http.IncomingMessage], as far as the callback of the request reads
    it; [read] is the body once it is read to its end and decoded, or the
    error that reading it ends in *)
Record IncomingMessage (Buffer E : Type) := mkIncomingMessage {
  statusCode : option Z;
  statusMessage : option string;
  responseUrl : option string;
  location : option string;
  wwwAuthenticate : option string;
  rawHeaders : list string;
  read : Buffer + E;
}.
Arguments mkIncomingMessage {Buffer E} _ _ _ _ _ _ _.
Arguments statusCode {Buffer E} _.
Arguments statusMessage {Buffer E} _.
Arguments responseUrl {Buffer E} _.
Arguments location {Buffer E} _.
Arguments wwwAuthenticate {Buffer E} _.
Arguments rawHeaders {Buffer E} _.
Arguments read {Buffer E} _.

(** [SendRequestResult] *)
Record SendRequestResult (Buffer : Type) := mkSendRequestResult {
  resultUrl : string;
  status : Z;
  statusText : string;
  resultHeaders : list (string * option string);
  body : Buffer;
}.
Arguments mkSendRequestResult {Buffer} _ _ _ _ _.
Arguments resultUrl {Buffer} _.
Arguments status {Buffer} _.
Arguments statusText {Buffer} _.
Arguments resultHeaders {Buffer} _.
Arguments body {Buffer} _.

(** What a call of [_sendRequest] comes to: how its promise settles
    ([None] while the recursion is cut short), the [Request] events
    emitted, in order, and the cookies of the context. *)
Record Run (URL Buffer Store E : Type) := mkRun {
  settled : option (SendRequestResult Buffer + Failure E);
  requests : list (APIRequestEvent URL Buffer);
  cookieStore : Store;
}.
Arguments mkRun {URL Buffer Store E} _ _ _.
Arguments settled {URL Buffer Store E} _.
Arguments requests {URL Buffer Store E} _.
Arguments cookieStore {URL Buffer Store E} _.

Section Sending.
Context {casing : Casing}.
Context {URL Buffer Cookie Store E : Type}.

(** [this._defaultOptions()] *)
Variable defaults : Fetch.FetchRequestOptions.
(** [url.origin], [url.host] and [url.toString()] *)
Variable originOf : URL -> string.
Variable hostOf : URL -> string.
Variable toString : URL -> string.
(** [new URL(location, url)], if it does not throw *)
Variable resolve : string -> URL -> option URL.
(** [Buffer.from(value, 'latin1').toString('utf8')],
    [Buffer.from(text).toString('base64')] and [String.prototype.trim] *)
Variable latin1AsUtf8 : string -> string.
Variable base64 : string -> string.
Variable trim : string -> string.
(** [progress.race(this._cookies(url))], and a cookie read:
    [new Cookie(c).matches(url)], [c.name], [c.value] *)
Variable _cookies : Store -> URL -> list Cookie + E.
Variable matches : Cookie -> URL -> bool.
Variable cookieName : Cookie -> string.
Variable cookieValue : Cookie -> string.
(** What becomes of the request that is sent as the [clock]-th one: the
    response that the callback gets, or the error that rejects the promise
    without one (an error of the request, the disposal of the context, the
    abort of the progress). *)
Variable exchange :
  nat -> Store -> APIRequestEvent URL Buffer -> IncomingMessage Buffer E + E.
(** the cookies once those of the response are added:
    [_parseSetCookieHeader] and [_addCookies] *)
Variable stored : Store -> URL -> IncomingMessage Buffer E -> Store.

(** [_updateRequestCookieHeader(progress, url, headers)]: the headers as
    it leaves them *)
Definition _updateRequestCookieHeader (store : Store) (url : URL)
    (object : HeadersObject) : HeadersObject + E :=
  match getHeader object "cookie" with
  | Some _ => inl object
  | None =>
      match _cookies store url with
      | inr e => inr e
      | inl contextCookies =>
          let cookies := List.filter (fun c => matches c url) contextCookies in
          match cookies with
          | [] => inl object
          | _ =>
              let valueArray :=
                map (fun c => cookieName c +:+ "=" +:+ cookieValue c) cookies in
              inl (setHeader object "cookie" (String.concat "; " valueArray) false)
          end
      end
  end.

(** [redirectStatus.includes(response.statusCode!)] *)
Definition redirects (response : IncomingMessage Buffer E) : bool :=
  match statusCode response with
  | Some code => bool_decide (code ∈ redirectStatus)
  | None => false
  end.

(** HTTP-redirect fetch step 13: whether the redirect goes out as a
    [GET] without body *)
Definition rewritten (response : IncomingMessage Buffer E) (method : string)
    : bool :=
  (bool_decide (statusCode response = Some 301%Z)
   || bool_decide (statusCode response = Some 302%Z))
  && bool_decide (method = "POST")
  || bool_decide (statusCode response = Some 303%Z)
     && negb (bool_decide (method ∈ ["GET"; "HEAD"])).

(** the headers of a redirect *)
Definition redirectHeaders (response : IncomingMessage Buffer E)
    (method : string) (object : HeadersObject) : HeadersObject :=
  let object := removeHeader object "cookie" in
  if rewritten response method
  then
    let object := removeHeader object "content-encoding" in
    let object := removeHeader object "content-language" in
    let object := removeHeader object "content-length" in
    let object := removeHeader object "content-location" in
    removeHeader object "content-type"
  else object.

(** [headers['host'] = locationURL.host], if there is a [host] *)
Definition rehost (locationURL : URL) (object : HeadersObject) : HeadersObject :=
  if Fetch.nonEmpty (property object "host")
  then assign "host" (hostOf locationURL) object
  else object.

(** what [notifyBodyFinished] fulfills the promise with, or the error of
    reading the body *)
Definition resultOf (url : URL) (response : IncomingMessage Buffer E)
    : SendRequestResult Buffer + Failure E :=
  match read response with
  | inr e => inr (Raised e)
  | inl buffer =>
      inl (mkSendRequestResult
             (if Fetch.nonEmpty (responseUrl response)
              then default "" (responseUrl response) else toString url)
             (default 0%Z (statusCode response))
             (default "" (statusMessage response))
             (toHeadersArray (rawHeaders response))
             buffer)
  end.

(** the events of a call that sends another request *)
Definition after (requestEvent : APIRequestEvent URL Buffer)
    (run : Run URL Buffer Store E) : Run URL Buffer Store E :=
  mkRun (settled run) (requestEvent :: requests run) (cookieStore run).

(** [_sendRequest(progress, url, options, postData)]; [fuel] bounds the
    depth of its calls of itself, and [clock] counts the requests sent
    before. *)
Fixpoint _sendRequest (fuel clock : nat) (store : Store) (url : URL)
    (options : SendRequestOptions) (postData : option Buffer)
    : Run URL Buffer Store E :=
  match fuel with
  | O => mkRun None [] store
  | S fuel' =>
      match _updateRequestCookieHeader store url (headers options) with
      | inr e => mkRun (Some (inr (Raised e))) [] store
      | inl object =>
          let requestEvent :=
            mkAPIRequestEvent url (method options) object postData in
          match exchange clock store requestEvent with
          | inr e => mkRun (Some (inr (Raised e))) [requestEvent] store
          | inl response =>
              let store := stored store url response in
              let settle outcome := mkRun (Some outcome) [requestEvent] store in
              let again url options postData :=
                after requestEvent
                  (_sendRequest fuel' (S clock) store url options postData) in
              (* from [response.statusCode === 401] on *)
              let rest (postData : option Buffer) :=
                if bool_decide (statusCode response = Some 401%Z)
                   && negb (Fetch.nonEmpty (getHeader object "authorization"))
                then
                  match wwwAuthenticate response,
                        Fetch._getHttpCredentials defaults (originOf url) with
                  | Some auth, Some credentials =>
                      if String.prefix "Basic" (trim auth)
                      then
                        again url
                          (mkSendRequestOptions (method options)
                             (Fetch.setBasicAuthorizationHeader base64 object
                                credentials)
                             (maxRedirects options))
                          postData
                      else settle (resultOf url response)
                  | _, _ => settle (resultOf url response)
                  end
                else settle (resultOf url response) in
              if redirects response && (0 <=? maxRedirects options)%Z
              then
                if (maxRedirects options =? 0)%Z
                then settle (inr (Message "Max redirect count exceeded"))
                else
                  let object' := redirectHeaders response (method options) object in
                  let method' :=
                    if rewritten response (method options) then "GET"
                    else method options in
                  let postData' :=
                    if rewritten response (method options) then None
                    else postData in
                  let locationHeaderValue :=
                    latin1AsUtf8 (default "" (location response)) in
                  if negb (bool_decide (locationHeaderValue = ""))
                  then
                    match resolve locationHeaderValue url with
                    | None =>
                        settle
                          (inr (Message
                                  ("uri requested responds with an invalid redirect URL: "
                                   +:+ locationHeaderValue)))
                    | Some locationURL =>
                        again locationURL
                          (mkSendRequestOptions method'
                             (rehost locationURL object')
                             (maxRedirects options - 1))
                          postData'
                    end
                  else rest postData'
              else rest postData
          end
      end
  end.

End Sending.

(** the [options] that [fetch] hands to [_sendRequestWithRetries], and
    that to [_sendRequest] *)
Definition sending {Buffer : Type} (p : @Fetch.Prepared Buffer)
    : SendRequestOptions :=
  mkSendRequestOptions (Fetch.sentMethod p) (Fetch.sentHeaders p)
    (Fetch.sentMaxRedirects p).

End Send.

Module SendFacts.
Import Strings Headers HeadersFacts Send.

Section Cased.
Context {casing : Casing}.

Lemma find_filter_keep {A} (p q : A -> bool) (l : list A) :
  (forall x, p x = true -> q x = true) ->
  List.find p (List.filter q l) = List.find p l.
Proof.
  intros Hkeep. induction l as [|x l IH]; [reflexivity|]. cbn.
  destruct (q x) eqn:Hq; cbn.
  - rewrite IH. reflexivity.
  - destruct (p x) eqn:Hp; [|exact IH].
    rewrite (Hkeep x Hp) in Hq. discriminate.
Qed.

(** a header of another name stays when a header is removed *)
Lemma getHeader_removeHeader object name name' :
  toLowerCase name <> toLowerCase name' ->
  getHeader (removeHeader object name) name' = getHeader object name'.
Proof.
  intros Hother. unfold getHeader, removeHeader, delete.
  rewrite find_filter_keep; [reflexivity|].
  intros [k v]. unfold sameName. cbn. intros Hsame.
  apply bool_decide_eq_true in Hsame. apply negb_true_iff, bool_decide_eq_false.
  intros ->. auto.
Qed.

Lemma hasOwn_removeHeader object name : hasOwn name (removeHeader object name) = false.
Proof.
  unfold hasOwn, removeHeader, delete.
  induction object as [|[k v] object IH]; [reflexivity|]. cbn.
  destruct (bool_decide_reflect (k = name)) as [Heq|Hne]; cbn; [exact IH|].
  rewrite bool_decide_eq_false_2 by (cased; exact Hne). exact IH.
Qed.

Lemma hasOwn_removeHeader_other object name name' :
  hasOwn name' object = false -> hasOwn name' (removeHeader object name) = false.
Proof.
  unfold hasOwn, removeHeader, delete.
  induction object as [|[k v] object IH]; [reflexivity|]. cbn.
  intros [Hk Hrest]%orb_false_iff.
  destruct (negb (bool_decide (k = name))); cbn; [|auto].
  rewrite Hk. auto.
Qed.

Lemma hasOwn_update name k v object :
  hasOwn name (update k v object) = hasOwn name object.
Proof.
  unfold hasOwn. induction object as [|[k' v'] object IH]; [reflexivity|]. cbn.
  destruct (bool_decide (k' = k)); cbn; [reflexivity|]. rewrite IH. reflexivity.
Qed.

Lemma hasOwn_app name (o1 o2 : HeadersObject) :
  hasOwn name (o1 ++ o2) = hasOwn name o1 || hasOwn name o2.
Proof. apply existsb_app. Qed.

(** [headers[name] = value] makes no property of another name *)
Lemma hasOwn_assign name k v object :
  name <> k -> hasOwn name (assign k v object) = hasOwn name object.
Proof.
  intros Hother. unfold assign.
  destruct (hasOwn k object) eqn:Hown; [apply hasOwn_update|].
  destruct (bool_decide_reflect (k = "__proto__")) as [Hproto|Hproto];
    [reflexivity|].
  destruct (define_split k v object Hown Hproto) as (before & rest & -> & Hplaced).
  unfold assign in Hplaced. rewrite Hown in Hplaced.
  rewrite bool_decide_eq_false_2 in Hplaced by (cased; exact Hproto).
  rewrite Hplaced, !hasOwn_app. cbn.
  rewrite bool_decide_eq_false_2 by congruence. reflexivity.
Qed.

Lemma hasOwn_setHeader name k v keepExisting object :
  toLowerCase name <> toLowerCase k ->
  hasOwn name (setHeader object k v keepExisting) = hasOwn name object.
Proof.
  intros Hother. unfold setHeader.
  destruct (List.find (sameName k) object) as [[k' v']|] eqn:Hfind.
  - destruct keepExisting; cbn; [reflexivity|].
    apply hasOwn_assign. intros ->.
    apply find_some in Hfind as [_ Hsame]. unfold sameName in Hsame.
    apply bool_decide_eq_true in Hsame. auto.
  - apply hasOwn_assign. congruence.
Qed.

Section Sending.
Context {URL Buffer Cookie Store E : Type}.
Variable defaults : Fetch.FetchRequestOptions.
Variable originOf : URL -> string.
Variable hostOf : URL -> string.
Variable toString : URL -> string.
Variable resolve : string -> URL -> option URL.
Variable latin1AsUtf8 : string -> string.
Variable base64 : string -> string.
Variable trim : string -> string.
Variable _cookies : Store -> URL -> list Cookie + E.
Variable matches : Cookie -> URL -> bool.
Variable cookieName : Cookie -> string.
Variable cookieValue : Cookie -> string.
Variable exchange :
  nat -> Store -> APIRequestEvent URL Buffer -> IncomingMessage Buffer E + E.
Variable stored : Store -> URL -> IncomingMessage Buffer E -> Store.

Abbreviation sendRequest :=
  (_sendRequest defaults originOf hostOf toString resolve latin1AsUtf8 base64
     trim _cookies matches cookieName cookieValue exchange stored).

Abbreviation updated :=
  (_updateRequestCookieHeader _cookies matches cookieName cookieValue).

(** whether [!getHeader(headers, 'authorization')] fails *)
Definition authorized (object : HeadersObject) : bool :=
  Fetch.nonEmpty (getHeader object "authorization").

(** the requests that a call may still add to its own *)
Definition weight (options : SendRequestOptions) : nat :=
  Z.to_nat (maxRedirects options)
  + (if authorized (headers options) then 0 else 1).

Definition contentNames : list string :=
  ["content-encoding"; "content-language"; "content-length";
   "content-location"; "content-type"].

(** the [cookie] header is all that [_updateRequestCookieHeader] sets *)
Lemma updated_getHeader store url object object' name :
  updated store url object = inl object' ->
  toLowerCase name <> "cookie" ->
  getHeader object' name = getHeader object name.
Proof.
  unfold _updateRequestCookieHeader. intros Hupdated Hname.
  destruct (getHeader object "cookie"); [congruence|].
  destruct (_cookies store url) as [contextCookies|e]; [|discriminate].
  destruct (List.filter _ contextCookies); [congruence|].
  injection Hupdated as <-. rewrite getHeader_setHeader by (cased; discriminate).
  rewrite bool_decide_eq_false_2 by (cased; exact Hname). reflexivity.
Qed.

Lemma updated_hasOwn store url object object' name :
  updated store url object = inl object' ->
  toLowerCase name <> "cookie" ->
  hasOwn name object' = hasOwn name object.
Proof.
  unfold _updateRequestCookieHeader. intros Hupdated Hname.
  destruct (getHeader object "cookie"); [congruence|].
  destruct (_cookies store url) as [contextCookies|e]; [|discriminate].
  destruct (List.filter _ contextCookies); [congruence|].
  injection Hupdated as <-. apply hasOwn_setHeader. cased. exact Hname.
Qed.

Lemma getHeader_redirectHeaders (response : IncomingMessage Buffer E) method
    object name :
  toLowerCase name ∉ "cookie" :: contentNames ->
  getHeader (redirectHeaders response method object) name = getHeader object name.
Proof.
  intros Hname. unfold redirectHeaders.
  assert (Hother : forall removed, removed ∈ "cookie" :: contentNames ->
            toLowerCase removed <> toLowerCase name).
  { intros removed Hin Heq. apply Hname. rewrite <- Heq.
    unfold contentNames in Hin.
    repeat (apply elem_of_cons in Hin as [->|Hin];
            [cased; repeat constructor|]).
    inversion Hin. }
  destruct (rewritten response method).
  - rewrite !getHeader_removeHeader; [reflexivity|..];
      apply Hother; unfold contentNames; repeat constructor.
  - apply getHeader_removeHeader, Hother. constructor.
Qed.

Lemma hasOwn_redirectHeaders (response : IncomingMessage Buffer E) method
    object :
  rewritten response method = true ->
  Forall (fun name => hasOwn name (redirectHeaders response method object) = false)
    contentNames.
Proof.
  intros Hrewritten. unfold redirectHeaders. rewrite Hrewritten.
  unfold contentNames.
  repeat (apply Forall_cons; split;
          [first [apply hasOwn_removeHeader
                 | repeat (first [apply hasOwn_removeHeader
                                 | apply hasOwn_removeHeader_other])]|]).
  apply Forall_nil. exact I.
Qed.

Lemma property_hasOwn object name value :
  property object name = Some value -> hasOwn name object = true.
Proof.
  unfold property.
  destruct (List.find _ object) as [[k v]|] eqn:Hfind; [|discriminate].
  intros _. pose proof (find_hasOwn _ _ _ _ Hfind) as Hown.
  apply find_some in Hfind as [_ Hname]. apply bool_decide_eq_true in Hname.
  cbn in Hname. congruence.
Qed.

Lemma getHeader_rehost locationURL object name :
  toLowerCase name <> "host" ->
  getHeader (rehost hostOf locationURL object) name = getHeader object name.
Proof.
  intros Hname. unfold rehost.
  destruct (property object "host") as [value|] eqn:Hhost; cbn; [|reflexivity].
  destruct (negb _); [|reflexivity].
  unfold assign. rewrite (property_hasOwn _ _ _ Hhost).
  unfold getHeader. rewrite find_update_other; [reflexivity|].
  intros w. unfold sameName. apply bool_decide_eq_false. cbn [fst].
  intros Heq. apply Hname. rewrite <- Heq. cased. reflexivity.
Qed.

Lemma hasOwn_rehost locationURL object name :
  name <> "host" ->
  hasOwn name (rehost hostOf locationURL object) = hasOwn name object.
Proof.
  intros Hname. unfold rehost.
  destruct (Fetch.nonEmpty _); [|reflexivity]. apply hasOwn_assign, Hname.
Qed.

Lemma authorized_basic object credentials :
  authorized (Fetch.setBasicAuthorizationHeader base64 object credentials) = true.
Proof.
  unfold authorized, Fetch.setBasicAuthorizationHeader.
  rewrite getHeader_setHeader by (cased; discriminate).
  rewrite bool_decide_eq_true_2 by (cased; reflexivity). reflexivity.
Qed.

(** A call of itself: after a redirect, or with the credentials that a
    401 asked for. *)
Inductive Hop (url : URL) (options : SendRequestOptions)
    (postData : option Buffer) (object : HeadersObject)
    (response : IncomingMessage Buffer E)
    : URL -> SendRequestOptions -> option Buffer -> Prop :=
| Redirected locationURL :
    redirects response = true ->
    (0 < maxRedirects options)%Z ->
    resolve (latin1AsUtf8 (default "" (location response))) url
    = Some locationURL ->
    Hop url options postData object response locationURL
      (mkSendRequestOptions
         (if rewritten response (method options) then "GET" else method options)
         (rehost hostOf locationURL
            (redirectHeaders response (method options) object))
         (maxRedirects options - 1))
      (if rewritten response (method options) then None else postData)
| Authenticated credentials :
    statusCode response = Some 401%Z ->
    authorized object = false ->
    Fetch._getHttpCredentials defaults (originOf url) = Some credentials ->
    Hop url options postData object response url
      (mkSendRequestOptions (method options)
         (Fetch.setBasicAuthorizationHeader base64 object credentials)
         (maxRedirects options))
      postData.

Lemma redirects_not_401 (response : IncomingMessage Buffer E) :
  redirects response = true -> statusCode response <> Some 401%Z.
Proof.
  unfold redirects. intros Hredirects Hcode. rewrite Hcode in Hredirects.
  apply bool_decide_eq_true in Hredirects. unfold redirectStatus in Hredirects.
  repeat (apply elem_of_cons in Hredirects as [Hredirects|Hredirects];
          [discriminate|]).
  inversion Hredirects.
Qed.

(** A call either settles with the response to its own request, or hands
    over to a call of itself; which of the two does not depend on the
    depth allowed. *)
Lemma _sendRequest_cases clock store url options postData :
  (exists run,
     (forall fuel, sendRequest (S fuel) clock store url options postData = run)
     /\ is_Some (settled run) /\ length (requests run) <= 1)
  \/ (exists object response url' options' postData',
        updated store url (headers options) = inl object
        /\ exchange clock store
             (mkAPIRequestEvent url (method options) object postData)
           = inl response
        /\ Hop url options postData object response url' options' postData'
        /\ forall fuel,
             sendRequest (S fuel) clock store url options postData
             = after (mkAPIRequestEvent url (method options) object postData)
                 (sendRequest fuel (S clock) (stored store url response)
                    url' options' postData')).
Proof.
  destruct (updated store url (headers options)) as [object|e] eqn:Hupdated.
  2: { left. eexists. split; [intros fuel; cbn [_sendRequest]; rewrite Hupdated;
                               reflexivity|].
       cbn. split; [eauto | lia]. }
  destruct (exchange clock store
              (mkAPIRequestEvent url (method options) object postData))
    as [response|e] eqn:Hexchange.
  2: { left. eexists. split; [intros fuel; cbn [_sendRequest];
                               rewrite Hupdated, Hexchange; reflexivity|].
       cbn. split; [eauto | lia]. }
  destruct (redirects response && (0 <=? maxRedirects options)%Z) eqn:Hfollow.
  - apply andb_true_iff in Hfollow as [Hredirects Hleft].
    apply Z.leb_le in Hleft.
    destruct (Z.eqb_spec (maxRedirects options) 0) as [Hnone|Hsome].
    { left. eexists. split.
      - intros fuel. cbn [_sendRequest]. rewrite Hupdated, Hexchange. cbv zeta.
        rewrite Hredirects. rewrite (proj2 (Z.leb_le _ _) Hleft). cbn [andb].
        rewrite (proj2 (Z.eqb_eq _ _) Hnone). reflexivity.
      - cbn. split; [eauto | lia]. }
    destruct (bool_decide_reflect
                (latin1AsUtf8 (default "" (location response)) = ""))
      as [Hempty|Hlocation].
    { (* no location: the response is the result *)
      left. eexists. split.
      - intros fuel. cbn [_sendRequest]. rewrite Hupdated, Hexchange. cbv zeta.
        rewrite Hredirects. rewrite (proj2 (Z.leb_le _ _) Hleft). cbn [andb].
        rewrite (proj2 (Z.eqb_neq _ _) Hsome).
        rewrite (bool_decide_eq_true_2 _ Hempty). cbn [negb].
        rewrite (bool_decide_eq_false_2 _ (redirects_not_401 _ Hredirects)).
        cbn [andb]. reflexivity.
      - cbn. split; [eauto | lia]. }
    destruct (resolve (latin1AsUtf8 (default "" (location response))) url)
      as [locationURL|] eqn:Hresolve.
    + right. eexists object, response, locationURL, _, _.
      split; [reflexivity|]. split; [exact Hexchange|]. split.
      * apply Redirected; [assumption | lia | assumption].
      * intros fuel. cbn [_sendRequest]. rewrite Hupdated, Hexchange. cbv zeta.
        rewrite Hredirects. rewrite (proj2 (Z.leb_le _ _) Hleft). cbn [andb].
        rewrite (proj2 (Z.eqb_neq _ _) Hsome).
        rewrite (bool_decide_eq_false_2 _ Hlocation). cbn [negb].
        rewrite Hresolve. reflexivity.
    + left. eexists. split.
      * intros fuel. cbn [_sendRequest]. rewrite Hupdated, Hexchange. cbv zeta.
        rewrite Hredirects. rewrite (proj2 (Z.leb_le _ _) Hleft). cbn [andb].
        rewrite (proj2 (Z.eqb_neq _ _) Hsome).
        rewrite (bool_decide_eq_false_2 _ Hlocation). cbn [negb].
        rewrite Hresolve. reflexivity.
      * cbn. split; [eauto | lia].
  - destruct (bool_decide (statusCode response = Some 401%Z)
              && negb (Fetch.nonEmpty (getHeader object "authorization")))
      eqn:Hunauthorized.
    2: { left. eexists. split.
         - intros fuel. cbn [_sendRequest]. rewrite Hupdated, Hexchange. cbv zeta.
           rewrite Hfollow, Hunauthorized. reflexivity.
         - cbn. split; [eauto | lia]. }
    destruct (wwwAuthenticate response) as [auth|] eqn:Hauth.
    2: { left. eexists. split.
         - intros fuel. cbn [_sendRequest]. rewrite Hupdated, Hexchange. cbv zeta.
           rewrite Hfollow, Hunauthorized, Hauth. reflexivity.
         - cbn. split; [eauto | lia]. }
    destruct (Fetch._getHttpCredentials defaults (originOf url))
      as [credentials|] eqn:Hcredentials.
    2: { left. eexists. split.
         - intros fuel. cbn [_sendRequest]. rewrite Hupdated, Hexchange. cbv zeta.
           rewrite Hfollow, Hunauthorized, Hauth, Hcredentials. reflexivity.
         - cbn. split; [eauto | lia]. }
    destruct (String.prefix "Basic" (trim auth)) eqn:Hbasic.
    2: { left. eexists. split.
         - intros fuel. cbn [_sendRequest]. rewrite Hupdated, Hexchange. cbv zeta.
           rewrite Hfollow, Hunauthorized, Hauth, Hcredentials, Hbasic.
           reflexivity.
         - cbn. split; [eauto | lia]. }
    right. eexists object, response, url, _, postData.
    split; [reflexivity|]. split; [exact Hexchange|].
    apply andb_true_iff in Hunauthorized as Hasked.
    destruct Hasked as [Hcode%bool_decide_eq_true Hbare%negb_true_iff].
    split; [apply Authenticated; [exact Hcode | exact Hbare | exact Hcredentials]|].
    intros fuel. cbn [_sendRequest]. rewrite Hupdated, Hexchange. cbv zeta.
    rewrite Hfollow, Hunauthorized, Hauth, Hcredentials, Hbasic. reflexivity.
Qed.

Lemma weight_hop store url options postData object response url' options' postData' :
  updated store url (headers options) = inl object ->
  Hop url options postData object response url' options' postData' ->
  weight options' < weight options.
Proof.
  intros Hupdated Hhop.
  assert (Hsame : authorized object = authorized (headers options)).
  { unfold authorized.
    rewrite (updated_getHeader _ _ _ _ "authorization" Hupdated) by (cased; discriminate).
    reflexivity. }
  unfold weight. destruct Hhop as [locationURL _ Hleft _|credentials _ Hbare _].
  - cbn [maxRedirects headers]. unfold authorized at 1.
    rewrite getHeader_rehost by (cased; discriminate).
    rewrite getHeader_redirectHeaders
      by (cased; apply (bool_decide_unpack _); vm_compute; exact I).
    fold (authorized object). rewrite Hsame.
    destruct (authorized (headers options)); lia.
  - cbn [maxRedirects headers]. rewrite authorized_basic, <- Hsame, Hbare. lia.
Qed.

(** X10.  The requests of a call are counted.  A call that is allowed a depth
    beyond [maxRedirects] (and one more when it has no [authorization]
    header yet) settles; it sends its own request, one for each of at most
    [maxRedirects] redirects, and at most one more with the credentials
    that a 401 asked for; and a greater depth changes nothing. *)
Theorem a_call_settles_within_its_redirects fuel clock store url options postData :
  weight options < fuel ->
  let run := sendRequest fuel clock store url options postData in
  is_Some (settled run)
  /\ length (requests run) <= S (weight options)
  /\ forall fuel', fuel <= fuel' ->
       sendRequest fuel' clock store url options postData = run.
Proof.
  revert clock store url options postData.
  induction fuel as [|fuel IH]; intros clock store url options postData Hfuel;
    [lia|].
  cbv zeta.
  destruct (_sendRequest_cases clock store url options postData)
    as [(run & Hrun & Hsettled & Hlength)
       |(object & response & url' & options' & postData' & Hupdated & _ & Hhop
         & Hrun)].
  - rewrite Hrun. split; [assumption|]. split; [lia|].
    intros [|fuel'] Hmore; [lia|]. apply Hrun.
  - pose proof (weight_hop _ _ _ _ _ _ _ _ _ Hupdated Hhop) as Hless.
    destruct (IH (S clock) (stored store url response) url' options' postData')
      as (Hsettled & Hlength & Hmore); [lia|].
    rewrite Hrun. cbn [after settled requests length].
    split; [assumption|]. split; [lia|].
    intros [|fuel'] Hfuel'; [lia|]. rewrite Hrun, (Hmore fuel') by lia.
    reflexivity.
Qed.

(** every two requests that follow each other are related by [P] *)
Fixpoint linked {A} (P : A -> A -> Prop) (l : list A) : Prop :=
  match l with
  | a :: rest =>
      match rest with
      | b :: _ => P a b
      | [] => True
      end /\ linked P rest
  | [] => True
  end.

Lemma linked_lookup {A} (P : A -> A -> Prop) l :
  linked P l ->
  forall i a b, l !! i = Some a -> l !! S i = Some b -> P a b.
Proof.
  induction l as [|x l IH]; intros Hlinked i a b Ha Hb; [discriminate|].
  destruct Hlinked as [Hhead Hrest]. destruct i as [|i].
  - injection Ha as <-. destruct l as [|y l]; [discriminate|].
    injection Hb as <-. exact Hhead.
  - exact (IH Hrest i a b Ha Hb).
Qed.

(** the first request of a call is its own *)
Lemma first_request fuel clock store url options postData :
  requests (sendRequest fuel clock store url options postData) = []
  \/ exists object rest,
       updated store url (headers options) = inl object
       /\ requests (sendRequest fuel clock store url options postData)
          = mkAPIRequestEvent url (method options) object postData :: rest.
Proof.
  destruct fuel as [|fuel]; [left; reflexivity|].
  cbn [_sendRequest].
  destruct (updated store url (headers options)) as [object|e];
    [|left; reflexivity].
  right. exists object. cbv zeta.
  repeat match goal with
         | |- context [match ?c with _ => _ end] => destruct c
         end; cbn [requests after]; eauto.
Qed.

(** what holds from a request to the one that a call of itself sends
    holds all along the requests *)
Lemma requests_linked (P : APIRequestEvent URL Buffer ->
                           APIRequestEvent URL Buffer -> Prop) :
  (forall store url options postData object response url' options' postData'
          object',
     updated store url (headers options) = inl object ->
     Hop url options postData object response url' options' postData' ->
     updated (stored store url response) url' (headers options') = inl object' ->
     P (mkAPIRequestEvent url (method options) object postData)
       (mkAPIRequestEvent url' (method options') object' postData')) ->
  forall fuel clock store url options postData,
    linked P (requests (sendRequest fuel clock store url options postData)).
Proof.
  intros Hstep. induction fuel as [|fuel IH];
    intros clock store url options postData; [exact I|].
  destruct (_sendRequest_cases clock store url options postData)
    as [(run & Hrun & _ & Hlength)
       |(object & response & url' & options' & postData' & Hupdated & _ & Hhop
         & Hrun)].
  - rewrite Hrun. destruct (requests run) as [|a [|b rest]]; cbn in *;
      [exact I | split; exact I | lia].
  - rewrite Hrun. cbn [after requests linked]. split; [|apply IH].
    destruct (first_request fuel (S clock) (stored store url response) url'
                options' postData')
      as [->|(object' & rest & Hupdated' & ->)]; [exact I|].
    exact (Hstep _ _ _ _ _ _ _ _ _ _ Hupdated Hhop Hupdated').
Qed.

(** X11.  A redirect changes the method only to [GET].  Of two requests of a
    call that follow each other, the second one repeats the method and the
    body of the first; or the first had a method other than [GET] and
    [HEAD], and the second is a [GET] without body and without any of the
    [content-*] headers that the code names. *)
Theorem a_redirect_changes_the_method_only_to_GET
    fuel clock store url options postData i a b :
  let run := sendRequest fuel clock store url options postData in
  requests run !! i = Some a ->
  requests run !! S i = Some b ->
  (eventMethod b = eventMethod a /\ eventPostData b = eventPostData a)
  \/ (eventMethod b = "GET" /\ eventPostData b = None
      /\ (eventMethod a ∉ ["GET"; "HEAD"])
      /\ Forall (fun name => hasOwn name (eventHeaders b) = false) contentNames).
Proof.
  cbv zeta. intros Ha Hb. pattern a, b.
  eapply linked_lookup; [|exact Ha|exact Hb]. apply requests_linked.
  clear. intros store url options postData object response url' options' postData'
    object' Hupdated Hhop Hupdated'.
  cbn beta. cbn [eventMethod eventPostData eventHeaders].
  destruct Hhop as [locationURL _ _ _|credentials _ _ _];
    cbn [method headers] in *; [|left; split; reflexivity].
  destruct (rewritten response (method options)) eqn:Hrewritten;
    [|left; split; reflexivity].
  right. split; [reflexivity|]. split; [reflexivity|]. split.
  - unfold rewritten in Hrewritten. intros Hin.
    apply orb_true_iff in Hrewritten
      as [[_ Hpost%bool_decide_eq_true]%andb_true_iff
         |[_ Hother%negb_true_iff]%andb_true_iff].
    + rewrite Hpost in Hin.
      repeat (apply elem_of_cons in Hin as [Hin|Hin]; [discriminate|]).
      inversion Hin.
    + apply bool_decide_eq_false in Hother. auto.
  - pose proof (hasOwn_redirectHeaders response (method options) object Hrewritten)
      as Hgone.
    unfold contentNames in *.
    repeat (let Hname := fresh "Hname" in
            apply Forall_cons in Hgone as [Hname Hgone];
            apply Forall_cons; split;
            [rewrite (updated_hasOwn _ _ _ _ _ Hupdated') by (cased; discriminate);
             rewrite hasOwn_rehost by (cased; discriminate); exact Hname|]).
    constructor.
Qed.

(** X12.  An [authorization] header goes along.  Of two requests of a call
    that follow each other, the second one carries the [authorization]
    header of the first, unchanged, wherever a redirect leads; the only
    change is that a request without one is repeated, to the same url, with
    the [Basic] credentials that the context has for the origin. *)
Theorem authorization_follows_the_redirects
    fuel clock store url options postData i a b :
  let run := sendRequest fuel clock store url options postData in
  requests run !! i = Some a ->
  requests run !! S i = Some b ->
  getHeader (eventHeaders b) "authorization"
  = getHeader (eventHeaders a) "authorization"
  \/ (authorized (eventHeaders a) = false
      /\ eventUrl b = eventUrl a
      /\ exists credentials,
           Fetch._getHttpCredentials defaults (originOf (eventUrl a))
           = Some credentials
           /\ getHeader (eventHeaders b) "authorization"
              = Some ("Basic "
                      +:+ base64 (default "" (Fetch.username credentials) +:+ ":"
                                  +:+ default "" (Fetch.password credentials)))).
Proof.
  cbv zeta. intros Ha Hb. pattern a, b.
  eapply linked_lookup; [|exact Ha|exact Hb]. apply requests_linked.
  clear. intros store url options postData object response url' options' postData'
    object' Hupdated Hhop Hupdated'. cbn beta. cbn [eventUrl eventHeaders].
  rewrite (updated_getHeader _ _ _ _ "authorization" Hupdated') by (cased; discriminate).
  destruct Hhop as [locationURL _ _ _|credentials _ Hbare Hcredentials];
    cbn [headers].
  - left. rewrite getHeader_rehost by (cased; discriminate).
    apply getHeader_redirectHeaders.
    cased. apply (bool_decide_unpack _). vm_compute. exact I.
  - right. split; [exact Hbare|]. split; [reflexivity|].
    exists credentials. split; [exact Hcredentials|].
    unfold Fetch.setBasicAuthorizationHeader.
    rewrite getHeader_setHeader by (cased; discriminate).
    rewrite bool_decide_eq_true_2 by (cased; reflexivity). reflexivity.
Qed.

(** a server that answers every request with a redirect to some place *)
Definition redirectsForever : Prop :=
  forall clock store requestEvent, exists response,
    exchange clock store requestEvent = inl response
    /\ redirects response = true
    /\ latin1AsUtf8 (default "" (location response)) <> ""
    /\ is_Some (resolve (latin1AsUtf8 (default "" (location response)))
                  (eventUrl requestEvent)).

(** the cookies of the context are read without an error *)
Definition cookiesAnswer : Prop :=
  forall store url, exists contextCookies, _cookies store url = inl contextCookies.

Lemma updated_answers store url object :
  cookiesAnswer -> exists object', updated store url object = inl object'.
Proof.
  intros Hcookies. unfold _updateRequestCookieHeader.
  destruct (getHeader object "cookie"); [eauto|].
  destruct (Hcookies store url) as [contextCookies ->].
  destruct (List.filter _ contextCookies); eauto.
Qed.

(** X13.  The limit of redirects.  Against a server that answers every
    request with a redirect, a call with [maxRedirects] at least 0 sends
    its request, follows [maxRedirects] redirects and rejects with
    "Max redirect count exceeded" on the response to the last one. *)
Theorem redirects_stop_at_the_limit fuel clock store url options postData :
  redirectsForever ->
  cookiesAnswer ->
  (0 <= maxRedirects options)%Z ->
  Z.to_nat (maxRedirects options) < fuel ->
  let run := sendRequest fuel clock store url options postData in
  settled run = Some (inr (Message "Max redirect count exceeded"))
  /\ length (requests run) = S (Z.to_nat (maxRedirects options)).
Proof.
  intros Hforever Hcookies. revert clock store url options postData.
  induction fuel as [|fuel IH]; intros clock store url options postData Hleft Hfuel;
    [lia|].
  cbv zeta. cbn [_sendRequest].
  destruct (updated_answers store url (headers options) Hcookies)
    as [object ->].
  destruct (Hforever clock store
              (mkAPIRequestEvent url (method options) object postData))
    as (response & -> & Hredirects & Hlocation & locationURL & Hresolve).
  cbv zeta. rewrite Hredirects, (proj2 (Z.leb_le _ _) Hleft). cbn [andb].
  destruct (Z.eqb_spec (maxRedirects options) 0) as [Hnone|Hsome].
  - rewrite Hnone. split; reflexivity.
  - rewrite (bool_decide_eq_false_2 _ Hlocation). cbn [negb].
    cbn [eventUrl] in Hresolve. rewrite Hresolve.
    cbn [after settled requests length].
    match goal with
    | |- context [_sendRequest _ _ _ _ _ _ _ _ _ _ _ _ _ _ fuel ?c ?s ?u ?o ?d] =>
        destruct (IH c s u o d) as [Hsettled Hlength]
    end; [cbn [maxRedirects]; lia..|].
    cbn [maxRedirects] in Hlength. rewrite Hsettled, Hlength.
    split; [reflexivity | lia].
Qed.

(** a call that can add no request sends one at most *)
Lemma sole_request fuel clock store url options postData :
  weight options = 0 ->
  length (requests (sendRequest fuel clock store url options postData)) <= 1.
Proof.
  intros Hweight. destruct fuel as [|fuel]; [cbn; lia|].
  destruct (_sendRequest_cases clock store url options postData)
    as [(run & Hrun & _ & Hlength)
       |(object & response & url' & options' & postData' & Hupdated & _ & Hhop
         & _)].
  - rewrite Hrun. exact Hlength.
  - pose proof (weight_hop _ _ _ _ _ _ _ _ _ Hupdated Hhop). lia.
Qed.

(** what the requests of a call are when no redirect is followed *)
Lemma unfollowed fuel clock store url options postData :
  (maxRedirects options < 0)%Z ->
  let run := sendRequest fuel clock store url options postData in
  Forall (fun requestEvent =>
            eventUrl requestEvent = url
            /\ eventMethod requestEvent = method options
            /\ eventPostData requestEvent = postData) (requests run)
  /\ length (requests run) <= 2.
Proof.
  intros Hnone. cbv zeta.
  assert (Hown : forall fuel clock store (options' : SendRequestOptions),
            method options' = method options ->
            length (requests (sendRequest fuel clock store url options' postData))
            <= 1 ->
            Forall (fun requestEvent =>
                      eventUrl requestEvent = url
                      /\ eventMethod requestEvent = method options
                      /\ eventPostData requestEvent = postData)
              (requests (sendRequest fuel clock store url options' postData))).
  { intros fuel0 clock0 store0 options' Hmethod Hlength.
    destruct (first_request fuel0 clock0 store0 url options' postData)
      as [->|(object & rest & _ & Hrequests)]; [constructor|].
    rewrite Hrequests in *. destruct rest; [|cbn in Hlength; lia].
    constructor; [|constructor]. cbn. auto. }
  destruct fuel as [|fuel]; [split; [constructor | cbn; lia]|].
  destruct (_sendRequest_cases clock store url options postData)
    as [(run & Hrun & _ & Hlength)
       |(object & response & url' & options' & postData' & Hupdated & _ & Hhop
         & Hrun)].
  - split; [|rewrite Hrun; lia].
    apply Hown; [reflexivity|]. rewrite Hrun. exact Hlength.
  - destruct Hhop as [locationURL _ Hleft _|credentials _ _ _]; [lia|].
    assert (Hsole : length (requests
                       (sendRequest fuel (S clock) (stored store url response) url
                          (mkSendRequestOptions (method options)
                             (Fetch.setBasicAuthorizationHeader base64 object
                                credentials)
                             (maxRedirects options))
                          postData)) <= 1).
    { apply sole_request. unfold weight. cbn [maxRedirects headers].
      rewrite authorized_basic. lia. }
    rewrite Hrun. cbn [after requests length]. split; [|lia].
    constructor; [cbn; auto|]. apply Hown; [reflexivity | exact Hsole].
Qed.

Section Composed.
Context {File Form : Type}.
Variable byteLength : Buffer -> N.
Variable utf8 : string -> Buffer.
Variable urlencoded : list (string * string) -> string.
Variable newForm : Form.
Variable addFileField : string -> File -> Form -> Form.
Variable addField : string -> string -> Form -> Form.
Variable contentTypeHeader : Form -> string.
Variable finish : Form -> Buffer.
Variable params : Fetch.FetchParams Buffer File.

(** X14.  [maxRedirects: 0] means that no redirect is followed.  When the
    call, or else the context, sets [maxRedirects] to 0, every request that
    [fetch] has [_sendRequest] send goes to the url of the call, with the
    method and the body of the call, and there are two of them at most; a
    response with a redirect status is not followed and not refused: it is
    the result. *)
Theorem maxRedirects_zero_follows_no_redirect p fuel clock store url :
  Fetch.prepare byteLength utf8 base64 urlencoded newForm addFileField addField
    contentTypeHeader finish defaults params (originOf url) = inl p ->
  Fetch.maxRedirects params = Some 0%Z
    \/ (Fetch.maxRedirects params = None
        /\ Fetch.defaultMaxRedirects defaults = Some 0%Z) ->
  let run := sendRequest fuel clock store url (sending p) (Fetch.sentData p) in
  Forall (fun requestEvent =>
            eventUrl requestEvent = url
            /\ eventMethod requestEvent = Fetch.sentMethod p
            /\ eventPostData requestEvent = Fetch.sentData p) (requests run)
  /\ length (requests run) <= 2
  /\ forall object response,
       0 < fuel ->
       updated store url (Fetch.sentHeaders p) = inl object ->
       exchange clock store
         (mkAPIRequestEvent url (Fetch.sentMethod p) object (Fetch.sentData p))
       = inl response ->
       redirects response = true ->
       run = mkRun (Some (resultOf toString url response))
               [mkAPIRequestEvent url (Fetch.sentMethod p) object (Fetch.sentData p)]
               (stored store url response).
Proof.
  intros Hp Hzero.
  assert (Hnone : maxRedirects (sending p) = (-1)%Z).
  { unfold Fetch.prepare in Hp. cbv zeta in Hp.
    destruct (Fetch.serializePostData _ _ _ _ _ _ _ _ _) as [[data object]|message];
      [|discriminate].
    injection Hp as <-. cbn.
    destruct Hzero as [->|[-> ->]]; reflexivity. }
  cbv zeta.
  destruct (unfollowed fuel clock store url (sending p) (Fetch.sentData p))
    as [Hrequests Hlength]; [lia|].
  split; [exact Hrequests|]. split; [exact Hlength|].
  intros object response Hfuel Hupdated Hexchange Hredirects.
  destruct fuel as [|fuel]; [lia|]. cbn [_sendRequest].
  cbn [sending headers method] in *. rewrite Hupdated, Hexchange. cbv zeta.
  rewrite Hredirects. cbn [maxRedirects sending] in *. rewrite Hnone. cbn [andb Z.leb].
  rewrite (bool_decide_eq_false_2 _ (redirects_not_401 _ Hredirects)).
  reflexivity.
Qed.

End Composed.

End Sending.

End Cased.

End SendFacts.

Module SendRuns.
Import Strings Headers Send SendFacts.

#[local] Existing Instance asciiCasing.

(** a world of strings: a url is its text, a cookie a pair, and the
    context has one cookie *)
Definition same (text : string) : string := text.
Definition host (url : string) : string := "b.test".
Definition place (location url : string) : option string :=
  if bool_decide (location = "::") then None else Some location.
Definition jar (store : list (string * string)) (url : string)
    : list (string * string) + string := inl store.
Definition everywhere (cookie : string * string) (url : string) : bool := true.
Definition kept (store : list (string * string)) (url : string)
    (response : IncomingMessage string string) : list (string * string) := store.

Definition answer (code : Z) (location : option string)
    : IncomingMessage string string :=
  mkIncomingMessage (Some code) (Some "") None location None [] (inl "body").

(** a server that redirects a first request with 302 and a second one
    with 307, and then answers *)
Definition twoHops (clock : nat) (store : list (string * string))
    (requestEvent : APIRequestEvent string string)
    : IncomingMessage string string + string :=
  match clock with
  | 0 => inl (answer 302 (Some "http://b.test/one"))
  | 1 => inl (answer 307 (Some "http://b.test/two"))
  | _ => inl (answer 200 None)
  end.

(** a server that redirects every request *)
Definition circle (clock : nat) (store : list (string * string))
    (requestEvent : APIRequestEvent string string)
    : IncomingMessage string string + string :=
  inl (answer 302 (Some "http://b.test/again")).

Definition noDefaults : Fetch.FetchRequestOptions :=
  Fetch.mkFetchRequestOptions "agent/1.0" None None None None.

(** a [POST] with a body, a token, and cookies of the caller's own that
    are spelled with a capital *)
Definition posting : SendRequestOptions :=
  mkSendRequestOptions "POST"
    [("content-type", "text/plain"); ("authorization", "Bearer token");
     ("Content-Length", "4")]
    20.

Definition hops : Run string string (list (string * string)) string :=
  Eval vm_compute in
    _sendRequest noDefaults same host same place same same same jar everywhere
      fst snd twoHops kept 22 0 [("sid", "1")] "http://a.test/" posting
      (Some "data").

Lemma hops_run :
  _sendRequest noDefaults same host same place same same same jar everywhere
    fst snd twoHops kept 22 0 [("sid", "1")] "http://a.test/" posting (Some "data")
  = hops.
Proof. vm_compute. reflexivity. Qed.

Definition posted : APIRequestEvent string string :=
  mkAPIRequestEvent "http://a.test/" "POST"
    [("content-type", "text/plain"); ("authorization", "Bearer token");
     ("Content-Length", "4"); ("cookie", "sid=1")]
    (Some "data").

Definition one : APIRequestEvent string string :=
  mkAPIRequestEvent "http://b.test/one" "GET"
    [("authorization", "Bearer token"); ("Content-Length", "4");
     ("cookie", "sid=1")]
    None.

Definition two : APIRequestEvent string string :=
  mkAPIRequestEvent "http://b.test/two" "GET"
    [("authorization", "Bearer token"); ("Content-Length", "4");
     ("cookie", "sid=1")]
    None.

(** the redirect of the [POST] is a [GET] without body and without
    [content-type]; the [Content-Length] with a capital stays, and so does
    the token; the cookie is that of the context *)
Example hops_requests : requests hops = [posted; one; two].
Proof. reflexivity. Qed.

Example hops_result :
  settled hops
  = Some (inl (mkSendRequestResult "http://b.test/two" 200 "" [] "body")).
Proof. reflexivity. Qed.

Lemma a_call_settles_within_its_redirects_witness :
  weight posting < 22
  /\ is_Some (settled hops)
  /\ length (requests hops) <= S (weight posting).
Proof.
  assert (Hfuel : weight posting < 22) by (vm_compute; lia).
  pose proof (a_call_settles_within_its_redirects noDefaults same host same place
                same same same jar everywhere fst snd twoHops kept
                22 0 [("sid", "1")] "http://a.test/" posting (Some "data") Hfuel)
    as Hrun.
  cbv zeta in Hrun. rewrite hops_run in Hrun.
  destruct Hrun as (Hsettled & Hlength & _).
  split; [exact Hfuel|]. split; [exact Hsettled | exact Hlength].
Defined.

Lemma a_redirect_changes_the_method_only_to_GET_witness :
  requests hops !! 0 = Some posted
  /\ requests hops !! 1 = Some one
  /\ ((eventMethod one = eventMethod posted
       /\ eventPostData one = eventPostData posted)
      \/ (eventMethod one = "GET" /\ eventPostData one = None
          /\ (eventMethod posted ∉ ["GET"; "HEAD"])
          /\ Forall (fun name => hasOwn name (eventHeaders one) = false)
               contentNames)).
Proof.
  assert (Ha : requests hops !! 0 = Some posted) by reflexivity.
  assert (Hb : requests hops !! 1 = Some one) by reflexivity.
  split; [exact Ha|]. split; [exact Hb|].
  pose proof (a_redirect_changes_the_method_only_to_GET noDefaults same host same
                place same same same jar everywhere fst snd twoHops kept
                22 0 [("sid", "1")] "http://a.test/" posting (Some "data")
                0 posted one) as Hhop.
  cbv zeta in Hhop. rewrite hops_run in Hhop. exact (Hhop Ha Hb).
Defined.

Lemma authorization_follows_the_redirects_witness :
  requests hops !! 1 = Some one
  /\ requests hops !! 2 = Some two
  /\ (getHeader (eventHeaders two) "authorization"
      = getHeader (eventHeaders one) "authorization"
      \/ (authorized (eventHeaders one) = false
          /\ eventUrl two = eventUrl one
          /\ exists credentials,
               Fetch._getHttpCredentials noDefaults (same (eventUrl one))
               = Some credentials
               /\ getHeader (eventHeaders two) "authorization"
                  = Some ("Basic "
                          +:+ same (default "" (Fetch.username credentials) +:+ ":"
                                    +:+ default "" (Fetch.password credentials))))).
Proof.
  assert (Ha : requests hops !! 1 = Some one) by reflexivity.
  assert (Hb : requests hops !! 2 = Some two) by reflexivity.
  split; [exact Ha|]. split; [exact Hb|].
  pose proof (authorization_follows_the_redirects noDefaults same host same
                place same same same jar everywhere fst snd twoHops kept
                22 0 [("sid", "1")] "http://a.test/" posting (Some "data")
                1 one two) as Hhop.
  cbv zeta in Hhop. rewrite hops_run in Hhop. exact (Hhop Ha Hb).
Defined.

Definition twice : SendRequestOptions := mkSendRequestOptions "GET" [] 2.

Definition circled : Run string string (list (string * string)) string :=
  Eval vm_compute in
    _sendRequest noDefaults same host same place same same same jar everywhere
      fst snd circle kept 5 0 [] "http://a.test/" twice None.

Lemma circled_run :
  _sendRequest noDefaults same host same place same same same jar everywhere
    fst snd circle kept 5 0 [] "http://a.test/" twice None
  = circled.
Proof. vm_compute. reflexivity. Qed.

Example circled_requests :
  map eventUrl (requests circled)
  = ["http://a.test/"; "http://b.test/again"; "http://b.test/again"].
Proof. reflexivity. Qed.

Lemma redirects_stop_at_the_limit_witness :
  redirectsForever place same circle
  /\ cookiesAnswer jar
  /\ (0 <= maxRedirects twice)%Z
  /\ Z.to_nat (maxRedirects twice) < 5
  /\ settled circled = Some (inr (Message "Max redirect count exceeded"))
  /\ length (requests circled) = 3.
Proof.
  assert (Hforever : redirectsForever place same circle).
  { intros clock store requestEvent. eexists. split; [reflexivity|].
    split; [reflexivity|]. split; [discriminate|]. eexists. reflexivity. }
  assert (Hcookies : cookiesAnswer jar).
  { intros store url. eexists. reflexivity. }
  assert (Hleft : (0 <= maxRedirects twice)%Z) by (cbn; lia).
  assert (Hfuel : Z.to_nat (maxRedirects twice) < 5) by (cbn; lia).
  do 4 (split; [assumption|]).
  pose proof (redirects_stop_at_the_limit noDefaults same host same place same
                same same jar everywhere fst snd circle kept 5 0 []
                "http://a.test/" twice None Hforever Hcookies Hleft Hfuel)
    as Hrun.
  cbv zeta in Hrun. rewrite circled_run in Hrun. exact Hrun.
Defined.

(** a call with [maxRedirects: 0] *)
Definition unfollowing : Fetch.FetchParams string unit :=
  Fetch.mkFetchParams None (Some "get") (Some 0%Z) None None None None None None.

Definition unfollowingSent : @Fetch.Prepared string :=
  Fetch.mkPrepared "GET"
    [("user-agent", "agent/1.0"); ("accept", "*/*");
     ("accept-encoding", "gzip,deflate,br")]
    (-1) None.

Definition unfollowedRun : Run string string (list (string * string)) string :=
  mkRun (Some (inl (mkSendRequestResult "http://a.test/" 302 "" [] "body")))
    [mkAPIRequestEvent "http://a.test/" "GET"
       [("user-agent", "agent/1.0"); ("accept", "*/*");
        ("accept-encoding", "gzip,deflate,br")]
       None]
    [].

Lemma maxRedirects_zero_follows_no_redirect_witness :
  Fetch.prepare FetchRuns.bytes same same FetchRuns.noFields "" FetchRuns.noFile
    FetchRuns.field same same noDefaults unfollowing (same "http://a.test/")
  = inl unfollowingSent
  /\ Fetch.maxRedirects unfollowing = Some 0%Z
  /\ _sendRequest noDefaults same host same place same same same jar everywhere
       fst snd circle kept 5 0 [] "http://a.test/" (sending unfollowingSent) None
     = unfollowedRun.
Proof.
  assert (Hp : Fetch.prepare FetchRuns.bytes same same FetchRuns.noFields ""
                 FetchRuns.noFile FetchRuns.field same same noDefaults unfollowing
                 (same "http://a.test/")
               = inl unfollowingSent) by (vm_compute; reflexivity).
  assert (Hzero : Fetch.maxRedirects unfollowing = Some 0%Z) by reflexivity.
  split; [exact Hp|]. split; [exact Hzero|].
  destruct (maxRedirects_zero_follows_no_redirect noDefaults same host same place
              same same same jar everywhere fst snd circle kept
              FetchRuns.bytes same FetchRuns.noFields "" FetchRuns.noFile
              FetchRuns.field same same unfollowing unfollowingSent
              5 0 [] "http://a.test/" Hp (or_introl Hzero))
    as (_ & _ & Hresult).
  apply (Hresult _ (answer 302 (Some "http://b.test/again")));
    [lia | reflexivity | reflexivity | reflexivity].
Defined.

End SendRuns.

(** * More of the frame manager *)

Module ManagerFacts.
Import Errors Types Frames TreeFacts IdleFacts RunFacts DetachFacts.

#[local] Arguments modifyAt : simpl never.
#[local] Arguments lookupAt : simpl never.
#[local] Arguments removeAt : simpl never.
#[local] Arguments _recalculateNetworkIdle : simpl never.
#[local] Arguments updateFrame : simpl never.
#[local] Arguments frameAt : simpl never.

(** X15.  [_recalculateNetworkIdle] settles at once.  After a recalculation
    of the whole tree, another one, whatever frame it exempts, changes
    nothing.  A recalculation keeps every frame at its position and
    changes nothing of it but its set of fired events, and of that set
    nothing but [networkidle]. *)
Theorem recalculation_is_idempotent allowed t :
  _recalculateNetworkIdle allowed (_recalculateNetworkIdle None t)
  = _recalculateNetworkIdle None t
  /\ forall p n, lookupAt p t = Some n ->
       exists n' fired,
         lookupAt p (_recalculateNetworkIdle allowed t) = Some n'
         /\ fdata n' = set_firedLifecycleEvents fired (fdata n)
         /\ length (_childFrames n') = length (_childFrames n)
         /\ forall e, e <> networkidle -> has e (fdata n') = has e (fdata n).
Proof.
  split; [apply recalc_coherent_id, recalc_coherent|].
  intros p n Hn. rewrite lookupAt_recalc, Hn. cbn.
  destruct (recalc_fdata allowed n) as (fired & Hdata & Hhas).
  exists (_recalculateNetworkIdle allowed n), fired.
  split; [reflexivity|]. split; [assumption|]. split; [|assumption].
  destruct n as [d children]. rewrite recalc_node. cbn. apply length_map.
Qed.

(** X16.  A notification for a frame id that the manager does not know.  The
    handlers of a detach, a lifecycle event, a requested navigation, a
    same-document commit and an aborted navigation return and leave the
    manager as it is; the handler of a new-document commit throws, the
    manager being as it was. *)
Theorem unknown_frame_is_ignored s frameId :
  _frames s !! frameId = None ->
  handle (OnFrameDetached frameId) s = (Ok tt, s)
  /\ (forall event, handle (OnFrameLifecycleEvent frameId event) s = (Ok tt, s))
  /\ (forall documentId,
        handle (OnFrameRequestedNavigation frameId documentId) s = (Ok tt, s))
  /\ (forall url,
        handle (OnFrameCommittedSameDocumentNavigation frameId url) s = (Ok tt, s))
  /\ (forall redirected errorText documentId,
        handle (OnFrameAbortedNavigation redirected frameId errorText documentId) s
        = (Ok tt, s))
  /\ (forall url name documentId initial,
        exists error,
          handle (OnFrameCommittedNewDocumentNavigation
                    frameId url name documentId initial) s
          = (Throw error, s)).
Proof.
  intros Hunknown.
  assert (Hframe : frameById frameId s = (Ok None, s)).
  { unfold frameById, gets. rewrite Hunknown. reflexivity. }
  cbn [handle].
  unfold frameDetached, frameLifecycleEvent, frameRequestedNavigation,
    frameCommittedSameDocumentNavigation, frameAbortedNavigation,
    frameCommittedNewDocumentNavigation.
  repeat split; intros; try eexists;
    rewrite (bind_run _ _ _ _ _ Hframe); reflexivity.
Qed.

(** *** Finding a frame object again *)

(** the tree with nothing but the frame objects *)
Fixpoint bare (f : Frame) : Frame :=
  mkFrame (newFrameData (oid (fdata f)) "") (map bare (_childFrames f)).

Lemma findPath_bare o t : findPath o (bare t) = findPath o t.
Proof.
  induction t as [d children IH] using Frame_ind.
  cbn [bare findPath fdata _childFrames newFrameData oid].
  destruct (decide (oid d = o)); [reflexivity|].
  generalize 0. induction children as [|c rest IHrest]; intros k; [reflexivity|].
  apply Forall_cons in IH as [Hc Hrest]. cbn [map]. rewrite Hc.
  destruct (findPath o c); [reflexivity|]. apply IHrest. assumption.
Qed.

Lemma bare_onData g f :
  oid (g (fdata f)) = oid (fdata f) -> bare (onData g f) = bare f.
Proof. destruct f as [d children]. cbn. intros ->. reflexivity. Qed.

Lemma bare_modifyAt p h t :
  (forall f, bare (h f) = bare f) -> bare (modifyAt p h t) = bare t.
Proof.
  intros Hh. revert t. induction p as [|i p IH]; intros [d children]; [apply Hh|].
  change (modifyAt (i :: p) h (mkFrame d children))
    with (mkFrame d (alter (modifyAt p h) i children)).
  cbn [bare fdata _childFrames]. f_equal.
  apply list_eq. intros j. rewrite !map_lookup, list_lookup_alter.
  destruct (decide (i = j)) as [<-|]; [|reflexivity].
  destruct (children !! i); cbn; [|reflexivity]. rewrite IH. reflexivity.
Qed.

Lemma bare_recalc allowed t : bare (_recalculateNetworkIdle allowed t) = bare t.
Proof.
  induction t as [d children IH] using Frame_ind.
  rewrite recalc_node. cbv zeta. cbn [bare fdata _childFrames].
  rewrite settle_oid, map_map. f_equal.
  apply map_ext_Forall. exact IH.
Qed.

(** a frame object is found where it was when only fields of frames
    were written *)
Lemma findPath_modifyAt o p g t :
  (forall d, oid (g d) = oid d) ->
  findPath o (modifyAt p (onData g) t) = findPath o t.
Proof.
  intros Hg. rewrite <- findPath_bare, bare_modifyAt, findPath_bare; [reflexivity|].
  intros f. apply bare_onData, Hg.
Qed.


(** *** Execution contexts *)

Definition destroyedByNavigation : string :=
  "Execution context was destroyed, most likely because of a navigation".

(** what [_contextCreated] does to the frame *)
Definition created (world : World) (c : ExecutionContext) (d : FrameData)
    : FrameData :=
  _setContext world (Some c)
    (match context (contextDataOf d world) with
     | Some _ => _setContext world None d
     | None => d
     end).

(** what [_contextDestroyed] does to the slot of a world *)
Definition reset (world : World) (c : ExecutionContext) (d : FrameData)
    : FrameData :=
  if bool_decide (context (contextDataOf d world) = Some c)
  then _setContext world None d else d.

Lemma _contextCreated_run this world c s root n :
  _mainFrame s = Some root ->
  lookupAt this root = Some n ->
  _contextCreated this world c s
  = (Ok tt,
     withTree (modifyAt this (onData (created world c)) root)
       (set_emitted
          (emitted s
           ++ match context (contextDataOf (fdata n) world) with
              | Some old => [ContextDestroyed old destroyedByNavigation]
              | None => []
              end) s)).
Proof.
  intros Hroot Hthis. unfold _contextCreated.
  rewrite (bind_run _ _ _ _ _ (frameAt_run this s root n Hroot Hthis)).
  rewrite <- (withTree_same s root Hroot) at 1.
  destruct (context (contextDataOf (fdata n) world)) as [old|] eqn:Hold.
  - assert (Hfirst :
      (emit (ContextDestroyed old destroyedByNavigation);;
       updateFrame this (_setContext world None)) (withTree root s)
      = (Ok tt, withTree (modifyAt this (onData (_setContext world None)) root)
                  (set_emitted
                     (emitted s ++ [ContextDestroyed old destroyedByNavigation]) s))).
    { rewrite (bind_run _ _ _ _ _ (emit_wt _ _ _)). apply updateFrame_wt. }
    rewrite (bind_run _ _ _ _ _ Hfirst), updateFrame_wt, modifyAt_compose.
    do 2 f_equal. apply (modifyAt_ext this _ _ root n Hthis).
    unfold onData, created. cbn [fdata _childFrames]. rewrite Hold. reflexivity.
  - rewrite (bind_run _ _ _ tt _ eq_refl), updateFrame_wt.
    rewrite app_nil_r, set_emitted_same.
    do 2 f_equal. apply (modifyAt_ext this _ _ root n Hthis).
    unfold onData, created. rewrite Hold. reflexivity.
Qed.

Lemma _contextDestroyed_run this c s root n :
  _mainFrame s = Some root ->
  lookupAt this root = Some n ->
  isDetached (fdata n) = false ->
  _contextDestroyed this c s
  = (Ok tt,
     withTree (modifyAt this (onData (fun d => reset utility c (reset main c d))) root)
       (set_emitted (emitted s ++ [ContextDestroyed c destroyedByNavigation]) s)).
Proof.
  intros Hroot Hthis Hlive. unfold _contextDestroyed.
  rewrite (bind_run _ _ _ _ _ (frameAt_run this s root n Hroot Hthis)), Hlive.
  rewrite <- (withTree_same s root Hroot) at 1.
  rewrite (bind_run _ _ _ _ _ (emit_wt _ _ _)).
  assert (Hslot : forall world T s' m,
    lookupAt this T = Some m ->
    (f ← frameAt this;
     if bool_decide (context (contextDataOf f world) = Some c)
     then updateFrame this (_setContext world None) else mret tt) (withTree T s')
    = (Ok tt, withTree (modifyAt this (onData (reset world c)) T) s')).
  { intros world T s' m Hm.
    rewrite (bind_run _ _ _ _ _ (frameAt_wt _ _ _ _ Hm)).
    destruct (bool_decide (context (contextDataOf (fdata m) world) = Some c)) eqn:Hc.
    - rewrite updateFrame_wt. do 2 f_equal. apply (modifyAt_ext this _ _ T m Hm).
      unfold onData, reset. rewrite Hc. reflexivity.
    - unfold mret, M_ret. do 2 f_equal. symmetry.
      apply (modifyAt_id this _ T m Hm), onData_id.
      unfold reset. rewrite Hc. reflexivity. }
  cbn [forEach].
  rewrite (bind_run _ _ _ _ _ (Hslot main _ _ n Hthis)).
  assert (Hnext : lookupAt this (modifyAt this (onData (reset main c)) root)
                  = Some (onData (reset main c) n))
    by (rewrite lookupAt_modifyAt, Hthis; reflexivity).
  rewrite (bind_run _ _ _ _ _ (Hslot utility _ _ _ Hnext)).
  rewrite modifyAt_compose. reflexivity.
Qed.

Section Found.
Variables (s : FrameManager) (frameId : string) (o : nat) (root : Frame)
  (this : path) (n : Frame).
Hypothesis Hid : _frames s !! frameId = Some o.
Hypothesis Hroot : _mainFrame s = Some root.
Hypothesis Hpath : findPath o root = Some this.
Hypothesis Hthis : lookupAt this root = Some n.

(** X17.  An aborted navigation.  Without a pending document, or when the
    abort names a document id other than the one of the pending document,
    the manager is left as it is.  Otherwise the pending document is
    dropped and the frame emits one [InternalNavigation] that carries the
    pending document and a [NavigationAbortedError] with the id and the
    text of the abort; the frame's url, its documents in place and its
    lifecycle events are as before. *)
Theorem aborted_navigation_drops_its_own_pending redirected errorText documentId :
  let e := OnFrameAbortedNavigation redirected frameId errorText documentId in
  (_pendingDocument (fdata n) = None -> handle e s = (Ok tt, s))
  /\ (forall pending other,
        _pendingDocument (fdata n) = Some pending ->
        documentId = Some other -> Types.documentId pending <> Some other ->
        handle e s = (Ok tt, s))
  /\ (forall pending,
        _pendingDocument (fdata n) = Some pending ->
        documentId = None \/ Types.documentId pending = documentId ->
        handle e s
        = (Ok tt,
           withTree (modifyAt this (onData (set_pendingDocument None)) root)
             (set_emitted
                (emitted s
                 ++ [InternalNavigation (oid (fdata n))
                       (mkNavigationEvent (_url (fdata n)) (_name (fdata n))
                          (Some pending)
                          (Some (mkError (NavigationAbortedError documentId)
                                   false errorText))
                          (Some (negb (truthy documentId
                                       && redirected (default "" documentId)))))])
                s))).
Proof.
  intros e. subst e. cbn [handle]. unfold frameAbortedNavigation.
  rewrite (bind_run _ _ _ _ _ (frameById_run s frameId o root this Hid Hroot Hpath)).
  rewrite (bind_run _ _ _ _ _ (frameAt_run this s root n Hroot Hthis)).
  split; [|split].
  - intros ->. reflexivity.
  - intros pending other -> -> Hother.
    rewrite bool_decide_eq_true_2 by eauto.
    rewrite (proj2 (NavigationFacts.sameId_false _ _) Hother). reflexivity.
  - intros pending -> Hsame.
    assert (Hgo : bool_decide (is_Some documentId)
                  && negb (sameId (Types.documentId pending) documentId) = false).
    { destruct Hsame as [->|Hsame].
      - rewrite bool_decide_eq_false_2 by (intros [? [=]]). reflexivity.
      - rewrite (proj2 (NavigationFacts.sameId_true _ _) Hsame).
        apply andb_false_r. }
    rewrite Hgo. unfold setPendingDocument.
    rewrite (bind_run _ _ _ _ _ (updateFrame_run this s root Hroot _)).
    assert (Hstill : lookupAt this (modifyAt this (onData (set_pendingDocument None)) root)
                     = Some (onData (set_pendingDocument None) n))
      by (rewrite lookupAt_modifyAt, Hthis; reflexivity).
    unfold _fireInternalFrameNavigation.
    rewrite (bind_run _ _ _ _ _ (frameAt_wt _ _ _ _ Hstill)).
    rewrite emit_wt. reflexivity.
Qed.

(** X18.  A commit within the same document.  The frame takes the url and
    emits one [InternalNavigation] without a new document.  A pending
    document is dropped only when it has neither id nor request.  Unlike
    the commit of a new document, nothing else changes: the child frames
    stay, and so do the lifecycle events and the current document. *)
Theorem same_document_commit_keeps_the_document url :
  let e := OnFrameCommittedSameDocumentNavigation frameId url in
  let settled (d : FrameData) :=
    set_url url
      (if bool_decide (_pendingDocument d = Some (mkDocumentInfo None None))
       then set_pendingDocument None d else d) in
  handle e s
  = (Ok tt,
     withTree (modifyAt this (onData settled) root)
       (set_emitted
          (emitted s
           ++ [InternalNavigation (oid (fdata n))
                 (mkNavigationEvent url (_name (fdata n)) None None (Some true))])
          s))
  /\ _firedLifecycleEvents (settled (fdata n)) = _firedLifecycleEvents (fdata n)
  /\ _currentDocument (settled (fdata n)) = _currentDocument (fdata n)
  /\ _childFrames (onData settled n) = _childFrames n.
Proof.
  intros e settled. subst e. cbn [handle]. unfold frameCommittedSameDocumentNavigation.
  split.
  - rewrite (bind_run _ _ _ _ _ (frameById_run s frameId o root this Hid Hroot Hpath)).
    rewrite (bind_run _ _ _ _ _ (frameAt_run this s root n Hroot Hthis)).
    assert (Hcleared :
      match _pendingDocument (fdata n) with
      | Some (mkDocumentInfo None None) => setPendingDocument this None
      | _ => mret tt
      end s
      = (Ok tt,
         withTree
           (modifyAt this
              (onData (fun d =>
                 if bool_decide (_pendingDocument d = Some (mkDocumentInfo None None))
                 then set_pendingDocument None d else d)) root) s)).
    { destruct (_pendingDocument (fdata n)) as [[[id|] [r|]]|] eqn:Hpending;
        try (unfold mret, M_ret;
             rewrite (modifyAt_id this _ root n Hthis), (withTree_same _ _ Hroot);
             [reflexivity|];
             apply onData_id; rewrite Hpending;
             rewrite bool_decide_eq_false_2 by discriminate; reflexivity).
      unfold setPendingDocument. rewrite (updateFrame_run this s root Hroot).
      do 2 f_equal. apply (modifyAt_ext this _ _ root n Hthis).
      unfold onData. rewrite Hpending, bool_decide_eq_true_2 by reflexivity.
      reflexivity. }
    rewrite (bind_run _ _ _ _ _ Hcleared).
    rewrite (bind_run _ _ _ _ _ (updateFrame_wt _ _ _ _)), modifyAt_compose.
    assert (Hstill : lookupAt this (modifyAt this (onData settled) root)
                     = Some (onData settled n))
      by (rewrite lookupAt_modifyAt, Hthis; reflexivity).
    unfold _fireInternalFrameNavigation.
    change (fun f : Frame =>
              onData (set_url url)
                (onData (fun d =>
                   if bool_decide (_pendingDocument d = Some (mkDocumentInfo None None))
                   then set_pendingDocument None d else d) f))
      with (onData settled).
    rewrite (bind_run _ _ _ _ _ (frameAt_wt _ _ _ _ Hstill)).
    rewrite emit_wt.
    assert (Hsame : oid (fdata (onData settled n)) = oid (fdata n))
      by (subst settled; cbn; destruct (bool_decide _); reflexivity).
    rewrite Hsame. reflexivity.
  - subst settled. cbv beta.
    destruct (bool_decide _); repeat split.
Qed.


End Found.

(** *** Requests in flight *)

(** what [_inflightRequestStarted] does to the frame *)
Definition started (r : Request) (d : FrameData) : FrameData :=
  let d := addInflight r d in
  if bool_decide (length (_inflightRequests d) = 1)
  then set_firedNetworkIdleSelf false (set_networkIdleTimer NoTimer d) else d.

(** and [_inflightRequestFinished] *)
Definition finished (r : Request) (d : FrameData) : FrameData :=
  if negb (inflight r d) then d
  else
    let d := deleteInflight r d in
    if bool_decide (length (_inflightRequests d) = 0) then arm d else d.

Lemma _inflightRequestStarted_wt r this T s n :
  _isFavicon r = false ->
  lookupAt this T = Some n ->
  _inflightRequestStarted r this (withTree T s)
  = (Ok tt, withTree (modifyAt this (onData (started r)) T) s).
Proof.
  intros Hfavicon Hthis. unfold _inflightRequestStarted. rewrite Hfavicon.
  rewrite (bind_run _ _ _ _ _ (updateFrame_wt _ _ _ _)).
  assert (Hadded : lookupAt this (modifyAt this (onData (addInflight r)) T)
                   = Some (onData (addInflight r) n))
    by (rewrite lookupAt_modifyAt, Hthis; reflexivity).
  rewrite (bind_run _ _ _ _ _ (frameAt_wt _ _ _ _ Hadded)).
  cbn [onData fdata].
  destruct (bool_decide (length (_inflightRequests (addInflight r (fdata n))) = 1))
    eqn:Hone.
  - unfold _stopNetworkIdleTimer. rewrite updateFrame_wt, modifyAt_compose.
    do 2 f_equal. apply (modifyAt_ext this _ _ T n Hthis).
    unfold onData, started. cbn [fdata _childFrames]. cbv zeta. rewrite Hone.
    reflexivity.
  - unfold mret, M_ret. do 2 f_equal. apply (modifyAt_ext this _ _ T n Hthis).
    unfold onData, started. cbv zeta. rewrite Hone. reflexivity.
Qed.

Lemma _inflightRequestFinished_wt r this T s n :
  _isFavicon r = false ->
  lookupAt this T = Some n ->
  (inflight r (fdata n) = true -> _networkIdleTimer (fdata n) = NoTimer) ->
  _inflightRequestFinished r this (withTree T s)
  = (Ok tt, withTree (modifyAt this (onData (finished r)) T) s).
Proof.
  intros Hfavicon Hthis Htimer. unfold _inflightRequestFinished. rewrite Hfavicon.
  rewrite (bind_run _ _ _ _ _ (frameAt_wt _ _ _ _ Hthis)).
  destruct (inflight r (fdata n)) eqn:Hin; cbn [negb].
  - rewrite (bind_run _ _ _ _ _ (updateFrame_wt _ _ _ _)).
    assert (Hdeleted : lookupAt this (modifyAt this (onData (deleteInflight r)) T)
                       = Some (onData (deleteInflight r) n))
      by (rewrite lookupAt_modifyAt, Hthis; reflexivity).
    rewrite (bind_run _ _ _ _ _ (frameAt_wt _ _ _ _ Hdeleted)).
    cbn [onData fdata].
    destruct (bool_decide (length (_inflightRequests (deleteInflight r (fdata n))) = 0))
      eqn:Hnone.
    + rewrite (_startNetworkIdleTimer_wt this _ s _ Hdeleted)
        by (apply Htimer; reflexivity).
      rewrite modifyAt_compose. do 2 f_equal.
      apply (modifyAt_ext this _ _ T n Hthis).
      unfold onData, finished. cbn [fdata _childFrames]. rewrite Hin. cbn [negb].
      cbv zeta. rewrite Hnone. reflexivity.
    + unfold mret, M_ret. do 2 f_equal. apply (modifyAt_ext this _ _ T n Hthis).
      unfold onData, finished. rewrite Hin. cbn [negb]. cbv zeta. rewrite Hnone.
      reflexivity.
  - unfold mret, M_ret. do 2 f_equal. symmetry.
    apply (modifyAt_id this _ T n Hthis), onData_id.
    unfold finished. rewrite Hin. reflexivity.
Qed.

Lemma slot_set world c d :
  contextDataOf (_setContext world c d) world
  = match c with
    | Some c' =>
        mkContextData (resolve (inl c') (contextPromise (contextDataOf d world)))
                      (Some c')
    | None => mkContextData Pending None
    end.
Proof. destruct world, c; reflexivity. Qed.

Lemma slot_set_other world world' c d :
  world <> world' ->
  contextDataOf (_setContext world c d) world' = contextDataOf d world'.
Proof. destruct world, world'; intros H; try contradiction; reflexivity. Qed.

Lemma slot_created world c d :
  is_Some (context (contextDataOf d world))
    \/ contextPromise (contextDataOf d world) = Pending ->
  contextDataOf (created world c d) world
  = mkContextData (Fulfilled (inl c)) (Some c).
Proof.
  intros Hslot. unfold created. rewrite slot_set.
  destruct (context (contextDataOf d world)) as [old|].
  - rewrite slot_set. reflexivity.
  - destruct Hslot as [[? [=]]| ->]. reflexivity.
Qed.

Lemma slot_reset world c d :
  contextDataOf (reset world c d) world
  = if bool_decide (context (contextDataOf d world) = Some c)
    then mkContextData Pending None else contextDataOf d world.
Proof.
  unfold reset. destruct (bool_decide _); [apply slot_set | reflexivity].
Qed.

Lemma slot_reset_other world world' c d :
  world <> world' ->
  contextDataOf (reset world c d) world' = contextDataOf d world'.
Proof.
  intros Hother. unfold reset.
  destruct (bool_decide _); [apply slot_set_other; assumption | reflexivity].
Qed.

Lemma created_then_reset world c d :
  is_Some (context (contextDataOf d world))
    \/ contextPromise (contextDataOf d world) = Pending ->
  let d1 := created world c d in
  let d2 := reset utility c (reset main c d1) in
  _context d1 world = GotContext c
  /\ context (contextDataOf d1 world) = Some c
  /\ _context d2 world = StillPending
  /\ context (contextDataOf d2 world) = None.
Proof.
  intros Hslot d1 d2.
  pose proof (slot_created world c d Hslot) as Hd1. fold d1 in Hd1.
  assert (Hd2 : contextDataOf d2 world = mkContextData Pending None).
  { subst d2. destruct world.
    - rewrite slot_reset_other by discriminate.
      rewrite slot_reset, Hd1. cbn.
      rewrite bool_decide_eq_true_2 by reflexivity. reflexivity.
    - rewrite slot_reset, slot_reset_other by discriminate.
      rewrite Hd1. cbn.
      rewrite bool_decide_eq_true_2 by reflexivity. reflexivity. }
  unfold _context. rewrite Hd1, Hd2. repeat split.
Qed.

Section Object.
Variables (s : FrameManager) (o : nat) (root : Frame) (this : path) (n : Frame).
Hypothesis Hroot : _mainFrame s = Some root.
Hypothesis Hpath : findPath o root = Some this.
Hypothesis Hthis : lookupAt this root = Some n.

(** X20.  A context comes and goes.  On a frame that is not detached, whose
    slot for the world has a context or a promise that is still pending:
    once the context is created, awaiting the context of the world gives
    it (a context that was there before is told destroyed); once that
    context is destroyed, the slot is empty and its promise pending again,
    so awaiting the context waits for the next one. *)
Theorem context_round_trip world c :
  isDetached (fdata n) = false ->
  is_Some (context (contextDataOf (fdata n) world))
    \/ contextPromise (contextDataOf (fdata n) world) = Pending ->
  let s1 := after (OnContextCreated o world c) s in
  let s2 := after (OnContextDestroyed o c) s1 in
  handle (OnContextCreated o world c) s = (Ok tt, s1)
  /\ handle (OnContextDestroyed o c) s1 = (Ok tt, s2)
  /\ exists n1 n2,
       _mainFrame s1 ≫= lookupAt this = Some n1
       /\ _mainFrame s2 ≫= lookupAt this = Some n2
       /\ _context (fdata n1) world = GotContext c
       /\ context (contextDataOf (fdata n1) world) = Some c
       /\ _context (fdata n2) world = StillPending
       /\ context (contextDataOf (fdata n2) world) = None.
Proof.
  intros Hlive Hslot s1 s2.
  assert (Hcreated : handle (OnContextCreated o world c) s
    = (Ok tt,
       withTree (modifyAt this (onData (created world c)) root)
         (set_emitted
            (emitted s
             ++ match context (contextDataOf (fdata n) world) with
                | Some old => [ContextDestroyed old destroyedByNavigation]
                | None => []
                end) s))).
  { cbn [handle]. rewrite (onFrameObject_run s o root this Hroot Hpath).
    apply _contextCreated_run; assumption. }
  set (n1 := onData (created world c) n).
  assert (Hn1 : lookupAt this (modifyAt this (onData (created world c)) root) = Some n1)
    by (rewrite lookupAt_modifyAt, Hthis; reflexivity).
  assert (Hs1 : s1 = withTree (modifyAt this (onData (created world c)) root)
         (set_emitted
            (emitted s
             ++ match context (contextDataOf (fdata n) world) with
                | Some old => [ContextDestroyed old destroyedByNavigation]
                | None => []
                end) s))
    by (subst s1; unfold after; rewrite Hcreated; reflexivity).
  assert (Hlive1 : isDetached (fdata n1) = false).
  { subst n1. unfold onData, created. cbn [fdata].
    destruct (context (contextDataOf (fdata n) world)); exact Hlive. }
  assert (Hdestroyed : handle (OnContextDestroyed o c) s1
    = (Ok tt,
       withTree (modifyAt this (onData (fun d => reset utility c (reset main c d)))
                   (modifyAt this (onData (created world c)) root))
         (set_emitted (emitted s1 ++ [ContextDestroyed c destroyedByNavigation]) s1))).
  { cbn [handle]. rewrite Hs1.
    rewrite (onFrameObject_run _ o (modifyAt this (onData (created world c)) root) this);
      [|reflexivity|].
    - apply _contextDestroyed_run with (n := n1);
        [reflexivity | exact Hn1 | exact Hlive1].
    - rewrite findPath_modifyAt; [assumption|].
      intros d. unfold created. destruct (context (contextDataOf d world)); reflexivity. }
  split; [rewrite Hcreated, Hs1; reflexivity|].
  split; [subst s2; unfold after; rewrite Hdestroyed; reflexivity|].
  exists n1, (onData (fun d => reset utility c (reset main c d)) n1).
  split; [rewrite Hs1; exact Hn1|]. split.
  { subst s2. unfold after. rewrite Hdestroyed. cbn [snd withTree _mainFrame
      set_mainFrame mbind option_bind].
    rewrite lookupAt_modifyAt, Hn1. reflexivity. }
  subst n1. unfold onData. cbn [fdata].
  apply created_then_reset. assumption.
Qed.

Lemma oid_started r d : oid (started r d) = oid d.
Proof.
  unfold started, addInflight. cbv zeta.
  destruct (inflight r d); destruct (bool_decide _); reflexivity.
Qed.

(** X21.  A request that is not known to be in flight.  When it finishes, the
    manager is left as it is; so it is for a favicon request. *)
Theorem unknown_request_finishes_quietly r :
  requestFrame r = o ->
  _isFavicon r = true \/ inflight r (fdata n) = false ->
  handle (OnRequestFinished r) s = (Ok tt, s).
Proof.
  intros Hframe Hquiet. cbn [handle]. unfold reportRequestFinished.
  assert (Hfound : frameOf r s = (Ok (Some this), s)).
  { unfold frameOf, gets. rewrite Hroot, Hframe. cbn. rewrite Hpath. reflexivity. }
  rewrite (bind_run _ _ _ _ _ Hfound). unfold _inflightRequestFinished.
  destruct (_isFavicon r); [reflexivity|].
  destruct Hquiet as [[=]|Hquiet].
  rewrite (bind_run _ _ _ _ _ (frameAt_run this s root n Hroot Hthis)), Hquiet.
  reflexivity.
Qed.

(** X22.  [networkidle] can be taken back.  On a frame that has [networkidle]
    and no request in flight, a request (not one of a navigation) starts
    and finishes.  Both handlers return.  The frame still has [networkidle]
    in its set, but its own flag is reset and no timer is armed, since the
    timer is not started on a frame that has [networkidle]; the next
    recalculation over the whole tree takes [networkidle] from the frame. *)
Theorem networkidle_is_revocable r :
  requestFrame r = o ->
  _isFavicon r = false ->
  truthy (_documentId r) = false ->
  _inflightRequests (fdata n) = [] ->
  has networkidle (fdata n) = true ->
  let s1 := after (OnRequestStarted r) s in
  let s2 := after (OnRequestFinished r) s1 in
  handle (OnRequestStarted r) s = (Ok tt, s1)
  /\ handle (OnRequestFinished r) s1 = (Ok tt, s2)
  /\ exists T2 n2,
       _mainFrame s2 = Some T2
       /\ lookupAt this T2 = Some n2
       /\ _inflightRequests (fdata n2) = []
       /\ has networkidle (fdata n2) = true
       /\ _firedNetworkIdleSelf (fdata n2) = false
       /\ _networkIdleTimer (fdata n2) = NoTimer
       /\ exists n3,
            lookupAt this (_recalculateNetworkIdle None T2) = Some n3
            /\ has networkidle (fdata n3) = false.
Proof.
  intros Hframe Hfavicon Hplain Hnone Hidle s1 s2.
  set (T1 := modifyAt this (onData (started r)) root).
  assert (Hstarted : handle (OnRequestStarted r) s = (Ok tt, withTree T1 s)).
  { cbn [handle]. unfold requestStarted.
    assert (Hfound : frameOf r s = (Ok (Some this), s)).
    { unfold frameOf, gets. rewrite Hroot, Hframe. cbn. rewrite Hpath. reflexivity. }
    rewrite (bind_run _ _ _ _ _ Hfound), Hplain.
    rewrite <- (withTree_same s root Hroot) at 1.
    rewrite (bind_run _ _ _ _ _
               (_inflightRequestStarted_wt r this root s n Hfavicon Hthis)).
    reflexivity. }
  assert (Hs1 : s1 = withTree T1 s)
    by (subst s1; unfold after; rewrite Hstarted; reflexivity).
  assert (Hn1 : lookupAt this T1 = Some (onData (started r) n))
    by (unfold T1; rewrite lookupAt_modifyAt, Hthis; reflexivity).
  assert (Hd1 : started r (fdata n)
                = set_firedNetworkIdleSelf false
                    (set_networkIdleTimer NoTimer
                       (set_inflightRequests [r] (fdata n)))).
  { unfold started, addInflight, inflight. rewrite Hnone. reflexivity. }
  set (T2 := modifyAt this (onData (finished r)) T1).
  assert (Hfinished : handle (OnRequestFinished r) s1 = (Ok tt, withTree T2 s)).
  { cbn [handle]. unfold reportRequestFinished. rewrite Hs1.
    assert (Hfound : frameOf r (withTree T1 s) = (Ok (Some this), withTree T1 s)).
    { unfold frameOf, gets. cbn. rewrite Hframe. unfold T1.
      rewrite findPath_modifyAt by apply oid_started. rewrite Hpath. reflexivity. }
    rewrite (bind_run _ _ _ _ _ Hfound).
    apply (_inflightRequestFinished_wt r this T1 s _ Hfavicon Hn1).
    intros _. cbn [onData fdata]. rewrite Hd1. reflexivity. }
  split; [rewrite Hstarted, Hs1; reflexivity|].
  split; [subst s2; unfold after; rewrite Hfinished; reflexivity|].
  assert (Hd2 : finished r (started r (fdata n))
                = set_inflightRequests []
                    (set_firedNetworkIdleSelf false
                       (set_networkIdleTimer NoTimer
                          (set_inflightRequests [r] (fdata n))))).
  { rewrite Hd1. unfold finished, deleteInflight, inflight, sameRequest.
    cbn [_inflightRequests set_inflightRequests set_firedNetworkIdleSelf
         set_networkIdleTimer existsb List.filter].
    rewrite Nat.eqb_refl. cbn [orb negb length]. cbv zeta.
    cbn [_inflightRequests set_inflightRequests length].
    rewrite bool_decide_eq_true_2 by reflexivity.
    unfold arm.
    replace (has networkidle _) with true by (symmetry; exact Hidle).
    reflexivity. }
  exists T2, (onData (finished r) (onData (started r) n)).
  split; [subst s2; unfold after; rewrite Hfinished; reflexivity|].
  split; [unfold T2; rewrite lookupAt_modifyAt, Hn1; reflexivity|].
  cbn [onData fdata]. rewrite Hd2.
  do 4 (split; [first [reflexivity | exact Hidle]|]).
  eexists. split.
  - rewrite lookupAt_recalc. unfold T2. rewrite lookupAt_modifyAt, Hn1. reflexivity.
  - apply recalc_not_self. cbn [onData fdata]. rewrite Hd2. reflexivity.
Qed.

End Object.

(** *** Attaching frames *)

Section Attach.
Variables (s : FrameManager) (root : Frame).
Hypothesis Hroot : _mainFrame s = Some root.

(** X23.  The main frame keeps its identity.  A frame that is attached
    without a parent, or under a parent that the manager does not know,
    when there is a main frame already: the main frame object stays, with
    its child frames and all its fields but the id; the old id leaves the
    map and the new one leads to the main frame, whatever frame went by it
    before; nothing is emitted. *)
Theorem main_frame_keeps_its_identity frameId parentFrameId :
  truthy parentFrameId = false \/ _frames s !! default "" parentFrameId = None ->
  let s' := after (OnFrameAttached frameId parentFrameId) s in
  handle (OnFrameAttached frameId parentFrameId) s = (Ok tt, s')
  /\ _mainFrame s' = Some (onData (set_id frameId) root)
  /\ _frames s' !! frameId = Some (oid (fdata root))
  /\ (forall other, other <> frameId ->
        _frames s' !! other
        = if bool_decide (other = _id (fdata root)) then None
          else _frames s !! other)
  /\ emitted s' = emitted s
  /\ allocated s' = allocated s.
Proof.
  intros Hparent.
  assert (Hrun : handle (OnFrameAttached frameId parentFrameId) s
    = (Ok tt,
       set_frames (<[frameId := oid (fdata root)]>
                     (delete (_id (fdata root)) (_frames s)))
         (withTree (onData (set_id frameId) root) s))).
  { cbn [handle]. unfold frameAttached.
    assert (Hnone : (if truthy parentFrameId
                     then frameById (default "" parentFrameId) else mret None) s
                    = (Ok None, s)).
    { destruct (truthy parentFrameId); [|reflexivity].
      destruct Hparent as [[=]|Hunknown].
      unfold frameById, gets. rewrite Hunknown. reflexivity. }
    rewrite (bind_run _ _ _ _ _ Hnone).
    rewrite (bind_run _ _ _ _ _ (gets_run _ _)). rewrite Hroot.
    assert (Hrenamed :
      (modify (fun s => set_frames (delete (_id (fdata root)) (_frames s)) s);;
       updateFrame [] (set_id frameId)) s
      = (Ok tt, withTree (onData (set_id frameId) root)
                  (set_frames (delete (_id (fdata root)) (_frames s)) s))).
    { rewrite (bind_run _ _ _ _ _ (modify_run _ _)).
      apply (updateFrame_run [] _ root). exact Hroot. }
    rewrite (bind_run _ _ _ _ _ Hrenamed).
    rewrite (bind_run _ _ _ _ _ (frameAt_wt [] _ _ _ eq_refl)).
    reflexivity. }
  cbv zeta. unfold after. rewrite Hrun. cbn [snd].
  split; [reflexivity|]. split; [reflexivity|].
  split; [apply lookup_insert_eq|].
  split; [|split; reflexivity].
  intros other Hother. cbn [_frames set_frames].
  rewrite lookup_insert_ne by congruence.
  destruct (bool_decide_reflect (other = _id (fdata root))) as [->|Hold].
  - apply lookup_delete_eq.
  - apply lookup_delete_ne. congruence.
Qed.

Variables (parentFrameId : string) (o : nat) (parent : path) (n : Frame).
Hypothesis Hparent : _frames s !! parentFrameId = Some o.
Hypothesis Hpath : findPath o root = Some parent.
Hypothesis Hn : lookupAt parent root = Some n.

(** X24.  A frame is attached as the last child.  Under a parent that the
    manager knows, with an id that is free: a new frame object comes after
    the child frames of the parent, which stay as they are; it has [commit]
    fired, nothing in flight and, unless it is the dummy frame, its idle
    timer started; the id leads to it, and [FrameAttached] is emitted. *)
Theorem attached_frame_is_the_last_child frameId :
  parentFrameId <> "" ->
  _frames s !! frameId = None ->
  let e := OnFrameAttached frameId (Some parentFrameId) in
  let this := parent ++ [length (_childFrames n)] in
  let d :=
    if bool_decide (frameId = kDummyFrameId)
    then newFrameData (allocated s) frameId
    else set_networkIdleTimer TimerArmed (newFrameData (allocated s) frameId) in
  exists T,
    handle e s
    = (Ok tt,
       set_emitted (emitted s ++ [FrameAttached (allocated s)])
         (set_frames (<[frameId := allocated s]> (_frames s))
            (withTree T (set_allocated (S (allocated s)) s))))
    /\ lookupAt this T = Some (mkFrame d [])
    /\ forall i, i < length (_childFrames n) ->
         lookupAt (parent ++ [i]) T = lookupAt (parent ++ [i]) root.
Proof.
  intros Hgiven Hfree e this d. subst e. cbn [handle]. unfold frameAttached.
  assert (Htruthy : truthy (Some parentFrameId) = true)
    by (destruct parentFrameId; [contradiction | reflexivity]).
  rewrite Htruthy. cbn [default].
  rewrite (bind_run _ _ _ _ _
             (frameById_run s parentFrameId o root parent Hparent Hroot Hpath)).
  rewrite (bind_run _ _ _ _ _ (gets_run _ _)). rewrite Hfree.
  rewrite bool_decide_eq_false_2 by (intros [? [=]]). cbn [negb assert].
  rewrite (bind_run _ _ _ tt _ eq_refl).
  set (leaf := mkFrame (newFrameData (allocated s) frameId) []).
  set (T1 := modifyAt parent
               (fun p => mkFrame (fdata p) (_childFrames p ++ [leaf])) root).
  assert (Hchild : forall i,
            lookupAt (parent ++ [i]) T1
            = (_childFrames n ++ [leaf]) !! i).
  { intros i. unfold T1. rewrite lookupAt_app, lookupAt_modifyAt, Hn.
    cbn [fmap option_fmap option_map mbind option_bind].
    change (lookupAt [i] (mkFrame (fdata n) (_childFrames n ++ [leaf])))
      with (match (_childFrames n ++ [leaf]) !! i with
            | Some child => Some child
            | None => None
            end).
    destruct ((_childFrames n ++ [leaf]) !! i); reflexivity. }
  assert (Hleaf : lookupAt this T1 = Some leaf).
  { unfold this. rewrite Hchild. apply list_lookup_middle. reflexivity. }
  assert (Hbefore : forall i, i < length (_childFrames n) ->
            lookupAt (parent ++ [i]) T1 = lookupAt (parent ++ [i]) root).
  { intros i Hi. rewrite Hchild, lookup_app_l by exact Hi.
    rewrite lookupAt_app, Hn. cbn [mbind option_bind].
    change (lookupAt [i] n)
      with (match _childFrames n !! i with
            | Some child => Some child
            | None => None
            end).
    destruct (_childFrames n !! i); reflexivity. }
  set (s0 := set_allocated (S (allocated s)) s).
  assert (Hroot0 : _mainFrame s0 = Some root) by exact Hroot.
  unfold newFrame.
  assert (Hnew : exists T,
    (o ← gets allocated;
     modify (set_allocated (S o));;
     this ← (siblings ← subtreeAt parent;
             modify (fun s => set_mainFrame
               (modifyAt parent
                  (fun p => mkFrame (fdata p)
                              (_childFrames p
                               ++ [mkFrame (newFrameData o frameId) []]))
                  <$> _mainFrame s) s);;
             mret (parent ++ [length (_childFrames siblings)]));
     (if bool_decide (frameId = kDummyFrameId) then mret tt
      else _startNetworkIdleTimer this);;
     mret this) s
    = (Ok this, withTree T s0)
    /\ lookupAt this T = Some (mkFrame d [])
    /\ forall i, i < length (_childFrames n) ->
         lookupAt (parent ++ [i]) T = lookupAt (parent ++ [i]) root).
  { rewrite (bind_run _ _ _ _ _ (gets_run _ _)).
    rewrite (bind_run _ _ _ _ _ (modify_run _ _)).
    assert (Hplaced' :
      (siblings ← subtreeAt parent;
       modify (fun s => set_mainFrame
         (modifyAt parent (fun p => mkFrame (fdata p) (_childFrames p ++ [leaf]))
            <$> _mainFrame s) s);;
       mret (parent ++ [length (_childFrames siblings)])) s0
      = (Ok this, withTree T1 s0)).
    { rewrite (bind_run _ _ _ _ _ (subtreeAt_run parent s0 root n Hroot0 Hn)).
      rewrite (bind_run _ _ _ _ _ (modify_run _ _)).
      unfold mret, M_ret, withTree. rewrite Hroot0. reflexivity. }
    fold leaf. fold s0.
    rewrite (bind_run _ _ _ _ _ Hplaced').
    subst d. destruct (bool_decide (frameId = kDummyFrameId)).
    - exists T1. rewrite (bind_run _ _ _ tt _ eq_refl).
      split; [reflexivity|]. split; [exact Hleaf | exact Hbefore].
    - exists (modifyAt this (onData arm) T1).
      rewrite (bind_run _ _ _ _ _
                 (_startNetworkIdleTimer_wt this T1 s0 leaf Hleaf eq_refl)).
      split; [reflexivity|]. split.
      + rewrite lookupAt_modifyAt, Hleaf. reflexivity.
      + intros i Hi. unfold this.
        rewrite (lookupAt_modifyAt_off parent (length (_childFrames n)) i [])
          by lia.
        apply Hbefore. exact Hi. }
  destruct Hnew as (T & Hnew & Hthis' & Hsiblings).
  exists T. rewrite (bind_run _ _ _ _ _ Hnew).
  rewrite (bind_run _ _ _ _ _ (frameAt_wt _ _ _ _ Hthis')).
  rewrite (bind_run _ _ _ _ _ (modify_run _ _)).
  split; [|split; assumption].
  subst d. cbn [fdata]. destruct (bool_decide (frameId = kDummyFrameId)); reflexivity.
Qed.

End Attach.

End ManagerFacts.

(** ** The frames that the manager knows by id *)

Module ManagerRuns.
Import Errors Types Frames Samples ManagerFacts.

Definition noRedirect (documentId : string) : bool := false.

(** a request of [c] that is no navigation *)
Definition imageOfC : Request := mkRequest 9 None false 1.

Example family_ids :
  map_to_list (_frames family) = [("g", 2); ("c", 1); ("m", 0); ("d", 3)].
Proof. vm_compute. reflexivity. Qed.

Lemma unknown_frame_is_ignored_witness :
  _frames family !! "x" = None
  /\ handle (OnFrameDetached "x") family = (Ok tt, family)
  /\ handle (OnFrameLifecycleEvent "x" regLoad) family = (Ok tt, family).
Proof.
  assert (Hunknown : _frames family !! "x" = None) by (vm_compute; reflexivity).
  destruct (unknown_frame_is_ignored family "x" Hunknown)
    as (Hdetached & Hlifecycle & _).
  split; [exact Hunknown|]. split; [exact Hdetached | exact (Hlifecycle regLoad)].
Defined.

Lemma aborted_navigation_drops_its_own_pending_witness :
  _frames navigating !! "c" = Some 1
  /\ _mainFrame navigating = Some navigatingTree
  /\ findPath 1 navigatingTree = Some [0]
  /\ lookupAt [0] navigatingTree = Some navigatingC
  /\ _pendingDocument (fdata navigatingC)
     = Some (mkDocumentInfo (Some "docA") (Some requestForA))
  /\ handle (OnFrameAbortedNavigation noRedirect "c" "net::ERR_ABORTED" (Some "docB"))
       navigating
     = (Ok tt, navigating).
Proof.
  assert (H1 : _frames navigating !! "c" = Some 1) by (vm_compute; reflexivity).
  assert (H2 : _mainFrame navigating = Some navigatingTree) by reflexivity.
  assert (H3 : findPath 1 navigatingTree = Some [0]) by reflexivity.
  assert (H4 : lookupAt [0] navigatingTree = Some navigatingC) by reflexivity.
  assert (H5 : _pendingDocument (fdata navigatingC)
               = Some (mkDocumentInfo (Some "docA") (Some requestForA)))
    by reflexivity.
  destruct (aborted_navigation_drops_its_own_pending navigating "c" 1
              navigatingTree [0] navigatingC H1 H2 H3 H4
              noRedirect "net::ERR_ABORTED" (Some "docB")) as (_ & Hother & _).
  do 5 (split; [assumption|]).
  apply (Hother _ "docB" H5 eq_refl). discriminate.
Defined.

Lemma same_document_commit_keeps_the_document_witness :
  _frames navigating !! "c" = Some 1
  /\ _mainFrame navigating = Some navigatingTree
  /\ findPath 1 navigatingTree = Some [0]
  /\ lookupAt [0] navigatingTree = Some navigatingC
  /\ (_mainFrame (after (OnFrameCommittedSameDocumentNavigation "c" "http://a.test/#top")
                    navigating)
      ≫= lookupAt [0])
     = Some (onData (set_url "http://a.test/#top") navigatingC).
Proof.
  assert (H1 : _frames navigating !! "c" = Some 1) by (vm_compute; reflexivity).
  assert (H2 : _mainFrame navigating = Some navigatingTree) by reflexivity.
  assert (H3 : findPath 1 navigatingTree = Some [0]) by reflexivity.
  assert (H4 : lookupAt [0] navigatingTree = Some navigatingC) by reflexivity.
  destruct (same_document_commit_keeps_the_document navigating "c" 1
              navigatingTree [0] navigatingC H1 H2 H3 H4 "http://a.test/#top")
    as (Hrun & _).
  do 4 (split; [assumption|]).
  unfold after. rewrite Hrun. reflexivity.
Defined.

Lemma context_round_trip_witness :
  _mainFrame family = Some familyTree
  /\ findPath 1 familyTree = Some [0]
  /\ lookupAt [0] familyTree = Some familyC
  /\ isDetached (fdata familyC) = false
  /\ context (contextDataOf (fdata familyC) main) = Some 41
  /\ handle (OnContextCreated 1 main 42) family
     = (Ok tt, after (OnContextCreated 1 main 42) family)
  /\ handle (OnContextDestroyed 1 42) (after (OnContextCreated 1 main 42) family)
     = (Ok tt,
        after (OnContextDestroyed 1 42) (after (OnContextCreated 1 main 42) family)).
Proof.
  assert (H2 : _mainFrame family = Some familyTree) by reflexivity.
  assert (H3 : findPath 1 familyTree = Some [0]) by reflexivity.
  assert (H4 : lookupAt [0] familyTree = Some familyC) by reflexivity.
  assert (H5 : isDetached (fdata familyC) = false) by reflexivity.
  assert (H6 : context (contextDataOf (fdata familyC) main) = Some 41)
    by reflexivity.
  destruct (context_round_trip family 1 familyTree [0] familyC H2 H3 H4 main 42 H5)
    as (Hcreated & Hdestroyed & _).
  { left. rewrite H6. eexists. reflexivity. }
  do 5 (split; [assumption|]). split; assumption.
Defined.

Lemma unknown_request_finishes_quietly_witness :
  _mainFrame family = Some familyTree
  /\ findPath 1 familyTree = Some [0]
  /\ lookupAt [0] familyTree = Some familyC
  /\ inflight imageOfC (fdata familyC) = false
  /\ handle (OnRequestFinished imageOfC) family = (Ok tt, family).
Proof.
  assert (H2 : _mainFrame family = Some familyTree) by reflexivity.
  assert (H3 : findPath 1 familyTree = Some [0]) by reflexivity.
  assert (H4 : lookupAt [0] familyTree = Some familyC) by reflexivity.
  assert (H5 : inflight imageOfC (fdata familyC) = false) by reflexivity.
  do 4 (split; [assumption|]).
  exact (unknown_request_finishes_quietly family 1 familyTree [0] familyC
           H2 H3 H4 imageOfC eq_refl (or_intror H5)).
Defined.

Lemma networkidle_is_revocable_witness :
  _mainFrame family = Some familyTree
  /\ findPath 1 familyTree = Some [0]
  /\ lookupAt [0] familyTree = Some familyC
  /\ _inflightRequests (fdata familyC) = []
  /\ has networkidle (fdata familyC) = true
  /\ handle (OnRequestStarted imageOfC) family
     = (Ok tt, after (OnRequestStarted imageOfC) family)
  /\ handle (OnRequestFinished imageOfC) (after (OnRequestStarted imageOfC) family)
     = (Ok tt,
        after (OnRequestFinished imageOfC) (after (OnRequestStarted imageOfC) family)).
Proof.
  assert (H2 : _mainFrame family = Some familyTree) by reflexivity.
  assert (H3 : findPath 1 familyTree = Some [0]) by reflexivity.
  assert (H4 : lookupAt [0] familyTree = Some familyC) by reflexivity.
  assert (H5 : _inflightRequests (fdata familyC) = []) by reflexivity.
  assert (H6 : has networkidle (fdata familyC) = true) by reflexivity.
  destruct (networkidle_is_revocable family 1 familyTree [0] familyC H2 H3 H4
              imageOfC eq_refl eq_refl eq_refl H5 H6) as (Hstarted & Hfinished & _).
  do 5 (split; [assumption|]). split; assumption.
Defined.


(** the main frame [m] comes back under the id [n] *)
Lemma main_frame_keeps_its_identity_witness :
  _mainFrame family = Some familyTree
  /\ truthy None = false
  /\ _mainFrame (after (OnFrameAttached "n" None) family)
     = Some (onData (set_id "n") familyTree)
  /\ _frames (after (OnFrameAttached "n" None) family) !! "n" = Some 0
  /\ _frames (after (OnFrameAttached "n" None) family) !! "m" = None.
Proof.
  assert (H1 : _mainFrame family = Some familyTree) by reflexivity.
  assert (H2 : truthy None = false) by reflexivity.
  destruct (main_frame_keeps_its_identity family familyTree H1 "n" None
              (or_introl H2)) as (_ & Hmain & Hnew & Hothers & _).
  split; [exact H1|]. split; [exact H2|]. split; [exact Hmain|].
  split; [exact Hnew|]. exact (Hothers "m" ltac:(discriminate)).
Defined.

(** a third child of [m] *)
Lemma attached_frame_is_the_last_child_witness :
  _mainFrame family = Some familyTree
  /\ _frames family !! "m" = Some 0
  /\ findPath 0 familyTree = Some []
  /\ lookupAt [] familyTree = Some familyTree
  /\ "m" <> ""
  /\ _frames family !! "e" = None
  /\ exists T,
       _mainFrame (after (OnFrameAttached "e" (Some "m")) family) = Some T
       /\ lookupAt [2] T
          = Some (mkFrame (set_networkIdleTimer TimerArmed (newFrameData 4 "e")) [])
       /\ lookupAt [0] T = Some familyC.
Proof.
  assert (H1 : _mainFrame family = Some familyTree) by reflexivity.
  assert (H2 : _frames family !! "m" = Some 0) by (vm_compute; reflexivity).
  assert (H3 : findPath 0 familyTree = Some []) by reflexivity.
  assert (H4 : lookupAt [] familyTree = Some familyTree) by reflexivity.
  assert (H5 : "m" <> "") by discriminate.
  assert (H6 : _frames family !! "e" = None) by (vm_compute; reflexivity).
  destruct (attached_frame_is_the_last_child family familyTree H1 "m" 0 []
              familyTree H2 H3 H4 "e" H5 H6) as (T & Hrun & Hlast & Hbefore).
  do 6 (split; [assumption|]).
  exists T. unfold after. rewrite Hrun. split; [reflexivity|].
  split; [exact Hlast|]. exact (Hbefore 0 ltac:(cbn; lia)).
Defined.

End ManagerRuns.

Module IdentityFacts.
Import Errors Types Frames TreeFacts IdleFacts RunFacts DetachFacts.

#[local] Arguments modifyAt : simpl never.
#[local] Arguments lookupAt : simpl never.
#[local] Arguments removeAt : simpl never.
#[local] Arguments _recalculateNetworkIdle : simpl never.
#[local] Arguments has : simpl never.

(** what identifies a frame: the object and the id it goes by *)
Definition key (d : FrameData) : nat * string := (oid d, _id d).

Definition keys (t : Frame) : list (nat * string) := map key (postorder t).

Definition keysOf (s : FrameManager) : option (list (nat * string)) :=
  keys <$> _mainFrame s.

Lemma keys_node d children :
  keys (mkFrame d children) = flat_map keys children ++ [key d].
Proof.
  unfold keys. cbn [postorder fdata _childFrames].
  rewrite map_app. f_equal. induction children as [|c rest IH]; cbn; [reflexivity|].
  rewrite map_app, IH. reflexivity.
Qed.

Lemma flat_map_alter {A B} (f : A -> list B) g i l :
  (forall x, l !! i = Some x -> f (g x) = f x) ->
  flat_map f (alter g i l) = flat_map f l.
Proof.
  revert i. induction l as [|x l IH]; intros [|i] Hg; cbn; try reflexivity.
  - rewrite Hg; reflexivity.
  - rewrite IH; [reflexivity|]. intros y Hy. apply Hg. exact Hy.
Qed.

Lemma keys_modifyAt p h t :
  (forall f, keys (h f) = keys f) -> keys (modifyAt p h t) = keys t.
Proof.
  intros Hh. revert t. induction p as [|i p IH]; intros [d children]; [apply Hh|].
  change (modifyAt (i :: p) h (mkFrame d children))
    with (mkFrame d (alter (modifyAt p h) i children)).
  rewrite !keys_node. f_equal. apply flat_map_alter. intros c _. apply IH.
Qed.

Lemma keys_onData g f :
  key (g (fdata f)) = key (fdata f) -> keys (onData g f) = keys f.
Proof.
  destruct f as [d children]. unfold onData. cbn [fdata _childFrames]. intros Hg.
  rewrite !keys_node, Hg. reflexivity.
Qed.

Lemma key_settle allowed idle d : key (settle allowed idle d) = key d.
Proof. destruct (settle_fired allowed idle d) as [l ->]. reflexivity. Qed.

Lemma keys_recalc allowed t : keys (_recalculateNetworkIdle allowed t) = keys t.
Proof.
  induction t as [d children IH] using Frame_ind.
  rewrite recalc_node. cbv zeta. rewrite !keys_node, key_settle. f_equal.
  induction children as [|c rest IHrest]; cbn; [reflexivity|].
  apply Forall_cons in IH as [Hc Hrest]. rewrite Hc, IHrest by assumption.
  reflexivity.
Qed.

(** a computation that leaves the identities alone: the keys of the tree,
    the map of ids and the counter of objects *)
Definition stable {A} (m : M A) : Prop :=
  forall s,
    keysOf (snd (m s)) = keysOf s
    /\ _frames (snd (m s)) = _frames s
    /\ allocated (snd (m s)) = allocated s.

Lemma stable_ret {A} (a : A) : stable (mret a).
Proof. intros s. repeat split. Qed.

Lemma stable_throw {A} e : stable (@throw A e).
Proof. intros s. repeat split. Qed.

Lemma stable_gets {A} (proj : FrameManager -> A) : stable (gets proj).
Proof. intros s. repeat split. Qed.

Lemma stable_assert b : stable (assert b).
Proof. destruct b; intros s; repeat split. Qed.

Lemma stable_bind {A B} (m : M A) (k : A -> M B) :
  stable m -> (forall a, stable (k a)) -> stable (m ≫= k).
Proof.
  intros Hm Hk s. specialize (Hm s). unfold mbind, M_bind.
  destruct (m s) as [[a|e] s']; cbn in *; [|assumption].
  destruct (Hk a s') as (Hkeys & Hframes & Hnext).
  destruct Hm as (Hkeys' & Hframes' & Hnext').
  repeat split; congruence.
Qed.

Lemma stable_aside g :
  (forall s, _mainFrame (g s) = _mainFrame s
             /\ _frames (g s) = _frames s /\ allocated (g s) = allocated s) ->
  stable (modify g).
Proof.
  intros Hg s. destruct (Hg s) as (Hmain & Hframes & Hnext).
  unfold keysOf. cbn. rewrite Hmain. repeat split; assumption.
Qed.

Lemma stable_emit e : stable (emit e).
Proof. apply stable_aside. intros s. repeat split. Qed.

Lemma stable_frameAt this : stable (frameAt this).
Proof.
  intros s. unfold frameAt. destruct (_mainFrame s ≫= lookupAt this); repeat split.
Qed.

Lemma stable_subtreeAt this : stable (subtreeAt this).
Proof.
  intros s. unfold subtreeAt. destruct (_mainFrame s ≫= lookupAt this); repeat split.
Qed.

Lemma stable_tree (g : Frame -> Frame) :
  (forall t, keys (g t) = keys t) ->
  stable (modify (fun s => set_mainFrame (g <$> _mainFrame s) s)).
Proof.
  intros Hg s. unfold keysOf.
  destruct s as [frames [t|] barriers closed next out gone]; cbn;
    rewrite ?Hg; repeat split.
Qed.

Lemma stable_updateFrame this g :
  (forall d, key (g d) = key d) -> stable (updateFrame this g).
Proof.
  intros Hg. apply stable_tree. intros t. apply keys_modifyAt.
  intros f. apply keys_onData, Hg.
Qed.

Lemma stable_recalculate frame : stable (recalculateFromMainFrame frame).
Proof. apply stable_tree. intros t. apply keys_recalc. Qed.

Lemma stable_forEach {A} (xs : list A) body :
  (forall x, stable (body x)) -> stable (forEach xs body).
Proof.
  intros Hbody. induction xs as [|x rest IH]; cbn.
  - apply stable_ret.
  - apply stable_bind; auto.
Qed.

Create HintDb stable.

#[local] Hint Resolve stable_ret stable_throw stable_gets stable_assert stable_emit
  stable_frameAt stable_subtreeAt stable_recalculate : stable.

Lemma key_addLifecycle e d : key (addLifecycle e d) = key d.
Proof. unfold addLifecycle. destruct (has e d); reflexivity. Qed.

Lemma key_addInflight r d : key (addInflight r d) = key d.
Proof. unfold addInflight. destruct (inflight r d); reflexivity. Qed.

Ltac stable_step :=
  match goal with
  | |- stable (_ ≫= _) => apply stable_bind; [|intros ?]
  | |- stable (if ?b then _ else _) => destruct b
  | |- stable (match ?x with _ => _ end) => destruct x
  | |- stable (updateFrame _ (addLifecycle _)) =>
      apply stable_updateFrame; intros ?; apply key_addLifecycle
  | |- stable (updateFrame _ (addInflight _)) =>
      apply stable_updateFrame; intros ?; apply key_addInflight
  | |- stable (updateFrame _ _) =>
      apply stable_updateFrame; intros ?; reflexivity
  | |- stable (modify _) => apply stable_aside; intros ?; repeat split
  | |- stable (forEach _ _) => apply stable_forEach; intros ?
  | |- stable _ => solve [auto with stable]
  end.

Ltac stable_all := repeat stable_step.

Lemma stable__stopNetworkIdleTimer this : stable (_stopNetworkIdleTimer this).
Proof. unfold _stopNetworkIdleTimer. stable_all. Qed.

Lemma stable__startNetworkIdleTimer this : stable (_startNetworkIdleTimer this).
Proof. unfold _startNetworkIdleTimer. stable_all. Qed.

Lemma stable_networkIdleTimerFired this : stable (networkIdleTimerFired this).
Proof. unfold networkIdleTimerFired. stable_all. Qed.

Lemma stable__onLifecycleEvent this event : stable (_onLifecycleEvent this event).
Proof. unfold _onLifecycleEvent. stable_all. Qed.

Lemma stable_setPendingDocument this documentInfo :
  stable (setPendingDocument this documentInfo).
Proof. unfold setPendingDocument. stable_all. Qed.

#[local] Hint Resolve stable__stopNetworkIdleTimer stable__startNetworkIdleTimer
  stable_networkIdleTimerFired stable__onLifecycleEvent stable_setPendingDocument
  : stable.

Lemma stable__onClearLifecycle this : stable (_onClearLifecycle this).
Proof. unfold _onClearLifecycle. stable_all. Qed.

Lemma stable__fireInternalFrameNavigation this event :
  stable (_fireInternalFrameNavigation this event).
Proof. unfold _fireInternalFrameNavigation. stable_all. Qed.

Lemma stable_commitDocument this documentId : stable (commitDocument this documentId).
Proof. unfold commitDocument. stable_all. Qed.

Lemma stable__inflightRequestStarted r this : stable (_inflightRequestStarted r this).
Proof. unfold _inflightRequestStarted. stable_all. Qed.

Lemma stable__inflightRequestFinished r this : stable (_inflightRequestFinished r this).
Proof. unfold _inflightRequestFinished. stable_all. Qed.

#[local] Hint Resolve stable__onClearLifecycle stable__fireInternalFrameNavigation
  stable_commitDocument stable__inflightRequestStarted
  stable__inflightRequestFinished : stable.

Lemma stable_frameAbortedNavigation redirected frameId errorText documentId :
  stable (frameAbortedNavigation redirected frameId errorText documentId).
Proof. unfold frameAbortedNavigation, frameById. stable_all. Qed.

#[local] Hint Resolve stable_frameAbortedNavigation : stable.

(** the handlers that neither attach nor detach a frame *)
Definition quiet (e : Event) : bool :=
  match e with
  | CreateDummyMainFrameIfNeeded | OnFrameAttached _ _ | OnFrameDetached _
  | OnFrameCommittedNewDocumentNavigation _ _ _ _ _ => false
  | _ => true
  end.

(** what is done to a frame object that has left the tree leaves the
    identities alone *)
Lemma stable_gone_frameAt o : stable (Gone.frameAt o).
Proof.
  intros s. unfold Gone.frameAt. destruct (List.find _ _); repeat split.
Qed.

Lemma stable_gone_updateFrame o g : stable (Gone.updateFrame o g).
Proof. apply stable_aside. intros s. repeat split. Qed.

#[local] Hint Resolve stable_gone_frameAt stable_gone_updateFrame : stable.

Lemma stable_gone__startNetworkIdleTimer o : stable (Gone._startNetworkIdleTimer o).
Proof. unfold Gone._startNetworkIdleTimer. stable_all. Qed.

Lemma stable_gone__onLifecycleEvent o event : stable (Gone._onLifecycleEvent o event).
Proof. unfold Gone._onLifecycleEvent. stable_all. Qed.

#[local] Hint Resolve stable_gone__startNetworkIdleTimer
  stable_gone__onLifecycleEvent : stable.

Lemma stable_handle e : quiet e = true -> stable (handle e).
Proof.
  destruct e; try discriminate; intros _; cbn [handle];
    unfold frameRequestedNavigation, frameCommittedSameDocumentNavigation,
      frameLifecycleEvent, requestStarted, reportRequestFinished, requestFailed,
      abortPending, dispose,
      onFrameObject, _contextCreated, _contextDestroyed, frameById, frameOf,
      Gone.networkIdleTimerFired, Gone._onClearLifecycle,
      Gone._contextCreated, Gone._contextDestroyed, Gone._inflightRequestStarted,
      Gone._inflightRequestFinished, Gone.setPendingDocument,
      Gone._stopNetworkIdleTimer;
    stable_all.
Qed.

(** *** The keys of a tree through attaching and detaching *)

Lemma flat_map_alter_perm {A B} (f : A -> list B) g i l x a b :
  l !! i = Some x ->
  f x ++ a ≡ₚ f (g x) ++ b ->
  flat_map f l ++ a ≡ₚ flat_map f (alter g i l) ++ b.
Proof.
  revert i. induction l as [|y l IH]; intros [|i]; cbn; try discriminate.
  - intros [= ->] Hx. rewrite <- !app_assoc.
    rewrite (Permutation_app_comm (flat_map f l) a).
    rewrite (Permutation_app_comm (flat_map f l) b).
    rewrite !app_assoc. rewrite Hx. reflexivity.
  - intros Hi Hx. rewrite <- !app_assoc. apply Permutation_app_head. auto.
Qed.

Lemma flat_map_delete_perm {A B} (f : A -> list B) i l x :
  l !! i = Some x -> flat_map f l ≡ₚ flat_map f (delete i l) ++ f x.
Proof.
  revert i. induction l as [|y l IH]; intros [|i]; cbn; try discriminate.
  - intros [= ->]. apply Permutation_app_comm.
  - intros Hi. rewrite <- app_assoc. apply Permutation_app_head. auto.
Qed.

Lemma keys_modifyAt_perm p h t n a b :
  lookupAt p t = Some n ->
  keys n ++ a ≡ₚ keys (h n) ++ b ->
  keys t ++ a ≡ₚ keys (modifyAt p h t) ++ b.
Proof.
  revert t. induction p as [|i p IH]; intros [d children].
  - intros [= <-]. auto.
  - change (lookupAt (i :: p) (mkFrame d children))
      with (match children !! i with
            | Some child => lookupAt p child
            | None => None
            end).
    change (modifyAt (i :: p) h (mkFrame d children))
      with (mkFrame d (alter (modifyAt p h) i children)).
    destruct (children !! i) as [child|] eqn:Hi; [|discriminate].
    intros Hn Hperm. rewrite !keys_node, <- !app_assoc.
    rewrite (Permutation_app_comm [key d] a), (Permutation_app_comm [key d] b).
    rewrite !app_assoc. apply Permutation_app_tail.
    apply (flat_map_alter_perm keys _ i children child); auto.
Qed.

(** the children of a frame leave *)
Lemma keys_emptied this root n :
  lookupAt this root = Some n ->
  keys root
  ≡ₚ keys (modifyAt this emptied root) ++ flat_map keys (_childFrames n).
Proof.
  intros Hn. rewrite <- (app_nil_r (keys root)).
  apply (keys_modifyAt_perm this emptied root n); [assumption|].
  destruct n as [d children]. unfold emptied. cbn [fdata _childFrames].
  rewrite !keys_node, app_nil_r. cbn. apply Permutation_app_comm.
Qed.

(** a frame leaves with its subtree *)
Lemma keys_removeAt this i root frame :
  lookupAt (this ++ [i]) root = Some frame ->
  keys root ≡ₚ keys (removeAt (this ++ [i]) root) ++ keys frame.
Proof.
  rewrite lookupAt_app, removeAt_snoc.
  destruct (lookupAt this root) as [parent|] eqn:Hparent; [|discriminate].
  cbn [mbind option_bind].
  change (lookupAt [i] parent)
    with (match _childFrames parent !! i with
          | Some child => Some child
          | None => None
          end).
  destruct (_childFrames parent !! i) as [child|] eqn:Hi; [|discriminate].
  intros [= ->]. rewrite <- (app_nil_r (keys root)).
  apply (keys_modifyAt_perm this _ root parent); [assumption|].
  destruct parent as [d children]. cbn [fdata _childFrames] in *.
  rewrite !keys_node, app_nil_r, <- app_assoc.
  rewrite (Permutation_app_comm [key d] (keys frame)), app_assoc.
  apply Permutation_app_tail. apply flat_map_delete_perm. assumption.
Qed.

(** a frame arrives as the last child *)
Lemma keys_appended parent root n leaf :
  lookupAt parent root = Some n ->
  keys (modifyAt parent
          (fun p => mkFrame (fdata p) (_childFrames p ++ [leaf])) root)
  ≡ₚ keys root ++ keys leaf.
Proof.
  intros Hn. symmetry.
  rewrite <- (app_nil_r (keys (modifyAt _ _ _))).
  apply (keys_modifyAt_perm parent _ root n); [assumption|].
  destruct n as [d children]. cbn [fdata _childFrames].
  rewrite !keys_node, flat_map_app, app_nil_r, <- !app_assoc. cbn [flat_map].
  rewrite app_nil_r. apply Permutation_app_head, Permutation_app_comm.
Qed.

(** *** The invariant *)

(** the objects of the tree are distinct and older than the counter, and
    every entry of the map of ids is the key of a frame of the tree *)
Definition pre (ks : list (nat * string)) (frames : gmap string nat) (next : nat)
    : Prop :=
  NoDup (map fst ks)
  /\ (forall o k, (o, k) ∈ ks -> o < next)
  /\ (forall k o, frames !! k = Some o -> (o, k) ∈ ks).

Definition known (s : FrameManager) : Prop :=
  match keysOf s with
  | Some ks => pre ks (_frames s) (allocated s)
  | None => _frames s = ∅
  end.

Lemma known_intro s ks :
  keysOf s = Some ks -> pre ks (_frames s) (allocated s) -> known s.
Proof. unfold known. intros ->. auto. Qed.

Lemma known_stable {A} (m : M A) s : stable m -> known s -> known (snd (m s)).
Proof.
  intros Hm. destruct (Hm s) as (Hkeys & Hframes & Hnext).
  unfold known. rewrite Hkeys, Hframes, Hnext. auto.
Qed.

Lemma pre_perm ks ks' frames next :
  ks ≡ₚ ks' -> pre ks frames next -> pre ks' frames next.
Proof.
  intros Hperm (Hdistinct & Hbound & Hentries). split; [|split].
  - rewrite <- Hperm. assumption.
  - intros o k. rewrite <- Hperm. apply Hbound.
  - intros k o Hk. rewrite <- Hperm. auto.
Qed.

Lemma forget_Some frames gone k o :
  forget frames gone !! k = Some o ->
  frames !! k = Some o /\ k ∉ map _id gone.
Proof.
  revert frames. induction gone as [|d gone IH]; intros frames; cbn.
  - intros Hk. split; [assumption | apply not_elem_of_nil].
  - intros Hk. apply IH in Hk as [Hk Hgone].
    rewrite lookup_delete in Hk. case_decide; [discriminate|].
    split; [assumption|]. apply not_elem_of_cons. split; [congruence | assumption].
Qed.

(** frames leave: their keys leave the tree, their ids leave the map *)
Lemma pre_forget ks gone frames next :
  pre (ks ++ map key gone) frames next -> pre ks (forget frames gone) next.
Proof.
  intros (Hdistinct & Hbound & Hentries). split; [|split].
  - rewrite map_app in Hdistinct. apply NoDup_app in Hdistinct. tauto.
  - intros o k Hin. apply (Hbound o k). apply elem_of_app. left. assumption.
  - intros k o Hk. apply forget_Some in Hk as [Hk Hgone].
    apply Hentries, elem_of_app in Hk as [Hk|Hk]; [assumption|].
    exfalso. apply Hgone. apply list_elem_of_fmap in Hk as (d & Hd & Hin).
    apply list_elem_of_fmap. exists d. split; [|assumption].
    unfold key in Hd. congruence.
Qed.

Lemma keysOf_without gone T s : keysOf (without gone T s) = Some (keys T).
Proof. reflexivity. Qed.

Lemma known_without gone T s ks :
  keysOf s = Some ks ->
  ks ≡ₚ keys T ++ map key gone ->
  known s -> known (without gone T s).
Proof.
  intros Hks Hperm. unfold known. rewrite Hks, keysOf_without.
  intros Hpre. apply (pre_forget (keys T) gone), (pre_perm ks); assumption.
Qed.

(** the frame that [frameById] answers is in the tree *)
Lemma frameById_cases s frameId :
  frameById frameId s = (Ok None, s)
  \/ exists o root this n,
       _frames s !! frameId = Some o /\ _mainFrame s = Some root
       /\ findPath o root = Some this /\ lookupAt this root = Some n
       /\ oid (fdata n) = o
       /\ frameById frameId s = (Ok (Some this), s).
Proof.
  unfold frameById, gets.
  destruct (_frames s !! frameId) as [o|] eqn:Hid; [|left; reflexivity].
  destruct (_mainFrame s) as [root|] eqn:Hroot; [|left; reflexivity].
  cbn. destruct (findPath o root) as [this|] eqn:Hpath; [|left; reflexivity].
  destruct (findPath_lookupAt o root this Hpath) as (n & Hn & Ho).
  right. exists o, root, this, n. repeat split; assumption.
Qed.

Lemma key_detachedData d : key (detachedData d) = key d.
Proof. reflexivity. Qed.

Lemma known_frameDetached frameId s :
  known s -> known (snd (frameDetached frameId s)).
Proof.
  intros Hknown.
  destruct (frameById_cases s frameId)
    as [Hnone|(o & root & this & frame & Hid & Hroot & Hpath & Hthis & _ & _)].
  { unfold frameDetached. rewrite (bind_run _ _ _ _ _ Hnone). exact Hknown. }
  rewrite (frameDetached_run s frameId o root this frame Hid Hroot Hpath Hthis).
  cbn [snd]. unfold known in *. rewrite keysOf_without.
  assert (Hks : keysOf s = Some (keys root)) by (unfold keysOf; rewrite Hroot; reflexivity).
  rewrite Hks in Hknown. unfold detachedTree. rewrite keys_recalc.
  destruct frame as [d children].
  destruct (decide (this = [])) as [->|Hchild].
  - injection Hthis as ->. cbn [fdata].
    change (keys (removeAt [] (modifyAt [] (fun _ => mkFrame (detachedData d) [])
                                 (mkFrame d children))))
      with [key (detachedData d)].
    rewrite key_detachedData.
    destruct Hknown as (Hdistinct & Hbound & Hentries). split; [|split].
    + cbn. apply NoDup_singleton.
    + intros o' k Hin. apply (Hbound o' k).
      apply list_elem_of_singleton in Hin as ->.
      rewrite keys_node. apply elem_of_app. right. apply list_elem_of_singleton.
      reflexivity.
    + intros k o' Hk. apply forget_Some in Hk as [Hk Hgone].
      exfalso. apply Hgone. apply Hentries in Hk.
      apply list_elem_of_fmap in Hk as (d' & Hd' & Hin).
      apply list_elem_of_fmap. exists d'. split; [|assumption].
      unfold key in Hd'. congruence.
  - destruct (exists_last Hchild) as (p & i & ->).
    apply (pre_forget _ (postorder (mkFrame d children))).
    apply (pre_perm (keys root)); [|assumption].
    set (leaf := mkFrame (detachedData d) []).
    assert (Hleaf : lookupAt (p ++ [i]) (modifyAt (p ++ [i]) (fun _ => leaf) root)
                    = Some leaf) by (rewrite lookupAt_modifyAt, Hthis; reflexivity).
    rewrite <- (app_nil_r (keys root)).
    rewrite (keys_modifyAt_perm (p ++ [i]) (fun _ => leaf) root _ []
               (flat_map keys children) Hthis).
    + rewrite (keys_removeAt p i _ leaf Hleaf). cbn [fdata].
      rewrite <- !app_assoc. apply Permutation_app_head.
      fold (keys (mkFrame d children)). rewrite (keys_node d children).
      unfold leaf. rewrite keys_node. cbn [flat_map app].
      rewrite key_detachedData. apply Permutation_cons_append.
    + unfold leaf. rewrite !keys_node, app_nil_r. cbn [flat_map app].
      rewrite key_detachedData. symmetry. apply Permutation_cons_append.
Qed.

Lemma map_flat_map {A B C} (f : B -> C) (g : A -> list B) l :
  map f (flat_map g l) = flat_map (fun x => map f (g x)) l.
Proof.
  induction l as [|x l IH]; cbn; [reflexivity|]. rewrite map_app, IH. reflexivity.
Qed.

Lemma known_commit frameId url name documentId initial s :
  known s ->
  known (snd (frameCommittedNewDocumentNavigation
                frameId url name documentId initial s)).
Proof.
  intros Hknown.
  destruct (frameById_cases s frameId)
    as [Hnone|(o & root & this & n & Hid & Hroot & Hpath & Hthis & _ & Hframe)];
    unfold frameCommittedNewDocumentNavigation.
  { rewrite (bind_run _ _ _ _ _ Hnone). exact Hknown. }
  rewrite (bind_run _ _ _ _ _ Hframe).
  rewrite <- (withTree_same s root Hroot) at 1.
  rewrite (bind_run _ _ _ _ _ (removeChildFramesRecursively_wt this root s n Hthis)).
  apply known_stable; [stable_all|].
  apply (known_without _ _ s (keys root)); [| |assumption].
  - unfold keysOf. rewrite Hroot. reflexivity.
  - rewrite map_flat_map. apply keys_emptied. assumption.
Qed.

Lemma pre_insert ks frames next o k :
  (o, k) ∈ ks -> pre ks frames next -> pre ks (<[k := o]> frames) next.
Proof.
  intros Hin (Hdistinct & Hbound & Hentries). split; [|split]; try assumption.
  intros k' o'. rewrite lookup_insert. case_decide as Hk.
  - intros [= <-]. subst k'. assumption.
  - apply Hentries.
Qed.

(** a new frame object takes the next number *)
Lemma pre_fresh ks frames next k :
  pre ks frames next -> pre (ks ++ [(next, k)]) (<[k := next]> frames) (S next).
Proof.
  intros (Hdistinct & Hbound & Hentries).
  apply pre_insert; [apply elem_of_app; right; apply list_elem_of_singleton; reflexivity|].
  split; [|split].
  - rewrite map_app. apply NoDup_app. split; [assumption|]. split.
    + intros o Ho Hnext. apply list_elem_of_singleton in Hnext. subst o.
      apply list_elem_of_fmap in Ho as ([o k'] & Ho & Hin). cbn in Ho. subst o.
      specialize (Hbound _ _ Hin). lia.
    + cbn. apply NoDup_singleton.
  - intros o k' [Hin|Hin]%elem_of_app.
    + specialize (Hbound _ _ Hin). lia.
    + apply list_elem_of_singleton in Hin. injection Hin as -> _. lia.
  - intros k' o Hk. apply elem_of_app. left. auto.
Qed.

(** the main frame takes another id *)
Lemma pre_rename ks o old new frames next :
  pre (ks ++ [(o, old)]) frames next ->
  pre (ks ++ [(o, new)]) (<[new := o]> (delete old frames)) next.
Proof.
  intros (Hdistinct & Hbound & Hentries).
  apply pre_insert; [apply elem_of_app; right; apply list_elem_of_singleton; reflexivity|].
  split; [|split].
  - rewrite map_app in *. exact Hdistinct.
  - intros o' k [Hin|Hin]%elem_of_app.
    + apply (Hbound o' k). apply elem_of_app. left. assumption.
    + apply list_elem_of_singleton in Hin. injection Hin as -> _.
      apply (Hbound o old). apply elem_of_app. right.
      apply list_elem_of_singleton. reflexivity.
  - intros k o'. rewrite lookup_delete. case_decide as Hk; [discriminate|].
    intros Hentry. apply Hentries, elem_of_app in Hentry as [Hin|Hin].
    + apply elem_of_app. left. assumption.
    + apply list_elem_of_singleton in Hin. congruence.
Qed.

Lemma key_arm d : key (arm d) = key d.
Proof. unfold arm. destruct (_ || _); reflexivity. Qed.

(** what [new Frame(...)] leaves for a child: the frame sits at the end
    of the children of its parent, under the next number *)
Lemma newFrame_child id parent s root n :
  _mainFrame s = Some root ->
  lookupAt parent root = Some n ->
  exists T n',
    newFrame id (Some parent) s
    = (Ok (parent ++ [length (_childFrames n)]),
       withTree T (set_allocated (S (allocated s)) s))
    /\ keys T ≡ₚ keys root ++ [(allocated s, id)]
    /\ lookupAt (parent ++ [length (_childFrames n)]) T = Some n'
    /\ key (fdata n') = (allocated s, id)
    /\ forall P : FrameData -> Prop,
         every P root ->
         P (newFrameData (allocated s) id) ->
         P (arm (newFrameData (allocated s) id)) ->
         every P T.
Proof.
  intros Hroot Hn. unfold newFrame.
  set (leaf := mkFrame (newFrameData (allocated s) id) []).
  set (this := parent ++ [length (_childFrames n)]).
  set (T1 := modifyAt parent
               (fun p => mkFrame (fdata p) (_childFrames p ++ [leaf])) root).
  assert (Hleaf : lookupAt this T1 = Some leaf).
  { unfold this, T1. rewrite lookupAt_app, lookupAt_modifyAt, Hn.
    cbn [fmap option_fmap option_map mbind option_bind].
    change (lookupAt [length (_childFrames n)]
              (mkFrame (fdata n) (_childFrames n ++ [leaf])))
      with (match (_childFrames n ++ [leaf]) !! length (_childFrames n) with
            | Some child => Some child
            | None => None
            end).
    rewrite list_lookup_middle by reflexivity. reflexivity. }
  assert (Hkeys : keys T1 ≡ₚ keys root ++ [(allocated s, id)])
    by apply (keys_appended parent root n leaf Hn).
  rewrite (bind_run _ _ _ _ _ (gets_run _ _)).
  rewrite (bind_run _ _ _ _ _ (modify_run _ _)).
  set (s0 := set_allocated (S (allocated s)) s).
  assert (Hroot' : _mainFrame s0 = Some root) by exact Hroot.
  assert (Hplaced :
    (siblings ← subtreeAt parent;
     modify (fun s => set_mainFrame
       (modifyAt parent (fun p => mkFrame (fdata p) (_childFrames p ++ [leaf]))
          <$> _mainFrame s) s);;
     mret (parent ++ [length (_childFrames siblings)])) s0
    = (Ok this, withTree T1 s0)).
  { rewrite (bind_run _ _ _ _ _ (subtreeAt_run parent s0 root n Hroot' Hn)).
    rewrite (bind_run _ _ _ _ _ (modify_run _ _)).
    unfold mret, M_ret, withTree. rewrite Hroot'. reflexivity. }
  rewrite (bind_run _ _ _ _ _ Hplaced).
  assert (Hevery : forall P : FrameData -> Prop,
            every P root -> P (newFrameData (allocated s) id) -> every P T1).
  { intros P Ht Hnew. apply every_modifyAt; [exact Ht|].
    intros [d children]. cbn [fdata _childFrames]. rewrite !every_node.
    intros [Hd Hchildren]. split; [exact Hd|].
    apply Forall_app. split; [exact Hchildren|]. constructor; [|constructor].
    apply every_node. split; [exact Hnew | constructor]. }
  destruct (bool_decide (id = kDummyFrameId)).
  - exists T1, leaf. rewrite (bind_run _ _ _ tt _ eq_refl).
    split; [reflexivity|]. split; [assumption|]. split; [assumption|].
    split; [reflexivity|]. intros P Ht Hnew _. apply Hevery; assumption.
  - exists (modifyAt this (onData arm) T1), (onData arm leaf).
    rewrite (bind_run _ _ _ _ _
               (_startNetworkIdleTimer_wt this T1 _ leaf Hleaf eq_refl)).
    split; [reflexivity|]. split; [|split; [|split]].
    + rewrite keys_modifyAt; [assumption|]. intros f. apply keys_onData, key_arm.
    + rewrite lookupAt_modifyAt, Hleaf. reflexivity.
    + reflexivity.
    + intros P Ht Hnew Harmed.
      apply (every_at P this arm T1 leaf Hleaf Harmed). apply Hevery; assumption.
Qed.

(** and for a main frame *)
Lemma newFrame_main id s :
  exists n',
    newFrame id None s
    = (Ok [], withTree n' (set_allocated (S (allocated s)) s))
    /\ keys n' = [(allocated s, id)]
    /\ key (fdata n') = (allocated s, id)
    /\ forall P : FrameData -> Prop,
         P (newFrameData (allocated s) id) ->
         P (arm (newFrameData (allocated s) id)) ->
         every P n'.
Proof.
  unfold newFrame.
  set (leaf := mkFrame (newFrameData (allocated s) id) []).
  rewrite (bind_run _ _ _ _ _ (gets_run _ _)).
  rewrite (bind_run _ _ _ _ _ (modify_run _ _)).
  set (s0 := set_allocated (S (allocated s)) s).
  assert (Hplaced :
    (modify (set_mainFrame (Some leaf));; mret ([] : path)) s0
    = (Ok [], withTree leaf s0)) by reflexivity.
  rewrite (bind_run _ _ _ _ _ Hplaced).
  destruct (bool_decide (id = kDummyFrameId)).
  - exists leaf. rewrite (bind_run _ _ _ tt _ eq_refl).
    split; [reflexivity|]. split; [reflexivity|]. split; [reflexivity|].
    intros P Hnew _. apply every_node. split; [exact Hnew | constructor].
  - exists (onData arm leaf).
    rewrite (bind_run _ _ _ _ _
               (_startNetworkIdleTimer_wt [] leaf _ leaf eq_refl eq_refl)).
    split; [reflexivity|]. split; [reflexivity|]. split; [reflexivity|].
    intros P _ Harmed. apply every_node. split; [exact Harmed | constructor].
Qed.

Lemma known_frameAttached frameId parentFrameId s :
  known s -> known (snd (frameAttached frameId parentFrameId s)).
Proof.
  intros Hknown. unfold frameAttached.
  assert (Hparent : exists r,
    (if truthy parentFrameId then frameById (default "" parentFrameId)
     else mret None) s = (Ok r, s)
    /\ forall parent, r = Some parent ->
         exists root n, _mainFrame s = Some root /\ lookupAt parent root = Some n).
  { destruct (truthy parentFrameId).
    - destruct (frameById_cases s (default "" parentFrameId))
        as [Hnone|(o & root & this & n & _ & Hroot & _ & Hthis & _ & Hsome)].
      + exists None. split; [exact Hnone | discriminate].
      + exists (Some this). split; [exact Hsome|]. intros ? [= <-]. eauto.
    - exists None. split; [reflexivity | discriminate]. }
  destruct Hparent as (r & Hrun & Hvalid). rewrite (bind_run _ _ _ _ _ Hrun).
  destruct r as [parent|].
  - destruct (Hvalid parent eq_refl) as (root & n & Hroot & Hn).
    rewrite (bind_run _ _ _ _ _ (gets_run _ _)).
    destruct (bool_decide (is_Some (_frames s !! frameId))); cbn [negb assert].
    { erewrite bind_throw by reflexivity. exact Hknown. }
    rewrite (bind_run _ _ _ tt _ eq_refl).
    destruct (newFrame_child frameId parent s root n Hroot Hn)
      as (T & n' & Hnew & Hkeys & Hn' & Hkey & _).
    rewrite (bind_run _ _ _ _ _ Hnew).
    rewrite (bind_run _ _ _ _ _ (frameAt_wt _ _ _ _ Hn')).
    rewrite (bind_run _ _ _ _ _ (modify_run _ _)).
    injection Hkey as Ho _. rewrite Ho.
    unfold known in *. cbn.
    assert (Hks : keysOf s = Some (keys root))
      by (unfold keysOf; rewrite Hroot; reflexivity).
    rewrite Hks in Hknown.
    apply (pre_perm (keys root ++ [(allocated s, frameId)])); [symmetry; assumption|].
    apply pre_fresh. assumption.
  - rewrite (bind_run _ _ _ _ _ (gets_run _ _)).
    destruct (_mainFrame s) as [[d children]|] eqn:Hroot.
    + assert (Hrenamed :
        (modify (fun s => set_frames (delete (_id d) (_frames s)) s);;
         updateFrame [] (set_id frameId)) s
        = (Ok tt, withTree (mkFrame (set_id frameId d) children)
                    (set_frames (delete (_id d) (_frames s)) s))).
      { rewrite (bind_run _ _ _ _ _ (modify_run _ _)).
        apply (updateFrame_run [] _ (mkFrame d children)). exact Hroot. }
      cbn [fdata]. rewrite (bind_run _ _ _ _ _ Hrenamed).
      rewrite (bind_run _ _ _ _ _ (frameAt_wt [] _ _ _ eq_refl)).
      apply (known_intro _ (keys (mkFrame (set_id frameId d) children)));
        [reflexivity|].
      unfold known, keysOf in Hknown. rewrite Hroot in Hknown.
      cbn [fmap option_fmap option_map] in Hknown. rewrite keys_node in *.
      apply (pre_rename (flat_map keys children) (oid d) (_id d) frameId).
      exact Hknown.
    + assert (Hnone : _frames s = ∅).
      { unfold known, keysOf in Hknown. rewrite Hroot in Hknown. exact Hknown. }
      destruct (newFrame_main frameId s) as (n' & Hnew & Hkeys & Hkey & _).
      assert (Hmade :
        (known ← gets (fun s => bool_decide (is_Some (_frames s !! frameId)));
         assert (negb known);; newFrame frameId None;; mret tt) s
        = (Ok tt, withTree n' (set_allocated (S (allocated s)) s))).
      { rewrite (bind_run _ _ _ _ _ (gets_run _ _)).
        rewrite Hnone, lookup_empty.
        rewrite bool_decide_eq_false_2 by (intros [? [=]]). cbn [negb assert].
        rewrite (bind_run _ _ _ tt _ eq_refl).
        rewrite (bind_run _ _ _ _ _ Hnew). reflexivity. }
      rewrite (bind_run _ _ _ _ _ Hmade).
      rewrite (bind_run _ _ _ _ _ (frameAt_wt [] n' _ n' eq_refl)).
      injection Hkey as Ho _. rewrite Ho.
      apply (known_intro _ (keys n')); [reflexivity|].
      rewrite Hkeys. cbn [modify snd].
      change (pre ([] ++ [(allocated s, frameId)])
                (<[frameId := allocated s]> (_frames s)) (S (allocated s))).
      rewrite Hnone.
      apply (pre_fresh [] ∅ (allocated s) frameId).
      split; [constructor|]. split.
      * intros o k Hin. apply elem_of_nil in Hin. contradiction.
      * intros k o. rewrite lookup_empty. discriminate.
Qed.

Lemma known_handle e s : known s -> known (after e s).
Proof.
  intros Hknown. unfold after.
  destruct (quiet e) eqn:Hquiet; [apply known_stable; [apply stable_handle|]; assumption|].
  destruct e; try discriminate; cbn [handle].
  - unfold createDummyMainFrameIfNeeded.
    rewrite (bind_run _ _ _ _ _ (gets_run _ _)).
    destruct (_mainFrame s); [exact Hknown | apply known_frameAttached; assumption].
  - apply known_frameAttached. assumption.
  - apply known_frameDetached. assumption.
  - apply known_commit. assumption.
Qed.

Lemma reachable_known s : reachable s -> known s.
Proof.
  induction 1 as [|s e _ IH|s _ IH].
  - reflexivity.
  - apply known_handle. assumption.
  - exact (known_handle Dispose s IH).
Qed.

(** [findPath] finds every object of the tree *)
Lemma findPath_complete o t :
  o ∈ map oid (postorder t) -> is_Some (findPath o t).
Proof.
  induction t as [d children IH] using Frame_ind. cbn [findPath fdata _childFrames].
  destruct (decide (oid d = o)) as [Ho|Ho]; [eauto|].
  cbn [postorder fdata _childFrames]. rewrite map_app, elem_of_app.
  intros [Hin|Hin]; [|apply list_elem_of_singleton in Hin; congruence].
  generalize 0. induction children as [|c rest IHrest]; intros k.
  - apply elem_of_nil in Hin. contradiction.
  - apply Forall_cons in IH as [Hc Hrest].
    cbn [flat_map] in Hin. rewrite map_app, elem_of_app in Hin.
    destruct (findPath o c) as [q|] eqn:Hq; [eauto|].
    destruct Hin as [Hin|Hin].
    + apply Hc in Hin. destruct Hin as [? [=]].
    + apply IHrest; assumption.
Qed.

Lemma lookupAt_postorder p t n : lookupAt p t = Some n -> fdata n ∈ postorder t.
Proof.
  intros Hn.
  assert (Hall : every (fun d => d ∈ postorder t) t)
    by (apply Forall_forall; auto).
  pose proof (every_lookupAt _ p t n Hall Hn) as Hevery.
  unfold every in Hevery. rewrite Forall_forall in Hevery.
  apply Hevery, fdata_postorder.
Qed.

Lemma NoDup_fst_agree {A B} (l : list (A * B)) a b c :
  NoDup (map fst l) -> (a, b) ∈ l -> (a, c) ∈ l -> b = c.
Proof.
  induction l as [|[a' b'] l IH]; cbn.
  - intros _ Hin. apply elem_of_nil in Hin. contradiction.
  - rewrite NoDup_cons. intros [Hfresh Hdistinct].
    assert (Hout : forall x, (a', x) ∈ l -> False).
    { intros x Hx. apply Hfresh. apply list_elem_of_fmap. exists (a', x). auto. }
    intros [Hb|Hb]%elem_of_cons [Hc|Hc]%elem_of_cons.
    + congruence.
    + injection Hb as -> ->. destruct (Hout _ Hc).
    + injection Hc as -> ->. destruct (Hout _ Hb).
    + auto.
Qed.

(** an id of the map leads to the frame that goes by it *)
Lemma known_found s frameId o :
  known s ->
  _frames s !! frameId = Some o ->
  exists root this n,
    _mainFrame s = Some root
    /\ findPath o root = Some this
    /\ lookupAt this root = Some n
    /\ oid (fdata n) = o /\ _id (fdata n) = frameId
    /\ frameById frameId s = (Ok (Some this), s).
Proof.
  intros Hs Hid. unfold known, keysOf in Hs.
  destruct (_mainFrame s) as [root|] eqn:Hroot;
    [|cbn in Hs; rewrite Hs, lookup_empty in Hid; discriminate].
  cbn in Hs. destruct Hs as (Hdistinct & _ & Hentries).
  specialize (Hentries _ _ Hid).
  assert (Hin : o ∈ map oid (postorder root)).
  { apply list_elem_of_fmap in Hentries as (d & Hd & Hin).
    apply list_elem_of_fmap. exists d. split; [|assumption].
    unfold key in Hd. congruence. }
  destruct (findPath_complete o root Hin) as [this Hpath].
  destruct (findPath_lookupAt o root this Hpath) as (n & Hn & Ho).
  exists root, this, n. split; [reflexivity|].
  do 3 (split; [assumption|]). split.
  - apply lookupAt_postorder in Hn.
    assert (Hkey : (o, _id (fdata n)) ∈ keys root).
    { apply list_elem_of_fmap. exists (fdata n). split; [|assumption].
      unfold key. rewrite Ho. reflexivity. }
    apply (NoDup_fst_agree _ _ _ _ Hdistinct Hkey Hentries).
  - apply (frameById_run s frameId o root this Hid Hroot Hpath).
Qed.

(** X25.  The map of ids never dangles.  At every state that the manager
    reaches, an id of [_frames] leads to a frame object that is in the tree
    under the main frame and goes by that id; so [frameById] answers with
    the position of that frame.  The frame objects of the tree are
    distinct, and older than the counter of objects. *)
Theorem known_ids_lead_to_frames s :
  reachable s ->
  (forall frameId o, _frames s !! frameId = Some o ->
     exists root this n,
       _mainFrame s = Some root
       /\ findPath o root = Some this
       /\ lookupAt this root = Some n
       /\ oid (fdata n) = o /\ _id (fdata n) = frameId
       /\ frameById frameId s = (Ok (Some this), s))
  /\ (forall root, _mainFrame s = Some root ->
        NoDup (map oid (postorder root))
        /\ forall d, d ∈ postorder root -> oid d < allocated s).
Proof.
  intros Hs. apply reachable_known in Hs. split.
  - intros frameId o Hid. exact (known_found s frameId o Hs Hid).
  - intros root Hroot. unfold known, keysOf in Hs. rewrite Hroot in Hs. cbn in Hs.
    destruct Hs as (Hdistinct & Hbound & _). split.
    + unfold keys in Hdistinct. rewrite map_map in Hdistinct. exact Hdistinct.
    + intros d Hd. apply (Hbound (oid d) (_id d)).
      apply list_elem_of_fmap. exists d. split; [reflexivity | assumption].
Qed.

End IdentityFacts.

Module IdentityRuns.
Import Errors Types Frames Samples CommitFacts IdentityFacts.

Lemma known_ids_lead_to_frames_witness :
  reachable family
  /\ _frames family !! "g" = Some 2
  /\ frameById "g" family = (Ok (Some [0; 0]), family).
Proof.
  assert (Hrun : run familyEvents = family) by (vm_compute; reflexivity).
  assert (Hs : reachable family).
  { rewrite <- Hrun. apply reachable_from. constructor. }
  assert (Hid : _frames family !! "g" = Some 2) by (vm_compute; reflexivity).
  split; [exact Hs|]. split; [exact Hid|].
  destruct (proj1 (known_ids_lead_to_frames family Hs) "g" 2 Hid)
    as (root & this & n & Hroot & Hpath & _ & _ & _ & Hrun').
  assert (Hthis : this = [0; 0]).
  { injection Hroot as <-. vm_compute in Hpath. congruence. }
  rewrite <- Hthis. exact Hrun'.
Defined.

End IdentityRuns.

(** * What the handlers never do *)

Module SafetyFacts.
Import Errors Types Frames TreeFacts IdleFacts RunFacts DetachFacts ManagerFacts
  IdentityFacts.

#[local] Arguments modifyAt : simpl never.
#[local] Arguments lookupAt : simpl never.
#[local] Arguments removeAt : simpl never.
#[local] Arguments _recalculateNetworkIdle : simpl never.
#[local] Arguments has : simpl never.

(** the idle timer of a frame is set only while no request of the frame
    is in flight *)
Definition timely (d : FrameData) : Prop :=
  _inflightRequests d <> [] -> _networkIdleTimer d = NoTimer.

Definition sane (s : FrameManager) : Prop :=
  forall root, _mainFrame s = Some root -> every timely root.

(** a frame object on which [_onDetached] has run: its scope is closed,
    and no timer is set *)
Definition calm (d : FrameData) : Prop :=
  _networkIdleTimer d = NoTimer /\ isDetached d = true.

Definition settled (s : FrameManager) : Prop := Forall calm (detached s).

(** every frame object that was created is in the tree, or among those
    on which [_onDetached] has run *)
Definition housed (s : FrameManager) : Prop :=
  forall o, o < allocated s ->
    o ∈ map fst (default [] (keysOf s)) \/ o ∈ map oid (detached s).

Lemma timely_settle allowed idle d : timely d -> timely (settle allowed idle d).
Proof.
  destruct (settle_fired allowed idle d) as [l ->]. destruct d. exact id.
Qed.

Lemma timely_recalc allowed t :
  every timely t -> every timely (_recalculateNetworkIdle allowed t).
Proof. apply every_recalc. exact timely_settle. Qed.

Lemma timely_update this g t :
  (forall d, timely d -> timely (g d)) ->
  every timely t -> every timely (modifyAt this (onData g) t).
Proof.
  intros Hg Ht. apply every_modifyAt; [exact Ht|].
  intros f. apply every_onData. exact Hg.
Qed.

(** the frame at [this] may change in any way that keeps it timely *)
Lemma timely_at this g t n :
  lookupAt this t = Some n ->
  (timely (fdata n) -> timely (g (fdata n))) ->
  every timely t -> every timely (modifyAt this (onData g) t).
Proof.
  intros Hn Hg Ht. apply (every_at _ _ _ _ n Hn); [|exact Ht]. apply Hg.
  pose proof (every_lookupAt _ _ _ _ Ht Hn) as Hsub.
  destruct n as [d children]. apply every_node in Hsub as [Hd _]. exact Hd.
Qed.

Lemma lookupAt_bare p t : lookupAt p (bare t) = bare <$> lookupAt p t.
Proof.
  revert t. induction p as [|i p IH]; intros [d children]; [reflexivity|].
  change (lookupAt (i :: p) (bare (mkFrame d children)))
    with (match map bare children !! i with
          | Some child => lookupAt p child
          | None => None
          end).
  change (lookupAt (i :: p) (mkFrame d children))
    with (match children !! i with
          | Some child => lookupAt p child
          | None => None
          end).
  rewrite map_lookup. destruct (children !! i); cbn; [apply IH | reflexivity].
Qed.

(** the frames sit where they sat when the trees have the same objects *)
Lemma bare_valid p t t' :
  bare t' = bare t -> is_Some (lookupAt p t) -> is_Some (lookupAt p t').
Proof.
  intros Hbare [n Hn].
  assert (Hsome : is_Some (lookupAt p (bare t')))
    by (rewrite Hbare, lookupAt_bare, Hn; eexists; reflexivity).
  rewrite lookupAt_bare in Hsome.
  destruct (lookupAt p t') as [n'|]; [eexists; reflexivity|].
  destruct Hsome as [x Hx]. discriminate Hx.
Qed.

(** *** Methods of a frame of the tree *)

(** A method of the frame at [this] that goes well: on a manager whose
    frames are timely and that has a frame at [this], it returns, and
    leaves the frame objects of the tree where they are, and timely, and
    those that have left the tree as they are. *)
Definition gentle (this : path) {A} (m : M A) : Prop :=
  forall s root,
    _mainFrame s = Some root ->
    is_Some (lookupAt this root) ->
    every timely root ->
    exists a s' root',
      m s = (Ok a, s')
      /\ _mainFrame s' = Some root'
      /\ bare root' = bare root
      /\ every timely root'
      /\ detached s' = detached s.

Lemma gentle_ret this {A} (a : A) : gentle this (mret a).
Proof.
  intros s root Hroot _ Ht. exists a, s, root.
  split; [reflexivity|]. split; [exact Hroot|]. split; [reflexivity|].
  split; [exact Ht | reflexivity].
Qed.

Lemma gentle_gets this {A} (proj : FrameManager -> A) : gentle this (gets proj).
Proof.
  intros s root Hroot _ Ht. exists (proj s), s, root.
  split; [reflexivity|]. split; [exact Hroot|]. split; [reflexivity|].
  split; [exact Ht | reflexivity].
Qed.

Lemma gentle_bind this {A B} (m : M A) (k : A -> M B) :
  gentle this m -> (forall a, gentle this (k a)) -> gentle this (m ≫= k).
Proof.
  intros Hm Hk s root Hroot Hthis Ht.
  destruct (Hm s root Hroot Hthis Ht)
    as (a & s1 & root1 & Hrun & Hroot1 & Hbare1 & Ht1 & Hgone1).
  destruct (Hk a s1 root1 Hroot1 (bare_valid _ _ _ Hbare1 Hthis) Ht1)
    as (b & s2 & root2 & Hrun2 & Hroot2 & Hbare2 & Ht2 & Hgone2).
  exists b, s2, root2. rewrite (bind_run _ _ _ _ _ Hrun).
  split; [exact Hrun2|]. split; [exact Hroot2|]. split; [congruence|].
  split; [exact Ht2 | congruence].
Qed.

Lemma gentle_aside this g :
  (forall s, _mainFrame (g s) = _mainFrame s) ->
  (forall s, detached (g s) = detached s) ->
  gentle this (modify g).
Proof.
  intros Hg Hgone s root Hroot _ Ht. exists tt, (g s), root.
  split; [reflexivity|]. rewrite Hg. split; [exact Hroot|].
  split; [reflexivity|]. split; [exact Ht | apply Hgone].
Qed.

Lemma gentle_emit this e : gentle this (emit e).
Proof. apply gentle_aside; reflexivity. Qed.

Lemma gentle_frameAt this : gentle this (frameAt this).
Proof.
  intros s root Hroot [n Hn] Ht. exists (fdata n), s, root.
  split; [apply (frameAt_run this s root n Hroot Hn)|].
  split; [exact Hroot|]. split; [reflexivity|]. split; [exact Ht | reflexivity].
Qed.

Lemma gentle_subtreeAt this : gentle this (subtreeAt this).
Proof.
  intros s root Hroot [n Hn] Ht. exists n, s, root.
  split; [apply (subtreeAt_run this s root n Hroot Hn)|].
  split; [exact Hroot|]. split; [reflexivity|]. split; [exact Ht | reflexivity].
Qed.

Lemma gentle_updateFrame this this' g :
  (forall d, oid (g d) = oid d) ->
  (forall d, timely d -> timely (g d)) ->
  gentle this (updateFrame this' g).
Proof.
  intros Hoid Hg s root Hroot _ Ht.
  exists tt, (withTree (modifyAt this' (onData g) root) s),
    (modifyAt this' (onData g) root).
  split; [apply (updateFrame_run this' s root Hroot)|].
  split; [apply withTree_root|]. split; [|split; [|reflexivity]].
  - apply bare_modifyAt. intros f. apply bare_onData, Hoid.
  - apply timely_update; assumption.
Qed.

Lemma gentle_recalculate this frame : gentle this (recalculateFromMainFrame frame).
Proof.
  intros s root Hroot _ Ht.
  exists tt, (withTree (_recalculateNetworkIdle frame root) s),
    (_recalculateNetworkIdle frame root).
  split; [apply (recalculate_run s root Hroot)|].
  split; [apply withTree_root|]. split; [apply bare_recalc|].
  split; [apply timely_recalc, Ht | reflexivity].
Qed.

Lemma gentle_forEach this {A} (xs : list A) body :
  (forall x, gentle this (body x)) -> gentle this (forEach xs body).
Proof.
  intros Hbody. induction xs as [|x rest IH]; cbn.
  - apply gentle_ret.
  - apply gentle_bind; auto.
Qed.

(** a frame that is looked up by its id is there *)
Lemma gentle_frameById this frameId {A} (k : option path -> M A) :
  gentle this (k None) ->
  (forall this', gentle this' (k (Some this'))) ->
  gentle this (frameById frameId ≫= k).
Proof.
  intros Hnone Hsome s root Hroot Hthis Ht.
  destruct (frameById_cases s frameId)
    as [Hrun|(o & root0 & this' & n & _ & Hroot0 & _ & Hn & _ & Hrun)];
    rewrite (bind_run _ _ _ _ _ Hrun).
  - apply (Hnone s root Hroot Hthis Ht).
  - assert (root0 = root) as -> by congruence.
    apply (Hsome this' s root Hroot (ex_intro _ n Hn) Ht).
Qed.

Create HintDb gentle.

#[local] Hint Resolve gentle_ret gentle_gets gentle_emit gentle_frameAt
  gentle_subtreeAt gentle_recalculate : gentle.

Lemma oid_addLifecycle e d : oid (addLifecycle e d) = oid d.
Proof. unfold addLifecycle. destruct (has e d); reflexivity. Qed.

Lemma timely_addLifecycle e d : timely d -> timely (addLifecycle e d).
Proof. unfold addLifecycle. destruct (has e d); exact id. Qed.

Lemma oid__setContext world c d : oid (_setContext world c d) = oid d.
Proof. reflexivity. Qed.

Lemma timely__setContext world c d : timely d -> timely (_setContext world c d).
Proof. exact id. Qed.

(** one step through a method *)
Ltac gentle_step :=
  match goal with
  | |- gentle _ (_ ≫= _) => apply gentle_bind; [|intros ?]
  | |- gentle _ (if ?b then _ else _) => destruct b
  | |- gentle _ (match ?x with _ => _ end) => destruct x
  | |- gentle _ (updateFrame _ (addLifecycle _)) =>
      apply gentle_updateFrame;
      [intros ?; apply oid_addLifecycle | intros ?; apply timely_addLifecycle]
  | |- gentle _ (updateFrame _ (_setContext _ _)) =>
      apply gentle_updateFrame;
      [intros ?; apply oid__setContext | intros ?; apply timely__setContext]
  | |- gentle _ (updateFrame _ _) =>
      apply gentle_updateFrame; [intros ?; reflexivity | intros ? ?; assumption]
  | |- gentle _ (modify _) => apply gentle_aside; reflexivity
  | |- gentle _ (forEach _ _) => apply gentle_forEach; intros ?
  | |- gentle _ _ => solve [auto with gentle]
  end.

Ltac gentle_all := repeat gentle_step.

Lemma gentle__onLifecycleEvent this event : gentle this (_onLifecycleEvent this event).
Proof. unfold _onLifecycleEvent. gentle_all. Qed.

Lemma gentle_setPendingDocument this documentInfo :
  gentle this (setPendingDocument this documentInfo).
Proof. unfold setPendingDocument. gentle_all. Qed.

Lemma gentle__fireInternalFrameNavigation this event :
  gentle this (_fireInternalFrameNavigation this event).
Proof. unfold _fireInternalFrameNavigation. gentle_all. Qed.

#[local] Hint Resolve gentle__onLifecycleEvent gentle_setPendingDocument
  gentle__fireInternalFrameNavigation : gentle.

Lemma gentle_commitDocument this documentId :
  gentle this (commitDocument this documentId).
Proof. unfold commitDocument. gentle_all. Qed.

Lemma gentle__contextCreated this world c : gentle this (_contextCreated this world c).
Proof. unfold _contextCreated. gentle_all. Qed.

Lemma gentle__contextDestroyed this c : gentle this (_contextDestroyed this c).
Proof. unfold _contextDestroyed. gentle_all. Qed.

Lemma gentle__stopNetworkIdleTimer this this' :
  gentle this (_stopNetworkIdleTimer this').
Proof.
  unfold _stopNetworkIdleTimer. apply gentle_updateFrame; [reflexivity|].
  intros d _ _. reflexivity.
Qed.

(** a frame with a request in flight has no timer *)
Lemma timely_inflight r d :
  timely d -> inflight r d = true -> _networkIdleTimer d = NoTimer.
Proof.
  intros Hd Hr. apply Hd. intros Hnone. unfold inflight in Hr.
  rewrite Hnone in Hr. discriminate.
Qed.

Lemma timely_arm d : _inflightRequests d = [] -> timely (arm d).
Proof.
  intros Hnone Hsome. exfalso. apply Hsome. unfold arm.
  destruct (has networkidle d || isDetached d); exact Hnone.
Qed.

Lemma timely_started r d : timely d -> timely (started r d).
Proof.
  intros Hd. unfold started. cbv zeta.
  destruct (bool_decide_reflect (length (_inflightRequests (addInflight r d)) = 1))
    as [Hone|Hmore]; [intros _; reflexivity|].
  unfold addInflight in *. destruct (inflight r d) eqn:Hr; [exact Hd|].
  intros _. cbn [_networkIdleTimer set_inflightRequests].
  apply Hd. intros Hnone. apply Hmore. cbn [_inflightRequests set_inflightRequests].
  rewrite Hnone. reflexivity.
Qed.

Lemma timely_finished r d : timely d -> timely (finished r d).
Proof.
  intros Hd. unfold finished.
  destruct (inflight r d) eqn:Hr; cbn [negb]; [|exact Hd]. cbv zeta.
  destruct (bool_decide_reflect (length (_inflightRequests (deleteInflight r d)) = 0))
    as [Hnone|Hsome].
  - apply timely_arm. destruct (_inflightRequests (deleteInflight r d));
      [reflexivity | discriminate].
  - intros _. apply (timely_inflight r d Hd Hr).
Qed.

Lemma oid_finished r d : oid (finished r d) = oid d.
Proof.
  unfold finished, arm. cbv zeta.
  repeat match goal with |- context [if ?b then _ else _] => destruct b end;
    reflexivity.
Qed.

Lemma gentle__inflightRequestStarted r this :
  gentle this (_inflightRequestStarted r this).
Proof.
  intros s root Hroot [n Hn] Ht.
  destruct (_isFavicon r) eqn:Hfavicon.
  - exists tt, s, root. unfold _inflightRequestStarted. rewrite Hfavicon.
    split; [reflexivity|]. split; [exact Hroot|]. split; [reflexivity|].
    split; [exact Ht | reflexivity].
  - exists tt, (withTree (modifyAt this (onData (started r)) root) s),
      (modifyAt this (onData (started r)) root).
    split.
    { rewrite <- (withTree_same s root Hroot) at 1.
      apply (_inflightRequestStarted_wt r this root s n Hfavicon Hn). }
    split; [apply withTree_root|]. split; [|split; [|reflexivity]].
    + apply bare_modifyAt. intros f. apply bare_onData, oid_started.
    + apply timely_update; [apply timely_started | exact Ht].
Qed.

Lemma gentle__inflightRequestFinished r this :
  gentle this (_inflightRequestFinished r this).
Proof.
  intros s root Hroot [n Hn] Ht.
  destruct (_isFavicon r) eqn:Hfavicon.
  - exists tt, s, root. unfold _inflightRequestFinished. rewrite Hfavicon.
    split; [reflexivity|]. split; [exact Hroot|]. split; [reflexivity|].
    split; [exact Ht | reflexivity].
  - exists tt, (withTree (modifyAt this (onData (finished r)) root) s),
      (modifyAt this (onData (finished r)) root).
    assert (Hn' : timely (fdata n)).
    { pose proof (every_lookupAt _ _ _ _ Ht Hn) as Hsub.
      destruct n as [d children]. apply every_node in Hsub as [Hd _]. exact Hd. }
    split.
    { rewrite <- (withTree_same s root Hroot) at 1.
      apply (_inflightRequestFinished_wt r this root s n Hfavicon Hn).
      apply timely_inflight, Hn'. }
    split; [apply withTree_root|]. split; [|split; [|reflexivity]].
    + apply bare_modifyAt. intros f. apply bare_onData, oid_finished.
    + apply timely_update; [apply timely_finished | exact Ht].
Qed.

Lemma gentle_networkIdleTimerFired this : gentle this (networkIdleTimerFired this).
Proof.
  intros s root Hroot [n Hn] Ht. unfold networkIdleTimerFired.
  rewrite (bind_run _ _ _ _ _ (frameAt_run this s root n Hroot Hn)).
  destruct (_networkIdleTimer (fdata n)) eqn:Htimer;
    try (exists tt, s, root;
         split; [reflexivity|]; split; [exact Hroot|]; split; [reflexivity|];
         split; [exact Ht | reflexivity]).
  rewrite (bind_run _ _ _ _ _ (updateFrame_run this s root Hroot _)).
  rewrite recalculate_wt.
  eexists tt, _, _. split; [reflexivity|]. split; [apply withTree_root|].
  split; [|split; [|reflexivity]].
  - rewrite bare_recalc. apply bare_modifyAt. intros f. apply bare_onData.
    reflexivity.
  - apply timely_recalc. apply (timely_at this _ root n Hn); [|exact Ht].
    intros Hd Hsome. exfalso. specialize (Hd Hsome). congruence.
Qed.

Lemma timely_cleared d : timely (cleared d).
Proof.
  unfold cleared. cbv zeta.
  set (d1 := set_firedNetworkIdleSelf false _).
  destruct (bool_decide_reflect (length (_inflightRequests d1) = 0))
    as [Hnone|Hsome].
  - apply timely_arm. destruct (_inflightRequests d1); [reflexivity | discriminate].
  - intros _. reflexivity.
Qed.

Lemma oid_cleared d : oid (cleared d) = oid d.
Proof.
  unfold cleared, arm. cbv zeta.
  repeat match goal with |- context [if ?b then _ else _] => destruct b end;
    reflexivity.
Qed.

Lemma gentle__onClearLifecycle this : gentle this (_onClearLifecycle this).
Proof.
  intros s root Hroot [n Hn] Ht.
  exists tt, (withTree (clearedTree this n root) s), (clearedTree this n root).
  split; [apply (_onClearLifecycle_run this s root n Hroot Hn)|].
  split; [apply withTree_root|]. unfold clearedTree.
  split; [|split; [|reflexivity]].
  - rewrite bare_recalc, bare_modifyAt, bare_recalc, bare_modifyAt;
      [reflexivity|..]; intros f; apply bare_onData;
      [apply oid_cleared | apply oid_addLifecycle].
  - apply timely_recalc, timely_update; [apply timely_addLifecycle|].
    apply timely_recalc, timely_update; [|exact Ht].
    intros d _. apply timely_cleared.
Qed.

#[local] Hint Resolve gentle_commitDocument gentle__contextCreated
  gentle__contextDestroyed gentle__inflightRequestStarted
  gentle__inflightRequestFinished gentle_networkIdleTimerFired
  gentle__onClearLifecycle : gentle.

Lemma gentle_frameAbortedNavigation this redirected frameId errorText documentId :
  gentle this (frameAbortedNavigation redirected frameId errorText documentId).
Proof.
  unfold frameAbortedNavigation. apply gentle_frameById; [apply gentle_ret|].
  intros this'. gentle_all.
Qed.

#[local] Hint Resolve gentle_frameAbortedNavigation : gentle.

Lemma gentle_abortPending this redirected r errorText canceled f :
  gentle this (abortPending redirected r errorText canceled f).
Proof. unfold abortPending. gentle_all. Qed.

#[local] Hint Resolve gentle_abortPending : gentle.

(** *** Notifications about a frame object *)

(** the frame object that a notification is about, when it names one *)
Definition objectOf (e : Event) : option nat :=
  match e with
  | OnRequestStarted r | OnRequestFinished r | OnRequestFailed _ r _ _ =>
      Some (requestFrame r)
  | OnNetworkIdleTimer o | OnSetContentTag o | OnContextCreated o _ _
  | OnContextDestroyed o _ => Some o
  | _ => None
  end.

(** what the handler does when the object sits at [this] in the tree *)
Definition attachedOn (e : Event) (this : path) : M unit :=
  match e with
  | OnRequestStarted r =>
      _inflightRequestStarted r this;;
      if truthy (_documentId r)
      then setPendingDocument this (Some (mkDocumentInfo (_documentId r) (Some r)))
      else mret tt
  | OnRequestFinished r => _inflightRequestFinished r this
  | OnRequestFailed redirected r errorText canceled =>
      _inflightRequestFinished r this;;
      f ← frameAt this;
      abortPending redirected r errorText canceled f
  | OnNetworkIdleTimer _ => networkIdleTimerFired this
  | OnSetContentTag _ => _onClearLifecycle this
  | OnContextCreated _ world c => _contextCreated this world c
  | OnContextDestroyed _ c => _contextDestroyed this c
  | _ => mret tt
  end.

(** and when the object [o] has left the tree *)
Definition goneOn (e : Event) (o : nat) : M unit :=
  match e with
  | OnRequestStarted r =>
      Gone._inflightRequestStarted r o;;
      if truthy (_documentId r)
      then Gone.setPendingDocument o (Some (mkDocumentInfo (_documentId r) (Some r)))
      else mret tt
  | OnRequestFinished r => Gone._inflightRequestFinished r o
  | OnRequestFailed redirected r errorText canceled =>
      Gone._inflightRequestFinished r o;;
      f ← Gone.frameAt o;
      abortPending redirected r errorText canceled f
  | OnNetworkIdleTimer _ => Gone.networkIdleTimerFired o
  | OnSetContentTag _ => Gone._onClearLifecycle o
  | OnContextCreated _ world c => Gone._contextCreated o world c
  | OnContextDestroyed _ c => Gone._contextDestroyed o c
  | _ => mret tt
  end.

Lemma handle_attached e o s root this :
  objectOf e = Some o ->
  _mainFrame s = Some root ->
  findPath o root = Some this ->
  handle e s = attachedOn e this s.
Proof.
  intros He Hroot Hpath.
  destruct e; try discriminate; injection He as <-; cbn [handle attachedOn];
    unfold requestStarted, reportRequestFinished, requestFailed, frameOf,
      onFrameObject;
    rewrite (bind_run _ _ _ _ _ (gets_run _ _)), Hroot;
    cbn [mbind option_bind]; rewrite Hpath; reflexivity.
Qed.

Lemma handle_gone e o s :
  objectOf e = Some o ->
  _mainFrame s ≫= findPath o = None ->
  handle e s = goneOn e o s.
Proof.
  intros He Hnone.
  destruct e; try discriminate; injection He as <-; cbn [handle goneOn];
    unfold requestStarted, reportRequestFinished, requestFailed, frameOf,
      onFrameObject;
    rewrite (bind_run _ _ _ _ _ (gets_run _ _));
    (destruct (_mainFrame s) as [root|]; cbn [mbind option_bind] in *;
     [rewrite Hnone|]; reflexivity).
Qed.

Lemma gentle_attachedOn e this : gentle this (attachedOn e this).
Proof. destruct e; cbn [attachedOn]; gentle_all. Qed.

(** *** Methods of a frame object that has left the tree *)

(** A method of the frame object [o], which has left the tree: it keeps
    the frames of the tree timely and the frame objects that have left it
    calm, and it returns if [o] is indeed such an object. *)
Definition ghostly (o : nat) {A} (m : M A) : Prop :=
  forall s, sane s -> settled s ->
    sane (snd (m s)) /\ settled (snd (m s))
    /\ map oid (detached (snd (m s))) = map oid (detached s)
    /\ (o ∈ map oid (detached s) -> exists a, fst (m s) = Ok a).

Lemma ghostly_ret o {A} (a : A) : ghostly o (mret a).
Proof.
  intros s Hs Hd. split; [exact Hs|]. split; [exact Hd|].
  split; [reflexivity|]. intros _. exists a. reflexivity.
Qed.

Lemma ghostly_gets o {A} (proj : FrameManager -> A) : ghostly o (gets proj).
Proof.
  intros s Hs Hd. split; [exact Hs|]. split; [exact Hd|].
  split; [reflexivity|]. intros _. exists (proj s). reflexivity.
Qed.

Lemma ghostly_bind o {A B} (m : M A) (k : A -> M B) :
  ghostly o m -> (forall a, ghostly o (k a)) -> ghostly o (m ≫= k).
Proof.
  intros Hm Hk s Hs Hd. destruct (Hm s Hs Hd) as (Hs1 & Hd1 & Hoids1 & Hok1).
  unfold mbind, M_bind. destruct (m s) as [[a|e] s1]; cbn [fst snd] in *.
  - destruct (Hk a s1 Hs1 Hd1) as (Hs2 & Hd2 & Hoids2 & Hok2).
    split; [exact Hs2|]. split; [exact Hd2|]. split; [congruence|].
    intros Hin. apply Hok2. rewrite Hoids1. exact Hin.
  - split; [exact Hs1|]. split; [exact Hd1|]. split; [exact Hoids1|].
    intros Hin. destruct (Hok1 Hin) as [a Ha]. discriminate.
Qed.

Lemma ghostly_aside o g :
  (forall s, _mainFrame (g s) = _mainFrame s) ->
  (forall s, detached (g s) = detached s) ->
  ghostly o (modify g).
Proof.
  intros Hg Hgone s Hs Hd. cbn [modify fst snd].
  split; [intros root; rewrite Hg; apply Hs|].
  split; [unfold settled; rewrite Hgone; exact Hd|].
  split; [rewrite Hgone; reflexivity|]. intros _. exists tt. reflexivity.
Qed.

Lemma ghostly_emit o e : ghostly o (emit e).
Proof. apply ghostly_aside; reflexivity. Qed.

Lemma ghostly_recalculate o frame : ghostly o (recalculateFromMainFrame frame).
Proof.
  intros s Hs Hd. unfold recalculateFromMainFrame. cbn [modify fst snd].
  split; [|split; [exact Hd|split; [reflexivity|intros _; exists tt; reflexivity]]].
  intros root. cbn. destruct (_mainFrame s) as [t|] eqn:Ht; cbn; [|discriminate].
  intros [= <-]. apply timely_recalc, Hs. exact Ht.
Qed.

Lemma ghostly_forEach o {A} (xs : list A) body :
  (forall x, ghostly o (body x)) -> ghostly o (forEach xs body).
Proof.
  intros Hbody. induction xs as [|x rest IH]; cbn.
  - apply ghostly_ret.
  - apply ghostly_bind; auto.
Qed.

(** the frame object is calm when it is read *)
Lemma ghostly_frameAt o {A} (k : FrameData -> M A) :
  (forall d, calm d -> oid d = o -> ghostly o (k d)) ->
  ghostly o (Gone.frameAt o ≫= k).
Proof.
  intros Hk s Hs Hd. unfold mbind, M_bind, Gone.frameAt.
  destruct (List.find _ (detached s)) as [d|] eqn:Hfind.
  - apply find_some in Hfind as [Hin Ho]. apply bool_decide_eq_true in Ho.
    apply (Hk d); [|exact Ho | exact Hs | exact Hd].
    unfold settled in Hd. rewrite Forall_forall in Hd. apply Hd.
    apply list_elem_of_In. exact Hin.
  - cbn [fst snd]. split; [exact Hs|]. split; [exact Hd|].
    split; [reflexivity|]. intros Hin. exfalso.
    apply list_elem_of_fmap in Hin as (d & Ho & Hin).
    apply list_elem_of_In in Hin. apply (find_none _ _ Hfind) in Hin.
    apply bool_decide_eq_false in Hin. congruence.
Qed.

Lemma amended_oids o g (l : list FrameData) :
  (forall d, oid (g d) = oid d) ->
  map oid (map (fun d => if bool_decide (oid d = o) then g d else d) l)
  = map oid l.
Proof.
  intros Hg. induction l as [|d l IH]; cbn; [reflexivity|].
  rewrite IH. destruct (bool_decide (oid d = o)); rewrite ?Hg; reflexivity.
Qed.

Lemma amended_calm o g (l : list FrameData) :
  (forall d, calm d -> calm (g d)) ->
  Forall calm l ->
  Forall calm (map (fun d => if bool_decide (oid d = o) then g d else d) l).
Proof.
  intros Hg. induction 1 as [|d l Hd _ IH]; cbn; constructor; [|exact IH].
  destruct (bool_decide (oid d = o)); auto.
Qed.

Lemma ghostly_updateFrame o o' g :
  (forall d, oid (g d) = oid d) ->
  (forall d, calm d -> calm (g d)) ->
  ghostly o (Gone.updateFrame o' g).
Proof.
  intros Hoid Hg s Hs Hd. unfold Gone.updateFrame. cbn [modify fst snd].
  split; [exact Hs|]. split; [apply amended_calm; assumption|].
  split; [apply amended_oids, Hoid|]. intros _. exists tt. reflexivity.
Qed.

Lemma sane_intro s T : _mainFrame s = Some T -> every timely T -> sane s.
Proof. intros Hroot Ht root. rewrite Hroot. intros [= <-]. exact Ht. Qed.

Lemma sane_none s : _mainFrame s = None -> sane s.
Proof. intros Hnone root. rewrite Hnone. discriminate. Qed.

(** a method that reaches the tree only *)
Lemma ghostly_gentle o {A} (m : M A) :
  gentle [] m ->
  (forall s, _mainFrame s = None -> exists a, m s = (Ok a, s)) ->
  ghostly o m.
Proof.
  intros Hm Hnone s Hs Hd. destruct (_mainFrame s) as [root|] eqn:Hroot.
  - destruct (Hm s root Hroot (ex_intro _ root eq_refl) (Hs root Hroot))
      as (a & s' & root' & -> & Hroot' & _ & Ht' & Hgone).
    cbn [fst snd]. split; [exact (sane_intro s' root' Hroot' Ht')|].
    split; [unfold settled; rewrite Hgone; exact Hd|].
    split; [rewrite Hgone; reflexivity|]. intros _. exists a. reflexivity.
  - destruct (Hnone s Hroot) as [a ->]. cbn [fst snd].
    split; [exact Hs|]. split; [exact Hd|]. split; [reflexivity|].
    intros _. exists a. reflexivity.
Qed.

Lemma frameById_nomain frameId s :
  _mainFrame s = None -> frameById frameId s = (Ok None, s).
Proof.
  intros Hnone. unfold frameById, gets. rewrite Hnone.
  destruct (_frames s !! frameId); reflexivity.
Qed.

Lemma ghostly_frameAbortedNavigation o redirected frameId errorText documentId :
  ghostly o (frameAbortedNavigation redirected frameId errorText documentId).
Proof.
  apply ghostly_gentle; [apply gentle_frameAbortedNavigation|].
  intros s Hnone. exists tt. unfold frameAbortedNavigation.
  rewrite (bind_run _ _ _ _ _ (frameById_nomain _ _ Hnone)). reflexivity.
Qed.

Create HintDb ghostly.

#[local] Hint Resolve ghostly_ret ghostly_gets ghostly_emit ghostly_recalculate
  ghostly_frameAbortedNavigation : ghostly.

Lemma calm_addLifecycle e d : calm d -> calm (addLifecycle e d).
Proof. unfold addLifecycle. destruct (has e d); exact id. Qed.

Lemma calm_addInflight r d : calm d -> calm (addInflight r d).
Proof. unfold addInflight. destruct (inflight r d); exact id. Qed.

Lemma oid_addInflight r d : oid (addInflight r d) = oid d.
Proof. unfold addInflight. destruct (inflight r d); reflexivity. Qed.

Lemma calm_stopped d :
  calm d -> calm (set_firedNetworkIdleSelf false (set_networkIdleTimer NoTimer d)).
Proof. intros [_ Hd]. split; [reflexivity | exact Hd]. Qed.

(** one step through a method *)
Ltac ghostly_step :=
  match goal with
  | |- ghostly _ (Gone.frameAt _ ≫= _) => apply ghostly_frameAt; intros ? ? ?
  | |- ghostly _ (_ ≫= _) => apply ghostly_bind; [|intros ?]
  | |- ghostly _ (if ?b then _ else _) => destruct b
  | |- ghostly _ (match ?x with _ => _ end) => destruct x
  | |- ghostly _ (Gone.updateFrame _ (addLifecycle _)) =>
      apply ghostly_updateFrame;
      [intros ?; apply oid_addLifecycle | intros ?; apply calm_addLifecycle]
  | |- ghostly _ (Gone.updateFrame _ (addInflight _)) =>
      apply ghostly_updateFrame;
      [intros ?; apply oid_addInflight | intros ?; apply calm_addInflight]
  | |- ghostly _ (Gone.updateFrame _ _) =>
      apply ghostly_updateFrame; [intros ?; reflexivity | intros ? ?; assumption]
  | |- ghostly _ (modify _) => apply ghostly_aside; reflexivity
  | |- ghostly _ (forEach _ _) => apply ghostly_forEach; intros ?
  | |- ghostly _ _ => solve [auto with ghostly]
  end.

Ltac ghostly_all := repeat ghostly_step.

Lemma ghostly__stopNetworkIdleTimer o o' : ghostly o (Gone._stopNetworkIdleTimer o').
Proof.
  unfold Gone._stopNetworkIdleTimer. apply ghostly_updateFrame; [reflexivity|].
  intros d. apply calm_stopped.
Qed.

(** the assertion holds of a frame object that is calm, and no timer is
    started on it: its scope is closed *)
Lemma ghostly__startNetworkIdleTimer o : ghostly o (Gone._startNetworkIdleTimer o).
Proof.
  unfold Gone._startNetworkIdleTimer. apply ghostly_frameAt.
  intros d [Htimer Hscope] _. rewrite Htimer, Hscope, orb_true_r.
  rewrite bool_decide_eq_true_2 by reflexivity. cbn [assert].
  apply ghostly_bind; [|intros ?]; apply ghostly_ret.
Qed.

Lemma ghostly_networkIdleTimerFired o : ghostly o (Gone.networkIdleTimerFired o).
Proof.
  unfold Gone.networkIdleTimerFired. apply ghostly_frameAt.
  intros d [Htimer _] _. rewrite Htimer. apply ghostly_ret.
Qed.

Lemma ghostly__onLifecycleEvent o event : ghostly o (Gone._onLifecycleEvent o event).
Proof. unfold Gone._onLifecycleEvent. ghostly_all. Qed.

Lemma ghostly_setPendingDocument o documentInfo :
  ghostly o (Gone.setPendingDocument o documentInfo).
Proof. unfold Gone.setPendingDocument. ghostly_all. Qed.

#[local] Hint Resolve ghostly__stopNetworkIdleTimer ghostly__startNetworkIdleTimer
  ghostly_networkIdleTimerFired ghostly__onLifecycleEvent
  ghostly_setPendingDocument : ghostly.

Lemma ghostly__onClearLifecycle o : ghostly o (Gone._onClearLifecycle o).
Proof. unfold Gone._onClearLifecycle. ghostly_all. Qed.

Lemma ghostly__inflightRequestStarted r o : ghostly o (Gone._inflightRequestStarted r o).
Proof. unfold Gone._inflightRequestStarted. ghostly_all. Qed.

Lemma ghostly__inflightRequestFinished r o :
  ghostly o (Gone._inflightRequestFinished r o).
Proof. unfold Gone._inflightRequestFinished. ghostly_all. Qed.

Lemma ghostly__contextCreated o world c : ghostly o (Gone._contextCreated o world c).
Proof. unfold Gone._contextCreated. ghostly_all. Qed.

(** "Sometimes we get this after detach" *)
Lemma ghostly__contextDestroyed o c : ghostly o (Gone._contextDestroyed o c).
Proof.
  unfold Gone._contextDestroyed. apply ghostly_frameAt.
  intros d [_ Hscope] _. rewrite Hscope. apply ghostly_ret.
Qed.

Lemma ghostly_abortPending o redirected r errorText canceled f :
  ghostly o (abortPending redirected r errorText canceled f).
Proof. unfold abortPending. ghostly_all. Qed.

#[local] Hint Resolve ghostly__onClearLifecycle ghostly__inflightRequestStarted
  ghostly__inflightRequestFinished ghostly__contextCreated
  ghostly__contextDestroyed ghostly_abortPending : ghostly.

Lemma ghostly_goneOn e o : ghostly o (goneOn e o).
Proof. destruct e; cbn [goneOn]; ghostly_all. Qed.

(** *** One notification *)

(** what a handler keeps: the frames of the tree timely, the frame
    objects that have left it calm, and the same ones *)
Definition well (s s' : FrameManager) : Prop :=
  sane s' /\ settled s' /\ map oid (detached s') = map oid (detached s).

Lemma gentle_well {A} (m : M A) this s root :
  gentle this m ->
  _mainFrame s = Some root ->
  is_Some (lookupAt this root) ->
  sane s -> settled s ->
  exists a s', m s = (Ok a, s') /\ well s s'.
Proof.
  intros Hm Hroot Hthis Hs Hd.
  destruct (Hm s root Hroot Hthis (Hs root Hroot))
    as (a & s' & root' & Hrun & Hroot' & _ & Ht' & Hgone).
  exists a, s'. split; [exact Hrun|].
  split; [exact (sane_intro s' root' Hroot' Ht')|].
  split; [unfold settled; rewrite Hgone; exact Hd | rewrite Hgone; reflexivity].
Qed.

(** [dispose] stops the timer of a frame, wherever the frame is *)
Lemma stopped_either o s :
  sane s -> settled s ->
  exists s',
    onFrameObject o _stopNetworkIdleTimer Gone._stopNetworkIdleTimer s = (Ok tt, s')
    /\ well s s'.
Proof.
  intros Hs Hd. unfold onFrameObject.
  rewrite (bind_run _ _ _ _ _ (gets_run _ _)).
  destruct (root ← _mainFrame s; findPath o root) as [this|] eqn:Hplace.
  - destruct (_mainFrame s) as [root|] eqn:Hroot; [|discriminate].
    cbn [mbind option_bind] in Hplace.
    destruct (findPath_lookupAt _ _ _ Hplace) as (n & Hn & _).
    destruct (gentle_well _ this s root (gentle__stopNetworkIdleTimer this this)
                Hroot (ex_intro _ n Hn) Hs Hd) as ([] & s' & Hrun & Hwell).
    exists s'. split; assumption.
  - destruct (ghostly__stopNetworkIdleTimer o o s Hs Hd) as (Hs' & Hd' & Hoids & _).
    eexists. split; [reflexivity|]. split; [exact Hs'|]. split; assumption.
Qed.

Lemma well_trans s s1 s2 : well s s1 -> well s1 s2 -> well s s2.
Proof.
  intros (_ & _ & Hoids1) (Hs2 & Hd2 & Hoids2).
  split; [exact Hs2|]. split; [exact Hd2 | congruence].
Qed.

Lemma dispose_run s :
  sane s -> settled s -> exists s', dispose s = (Ok tt, s') /\ well s s'.
Proof.
  intros Hs Hd. unfold dispose. rewrite (bind_run _ _ _ _ _ (gets_run _ _)).
  generalize (map snd (map_to_list (_frames s))). intros frames.
  assert (Hloop : forall s0, sane s0 -> settled s0 ->
    exists s',
      forEach frames (fun o =>
        onFrameObject o _stopNetworkIdleTimer Gone._stopNetworkIdleTimer) s0
      = (Ok tt, s')
      /\ well s0 s').
  { induction frames as [|o rest IH]; intros s0 Hs0 Hd0; cbn [forEach].
    - exists s0. split; [reflexivity|]. split; [exact Hs0|].
      split; [exact Hd0 | reflexivity].
    - destruct (stopped_either o s0 Hs0 Hd0) as (s1 & Hrun1 & Hwell1).
      rewrite (bind_run _ _ _ _ _ Hrun1).
      destruct Hwell1 as (Hs1 & Hd1 & Hoids1).
      destruct (IH s1 Hs1 Hd1) as (s2 & Hrun2 & Hwell2).
      exists s2. split; [exact Hrun2|].
      apply (well_trans s0 s1 s2); [|exact Hwell2].
      split; [exact Hs1|]. split; assumption. }
  apply Hloop; assumption.
Qed.

(** the notifications that name a frame by its id and neither attach nor
    detach it, and the one of a new barrier *)
Definition plain (e : Event) : bool :=
  match e with
  | OnFrameRequestedNavigation _ _ | OnFrameCommittedSameDocumentNavigation _ _
  | OnFrameAbortedNavigation _ _ _ _ | OnFrameLifecycleEvent _ _
  | OnSignalBarrier => true
  | _ => false
  end.

Lemma gentle_plain e : plain e = true -> gentle [] (handle e).
Proof.
  destruct e; try discriminate; intros _; cbn [handle].
  - unfold frameRequestedNavigation.
    apply gentle_frameById; [apply gentle_ret|]. intros this'. gentle_all.
  - unfold frameCommittedSameDocumentNavigation.
    apply gentle_frameById; [apply gentle_ret|]. intros this'. gentle_all.
  - apply gentle_frameAbortedNavigation.
  - unfold frameLifecycleEvent.
    apply gentle_frameById; [apply gentle_ret|]. intros this'.
    apply gentle__onLifecycleEvent.
  - apply gentle_aside; reflexivity.
Qed.

(** without a main frame, such a handler finds no frame and returns *)
Lemma plain_nomain e s :
  plain e = true -> _mainFrame s = None ->
  exists s', handle e s = (Ok tt, s')
             /\ _mainFrame s' = None /\ detached s' = detached s.
Proof.
  intros Hplain Hnone.
  destruct e; try discriminate; cbn [handle];
    try (exists s; split; [|split; [exact Hnone | reflexivity]];
         unfold frameRequestedNavigation, frameCommittedSameDocumentNavigation,
           frameAbortedNavigation, frameLifecycleEvent;
         rewrite (bind_run _ _ _ _ _ (frameById_nomain _ _ Hnone));
         reflexivity).
  eexists. split; [reflexivity|]. split; [exact Hnone | reflexivity].
Qed.

(** the frame object of the notification, if it is not in the tree, has
    left it *)
Definition lodged (e : Event) (s : FrameManager) : Prop :=
  forall o, objectOf e = Some o ->
    (root ← _mainFrame s; findPath o root) = None ->
    o ∈ map oid (detached s).

(** A notification that neither attaches nor detaches a frame: its
    handler keeps the frames of the tree timely and the others calm,
    and it returns, for a notification about a frame object if the object
    is in the tree or has left it. *)
Lemma quiet_handle e s :
  quiet e = true -> sane s -> settled s ->
  well s (after e s) /\ (lodged e s -> fst (handle e s) = Ok tt).
Proof.
  intros Hquiet Hs Hd. unfold after.
  destruct (objectOf e) as [o|] eqn:Hobject.
  - destruct (root ← _mainFrame s; findPath o root) as [this|] eqn:Hplace.
    + destruct (_mainFrame s) as [root|] eqn:Hroot; [|discriminate].
      cbn [mbind option_bind] in Hplace.
      destruct (findPath_lookupAt _ _ _ Hplace) as (n & Hn & _).
      rewrite (handle_attached e o s root this Hobject Hroot Hplace).
      destruct (gentle_well _ this s root (gentle_attachedOn e this)
                  Hroot (ex_intro _ n Hn) Hs Hd) as ([] & s' & -> & Hwell).
      split; [exact Hwell | reflexivity].
    + rewrite (handle_gone e o s Hobject Hplace).
      destruct (ghostly_goneOn e o s Hs Hd) as (Hs' & Hd' & Hoids & Hok).
      split; [split; [exact Hs' | split; assumption]|].
      intros Hlodged. destruct (Hok (Hlodged o Hobject Hplace)) as [[] Hrun].
      exact Hrun.
  - destruct (plain e) eqn:Hplain.
    + destruct (_mainFrame s) as [root|] eqn:Hroot.
      * destruct (gentle_well _ [] s root (gentle_plain e Hplain)
                    Hroot (ex_intro _ root eq_refl) Hs Hd)
          as ([] & s' & -> & Hwell).
        split; [exact Hwell | reflexivity].
      * destruct (plain_nomain e s Hplain Hroot) as (s' & -> & Hnone & Hgone).
        split; [|reflexivity]. cbn [snd]. split; [apply sane_none, Hnone|].
        split; [unfold settled; rewrite Hgone; exact Hd | rewrite Hgone; reflexivity].
    + destruct e; try discriminate. cbn [handle].
      destruct (dispose_run s Hs Hd) as (s' & -> & Hwell).
      split; [exact Hwell | reflexivity].
Qed.

(** *** The notifications that are refused *)

(** A frame that is attached under a parent that the manager knows, with
    an id that is taken; and the commit of a new document in a frame that
    the manager does not know. *)
Definition refused (e : Event) (s : FrameManager) : bool :=
  match e with
  | OnFrameAttached frameId parentFrameId =>
      truthy parentFrameId
      && bool_decide (is_Some (_frames s !! default "" parentFrameId))
      && bool_decide (is_Some (_frames s !! frameId))
  | OnFrameCommittedNewDocumentNavigation frameId _ _ _ _ =>
      bool_decide (_frames s !! frameId = None)
  | _ => false
  end.

(** the frames of the tree are timely, the frame objects that have left
    it are calm, and there is no other frame object *)
Definition hale (s : FrameManager) : Prop := sane s /\ settled s /\ housed s.

(** a refused notification throws and changes nothing; another one
    returns *)
Definition safe (e : Event) (s : FrameManager) : Prop :=
  if refused e s then exists error, handle e s = (Throw error, s)
  else exists s', handle e s = (Ok tt, s') /\ hale s'.

Lemma calm_detachedData d : calm (detachedData d).
Proof.
  split; [reflexivity|]. unfold isDetached, detachedData. cbn.
  apply bool_decide_eq_true. destruct (_detachedScope d); eexists; reflexivity.
Qed.

Lemma settled_without gone T s : settled s -> settled (without gone T s).
Proof.
  intros Hd. unfold settled, without. cbn. apply Forall_app. split; [exact Hd|].
  induction gone as [|d gone IH]; cbn; constructor; [apply calm_detachedData | exact IH].
Qed.

Lemma oids_keys t : map fst (keys t) = map oid (postorder t).
Proof. unfold keys. rewrite map_map. reflexivity. Qed.

(** frames leave the tree: they are among the detached, and the others
    are where they were *)
Lemma housed_without gone T s root :
  _mainFrame s = Some root ->
  (forall k, k ∈ keys root -> k ∈ keys T \/ k ∈ map key gone) ->
  housed s -> housed (without gone T s).
Proof.
  intros Hroot Hkeys Hhoused o Ho. cbn in Ho.
  change (keysOf (without gone T s)) with (Some (keys T)).
  change (detached (without gone T s)) with (detached s ++ map detachedData gone).
  cbn [default from_option id]. rewrite map_app, elem_of_app.
  destruct (Hhoused o Ho) as [Hin|Hin]; [|right; left; exact Hin].
  unfold keysOf in Hin. rewrite Hroot in Hin. cbn in Hin.
  apply list_elem_of_fmap in Hin as ([o' k] & -> & Hin). cbn [fst].
  destruct (Hkeys _ Hin) as [Hstay|Hleft].
  - left. apply list_elem_of_fmap. exists (o', k). split; [reflexivity | exact Hstay].
  - right. right. apply list_elem_of_fmap in Hleft as (d & Hd & Hleft).
    apply list_elem_of_fmap. exists (detachedData d).
    split; [|apply list_elem_of_fmap; exists d; split; [reflexivity | exact Hleft]].
    unfold key in Hd. injection Hd as -> _. reflexivity.
Qed.

Lemma timely_new o id : timely (newFrameData o id).
Proof. intros Hsome. exfalso. apply Hsome. reflexivity. Qed.

Lemma timely_detachedData d : timely (detachedData d).
Proof. intros _. reflexivity. Qed.

(** where the frames of the tree go when the frame at [this] is detached *)
Lemma keys_detached this root frame :
  lookupAt this root = Some frame ->
  forall k, k ∈ keys root ->
    k ∈ keys (detachedTree this frame root) \/ k ∈ map key (postorder frame).
Proof.
  intros Hthis k Hk. unfold detachedTree. rewrite keys_recalc.
  destruct frame as [d children].
  destruct (decide (this = [])) as [->|Hchild].
  - injection Hthis as ->. right. exact Hk.
  - destruct (exists_last Hchild) as (p & i & ->).
    set (leaf := mkFrame (detachedData d) []).
    assert (Hleaf : lookupAt (p ++ [i]) (modifyAt (p ++ [i]) (fun _ => leaf) root)
                    = Some leaf) by (rewrite lookupAt_modifyAt, Hthis; reflexivity).
    assert (Hperm : keys root
              ≡ₚ keys (removeAt (p ++ [i]) (modifyAt (p ++ [i]) (fun _ => leaf) root))
                 ++ keys (mkFrame d children)).
    { rewrite <- (app_nil_r (keys root)).
      rewrite (keys_modifyAt_perm (p ++ [i]) (fun _ => leaf) root _ []
                 (flat_map keys children) Hthis).
      + rewrite (keys_removeAt p i _ leaf Hleaf). cbn [fdata].
        rewrite <- !app_assoc. apply Permutation_app_head.
        rewrite (keys_node d children).
        unfold leaf. rewrite keys_node. cbn [flat_map app].
        rewrite key_detachedData. apply Permutation_cons_append.
      + unfold leaf. rewrite !keys_node, app_nil_r. cbn [flat_map app].
        rewrite key_detachedData. symmetry. apply Permutation_cons_append. }
    rewrite Hperm in Hk. apply elem_of_app in Hk as [Hk|Hk]; [left | right]; exact Hk.
Qed.

Lemma safe_frameDetached frameId s : hale s -> safe (OnFrameDetached frameId) s.
Proof.
  intros (Hsane & Hsettled & Hhoused). unfold safe. cbn [refused handle].
  destruct (frameById_cases s frameId)
    as [Hrun|(o & root & this & frame & Hid & Hroot & Hpath & Hthis & _ & _)].
  - exists s. unfold frameDetached. rewrite (bind_run _ _ _ _ _ Hrun).
    split; [reflexivity|]. split; [exact Hsane|]. split; assumption.
  - rewrite (frameDetached_run s frameId o root this frame Hid Hroot Hpath Hthis).
    eexists. split; [reflexivity|]. split; [|split].
    + apply (sane_intro _ (detachedTree this frame root)); [reflexivity|].
      unfold detachedTree. apply timely_recalc, every_removeAt, every_modifyAt;
        [exact (Hsane root Hroot)|].
      intros _ _. apply every_node. split; [apply timely_detachedData | constructor].
    + apply settled_without, Hsettled.
    + apply (housed_without _ _ s root Hroot); [|exact Hhoused].
      apply keys_detached, Hthis.
Qed.

(** a computation that leaves the identities alone keeps the house *)
Lemma housed_stable {A} (m : M A) s s' :
  stable m -> snd (m s) = s' ->
  map oid (detached s') = map oid (detached s) ->
  housed s -> housed s'.
Proof.
  intros Hm <- Hoids Hhoused o. destruct (Hm s) as (Hkeys & _ & Hnext).
  rewrite Hkeys, Hnext, Hoids. apply Hhoused.
Qed.

#[local] Hint Resolve stable_ret stable_throw stable_gets stable_assert stable_emit
  stable_frameAt stable_subtreeAt stable_recalculate stable_setPendingDocument
  stable__onClearLifecycle stable__fireInternalFrameNavigation stable_commitDocument
  : stable.

Lemma safe_commit frameId url name documentId initial s :
  known s -> hale s ->
  safe (OnFrameCommittedNewDocumentNavigation frameId url name documentId initial) s.
Proof.
  intros Hknown (Hsane & Hsettled & Hhoused). unfold safe. cbn [refused handle].
  unfold frameCommittedNewDocumentNavigation.
  destruct (_frames s !! frameId) as [o|] eqn:Hid.
  - rewrite bool_decide_eq_false_2 by discriminate.
    destruct (known_found s frameId o Hknown Hid)
      as (root & this & n & Hroot & _ & Hn & _ & _ & Hrun).
    rewrite (bind_run _ _ _ _ _ Hrun).
    assert (Hremoved :
      removeChildFramesRecursively this s
      = (Ok tt,
         without (flat_map postorder (_childFrames n)) (modifyAt this emptied root) s)).
    { rewrite <- (withTree_same s root Hroot) at 1.
      apply removeChildFramesRecursively_wt. exact Hn. }
    rewrite (bind_run _ _ _ _ _ Hremoved).
    set (s1 := without _ _ s).
    assert (Hroot1 : _mainFrame s1 = Some (modifyAt this emptied root)) by reflexivity.
    assert (Hn1 : is_Some (lookupAt this (modifyAt this emptied root)))
      by (rewrite lookupAt_modifyAt, Hn; eexists; reflexivity).
    assert (Hsane1 : sane s1).
    { apply (sane_intro _ _ Hroot1).
      apply every_modifyAt; [exact (Hsane root Hroot)|].
      intros [d children]. unfold emptied. cbn [fdata]. rewrite !every_node.
      intros [Hd _]. split; [exact Hd | constructor]. }
    assert (Hsettled1 : settled s1) by apply settled_without, Hsettled.
    assert (Hhoused1 : housed s1).
    { apply (housed_without _ _ s root Hroot); [|exact Hhoused].
      intros k Hk. rewrite (keys_emptied this root n Hn) in Hk.
      rewrite map_flat_map. apply elem_of_app in Hk as [Hk|Hk]; [left | right]; exact Hk. }
    lazymatch goal with
    | |- exists s', ?m s1 = _ /\ _ =>
        assert (Hrest : gentle this m) by gentle_all;
        assert (Hstable : stable m) by stable_all
    end.
    destruct (gentle_well _ this s1 _ Hrest Hroot1 Hn1 Hsane1 Hsettled1)
      as ([] & s' & Hrun' & Hsane' & Hsettled' & Hoids').
    exists s'. split; [exact Hrun'|]. split; [exact Hsane'|].
    split; [exact Hsettled'|].
    eapply (housed_stable _ s1 s' Hstable); [rewrite Hrun'; reflexivity | exact Hoids' |].
    exact Hhoused1.
  - rewrite bool_decide_eq_true_2 by reflexivity.
    assert (Hrun : frameById frameId s = (Ok None, s))
      by (unfold frameById, gets; rewrite Hid; reflexivity).
    rewrite (bind_run _ _ _ _ _ Hrun). eexists. reflexivity.
Qed.

(** a frame arrives: it is in the tree, under the next number *)
Lemma housed_arrived T s frames emits root id :
  _mainFrame s = Some root ->
  keys T ≡ₚ keys root ++ [(allocated s, id)] ->
  housed s ->
  housed (set_emitted emits
            (set_frames frames (withTree T (set_allocated (S (allocated s)) s)))).
Proof.
  intros Hroot Hkeys Hhoused o Ho. cbn in Ho.
  change (keysOf (set_emitted emits
            (set_frames frames (withTree T (set_allocated (S (allocated s)) s)))))
    with (Some (keys T)).
  cbn [default from_option Datatypes.id]. rewrite Hkeys, map_app, elem_of_app.
  destruct (decide (o = allocated s)) as [->|Hne].
  - left. right. cbn. apply list_elem_of_singleton. reflexivity.
  - destruct (Hhoused o) as [Hin|Hin]; [lia | |right; exact Hin].
    left. left. unfold keysOf in Hin. rewrite Hroot in Hin. exact Hin.
Qed.

(** [frameAttached] once the parent is looked up *)
Lemma attached_under parent frameId s root n :
  hale s ->
  _mainFrame s = Some root ->
  lookupAt parent root = Some n ->
  _frames s !! frameId = None ->
  exists s',
    (known ← gets (fun s => bool_decide (is_Some (_frames s !! frameId)));
     assert (negb known);;
     this ← newFrame frameId (Some parent);
     o ← frameAt this;
     modify (fun s => set_frames (<[frameId := oid o]> (_frames s)) s);;
     emit (FrameAttached (oid o))) s
    = (Ok tt, s')
    /\ hale s'.
Proof.
  intros (Hsane & Hsettled & Hhoused) Hroot Hn Hfree.
  rewrite (bind_run _ _ _ _ _ (gets_run _ _)). rewrite Hfree.
  rewrite bool_decide_eq_false_2 by (intros [? [=]]). cbn [negb assert].
  rewrite (bind_run _ _ _ tt _ eq_refl).
  destruct (newFrame_child frameId parent s root n Hroot Hn)
    as (T & n' & Hnew & Hkeys & Hn' & _ & Hevery).
  rewrite (bind_run _ _ _ _ _ Hnew).
  rewrite (bind_run _ _ _ _ _ (frameAt_wt _ _ _ _ Hn')).
  rewrite (bind_run _ _ _ _ _ (modify_run _ _)).
  eexists. split; [reflexivity|]. split; [|split].
  - apply (sane_intro _ T); [reflexivity|].
    apply Hevery; [exact (Hsane root Hroot) | apply timely_new|].
    apply timely_arm. reflexivity.
  - exact Hsettled.
  - exact (housed_arrived T s _ _ root frameId Hroot Hkeys Hhoused).
Qed.

(** [frameAttached] for a frame without a parent that is known *)
Lemma attached_main frameId s :
  known s -> hale s ->
  exists s',
    (mainFrame ← gets _mainFrame;
     match mainFrame with
     | Some frame =>
         modify (fun s => set_frames (delete (_id (fdata frame)) (_frames s)) s);;
         updateFrame [] (set_id frameId)
     | None =>
         known ← gets (fun s => bool_decide (is_Some (_frames s !! frameId)));
         assert (negb known);;
         newFrame frameId None;;
         mret tt
     end;;
     o ← frameAt [];
     modify (fun s => set_frames (<[frameId := oid o]> (_frames s)) s)) s
    = (Ok tt, s')
    /\ hale s'.
Proof.
  intros Hknown (Hsane & Hsettled & Hhoused).
  rewrite (bind_run _ _ _ _ _ (gets_run _ _)).
  destruct (_mainFrame s) as [[d children]|] eqn:Hroot.
  - assert (Hrenamed :
      (modify (fun s => set_frames (delete (_id d) (_frames s)) s);;
       updateFrame [] (set_id frameId)) s
      = (Ok tt, withTree (mkFrame (set_id frameId d) children)
                  (set_frames (delete (_id d) (_frames s)) s))).
    { rewrite (bind_run _ _ _ _ _ (modify_run _ _)).
      apply (updateFrame_run [] _ (mkFrame d children)). exact Hroot. }
    cbn [fdata]. rewrite (bind_run _ _ _ _ _ Hrenamed).
    rewrite (bind_run _ _ _ _ _ (frameAt_wt [] _ _ _ eq_refl)).
    eexists. split; [reflexivity|]. split; [|split].
    + apply (sane_intro _ (mkFrame (set_id frameId d) children)); [reflexivity|].
      specialize (Hsane _ Hroot). rewrite every_node in *. exact Hsane.
    + exact Hsettled.
    + intros o Ho. destruct (Hhoused o Ho) as [Hin|Hin]; [left | right; exact Hin].
      unfold keysOf in *. rewrite Hroot in Hin. cbn in *.
      rewrite !map_map, !map_app in *. exact Hin.
  - assert (Hnone : _frames s = ∅).
    { unfold known, keysOf in Hknown. rewrite Hroot in Hknown. exact Hknown. }
    destruct (newFrame_main frameId s) as (n' & Hnew & Hkeys & _ & Hevery).
    assert (Hmade :
      (known ← gets (fun s => bool_decide (is_Some (_frames s !! frameId)));
       assert (negb known);; newFrame frameId None;; mret tt) s
      = (Ok tt, withTree n' (set_allocated (S (allocated s)) s))).
    { rewrite (bind_run _ _ _ _ _ (gets_run _ _)).
      rewrite Hnone, lookup_empty.
      rewrite bool_decide_eq_false_2 by (intros [? [=]]). cbn [negb assert].
      rewrite (bind_run _ _ _ tt _ eq_refl).
      rewrite (bind_run _ _ _ _ _ Hnew). reflexivity. }
    rewrite (bind_run _ _ _ _ _ Hmade).
    rewrite (bind_run _ _ _ _ _ (frameAt_wt [] n' _ n' eq_refl)).
    eexists. split; [reflexivity|]. split; [|split].
    + apply (sane_intro _ n'); [reflexivity|].
      apply Hevery; [apply timely_new|]. apply timely_arm. reflexivity.
    + exact Hsettled.
    + intros o Ho. cbn in Ho.
      change (o ∈ map fst (keys n') \/ o ∈ map oid (detached s)).
      rewrite Hkeys. destruct (decide (o = allocated s)) as [->|Hne].
      * left. cbn. apply list_elem_of_singleton. reflexivity.
      * destruct (Hhoused o) as [Hin|Hin]; [lia | |right; exact Hin].
        unfold keysOf in Hin. rewrite Hroot in Hin. cbn in Hin.
        apply elem_of_nil in Hin. contradiction.
Qed.

Lemma safe_frameAttached frameId parentFrameId s :
  known s -> hale s -> safe (OnFrameAttached frameId parentFrameId) s.
Proof.
  intros Hknown Hhale. unfold safe. cbn [refused handle]. unfold frameAttached.
  destruct (truthy parentFrameId) eqn:Htruthy; cbn [andb].
  - destruct (_frames s !! default "" parentFrameId) as [o|] eqn:Hparent.
    + rewrite (bool_decide_eq_true_2 (is_Some (Some o))) by eauto. cbn [andb].
      destruct (known_found s _ o Hknown Hparent)
        as (root & parent & n & Hroot & _ & Hn & _ & _ & Hrun).
      rewrite (bind_run _ _ _ _ _ Hrun).
      destruct (_frames s !! frameId) as [taken|] eqn:Hid.
      * rewrite bool_decide_eq_true_2 by eauto.
        rewrite (bind_run _ _ _ _ _ (gets_run _ _)). rewrite Hid.
        rewrite bool_decide_eq_true_2 by eauto. eexists. reflexivity.
      * rewrite bool_decide_eq_false_2 by (intros [? [=]]).
        exact (attached_under parent frameId s root n Hhale Hroot Hn Hid).
    + rewrite (bool_decide_eq_false_2 (is_Some None)) by (intros [? [=]]).
      cbn [andb].
      assert (Hrun : frameById (default "" parentFrameId) s = (Ok None, s))
        by (unfold frameById, gets; rewrite Hparent; reflexivity).
      rewrite (bind_run _ _ _ _ _ Hrun).
      exact (attached_main frameId s Hknown Hhale).
  - rewrite (bind_run (mret None) _ s None s eq_refl).
    exact (attached_main frameId s Hknown Hhale).
Qed.

Lemma safe_createDummy s :
  known s -> hale s -> safe CreateDummyMainFrameIfNeeded s.
Proof.
  intros Hknown Hhale. unfold safe. cbn [refused handle].
  unfold createDummyMainFrameIfNeeded.
  rewrite (bind_run _ _ _ _ _ (gets_run _ _)).
  destruct (_mainFrame s) as [root|] eqn:Hroot.
  - exists s. split; [reflexivity | exact Hhale].
  - unfold frameAttached. cbn [truthy].
    rewrite (bind_run (mret None) _ s None s eq_refl).
    exact (attached_main kDummyFrameId s Hknown Hhale).
Qed.

(** the frame object that a notification is about has been created *)
Definition familiar (e : Event) (s : FrameManager) : Prop :=
  forall o, objectOf e = Some o -> o < allocated s.

(** a frame object that was created and is not in the tree has left it *)
Lemma familiar_lodged e s : housed s -> familiar e s -> lodged e s.
Proof.
  intros Hhoused Hfamiliar o Hobject Hplace.
  destruct (Hhoused o (Hfamiliar o Hobject)) as [Hin|Hin]; [|exact Hin].
  exfalso. unfold keysOf in Hin.
  destruct (_mainFrame s) as [root|]; cbn in Hin, Hplace;
    [|apply elem_of_nil in Hin; contradiction].
  rewrite oids_keys in Hin. apply findPath_complete in Hin.
  rewrite Hplace in Hin. destruct Hin as [this Hthis]. discriminate Hthis.
Qed.

(** One notification, from a state that is hale: the state that it leaves
    is hale; its handler throws, and changes nothing, when the
    notification is refused, and returns otherwise, provided that the
    frame object that the notification is about, if any, exists. *)
Lemma hale_handle e s :
  known s -> hale s ->
  hale (after e s)
  /\ (familiar e s ->
      if refused e s then exists error, handle e s = (Throw error, s)
      else fst (handle e s) = Ok tt).
Proof.
  intros Hknown Hhale.
  destruct (quiet e) eqn:Hquiet.
  - assert (Hplain : refused e s = false) by (destruct e; try discriminate; reflexivity).
    rewrite Hplain. destruct Hhale as (Hsane & Hsettled & Hhoused).
    destruct (quiet_handle e s Hquiet Hsane Hsettled) as ((Hs' & Hd' & Hoids) & Hok).
    split.
    + split; [exact Hs'|]. split; [exact Hd'|].
      exact (housed_stable (handle e) s (after e s) (stable_handle e Hquiet)
               eq_refl Hoids Hhoused).
    + intros Hfamiliar. apply Hok, familiar_lodged; assumption.
  - assert (Hsafe : safe e s).
    { destruct e; try discriminate.
      - exact (safe_createDummy s Hknown Hhale).
      - exact (safe_frameAttached _ _ s Hknown Hhale).
      - exact (safe_frameDetached _ s Hhale).
      - exact (safe_commit _ _ _ _ _ s Hknown Hhale). }
    unfold safe, after in *. destruct (refused e s).
    + destruct Hsafe as [error Hrun]. rewrite Hrun.
      split; [exact Hhale | intros _; exists error; reflexivity].
    + destruct Hsafe as (s' & -> & Hhale'). split; [exact Hhale' | reflexivity].
Qed.

Lemma reachable_hale s : reachable s -> hale s.
Proof.
  induction 1 as [|s e Hs IH|s Hs IH].
  - split; [apply sane_none; reflexivity|]. split; [constructor|].
    intros o Ho. cbn in Ho. lia.
  - exact (proj1 (hale_handle e s (reachable_known s Hs) IH)).
  - exact (proj1 (hale_handle Dispose s (reachable_known s Hs) IH)).
Qed.

(** X26.  The handlers throw on two notifications only.  At every state that
    the manager reaches, the handler of a notification about a frame
    object that exists, in the tree or out of it, or about no frame
    object, returns, unless the notification attaches a frame under a
    parent that is known with an id that is taken, or commits a new
    document in a frame that is not known: on these two the handler
    throws and changes nothing.  So no other assertion fails: the one of
    [_startNetworkIdleTimer], that no timer is set, holds whenever the
    timer is started, since at every state a frame of the tree with a
    request in flight has no timer, and a frame object that has left the
    tree has none, nor gets one, its scope being closed. *)
Theorem handlers_throw_on_two_notifications_only s e :
  reachable s ->
  (forall o, objectOf e = Some o -> o < allocated s) ->
  (if refused e s then exists error, handle e s = (Throw error, s)
   else fst (handle e s) = Ok tt)
  /\ (forall root d,
        _mainFrame s = Some root -> d ∈ postorder root ->
        _inflightRequests d <> [] -> _networkIdleTimer d = NoTimer)
  /\ (forall d, d ∈ detached s ->
        _networkIdleTimer d = NoTimer /\ isDetached d = true).
Proof.
  intros Hs Hfamiliar. pose proof (reachable_hale s Hs) as Hhale.
  split; [|split].
  - exact (proj2 (hale_handle e s (reachable_known s Hs) Hhale) Hfamiliar).
  - destruct Hhale as (Hsane & _ & _). intros root d Hroot Hd.
    specialize (Hsane root Hroot).
    unfold every in Hsane. rewrite Forall_forall in Hsane. exact (Hsane d Hd).
  - destruct Hhale as (_ & Hsettled & _). intros d Hd.
    unfold settled in Hsettled. rewrite Forall_forall in Hsettled.
    exact (Hsettled d Hd).
Qed.

End SafetyFacts.

Module SafetyRuns.
Import Errors Types Frames Samples CommitFacts SafetyFacts.

(** a request of the frame [c] for an image *)
Definition requestForImage : Request := mkRequest 8 None false 1.

(** the frame [c] is detached while its request is in flight *)
Definition parted : FrameManager :=
  Eval vm_compute in
    run (familyEvents ++ [OnRequestStarted requestForImage; OnFrameDetached "c"]).

(** the request finishes on the frame object that has left the tree: no
    timer is set, and the handler returns *)
Example late_request_finishes :
  handle (OnRequestFinished requestForImage) parted
  = (Ok tt,
     set_detached
       (map (fun d => if bool_decide (oid d = 1) then set_inflightRequests [] d else d)
            (detached parted))
       parted).
Proof. vm_compute. reflexivity. Qed.

(** a second frame that claims the id [c] is refused; the request of
    the frame [c] that finishes after the frame was detached is not *)
Lemma handlers_throw_on_two_notifications_only_witness :
  reachable family
  /\ refused (OnFrameAttached "c" (Some "m")) family = true
  /\ (exists error,
        handle (OnFrameAttached "c" (Some "m")) family = (Throw error, family))
  /\ reachable parted
  /\ objectOf (OnRequestFinished requestForImage) = Some 1
  /\ 1 < allocated parted
  /\ refused (OnRequestFinished requestForImage) parted = false
  /\ fst (handle (OnRequestFinished requestForImage) parted) = Ok tt.
Proof.
  assert (Hrun : run familyEvents = family) by (vm_compute; reflexivity).
  assert (Hs : reachable family).
  { rewrite <- Hrun. apply reachable_from. constructor. }
  assert (Hrun' :
    run (familyEvents ++ [OnRequestStarted requestForImage; OnFrameDetached "c"])
    = parted) by (vm_compute; reflexivity).
  assert (Hs' : reachable parted).
  { rewrite <- Hrun'. apply reachable_from. constructor. }
  assert (Htaken : refused (OnFrameAttached "c" (Some "m")) family = true)
    by (vm_compute; reflexivity).
  assert (Hnone : forall o, objectOf (OnFrameAttached "c" (Some "m")) = Some o ->
                            o < allocated family) by (intros o; discriminate).
  assert (Hone : forall o, objectOf (OnRequestFinished requestForImage) = Some o ->
                           o < allocated parted).
  { intros o [= <-]. vm_compute. lia. }
  pose proof (proj1 (handlers_throw_on_two_notifications_only family
                       (OnFrameAttached "c" (Some "m")) Hs Hnone)) as Hthrown.
  pose proof (proj1 (handlers_throw_on_two_notifications_only parted
                       (OnRequestFinished requestForImage) Hs' Hone)) as Hreturned.
  split; [exact Hs|]. split; [exact Htaken|]. split; [exact Hthrown|].
  split; [exact Hs'|]. split; [reflexivity|]. split; [vm_compute; lia|].
  split; [reflexivity | exact Hreturned].
Defined.

End SafetyRuns.
